(* ===== verification/_CoqProject ===== *)
-Q . S2P
Prelude.v
PyStr.v
PyRandom.v
PyFloat.v
PyFloatInt.v
PyDict.v
Malloc.v
Ssd.v
Vsfs.v
Lfs.v
Raid.v
Mlfq.v
Lottery.v
Multi.v
Disk.v
DiskFacts.v
Afs.v
Belady.v
Paging.v
Translate.v
MultiLevel.v
Ffs.v
FfsCreate.v
FfsDelete.v
FfsRuns.v
FfsTheorems.v
X86.v
X86Locks.v
