(* ===== verification/Prelude.v ===== *)
(** * The OSTEP simulators

    Executable models of the Python simulators under
    [src/ostep/homework/], with the theorems that make them correct.  The
    repository is a collection of experiments; these scripts, the homework of
    "Operating Systems: Three Easy Pieces", are its Python programs, and each
    of them is a program of its own.  A part below is one script: a state, the
    operations of its classes, and the main program that drives them.

    ** Files

    Shared:
    - this file: exceptions, the outside world (the text printed and the
      random generator), the state-and-exception monad [M] in which all
      programs are written, its loops, Python's lists and indices, the
      weakest preconditions [wp] with their tactic [wp_pures], record update,
      sums, and three properties that walk through code: [keeps] (two-state
      relations), [preserves] (invariants) and [prints] (no effect but
      output);
    - [PyStr]: strings, [int], [str], formats; [PyRandom]: the draws of
      [random.random()] with the rounding of the products the scripts take
      [int] of; [PyFloat]: doubles, their division and printing;
      [PyFloatInt]: the integers among them, on which arithmetic is exact;
      [PyDict]: dicts that remember insertion order.

    The parts, each independent of the others:
    - [Malloc] - [vm-freespace/malloc.py]: the free list under three search
      policies and five orders, coalescing, and both drivers (C1-C3: [malloc]
      and [free] are correct, the chunks always partition the heap and all
      memory is reclaimed).
    - [Ssd] - [file-ssd/ssd.py]: the flash device, the translation layer and
      the garbage collector (C4, C5: every kind of drive refines the logical
      disk [spec]; C6: collection).
    - [Vsfs] - [file-implementation/vsfs.py]: bitmaps, inodes, directories and
      links (C7, C8: requests keep the file system consistent and do what
      their POSIX namesakes do).
    - [Lfs] - [file-lfs/lfs.py]: the log-structured file system (C9, C10: the
      log and recovery from it; C11-C13: the operations).
    - [Raid] - [file-raid/raid.py]: RAID 0, 1, 4, 5 over timed disks (C14-C16:
      parity, the block maps, mirroring).
    - [Mlfq] - [cpu-sched-mlfq/mlfq.py]: the scheduler (C17, C18: it terminates,
      its invariant with the choice of the job).
    - [Lottery] - [cpu-sched-lottery/lottery.py] (C19, C20: the draw is fair,
      every job finishes).
    - [X86] - [threads-locks/x86.py]: the loader, the instructions and the
      switching of threads (C21); [X86Locks] - [threads-locks/test-and-set.s]:
      a lock run on this simulator (C22).
    - [Afs] - [dist-afs/afs.py]: the file server, the caches and callbacks
      (C23: a run is an interleaving under session semantics; C24: it
      terminates; C25, C26: the workloads).
    - [Paging] - [vm-beyondphys-policy/paging-policy.py]: page replacement
      (C27: every policy follows its abstract one and terminates; C28: OPT is
      optimal; C29: LRU has no anomaly; C30: errors), on [Belady], the
      machine that loads pages on demand and the exchange argument, which
      models no code.
    - [Ffs] - [file-ffs/ffs.py]: the whole program, with bitmaps and the
      allocation of inodes and blocks by group; [FfsCreate] and [FfsDelete]:
      what the operations do; [FfsRuns]: initialisation, the dumps and the main
      program; [FfsTheorems]: C31 (creation), C32 (whole workloads raise
      nothing), C33 (deletion, correct where the parameters of the geometry
      are equal; an example shows the default ones, where it is not).
    - [Multi] - [cpu-sched-multi/multi.py]: schedulers for several CPUs with
      one queue or one per CPU, and a cache per CPU (C34: every job finishes
      unless a thief errs; C35: no job is lost or runs twice at once; C36: what
      a cache holds fits).
    - [Disk] - [file-disks/disk.py]: the layout of zones and blocks, the
      policies and the movement of arm and platter; [DiskFacts]: C39 (every
      request is served once, within a bound).
    - [Translate] - the address translation of [vm-mechanism/relocation.py],
      [vm-segmentation/segmentation.py] (C37: the segments lie apart, no two
      addresses share a place) and [vm-paging/paging-linear-translate.py]
      (C38: the table maps valid pages to distinct frames).
    - [MultiLevel] - [vm-smalltables/paging-multilevel-translate.py]: page
      directory, page tables and pages in a simulated memory (C40: the memory
      holds a table of exactly the pages drawn, through which every address is
      translated or faults).

    ** How the code is read

    A definition is one function or method, or a stretch of a main program,
    under its name; the fields of a record are the attributes of the class or
    the variables of the script, and [self.f = v] is [f <~ v].  A dict is a
    [gmap], or an [odict] where its order shows; a list is a list, and an
    index out of range raises as in Python.  Integers are [Z], since Python's
    do not overflow.  [assert], failed lookups and conversions, division by
    zero and [exit] are values of [exn], and an exception keeps the state and
    the output reached; theorems about correct runs say that none escapes
    ([noexn]) or which may.  Options are arguments of the definitions.

    ** Random numbers

    The generator is a stream of 53-bit numerators in the world.  A theorem
    holds for every stream ([rng_ok] says only that draws lie in the unit
    interval), so for every seed.  Only where a script draws until something
    fits does a theorem ask more of the stream: [spread], that every value
    comes up within a number of draws, which [counting] streams show.  The
    fuel of such a loop is that number.

    ** Fuel

    A [while] takes fuel and running out of it is an outcome of its own, which
    [wp] excludes.  The theorems that a loop ends bound the fuel by what the
    input determines: the garbage collector's by the number of blocks and
    pages, MLFQ's by the work, the waiting and the boosts left, the lottery's
    by the list of drawn numbers, AFS's by the actions times the length of the
    schedule, CLOCK's by the references counted, that of
    FFS's allocation by the square of the number of blocks, [multi.py]'s by
    the work left, the disk's by two revolutions and the seek for a request.
    C22 is partial ([wlp]): a schedule may let one thread spin for ever; so is
    C23, for a schedule may leave a client out, and C24 says when it ends.

    ** Not modelled

    Option parsing, banners that only repeat the options (but that of
    [paging-policy.py], which C30 speaks of), and debugging output that a
    constant turns off; reading a file is a list of its lines.  Time
    enters only where a script computes it.  [raid-graphics.py] draws on a
    Tk window that drives it by its timer, and so does [disk.py] under [-G],
    which is left out; [disk-precise.py] is an experimental variant of it on
    decimal numbers.  The [ebpf] scripts only call [bcc].  Single-CPU
    scheduling, [fork.py], [generator.py], [process-run.py], [checksum.py],
    [fsck.py] and the older [threads-intro/x86.py] are not modelled.  The C,
    Rust, assembly, HDL and Jack code of the repository is not Python and
    outside this development. *)
From Stdlib Require Export ZArith Lia Sorted.
From stdpp Require Export base option list_numbers gmap sets strings numbers sorting list.
Open Scope Z_scope.

(** ** Exceptions, the outside world, results *)

(** The exceptions the modelled programs can raise.  [SystemExit c] is
    [exit(c)], which the programs call on a fatal error. *)
Inductive exn :=
| AssertionError
| IndexError
| KeyError
| ValueError
| TypeError
| NameError
| ZeroDivisionError
| AttributeError
| SyntaxError
| SystemExit (code : Z).

#[export] Instance exn_eq_dec : EqDecision exn.
Proof. solve_decision. Defined.

(** What a program shares with its environment: the text it has printed,
    newest chunk first, and the generator behind [random.random()]: the
    [n]-th draw is the double [rng n / 2^53]. *)
Record world := World {
  stdout : list string;
  rng : nat → Z;
  rpos : nat;
}.

Definition emit (x : string) (w : world) : world := World (x :: stdout w) (rng w) (rpos w).
Definition drawn (w : world) : world := World (stdout w) (rng w) (1 + rpos w)%nat.

(** A run of a piece of code: it finishes with a value, raises, or is cut
    off because the fuel of a [while] ran out. *)
Inductive res (S A : Type) :=
| Ok (a : A) (s : S) (w : world)
| Raise (e : exn) (s : S) (w : world)
| OutOfFuel.
Arguments Ok {S A} a s w.
Arguments Raise {S A} e s w.
Arguments OutOfFuel {S A}.

(** Code over an object state [S]. *)
Definition M (S A : Type) : Type := S → world → res S A.

#[export] Instance M_ret S : MRet (M S) := λ A a s w, Ok a s w.
#[export] Instance M_bind S : MBind (M S) := λ A B f m s w,
  match m s w with
  | Ok a s' w' => f a s' w'
  | Raise e s' w' => Raise e s' w'
  | OutOfFuel => OutOfFuel
  end.

Section Operations.
Context {St : Type}.

Definition get : M St St := λ s w, Ok s s w.
Definition gets {A} (f : St → A) : M St A := λ s w, Ok (f s) s w.
Definition put (s : St) : M St unit := λ _ w, Ok tt s w.
Definition modify (f : St → St) : M St unit := λ s w, Ok tt (f s) w.
Definition raise {A} (e : exn) : M St A := λ s w, Raise e s w.
Definition diverge {A} : M St A := λ s w, OutOfFuel.

(** [assert(c)] *)
Definition passert (c : bool) : M St unit :=
  if c then mret tt else raise AssertionError.

(** [print(x, end='')] *)
Definition put_str (x : string) : M St unit :=
  λ s w, Ok tt s (emit x w).

(** [random.random()], as the numerator of the draw over [2^53] *)
Definition random : M St Z :=
  λ s w, Ok (rng w (rpos w)) s (drawn w).

(** An optional value whose absence is the exception [e]. *)
Definition of_option {A} (e : exn) (o : option A) : M St A :=
  match o with Some a => mret a | None => raise e end.

Definition when (c : bool) (m : M St unit) : M St unit :=
  if c then m else mret tt.

(** ** Loops *)

(** [for x in l: body(x)] *)
Fixpoint for_ {A} (l : list A) (body : A → M St unit) : M St unit :=
  match l with
  | [] => mret tt
  | x :: l => body x ≫= λ _, for_ l body
  end.

(** A [for] whose body updates the local variables [b]. *)
Fixpoint for_acc {A B} (l : list A) (b : B) (body : B → A → M St B) : M St B :=
  match l with
  | [] => mret b
  | x :: l => body b x ≫= λ b, for_acc l b body
  end.

(** A [for] whose body may leave the loop ([break], [return]): the body
    returns [inl] of the locals to go on and [inr] to leave. *)
Fixpoint for_ret {A B R} (l : list A) (b : B) (body : B → A → M St (B + R)) : M St (B + R) :=
  match l with
  | [] => mret (inl b)
  | x :: l => body b x ≫= λ r, match r with
                               | inl b => for_ret l b body
                               | inr r => mret (inr r)
                               end
  end.

(** A [while] with at most [fuel] iterations. *)
Fixpoint while_ {B R} (fuel : nat) (b : B) (body : B → M St (B + R)) : M St R :=
  match fuel with
  | O => diverge
  | S fuel => body b ≫= λ r, match r with
                             | inl b => while_ fuel b body
                             | inr r => mret r
                             end
  end.
End Operations.

(** ** Python lists, ranges and integer division *)

(** [range(a, b)] *)
Definition range (a b : Z) : list Z := seqZ a (b - a).

(** [l[i]]: a negative index counts from the end. *)
Definition py_index {A} (l : list A) (i : Z) : option nat :=
  let n := Z.of_nat (length l) in
  if (0 <=? i) && (i <? n) then Some (Z.to_nat i)
  else if (- n <=? i) && (i <? 0) then Some (Z.to_nat (n + i))
  else None.

Definition list_get {S A} (l : list A) (i : Z) : M S A :=
  of_option IndexError (py_index l i ≫= λ k, l !! k).

(** [l[i] = x] *)
Definition list_set {S A} (l : list A) (i : Z) (x : A) : M S (list A) :=
  of_option IndexError ((λ k, <[k := x]> l) <$> py_index l i).

(** [l.remove(x)] *)
Fixpoint remove1 {A} `{!EqDecision A} (x : A) (l : list A) : option (list A) :=
  match l with
  | [] => None
  | y :: l => if decide (y = x) then Some l else cons y <$> remove1 x l
  end.
Definition py_remove {S A} `{!EqDecision A} (x : A) (l : list A) : M S (list A) := of_option ValueError (remove1 x l).

(** [l.pop(i)], which also returns the removed element *)
Definition list_pop {S A} (l : list A) (i : Z) : M S (A * list A) :=
  of_option IndexError
    (k ← py_index l i; x ← l !! k; Some (x, delete k l)).

(** [len(l)] *)
Definition len {A} (l : list A) : Z := Z.of_nat (length l).

(** [d[k]] on a dict *)
Definition dict_get {S A} `{Countable K} (d : gmap K A) (k : K) : M S A :=
  of_option KeyError (d !! k).

(** [int(a / b)] on integers below [2^53]: the true division rounds towards
    the exact quotient and [int] truncates it. *)
Definition int_div (a b : Z) : Z := Z.quot a b.

(** ** Weakest preconditions

    [wp m Q E s w]: run from [s] and [w], [m] returns with [Q] or raises
    with [E]; it never runs out of fuel. *)
Definition wp {S A} (m : M S A) (Q : A → S → world → Prop)
    (E : exn → S → world → Prop) (s : S) (w : world) : Prop :=
  match m s w with
  | Ok a s' w' => Q a s' w'
  | Raise e s' w' => E e s' w'
  | OutOfFuel => False
  end.
Arguments wp : simpl never.

(** No exception escapes. *)
Definition noexn {S} : exn → S → world → Prop := λ _ _ _, False.

Section WpRules.
Context {S : Type}.
Implicit Types (s : S) (w : world) (E : exn → S → world → Prop).

Lemma wp_bind {A B} (m : M S A) (f : A → M S B) Q E s w :
  wp (m ≫= f) Q E s w = wp m (λ a s w, wp (f a) Q E s w) E s w.
Proof. unfold wp, mbind, M_bind. by destruct (m s w). Qed.

Lemma wp_unbind {A B} (m : M S A) (f : A → M S B) Q E s w :
  wp (m ≫= f) Q E s w → wp m (λ a s w, wp (f a) Q E s w) E s w.
Proof. by rewrite wp_bind. Qed.

Lemma wp_ret {A} (a : A) Q E s w : wp (mret a) Q E s w = Q a s w.
Proof. done. Qed.

Lemma wp_get Q E s w : wp get Q E s w = Q s s w.
Proof. done. Qed.

Lemma wp_gets {A} (f : S → A) Q E s w : wp (gets f) Q E s w = Q (f s) s w.
Proof. done. Qed.

Lemma wp_put s' Q E s w : wp (put s') Q E s w = Q tt s' w.
Proof. done. Qed.

Lemma wp_modify f Q E s w : wp (modify f) Q E s w = Q tt (f s) w.
Proof. done. Qed.

Lemma wp_raise {A} e (Q : A → S → world → Prop) E s w :
  wp (raise e) Q E s w = E e s w.
Proof. done. Qed.

Lemma wp_passert c Q E s w :
  wp (passert c) Q E s w = if c then Q tt s w else E AssertionError s w.
Proof. by destruct c. Qed.

Lemma wp_when c m Q E s w :
  wp (when c m) Q E s w = if c then wp m Q E s w else Q tt s w.
Proof. by destruct c. Qed.

Lemma wp_put_str x Q E s w :
  wp (put_str x) Q E s w = Q tt s (emit x w).
Proof. done. Qed.

Lemma wp_random Q E s w :
  wp random Q E s w = Q (rng w (rpos w)) s (drawn w).
Proof. done. Qed.

Lemma wp_of_option {A} e (o : option A) Q E s w :
  wp (of_option e o) Q E s w =
  match o with Some a => Q a s w | None => E e s w end.
Proof. by destruct o. Qed.

Lemma wp_mono {A} (m : M S A) (Q Q' : A → S → world → Prop) E E' s w :
  wp m Q E s w →
  (∀ a s w, Q a s w → Q' a s w) → (∀ e s w, E e s w → E' e s w) →
  wp m Q' E' s w.
Proof. unfold wp. destruct (m s w); eauto. Qed.

Lemma wp_conseq {A} (m : M S A) (Q Q' : A → S → world → Prop) E s w :
  wp m Q E s w → (∀ a s w, Q a s w → Q' a s w) → wp m Q' E s w.
Proof. eauto using wp_mono. Qed.

Lemma wp_and {A} (m : M S A) (Q Q' : A → S → world → Prop) s w :
  wp m Q noexn s w → wp m Q' noexn s w →
  wp m (λ a s w, Q a s w ∧ Q' a s w) noexn s w.
Proof. unfold wp. destruct (m s w); eauto. Qed.

(** *** Loops: the invariant speaks of the elements already seen. *)

Lemma wp_for_acc {A B} (I : list A → B → S → world → Prop) (l : list A) b
    (body : B → A → M S B) Q E s w :
  I [] b s w →
  (∀ pre x post b s w, l = pre ++ x :: post → I pre b s w →
     wp (body b x) (λ b s w, I (pre ++ [x]) b s w) E s w) →
  (∀ b s w, I l b s w → Q b s w) →
  wp (for_acc l b body) Q E s w.
Proof.
  intros HI Hbody HQ.
  assert (∀ post pre b s w, l = pre ++ post → I pre b s w →
    wp (for_acc post b body) Q E s w) as Hgen.
  { induction post as [|x post IH]; intros pre b' s' w' Hl HI'; simpl.
    - rewrite wp_ret. apply HQ. rewrite app_nil_r in Hl. by subst.
    - rewrite wp_bind. eapply wp_conseq; [by eapply Hbody|].
      intros. eapply (IH (pre ++ [x])); [|done]. by rewrite <-app_assoc. }
  by eapply (Hgen l []).
Qed.

Lemma wp_for {A} (I : list A → S → world → Prop) (l : list A)
    (body : A → M S unit) Q E s w :
  I [] s w →
  (∀ pre x post s w, l = pre ++ x :: post → I pre s w →
     wp (body x) (λ _ s w, I (pre ++ [x]) s w) E s w) →
  (∀ s w, I l s w → Q tt s w) →
  wp (for_ l body) Q E s w.
Proof.
  intros HI Hbody HQ.
  assert (∀ post pre s w, l = pre ++ post → I pre s w →
    wp (for_ post body) Q E s w) as Hgen.
  { induction post as [|x post IH]; intros pre s' w' Hl HI'; simpl.
    - rewrite wp_ret. apply HQ. rewrite app_nil_r in Hl. by subst.
    - rewrite wp_bind. eapply wp_conseq; [by eapply Hbody|].
      intros. eapply (IH (pre ++ [x])); [|done]. by rewrite <-app_assoc. }
  by eapply (Hgen l []).
Qed.

Lemma wp_for_ret {A B R} (I : list A → B → S → world → Prop) (l : list A) b
    (body : B → A → M S (B + R)) Q E s w :
  I [] b s w →
  (∀ pre x post b s w, l = pre ++ x :: post → I pre b s w →
     wp (body b x) (λ r s w, match r with
                             | inl b => I (pre ++ [x]) b s w
                             | inr r => Q (inr r) s w
                             end) E s w) →
  (∀ b s w, I l b s w → Q (inl b) s w) →
  wp (for_ret l b body) Q E s w.
Proof.
  intros HI Hbody HQ.
  assert (∀ post pre b s w, l = pre ++ post → I pre b s w →
    wp (for_ret post b body) Q E s w) as Hgen.
  { induction post as [|x post IH]; intros pre b' s' w' Hl HI'; simpl.
    - rewrite wp_ret. apply HQ. rewrite app_nil_r in Hl. by subst.
    - rewrite wp_bind. eapply wp_conseq; [by eapply Hbody|].
      intros [b''|r] s'' w'' HI''; [|done].
      eapply (IH (pre ++ [x])); [|done]. by rewrite <-app_assoc. }
  by eapply (Hgen l []).
Qed.

(** A [while] with a measure that each iteration decreases terminates
    within that much fuel. *)
Lemma wp_while {B R} (I : B → S → world → Prop) (measure : B → S → world → nat)
    (body : B → M S (B + R)) Q E fuel b s w :
  I b s w → (measure b s w < fuel)%nat →
  (∀ b s w, I b s w →
     wp (body b) (λ r s' w', match r with
       | inl b' => I b' s' w' ∧ (measure b' s' w' < measure b s w)%nat
       | inr r => Q r s' w'
       end) E s w) →
  wp (while_ fuel b body) Q E s w.
Proof.
  intros HI Hm Hbody. revert b s w HI Hm.
  induction fuel as [|fuel IH]; intros b s w HI Hm; [lia|]. simpl.
  rewrite wp_bind. eapply wp_conseq; [by apply Hbody|].
  intros [b'|r] s' w' H; [|done]. destruct H. apply IH; [done|lia].
Qed.

(** The same with a bound that the invariant carries, for loops whose measure
    the state does not show *)
Lemma wp_while_bound {B R} (I : nat → B → S → world → Prop) (body : B → M S (B + R)) Q E fuel m b s w :
  I m b s w → (m < fuel)%nat →
  (∀ m b s w, I m b s w → wp (body b) (λ r s' w', match r with
     | inl b' => ∃ m', (m' < m)%nat ∧ I m' b' s' w'
     | inr r => Q r s' w'
     end) E s w) →
  wp (while_ fuel b body) Q E s w.
Proof.
  intros HI Hm Hbody. revert m b s w HI Hm.
  induction fuel as [|fuel IH]; intros m b s w HI Hm; [lia|]. simpl.
  rewrite wp_bind. eapply wp_conseq; [by apply Hbody|].
  intros [b'|r] s' w' H; [|done]. destruct H as (m' & Hm' & HI'). apply (IH m'); [done|lia].
Qed.
End WpRules.

(** [wlp m Q E s w]: as [wp], but [m] may run out of fuel. *)
Definition wlp {S A} (m : M S A) (Q : A → S → world → Prop)
    (E : exn → S → world → Prop) (s : S) (w : world) : Prop :=
  match m s w with
  | Ok a s' w' => Q a s' w'
  | Raise e s' w' => E e s' w'
  | OutOfFuel => True
  end.
Arguments wlp : simpl never.

Lemma wp_wlp {S A} (m : M S A) Q E s w : wp m Q E s w → wlp m Q E s w.
Proof. unfold wp, wlp. by destruct (m s w). Qed.

Lemma wlp_bind {S A B} (m : M S A) (f : A → M S B) Q E s w :
  wp m (λ a s w, wlp (f a) Q E s w) E s w → wlp (m ≫= f) Q E s w.
Proof. unfold wp, wlp, mbind, M_bind. by destruct (m s w). Qed.

(** A [while] with an invariant, whether it ends or not *)
Lemma wlp_while {S B R} (I : B → S → world → Prop) (body : B → M S (B + R)) Q E fuel b (s : S) w :
  I b s w →
  (∀ b s w, I b s w → wp (body b) (λ r s' w', match r with inl b' => I b' s' w' | inr r => Q r s' w' end) E s w) →
  wlp (while_ fuel b body) Q E s w.
Proof.
  intros HI Hbody. revert b s w HI. induction fuel as [|fuel IH]; intros b s w HI; [done|]. simpl.
  apply wlp_bind. eapply wp_conseq; [by apply Hbody|]. intros [b'|r] s' w' H; [by apply IH|done].
Qed.

(** A returning run read off a [wp] without exceptions. *)
Lemma wp_noexn_ok {S A} (m : M S A) Q s w :
  wp m Q noexn s w → ∃ a s' w', m s w = Ok a s' w' ∧ Q a s' w'.
Proof. unfold wp, noexn. destruct (m s w); naive_solver. Qed.

(** Taking apart a run that returned *)
Lemma bind_Ok {S A B} (m : M S A) (f : A → M S B) s w b s' w' :
  (m ≫= f) s w = Ok b s' w' → ∃ a s1 w1, m s w = Ok a s1 w1 ∧ f a s1 w1 = Ok b s' w'.
Proof. unfold mbind, M_bind. destruct (m s w); naive_solver. Qed.

Lemma wp_dict_get {S A} `{Countable K} (d : gmap K A) k (Q : A → S → world → Prop) E s w :
  wp (dict_get d k) Q E s w =
  match d !! k with Some a => Q a s w | None => E KeyError s w end.
Proof. apply wp_of_option. Qed.

Lemma wp_list_get {S A} (l : list A) i (Q : A → S → world → Prop) E s w :
  wp (list_get l i) Q E s w =
  match py_index l i ≫= λ k, l !! k with Some a => Q a s w | None => E IndexError s w end.
Proof. apply wp_of_option. Qed.

Lemma wp_list_set {S A} (l : list A) i x (Q : list A → S → world → Prop) E s w :
  wp (list_set l i x) Q E s w =
  match (λ k, <[k := x]> l) <$> py_index l i with
  | Some a => Q a s w | None => E IndexError s w end.
Proof. apply wp_of_option. Qed.

Lemma wp_list_pop {S A} (l : list A) i (Q : A * list A → S → world → Prop) E s w :
  wp (list_pop l i) Q E s w =
  match (k ← py_index l i; x ← l !! k; Some (x, delete k l)) with
  | Some a => Q a s w | None => E IndexError s w end.
Proof. apply wp_of_option. Qed.

Lemma wp_ok {S A} (m : M S A) Q s w a s' w' :
  wp m Q noexn s w → m s w = Ok a s' w' → Q a s' w'.
Proof. unfold wp. intros H Hm. by rewrite Hm in H. Qed.

(** The rewriting rules that step through straight-line code. *)
Create Rewrite HintDb wp.
#[export] Hint Rewrite @wp_bind @wp_ret @wp_get @wp_gets @wp_put @wp_modify @wp_raise
  @wp_passert @wp_when @wp_put_str @wp_random @wp_of_option @wp_dict_get
  @wp_list_get @wp_list_set @wp_list_pop : wp.

Ltac wp_pures := repeat (progress (autorewrite with wp; cbn beta iota zeta delta [fst snd])).

(** Case analysis on the test of the leading [if] or [match]. *)
Ltac wp_case := case_match; simplify_eq; wp_pures.

(** ** Ranges and indices *)

Lemma py_index_nonneg {A} (l : list A) i :
  0 ≤ i < len l → py_index l i = Some (Z.to_nat i).
Proof.
  unfold py_index, len. intros [H1 H2].
  apply Z.leb_le in H1. apply Z.ltb_lt in H2. by rewrite H1, H2.
Qed.

(** An index that is a natural number *)
Lemma py_index_nat {A} (l : list A) (i : nat) :
  py_index l (Z.of_nat i) = if decide (i < length l)%nat then Some i else None.
Proof.
  unfold py_index. case_decide.
  - destruct (Z.leb_spec 0 (Z.of_nat i)); [|lia].
    destruct (Z.ltb_spec (Z.of_nat i) (Z.of_nat (length l))); [|lia]. simpl. by rewrite Nat2Z.id.
  - destruct (Z.ltb_spec (Z.of_nat i) (Z.of_nat (length l))); [lia|]. rewrite andb_false_r.
    destruct (Z.ltb_spec (Z.of_nat i) 0); [lia|]. by rewrite andb_false_r.
Qed.

Lemma py_get_nat {A} (l : list A) (i : nat) : (py_index l (Z.of_nat i) ≫= λ k, l !! k) = l !! i.
Proof.
  rewrite py_index_nat. case_decide; [done|]. simpl. symmetry. apply lookup_ge_None. lia.
Qed.

Lemma py_set_nat {A} (l : list A) (i : nat) (x : A) :
  (i < length l)%nat → (λ k, <[k := x]> l) <$> py_index l (Z.of_nat i) = Some (<[i := x]> l).
Proof. intros. by rewrite py_index_nat, decide_True by done. Qed.

(** Reading a position that is known *)
Lemma list_get_nat {S A} (l : list A) (i : nat) x :
  l !! i = Some x → list_get (S:=S) l (Z.of_nat i) = mret x.
Proof.
  intros Hx. unfold list_get. pose proof (lookup_lt_Some _ _ _ Hx).
  rewrite py_index_nonneg by (unfold len; lia). simpl. by rewrite Nat2Z.id, Hx.
Qed.

Lemma py_index_Some {A} (l : list A) i k :
  py_index l i = Some k → (k < length l)%nat.
Proof. unfold py_index. intros. repeat case_match; simplify_eq; lia. Qed.

Lemma elem_of_range a b x : x ∈ range a b ↔ a ≤ x < b.
Proof. unfold range. rewrite elem_of_seqZ. lia. Qed.

Lemma length_range a b : length (range a b) = Z.to_nat (b - a).
Proof. apply length_seqZ. Qed.

Lemma lookup_range a b i : (Z.of_nat i < b - a) → range a b !! i = Some (a + Z.of_nat i).
Proof. intros. unfold range. apply lookup_seqZ. lia. Qed.

Lemma range_nil a b : b ≤ a → range a b = [].
Proof. intros. apply seqZ_nil. lia. Qed.

Lemma range_cons a b : a < b → range a b = a :: range (a + 1) b.
Proof.
  intros. unfold range. rewrite seqZ_cons by lia. f_equal. f_equal; lia.
Qed.

Lemma NoDup_range a b : NoDup (range a b).
Proof. apply NoDup_seqZ. Qed.

Lemma remove1_perm {A} `{!EqDecision A} (x : A) l : x ∈ l → ∃ l', remove1 x l = Some l' ∧ l ≡ₚ x :: l'.
Proof.
  induction l as [|y l IH]; [by intros []%elem_of_nil|]. simpl. case_decide as Hy; [subst; by eauto|].
  intros [->|Hx]%elem_of_cons; [done|]. destruct (IH Hx) as (l' & -> & Hp). simpl. eexists. split; [done|]. rewrite Hp. constructor.
Qed.

(** The prefix of a range before [x] is the range up to [x]. *)
Lemma range_split a b pre x post :
  range a b = pre ++ x :: post → pre = range a x ∧ post = range (x + 1) b ∧ a ≤ x < b.
Proof.
  revert a. induction pre as [|y pre IH]; intros a Hr; simpl in Hr.
  - destruct (decide (a < b)).
    + rewrite range_cons in Hr by lia. simplify_eq. rewrite !range_nil by lia. split_and!; [done..|lia|lia].
    + rewrite range_nil in Hr by lia. done.
  - destruct (decide (a < b)).
    + rewrite range_cons in Hr by lia. simplify_eq.
      destruct (IH (y + 1)) as (-> & -> & ?); [done|].
      rewrite (range_cons y x) by lia. split_and!; [done..|lia|lia].
    + rewrite range_nil in Hr by lia. done.
Qed.

Lemma range_snoc a b : a ≤ b → range a (b + 1) = range a b ++ [b].
Proof.
  intros. unfold range. replace (b + 1 - a) with ((b - a) + 1) by lia.
  rewrite seqZ_app by lia. f_equal.
  rewrite seqZ_cons by lia. rewrite seqZ_nil by lia. f_equal. lia.
Qed.

(** ** Components

    [zoom g f m]: run [m], code over a component, on the component of the
    state that [g] reads and [f] writes back. *)
Definition zoom {S T A} (g : S → T) (f : T → S → S) (m : M T A) : M S A := λ s w,
  match m (g s) w with
  | Ok a t w' => Ok a (f t s) w'
  | Raise e t w' => Raise e (f t s) w'
  | OutOfFuel => OutOfFuel
  end.

Lemma wp_zoom {S T A} (g : S → T) f (m : M T A) (Q : A → S → world → Prop) E s w :
  wp (zoom g f m) Q E s w =
  wp m (λ a t w, Q a (f t s) w) (λ e t w, E e (f t s) w) (g s) w.
Proof. unfold wp, zoom. by destruct (m (g s) w). Qed.
#[export] Hint Rewrite @wp_zoom : wp.

(** [zoom_at g f i m]: run [m], a method, on the [i]-th object of a list *)
Definition zoom_at {S T A} (g : S → list T) (f : list T → S → S) (i : Z) (m : M T A) : M S A := λ s w,
  match py_index (g s) i ≫= λ k, (k,.) <$> g s !! k with
  | None => Raise IndexError s w
  | Some (k, x) =>
      match m x w with
      | Ok a x' w' => Ok a (f (<[k := x']> (g s)) s) w'
      | Raise e x' w' => Raise e (f (<[k := x']> (g s)) s) w'
      | OutOfFuel => OutOfFuel
      end
  end.

Lemma wp_zoom_at {S T A} (g : S → list T) f (i : nat) x (m : M T A) (Q : A → S → world → Prop) E s w :
  g s !! i = Some x →
  wp m (λ a x' w', Q a (f (<[i := x']> (g s)) s) w')
       (λ e x' w', E e (f (<[i := x']> (g s)) s) w') x w →
  wp (zoom_at g f (Z.of_nat i) m) Q E s w.
Proof.
  intros Hx Hm. pose proof (lookup_lt_Some _ _ _ Hx) as Hlt. unfold wp, zoom_at in *.
  assert (py_index (g s) (Z.of_nat i) = Some i) as ->.
  { by rewrite py_index_nat, decide_True. }
  simpl. rewrite Hx. simpl. by destruct (m x w).
Qed.

(** ** Sorting

    [sorted(l, key=...)] is stable, also with [reverse=True]; [le x y] says
    that [x] may stay before [y]. *)
Section Sorting.
Context {A : Type} (le : A → A → bool).

Fixpoint insert_sorted (x : A) (l : list A) : list A :=
  match l with
  | [] => [x]
  | y :: l' => if le x y then x :: l else y :: insert_sorted x l'
  end.

Definition stable_sort (l : list A) : list A := foldr insert_sorted [] l.

Lemma insert_sorted_perm x l : insert_sorted x l ≡ₚ x :: l.
Proof.
  induction l as [|y l IH]; simpl; [done|]. case_match; [done|].
  rewrite IH. by constructor.
Qed.

Lemma stable_sort_perm l : stable_sort l ≡ₚ l.
Proof.
  induction l as [|x l IH]; simpl; [done|]. by rewrite insert_sorted_perm, IH.
Qed.

Context (R : A → A → Prop) `{!Transitive R}.
Hypothesis le_R : ∀ x y, le x y = true → R x y.
Hypothesis le_total : ∀ x y, le x y = false → R y x.

Lemma insert_sorted_sorted x l : StronglySorted R l → StronglySorted R (insert_sorted x l).
Proof.
  induction 1 as [|y l Hs IH Hall]; simpl; [by repeat constructor|].
  destruct (le x y) eqn:Hxy.
  - constructor; [by constructor|]. constructor; [by apply le_R|].
    eapply Forall_impl; [done|]. intros z Hz. etrans; [by apply le_R|done].
  - constructor; [done|]. rewrite insert_sorted_perm. constructor; [by apply le_total|done].
Qed.

Lemma stable_sort_sorted l : StronglySorted R (stable_sort l).
Proof. induction l; simpl; [constructor|by apply insert_sorted_sorted]. Qed.
End Sorting.

(** ** Record update

    [s <| f := v |>] is the record [s] with field [f] set to [v], and
    [s <| f ::= g |>] the one with [g] applied to the field, for records with
    a [Settable] instance, which lists the fields. *)
Class Settable (R : Type) := rebuild : R → R.
Class Setter {R T : Type} (proj : R → T) := update : (T → T) → R → R.
Arguments update {R T} proj {_} f r.

Ltac find_setter :=
  match goal with
  | |- @Setter ?R ?T ?proj =>
      let inst := constr:(_ : Settable R) in
      let eta := eval hnf in inst in
      let abstracted := eval pattern proj in eta in
      match abstracted with
      | ?F proj =>
          let setter := eval cbv beta in
            (λ (f : T → T) (r : R), F (λ r, f (proj r)) r) in
          exact setter
      end
  end.
#[export] Hint Extern 1 (Setter _) => find_setter : typeclass_instances.

Notation "s <| f := v |>" := (update f (λ _, v) s)
  (at level 12, left associativity, format "s  <| f  :=  v |>").
Notation "s <| f ::= g |>" := (update f g s)
  (at level 12, left associativity, format "s  <| f  ::=  g |>").

(** [self.f = v] *)
Notation "f <~ v" := (modify (λ s, update f (λ _, v) s)) (at level 60).

(** [d[k] += n] on a dict *)
Definition dict_add {S} `{Countable K} (d : gmap K Z) (k : K) (n : Z) : M S (gmap K Z) :=
  v ← dict_get d k; mret (<[k := v + n]> d).

(** [a % b], which raises on a zero divisor *)
Definition py_mod {S} (a b : Z) : M S Z :=
  if b =? 0 then raise ZeroDivisionError else mret (a mod b).

(** ** Dicts over an index range *)

(** [m] has every key of [range(n)]. *)
Definition has {A} (n : Z) (m : gmap Z A) : Prop := ∀ i, 0 ≤ i < n → is_Some (m !! i).

Lemma has_insert {A} n (m : gmap Z A) i x : has n m → has n (<[i := x]> m).
Proof. intros Hm j Hj. destruct (decide (i = j)) as [->|]; simplify_map_eq; eauto. Qed.

Lemma has_lookup {A} n (m : gmap Z A) i : has n m → 0 ≤ i < n → ∃ x, m !! i = Some x.
Proof. intros Hm Hi. by apply Hm in Hi as [x ?]; eauto. Qed.

(** A dict built over a range *)
Lemma lookup_range_dict {A} (f : Z → A) a b i :
  (list_to_map ((λ i, (i, f i)) <$> range a b) : gmap Z A) !! i = if decide (a ≤ i < b) then Some (f i) else None.
Proof.
  case_decide as Hi.
  - apply elem_of_list_to_map_1.
    + rewrite <-list_fmap_compose. simpl. rewrite list_fmap_id. apply NoDup_range.
    + apply list_elem_of_fmap. exists i. split; [done|]. by apply elem_of_range.
  - apply not_elem_of_list_to_map_1. rewrite <-list_fmap_compose. simpl. rewrite list_fmap_id. by rewrite elem_of_range.
Qed.

(** [len(d)] for a dict whose keys are [range(n)] *)
Lemma size_dict {A} n (m : gmap Z A) : 0 ≤ n → (∀ i, is_Some (m !! i) ↔ 0 ≤ i < n) → Z.of_nat (size m) = n.
Proof.
  intros Hn Hm. rewrite <-size_dom. assert (dom m = list_to_set (range 0 n)) as ->.
  { apply set_eq. intros i. rewrite elem_of_dom, Hm, elem_of_list_to_set, elem_of_range. done. }
  rewrite size_list_to_set by apply NoDup_range. rewrite length_range. lia.
Qed.

(** ** Sums *)

Definition sum_of {A} (f : A → Z) (l : list A) : Z := foldr (λ x n, f x + n) 0 l.

Lemma sum_of_cons {A} (f : A → Z) x l : sum_of f (x :: l) = f x + sum_of f l.
Proof. done. Qed.

Lemma sum_of_app {A} (f : A → Z) l l' : sum_of f (l ++ l') = sum_of f l + sum_of f l'.
Proof. induction l as [|x l IH]; simpl; [done|]. lia. Qed.

Lemma sum_of_ext {A} (f g : A → Z) l : (∀ x, x ∈ l → f x = g x) → sum_of f l = sum_of g l.
Proof.
  induction l as [|x l IH]; intros Hfg; simpl; [done|].
  rewrite Hfg by by left. rewrite IH; [done|]. intros y ?. apply Hfg. by right.
Qed.

Lemma sum_of_le {A} (f g : A → Z) l : (∀ x, x ∈ l → f x ≤ g x) → sum_of f l ≤ sum_of g l.
Proof.
  induction l as [|x l IH]; intros Hfg; simpl; [done|].
  specialize (IH (λ y Hy, Hfg y (list_elem_of_further _ _ _ Hy))). specialize (Hfg x ltac:(by left)). lia.
Qed.

Lemma sum_of_lt {A} (f g : A → Z) l x : x ∈ l → f x < g x → (∀ y, y ∈ l → f y ≤ g y) → sum_of f l < sum_of g l.
Proof.
  intros Hx Hlt Hle. induction l as [|y l IH]; [by apply elem_of_nil in Hx|]. rewrite !sum_of_cons.
  assert (f y ≤ g y) by (apply Hle; by left). assert (∀ z, z ∈ l → f z ≤ g z) as Hl by (intros z ?; apply Hle; by right).
  apply elem_of_cons in Hx as [<-|Hx]; [pose proof (sum_of_le f g l Hl); lia|specialize (IH Hx Hl); lia].
Qed.

(** Changing the summand of one element *)
Lemma sum_of_update {A} (f g : A → Z) l x : NoDup l → x ∈ l → (∀ y, y ≠ x → g y = f y) →
  sum_of g l = sum_of f l - f x + g x.
Proof.
  intros Hnd Hx Hfg. induction Hnd as [|y l Hy Hnd IH]; [by apply elem_of_nil in Hx|]. simpl.
  apply elem_of_cons in Hx as [<-|Hx].
  - rewrite (sum_of_ext g f l); [lia|]. intros z Hz. apply Hfg. by intros ->.
  - rewrite IH by done. rewrite (Hfg y) by (by intros ->). lia.
Qed.

Lemma sum_of_list_update {A} (f : A → Z) l (i : nat) x y : l !! i = Some x → sum_of f (<[i := y]> l) = sum_of f l - f x + f y.
Proof.
  intros Hx. assert (i < length l)%nat by by eapply lookup_lt_Some.
  rewrite insert_take_drop by done. rewrite <-(take_drop_middle _ _ _ Hx) at 3.
  rewrite !sum_of_app. simpl. lia.
Qed.

Lemma sum_of_zero {A} (l : list A) : sum_of (λ _, 0) l = 0.
Proof. induction l as [|x l IH]; [done|]. change (0 + sum_of (λ _ : A, 0) l = 0). lia. Qed.

Lemma sum_of_nonneg {A} (f : A → Z) l : (∀ x, x ∈ l → 0 ≤ f x) → 0 ≤ sum_of f l.
Proof. intros Hf. rewrite <-(sum_of_zero l). by apply sum_of_le. Qed.

Lemma sum_of_ones a b : a ≤ b → sum_of (λ _ : Z, 1) (range a b) = b - a.
Proof.
  intros Hab. assert (∀ l : list Z, sum_of (λ _, 1) l = len l) as ->.
  { unfold len. induction l as [|x l IH]; [done|]. change (1 + sum_of (λ _ : Z, 1) l = Z.of_nat (S (length l))). lia. }
  unfold len. rewrite length_range. lia.
Qed.

(** ** Code that respects a relation

    [keeps R m]: [m] relates the state it starts from to the state it returns
    or raises in, however it ends.  For a preorder [R] this is compositional,
    and [keeps_solve] walks through the code. *)
Definition keeps {S A} (R : S → S → Prop) (m : M S A) : Prop := ∀ s w,
  match m s w with
  | Ok _ s' _ => R s s'
  | Raise _ s' _ => R s s'
  | OutOfFuel => True
  end.

Section Keeps.
Context {S : Type} (R : S → S → Prop) `{!PreOrder R}.

Lemma keeps_bind {A B} (m : M S A) (f : A → M S B) :
  keeps R m → (∀ a, keeps R (f a)) → keeps R (m ≫= f).
Proof.
  intros Hm Hf s w. unfold mbind, M_bind. specialize (Hm s w).
  destruct (m s w) as [a s' w'| |]; [|done..]. specialize (Hf a s' w').
  destruct (f a s' w'); [by etrans|by etrans|done].
Qed.

(** Reading the state first: the continuation may use that it is the state. *)
Lemma keeps_get {B} (f : S → M S B) :
  (∀ s w, match f s s w with Ok _ s' _ | Raise _ s' _ => R s s' | OutOfFuel => True end) →
  keeps R (get ≫= f).
Proof. intros Hf s w. apply Hf. Qed.

Lemma keeps_ret {A} (a : A) : keeps R (mret a).
Proof. intros s w. simpl. reflexivity. Qed.
Lemma keeps_getter : keeps R get.
Proof. intros s w. simpl. reflexivity. Qed.
Lemma keeps_gets {A} (f : S → A) : keeps R (gets f).
Proof. intros s w. simpl. reflexivity. Qed.
Lemma keeps_raise {A} e : keeps R (raise (A:=A) e).
Proof. intros s w. simpl. reflexivity. Qed.
Lemma keeps_diverge {A} : keeps R (diverge (A:=A)).
Proof. done. Qed.
Lemma keeps_put_str x : keeps R (put_str x).
Proof. intros s w. simpl. reflexivity. Qed.
Lemma keeps_random : keeps R random.
Proof. intros s w. simpl. reflexivity. Qed.
Lemma keeps_modify f : (∀ s, R s (f s)) → keeps R (modify f).
Proof. intros Hf s w. apply Hf. Qed.
Lemma keeps_passert c : keeps R (passert c).
Proof. destruct c; [apply keeps_ret|apply keeps_raise]. Qed.
Lemma keeps_of_option {A} e (o : option A) : keeps R (of_option e o).
Proof. destruct o; [apply keeps_ret|apply keeps_raise]. Qed.
Lemma keeps_when c m : keeps R m → keeps R (when c m).
Proof. intros Hm. destruct c; [done|apply keeps_ret]. Qed.
Lemma keeps_if {A} (c : bool) (m m' : M S A) : keeps R m → keeps R m' → keeps R (if c then m else m').
Proof. by destruct c. Qed.

Lemma keeps_for {A} (l : list A) body : (∀ x, keeps R (body x)) → keeps R (for_ l body).
Proof.
  intros Hb. induction l as [|x l IH]; simpl; [apply keeps_ret|].
  apply keeps_bind; [apply Hb|]. by intros _.
Qed.
Lemma keeps_for_acc {A B} (l : list A) (b : B) body :
  (∀ b x, keeps R (body b x)) → keeps R (for_acc l b body).
Proof.
  intros Hb. revert b. induction l as [|x l IH]; intros b; simpl; [apply keeps_ret|].
  apply keeps_bind; [apply Hb|]. intros b'. apply IH.
Qed.
Lemma keeps_for_ret {A B C} (l : list A) (b : B) (body : B → A → M S (B + C)) :
  (∀ b x, keeps R (body b x)) → keeps R (for_ret l b body).
Proof.
  intros Hb. revert b. induction l as [|x l IH]; intros b; simpl; [apply keeps_ret|].
  apply keeps_bind; [apply Hb|]. intros [b'|r]; [apply IH|apply keeps_ret].
Qed.
Lemma keeps_while {B C} fuel (b : B) (body : B → M S (B + C)) :
  (∀ b, keeps R (body b)) → keeps R (while_ fuel b body).
Proof.
  intros Hb. revert b. induction fuel as [|fuel IH]; intros b; simpl; [apply keeps_diverge|].
  apply keeps_bind; [apply Hb|]. intros [b'|r]; [apply IH|apply keeps_ret].
Qed.
End Keeps.

(** The components' own lemmas on [keeps] *)
Create HintDb keeps.

Ltac keeps_atom :=
  first [assumption
    | apply keeps_ret; exact _ | apply keeps_getter; exact _ | apply keeps_gets; exact _
    | apply keeps_raise; exact _ | apply keeps_put_str; exact _ | apply keeps_random; exact _
    | apply keeps_passert; exact _ | apply keeps_of_option; exact _ | apply keeps_diverge
    | solve [auto 2 with keeps nocore]].

Ltac keeps_step :=
  match goal with
  | |- keeps _ (match ?x with _ => _ end) => destruct x
  | |- ∀ _, _ => intro
  | |- _ => progress cbv beta zeta
  | |- _ => first [keeps_atom
      | apply keeps_bind; [exact _| |] | apply keeps_when; [exact _|] | apply keeps_for; [exact _|]
      | apply keeps_for_acc; [exact _|] | apply keeps_for_ret; [exact _|]
      | apply keeps_while; [exact _|]]
  end.
Ltac keeps_solve := repeat keeps_step.

(** Code over a component *)
Lemma keeps_zoom {S T A} (R : T → T → Prop) (g : S → T) f (m : M T A) :
  (∀ t s, g (f t s) = t) → keeps R m → keeps (λ s s', R (g s) (g s')) (zoom g f m).
Proof.
  intros Hg Hm s w. unfold zoom. specialize (Hm (g s) w).
  by destruct (m (g s) w); rewrite ?Hg.
Qed.

(** [preserves I m]: run in a state with [I], [m] ends, by returning or by an
    exception, in a state with [I].  [preserves_solve] walks through code
    without [while]. *)
Definition preserves {S A} (I : S → Prop) (m : M S A) : Prop := ∀ s w, I s →
  wp m (λ _ s' _, I s') (λ _ s' _, I s') s w.

Section Preserves.
Context {S : Type} (I : S → Prop).

Lemma preserves_bind {A B} (m : M S A) (f : A → M S B) :
  preserves I m → (∀ a, preserves I (f a)) → preserves I (m ≫= f).
Proof. intros Hm Hf s w Hs. rewrite wp_bind. eapply wp_conseq; [by apply Hm|]. intros a s' w' Hs'. by apply Hf. Qed.
Lemma preserves_ret {A} (a : A) : preserves I (mret a).
Proof. intros s w Hs. exact Hs. Qed.
Lemma preserves_getter : preserves I get.
Proof. intros s w Hs. exact Hs. Qed.
Lemma preserves_gets {A} (f : S → A) : preserves I (gets f).
Proof. intros s w Hs. exact Hs. Qed.
Lemma preserves_raise {A} e : preserves I (raise (A:=A) e).
Proof. intros s w Hs. exact Hs. Qed.
Lemma preserves_put_str x : preserves I (put_str x).
Proof. intros s w Hs. exact Hs. Qed.
Lemma preserves_random : preserves I random.
Proof. intros s w Hs. exact Hs. Qed.
Lemma preserves_modify f : (∀ s, I s → I (f s)) → preserves I (modify f).
Proof. intros Hf s w Hs. by apply Hf. Qed.
Lemma preserves_passert c : preserves I (passert c).
Proof. destruct c; intros s w Hs; exact Hs. Qed.
Lemma preserves_of_option {A} e (o : option A) : preserves I (of_option e o).
Proof. destruct o; intros s w Hs; exact Hs. Qed.
Lemma preserves_when c m : preserves I m → preserves I (when c m).
Proof. intros Hm. destruct c; [done|apply preserves_ret]. Qed.
Lemma preserves_for {A} (l : list A) body : (∀ x, x ∈ l → preserves I (body x)) → preserves I (for_ l body).
Proof.
  induction l as [|x l IH]; intros Hb; simpl; [apply preserves_ret|].
  apply preserves_bind; [apply Hb; by left|]. intros _. apply IH. intros y ?. apply Hb. by right.
Qed.
Lemma preserves_for_acc {A B} (l : list A) (b : B) body :
  (∀ b x, preserves I (body b x)) → preserves I (for_acc l b body).
Proof.
  intros Hb. revert b. induction l as [|x l IH]; intros b; simpl; [apply preserves_ret|].
  apply preserves_bind; [apply Hb|]. intros b'. apply IH.
Qed.
Lemma preserves_for_ret {A B C} (l : list A) (b : B) (body : B → A → M S (B + C)) :
  (∀ b x, preserves I (body b x)) → preserves I (for_ret l b body).
Proof.
  intros Hb. revert b. induction l as [|x l IH]; intros b; simpl; [apply preserves_ret|].
  apply preserves_bind; [apply Hb|]. intros [b'|r]; [apply IH|apply preserves_ret].
Qed.
End Preserves.

Lemma preserves_zoom {S T A} (I : T → Prop) (g : S → T) f (m : M T A) :
  (∀ t s, g (f t s) = t) → preserves I m → preserves (λ s, I (g s)) (zoom g f m).
Proof.
  intros Hg Hm s w Hs. rewrite wp_zoom. eapply wp_mono; [by apply Hm|..]; intros; by rewrite Hg.
Qed.

Lemma preserves_impl {S A} (I I' : S → Prop) (m : M S A) :
  (∀ s, I s ↔ I' s) → preserves I m → preserves I' m.
Proof. intros HI Hm s w Hs%HI. eapply wp_mono; [by apply Hm|..]; intros; by apply HI. Qed.

(** The components' own lemmas on [preserves] *)
Create HintDb preserves.

Ltac preserves_step :=
  lazymatch goal with
  | |- preserves _ (match ?x with _ => _ end) => destruct x
  | |- ∀ _, _ => intro
  | |- preserves _ (mret _) => apply preserves_ret
  | |- preserves _ get => apply preserves_getter
  | |- preserves _ (gets _) => apply preserves_gets
  | |- preserves _ (raise _) => apply preserves_raise
  | |- preserves _ (put_str _) => apply preserves_put_str
  | |- preserves _ random => apply preserves_random
  | |- preserves _ (passert _) => apply preserves_passert
  | |- preserves _ (of_option _ _) => apply preserves_of_option
  | |- preserves _ (_ ≫= _) => apply preserves_bind
  | |- preserves _ (when _ _) => apply preserves_when
  | |- preserves _ (for_ _ _) => apply preserves_for
  | |- preserves _ (for_acc _ _ _) => apply preserves_for_acc
  | |- preserves _ (for_ret _ _ _) => apply preserves_for_ret
  | |- preserves _ (let _ := _ in _) => cbv zeta
  | |- preserves _ _ => first [assumption | solve [auto 2 with preserves nocore] | progress cbv beta]
  end.
Ltac preserves_solve := repeat preserves_step.

(** [prints m]: however it ends, [m] only prints: what was printed stays, and
    no random number is drawn.  [prints_solve] walks through the code. *)
Definition printed (w w' : world) : Prop := (∃ l, stdout w' = l ++ stdout w) ∧ rng w' = rng w ∧ rpos w' = rpos w.

#[export] Instance printed_preorder : PreOrder printed.
Proof.
  split; [by intros w; split; [exists []|]|]. intros w1 w2 w3 [[l1 H1] [R1 P1]] [[l2 H2] [R2 P2]].
  split; [exists (l2 ++ l1); by rewrite H2, H1, (assoc (++))|]. split; congruence.
Qed.

Lemma printed_emit x w w' : printed w w' → printed w (emit x w').
Proof. intros [[l H] ?]. split; [|done]. exists (x :: l). simpl. by rewrite H. Qed.

Definition prints {S A} (m : M S A) : Prop := ∀ s w,
  match m s w with Ok _ _ w' | Raise _ _ w' => printed w w' | OutOfFuel => True end.

Section Prints.
Context {S : Type}.

Lemma prints_bind {A B} (m : M S A) (f : A → M S B) : prints m → (∀ a, prints (f a)) → prints (m ≫= f).
Proof.
  intros Hm Hf s w. unfold mbind, M_bind. specialize (Hm s w). destruct (m s w) as [a s' w'| |]; [|done..].
  specialize (Hf a s' w'). destruct (f a s' w'); [by etrans|by etrans|done].
Qed.
Lemma prints_ret {A} (a : A) : prints (S:=S) (mret a).
Proof. intros s w. simpl. reflexivity. Qed.
Lemma prints_getter : prints (S:=S) get.
Proof. intros s w. simpl. reflexivity. Qed.
Lemma prints_modify (f : S → S) : prints (modify f).
Proof. intros s w. simpl. reflexivity. Qed.
Lemma prints_raise {A} e : prints (S:=S) (raise (A:=A) e).
Proof. intros s w. simpl. reflexivity. Qed.
Lemma prints_put_str x : prints (S:=S) (put_str x).
Proof. intros s w. simpl. by apply printed_emit. Qed.
Lemma prints_passert c : prints (S:=S) (passert c).
Proof. destruct c; [apply prints_ret|apply prints_raise]. Qed.
Lemma prints_of_option {A} e (o : option A) : prints (S:=S) (of_option e o).
Proof. destruct o; [apply prints_ret|apply prints_raise]. Qed.
Lemma prints_when c (m : M S unit) : prints m → prints (when c m).
Proof. intros Hm. destruct c; [done|apply prints_ret]. Qed.
Lemma prints_for {A} (l : list A) (body : A → M S unit) : (∀ x, prints (body x)) → prints (for_ l body).
Proof.
  intros Hb. induction l as [|x l IH]; simpl; [apply prints_ret|]. apply prints_bind; [apply Hb|]. by intros _.
Qed.
End Prints.

Lemma prints_zoom {S T A} (g : S → T) f (m : M T A) : prints m → prints (zoom g f m).
Proof. intros Hm s w. unfold zoom. specialize (Hm (g s) w). by destruct (m (g s) w). Qed.

Lemma prints_zoom_at {S T A} (g : S → list T) f i (m : M T A) : prints m → prints (zoom_at g f i m).
Proof.
  intros Hm s w. unfold zoom_at. destruct (py_index (g s) i ≫= λ k, (k,.) <$> g s !! k) as [[k x]|]; [|simpl; reflexivity].
  specialize (Hm x w). by destruct (m x w).
Qed.

(** What a run prints may be added to what is known of it. *)
Lemma wp_prints {S A} (m : M S A) Q E s w : prints m → wp m Q E s w → wp m (λ a s' w', Q a s' w' ∧ printed w w') E s w.
Proof. intros Hm. specialize (Hm s w). unfold wp. by destruct (m s w). Qed.

(** The components' own lemmas on [prints] *)
Create HintDb prints.

Ltac prints_step :=
  lazymatch goal with
  | |- prints (match ?x with _ => _ end) => destruct x
  | |- ∀ _, _ => intro
  | |- prints (mret _) => apply prints_ret
  | |- prints get => apply prints_getter
  | |- prints (modify _) => apply prints_modify
  | |- prints (raise _) => apply prints_raise
  | |- prints (put_str _) => apply prints_put_str
  | |- prints (passert _) => apply prints_passert
  | |- prints (of_option _ _) => apply prints_of_option
  | |- prints (_ ≫= _) => apply prints_bind
  | |- prints (when _ _) => apply prints_when
  | |- prints (for_ _ _) => apply prints_for
  | |- prints (zoom _ _ _) => apply prints_zoom
  | |- prints (zoom_at _ _ _ _) => apply prints_zoom_at
  | |- prints (let _ := _ in _) => cbv zeta
  | |- prints _ => first [assumption | solve [auto 2 with prints nocore] | progress cbv beta]
  end.
Ltac prints_solve := repeat prints_step.

(** ** Bit fields *)

(** A frame number and an offset, put together *)
Lemma lor_shiftl_low pfn r y : 0 ≤ y → 0 ≤ r < 2 ^ y → Z.lor (Z.shiftl pfn y) r = pfn * 2 ^ y + r.
Proof.
  intros Hy Hr. rewrite <-Z.add_nocarry_lor; [by rewrite Z.shiftl_mul_pow2|].
  apply Z.bits_inj'. intros n Hn. rewrite Z.land_spec, Z.shiftl_spec, Z.bits_0 by done.
  destruct (decide (n < y)).
  { assert (Z.testbit pfn (n - y) = false) as Hbit by (apply Z.testbit_neg_r; lia). by rewrite Hbit. }
  rewrite <-(Z.mod_small r (2 ^ y)), Z.mod_pow2_bits_high by lia. apply andb_false_r.
Qed.

Lemma land_low v y : 0 ≤ y → Z.land v (Z.shiftl 1 y - 1) = v mod 2 ^ y.
Proof.
  intros Hy. by rewrite <-Z.land_ones by done.
Qed.

(** The field of [k] bits from bit [s] on, cut out with a mask *)
Lemma field_bits v k s : 0 ≤ k → 0 ≤ s → Z.shiftr (Z.land v (Z.shiftl (Z.ones k) s)) s = v / 2 ^ s mod 2 ^ k.
Proof.
  intros Hk Hs. rewrite Z.shiftr_land, Z.shiftr_shiftl_l, Z.sub_diag, Z.shiftl_0_r by lia.
  by rewrite Z.land_ones, Z.shiftr_div_pow2.
Qed.
