(* ===== verification/PyStr.v ===== *)
(** * Python strings and decimal numbers

    The string operations the programs parse their input with ([split],
    [strip], [int], ...) and the [%]-formats they print with.  Characters are
    ASCII. *)
From S2P Require Import Prelude.
From Stdlib Require Export Ascii.
From Stdlib Require Import DecimalString DecimalZ.
From Stdlib Require HexadecimalString HexadecimalN.
Open Scope Z_scope.

(** ** Characters *)

(** The ASCII characters [str.isspace] accepts. *)
Definition is_space (c : ascii) : bool :=
  let n := nat_of_ascii c in
  ((9 <=? n) && (n <=? 13) || (28 <=? n) && (n <=? 32))%nat.

Definition is_digit (c : ascii) : bool :=
  let n := nat_of_ascii c in ((48 <=? n) && (n <=? 57))%nat.

Definition is_alpha (c : ascii) : bool :=
  let n := nat_of_ascii c in
  ((65 <=? n) && (n <=? 90) || (97 <=? n) && (n <=? 122))%nat.

(** [all] of a character test over a non-empty string, as [str.isdigit] *)
Fixpoint str_all (p : ascii → bool) (s : string) : bool :=
  match s with
  | EmptyString => true
  | String c s => p c && str_all p s
  end.

Definition str_isdigit (s : string) : bool :=
  match s with EmptyString => false | _ => str_all is_digit s end.

Fixpoint str_has (c : ascii) (s : string) : bool :=
  match s with
  | EmptyString => false
  | String d s => Ascii.eqb c d || str_has c s
  end.

(** ** Whitespace *)

Fixpoint lstrip (s : string) : string :=
  match s with
  | String c s' => if is_space c then lstrip s' else s
  | EmptyString => EmptyString
  end.

Fixpoint rstrip (s : string) : string :=
  match s with
  | EmptyString => EmptyString
  | String c s' => match rstrip s' with
                   | EmptyString => if is_space c then EmptyString else String c EmptyString
                   | r => String c r
                   end
  end.

Definition strip (s : string) : string := rstrip (lstrip s).

(** ** Splitting *)

(** [s.split(c)] for a one-character separator: always at least one part *)
Fixpoint split_on (c : ascii) (s : string) : list string :=
  match s with
  | EmptyString => [EmptyString]
  | String d s' =>
      if Ascii.eqb d c then EmptyString :: split_on c s'
      else match split_on c s' with
           | [] => [String d EmptyString]
           | p :: ps => String d p :: ps
           end
  end.

(** [s.split(c, 1)] *)
Fixpoint split1_on (c : ascii) (s : string) : list string :=
  match s with
  | EmptyString => [EmptyString]
  | String d s' =>
      if Ascii.eqb d c then [EmptyString; s']
      else match split1_on c s' with
           | [] => [String d EmptyString]
           | p :: ps => String d p :: ps
           end
  end.

(** [s.split()]: the maximal runs of non-space characters; [cur] is the run
    being read. *)
Fixpoint split_ws_aux (cur : string) (s : string) : list string :=
  match s with
  | EmptyString => match cur with EmptyString => [] | _ => [cur] end
  | String c s' =>
      if is_space c then
        match cur with
        | EmptyString => split_ws_aux EmptyString s'
        | _ => cur :: split_ws_aux EmptyString s'
        end
      else split_ws_aux (cur +:+ String c EmptyString) s'
  end.

Definition split_ws (s : string) : list string := split_ws_aux EmptyString s.

(** [s.split(None, 1)]: the first word and, if any, the rest without its
    leading spaces *)
Fixpoint split1_ws_aux (cur : string) (s : string) : list string :=
  match s with
  | EmptyString => match cur with EmptyString => [] | _ => [cur] end
  | String c s' =>
      if is_space c then
        match lstrip s' with EmptyString => [cur] | r => [cur; r] end
      else split1_ws_aux (cur +:+ String c EmptyString) s'
  end.

Definition split1_ws (s : string) : list string := split1_ws_aux EmptyString (lstrip s).

(** [s.split(sep)] for a non-empty [sep]; [skip] characters of a separator
    are still to be passed over. *)
Fixpoint split_str_aux (sep : string) (skip : nat) (cur s : string) : list string :=
  match s with
  | EmptyString => [cur]
  | String c s' =>
      match skip with
      | S k => split_str_aux sep k cur s'
      | O => if String.prefix sep s then cur :: split_str_aux sep (String.length sep - 1) EmptyString s'
             else split_str_aux sep 0 (cur +:+ String c EmptyString) s'
      end
  end.

Definition split_str (sep s : string) : list string := split_str_aux sep 0 EmptyString s.

(** [sep.join(l)] *)
Fixpoint join (sep : string) (l : list string) : string :=
  match l with
  | [] => EmptyString
  | [x] => x
  | x :: l => x +:+ sep +:+ join sep l
  end.

(** [s.replace(c, r)] for a one-character [c] *)
Fixpoint replace_char (c : ascii) (r : string) (s : string) : string :=
  match s with
  | EmptyString => EmptyString
  | String d s' => (if Ascii.eqb d c then r else String d EmptyString) +:+ replace_char c r s'
  end.

(** [s.replace(pat, r)] for a non-empty [pat] *)
Definition replace_str (pat r s : string) : string := join r (split_str pat s).

(** [s[0]] *)
Definition str_head {S} (s : string) : M S ascii :=
  match s with EmptyString => raise IndexError | String c _ => mret c end.

(** ** Numbers *)

(** [str(n)] *)
Definition str_of_Z (n : Z) : string := NilZero.string_of_int (Z.to_int n).

(** Digits may be separated by single underscores in [int]'s argument. *)
Fixpoint underscores_ok (prev_digit : bool) (s : string) : bool :=
  match s with
  | EmptyString => prev_digit
  | String c s' =>
      if Ascii.eqb c "_" then prev_digit && underscores_ok false s'
      else underscores_ok true s'
  end.

Fixpoint drop_char (c : ascii) (s : string) : string :=
  match s with
  | EmptyString => EmptyString
  | String d s' => if Ascii.eqb d c then drop_char c s' else String d (drop_char c s')
  end.

Definition int_digits (s : string) : option Z :=
  if underscores_ok false s && str_isdigit (drop_char "_" s) then
    (λ u, Z.of_uint u) <$> NilZero.uint_of_string (drop_char "_" s)
  else None.

(** [int(s)]; [None] is [ValueError] *)
Definition int_of_str (s : string) : option Z :=
  match strip s with
  | String "-" s' => Z.opp <$> int_digits s'
  | String "+" s' => int_digits s'
  | s' => int_digits s'
  end.

Definition py_int {S} (s : string) : M S Z := of_option ValueError (int_of_str s).

(** ** Formats *)

Fixpoint repeat_str (s : string) (n : nat) : string :=
  match n with O => EmptyString | S n => s +:+ repeat_str s n end.

(** [s * n] *)
Definition str_mul (s : string) (n : Z) : string := repeat_str s (Z.to_nat n).

Definition slen (s : string) : Z := Z.of_nat (String.length s).

(** [%ws]: right-justified in a field of width [w] *)
Definition rjust (w : Z) (s : string) : string := str_mul " " (w - slen s) +:+ s.

(** [%wd] *)
Definition fmt_d (w n : Z) : string := rjust w (str_of_Z n).

(** [str.zfill(w)] on an unsigned decimal *)
Definition zfill (w : Z) (s : string) : string := str_mul "0" (w - slen s) +:+ s.

(** [print(x)] *)
Definition nl : string := String (ascii_of_nat 10) EmptyString.
Definition print {S} (x : string) : M S unit := put_str (x +:+ nl).

(** ['%x' % n], ['%0wx' % n] *)
Definition str_hex (n : Z) : string :=
  (if n <? 0 then "-" else "") +:+ HexadecimalString.NilZero.string_of_uint (N.to_hex_uint (Z.abs_N n)).
Definition fmt_x (w n : Z) : string :=
  if n <? 0 then "-" +:+ zfill (w - 1) (str_hex (- n)) else zfill w (str_hex n).

(** [str] of a list whose elements show as [l] *)
Definition list_str (l : list string) : string := "[" +:+ join ", " l +:+ "]".

Lemma wp_print {S} x (Q : unit → S → world → Prop) E s w :
  wp (print x) Q E s w = Q tt s (emit (x +:+ nl) w).
Proof. done. Qed.
#[export] Hint Rewrite @wp_print : wp.

(** The last [n] pieces of the output of a run *)
Definition last_lines {S A} (n : nat) (r : res S A) : option string :=
  match r with Ok _ _ w => Some (String.concat EmptyString (reverse (take n (stdout w)))) | _ => None end.

(** What a run prints, a line each *)
Definition shown (lines : list string) (w w' : world) : Prop :=
  stdout w' = reverse ((λ l, l +:+ nl) <$> lines) ++ stdout w.

Lemma shown_refl w : shown [] w w.
Proof. done. Qed.
Lemma shown_emit lines l w w' : shown lines w w' → shown (lines ++ [l]) w (emit (l +:+ nl) w').
Proof. intros H. unfold shown in *. simpl. by rewrite H, fmap_app, reverse_app. Qed.
Lemma shown_trans l l' w1 w2 w3 : shown l w1 w2 → shown l' w2 w3 → shown (l ++ l') w1 w3.
Proof. unfold shown. intros H1 H2. by rewrite H2, H1, fmap_app, reverse_app, (assoc (++)). Qed.

Lemma prints_print {S} x : prints (S:=S) (print x).
Proof. apply prints_put_str. Qed.
#[export] Hint Resolve prints_print : prints.

(** A double quote, which the literals avoid *)
Definition dq : string := String (ascii_of_nat 34) EmptyString.

(** [str(b)] *)
Definition str_of_bool (b : bool) : string := if b then "True" else "False".

(** ** [int(str(n)) = n] *)

Lemma string_of_uint_digits u : str_all is_digit (NilEmpty.string_of_uint u) = true.
Proof. induction u; simpl; done. Qed.

Lemma no_space_digits s : str_all is_digit s = true → lstrip s = s ∧ rstrip s = s.
Proof.
  intros H. split.
  - destruct s as [|c s]; [done|]. simpl in *.
    apply andb_prop in H as [Hc _].
    destruct (is_space c) eqn:Hsp; [|done].
    destruct c as [[] [] [] [] [] [] [] []]; done.
  - induction s as [|c s IH]; [done|]. simpl in *.
    apply andb_prop in H as [Hc Hs]. rewrite IH by done.
    destruct s; [|done].
    destruct (is_space c) eqn:Hsp; [|done].
    destruct c as [[] [] [] [] [] [] [] []]; done.
Qed.

Lemma drop_underscore_digits s :
  str_all is_digit s = true → drop_char "_" s = s ∧ (s ≠ EmptyString → ∀ b, underscores_ok b s = true).
Proof.
  induction s as [|c s IH]; [done|]. simpl.
  intros [Hc Hs]%andb_prop. destruct IH as [IH1 IH2]; [done|].
  destruct (Ascii.eqb c "_") eqn:Hu.
  { apply Ascii.eqb_eq in Hu as ->. done. }
  rewrite IH1. split; [done|]. intros _ b. destruct s; [done|]. by apply IH2.
Qed.

Lemma string_of_uint_nonempty u : NilZero.string_of_uint u ≠ EmptyString.
Proof. by destruct u. Qed.

Lemma int_digits_string_of_uint u :
  int_digits (NilZero.string_of_uint u) = Some (Z.of_uint u).
Proof.
  assert (str_all is_digit (NilZero.string_of_uint u) = true) as Hd.
  { destruct u; simpl; try done; apply string_of_uint_digits. }
  destruct (drop_underscore_digits _ Hd) as [H1 H2].
  unfold int_digits. rewrite H1, H2 by apply string_of_uint_nonempty.
  assert (str_isdigit (NilZero.string_of_uint u) = true) as ->.
  { unfold str_isdigit. destruct (NilZero.string_of_uint u) eqn:?; [|done].
    by destruct (string_of_uint_nonempty u). }
  destruct u as [|u|u|u|u|u|u|u|u|u|u]; [done|..]; by rewrite NilZero.usu.
Qed.

Lemma strip_string_of_uint u : strip (NilZero.string_of_uint u) = NilZero.string_of_uint u.
Proof.
  assert (str_all is_digit (NilZero.string_of_uint u) = true) as Hd.
  { destruct u; simpl; try done; apply string_of_uint_digits. }
  destruct (no_space_digits _ Hd) as [H1 H2]. unfold strip. by rewrite H1, H2.
Qed.

Lemma int_of_str_digits_head s c s' :
  s = String c s' → strip s = s → is_digit c = true → int_of_str s = int_digits s.
Proof.
  intros -> Hs Hc. unfold int_of_str. rewrite Hs.
  by destruct c as [[] [] [] [] [] [] [] []].
Qed.

(** Printing a number and reading it back gives the number. *)
Lemma int_of_str_of_Z n : int_of_str (str_of_Z n) = Some n.
Proof.
  unfold str_of_Z. rewrite <-(DecimalZ.of_to n) at 2.
  destruct (Z.to_int n) as [u|u]; simpl.
  - destruct (NilZero.string_of_uint u) as [|c s] eqn:Hu.
    { by destruct (string_of_uint_nonempty u). }
    rewrite (int_of_str_digits_head _ c s).
    + by rewrite <-Hu, int_digits_string_of_uint.
    + done.
    + by rewrite <-Hu, strip_string_of_uint.
    + destruct u; simpl in Hu; simplify_eq; done.
  - unfold int_of_str.
    assert (strip (String "-" (NilZero.string_of_uint u)) =
            String "-" (NilZero.string_of_uint u)) as ->.
    { unfold strip. simpl.
      assert (str_all is_digit (NilZero.string_of_uint u) = true) as Hd.
      { destruct u; simpl; try done; apply string_of_uint_digits. }
      destruct (no_space_digits _ Hd) as [_ ->].
      by destruct (NilZero.string_of_uint u). }
    by rewrite int_digits_string_of_uint.
Qed.

#[export] Instance str_of_Z_inj : Inj (=) (=) str_of_Z.
Proof.
  intros a b H. apply (f_equal int_of_str) in H. rewrite !int_of_str_of_Z in H. congruence.
Qed.

(** ** Splitting what was joined *)

Lemma split_on_none c s : str_has c s = false → split_on c s = [s].
Proof.
  induction s as [|d s IH]; simpl; [done|]. intros [Hd Hs]%orb_false_elim.
  rewrite Ascii.eqb_sym, Hd. by rewrite IH.
Qed.

Lemma split_on_app c s t : str_has c s = false → split_on c (s +:+ String c t) = s :: split_on c t.
Proof.
  induction s as [|d s IH]; simpl.
  - by rewrite Ascii.eqb_refl.
  - intros [Hd Hs]%orb_false_elim. rewrite Ascii.eqb_sym, Hd. by rewrite IH.
Qed.

Lemma split_on_nonnil c s : split_on c s ≠ [].
Proof. destruct s as [|d s]; simpl; [done|]. by destruct (Ascii.eqb d c), (split_on c s). Qed.

Lemma split_on_snoc c s t : str_has c t = false → split_on c (s +:+ String c t) = split_on c s ++ [t].
Proof.
  intros Ht. induction s as [|d s IH]; simpl.
  - by rewrite Ascii.eqb_refl, split_on_none.
  - rewrite IH. destruct (Ascii.eqb d c); [done|]. pose proof (split_on_nonnil c s).
    by destruct (split_on c s).
Qed.

Lemma split_on_cons c s : split_on c (String c s) = "" :: split_on c s.
Proof. simpl. by rewrite Ascii.eqb_refl. Qed.

Lemma string_app_cons d (a b : string) : String d a +:+ b = String d (a +:+ b).
Proof. done. Qed.

Lemma string_app_assoc (a b c : string) : (a +:+ b) +:+ c = a +:+ b +:+ c.
Proof. induction a as [|x a IH]; [done|]. by rewrite !string_app_cons, IH. Qed.

Lemma string_app_nil (a : string) : a +:+ "" = a.
Proof. induction a as [|x a IH]; [done|]. by rewrite string_app_cons, IH. Qed.

(** Joining the parts again *)
Lemma split_on_join c s acc :
  foldl (λ p t, p +:+ String c "" +:+ t) acc (split_on c s) = acc +:+ String c s.
Proof.
  assert (∀ s acc pre, match split_on c s with
    | t :: ts => foldl (λ p t, p +:+ String c "" +:+ t) (acc +:+ pre +:+ t) ts = acc +:+ pre +:+ s
    | [] => True end) as Hgen.
  { clear s acc. induction s as [|d s IH]; intros acc pre; simpl; [done|].
    destruct (Ascii.eqb_spec d c) as [->|].
    - specialize (IH (acc +:+ pre) (String c "")). pose proof (split_on_nonnil c s).
      destruct (split_on c s) as [|t ts]; [done|]. simpl.
      rewrite string_app_nil, IH, string_app_assoc. done.
    - specialize (IH acc (pre +:+ String d "")). pose proof (split_on_nonnil c s).
      destruct (split_on c s) as [|t ts]; [done|].
      rewrite !string_app_assoc in IH. exact IH. }
  specialize (Hgen s acc (String c "")). pose proof (split_on_nonnil c s).
  destruct (split_on c s) as [|t ts]; [done|]. simpl. exact Hgen.
Qed.

Lemma str_has_app c s t : str_has c (s +:+ t) = str_has c s || str_has c t.
Proof. induction s as [|d s IH]; simpl; [done|]. by rewrite IH, orb_assoc. Qed.

Lemma str_has_digits c s : str_all is_digit s = true → is_digit c = false → str_has c s = false.
Proof.
  intros Hs Hc. induction s as [|d s IH]; [done|]. simpl in *.
  apply andb_prop in Hs as [Hd Hs]. rewrite IH by done.
  destruct (Ascii.eqb_spec c d); [congruence|done].
Qed.

(** A printed number holds digits and a minus sign only. *)
Lemma str_of_Z_has c n : is_digit c = false → c ≠ "-"%char → str_has c (str_of_Z n) = false.
Proof.
  intros Hc Hm. unfold str_of_Z.
  assert (∀ u, str_has c (NilZero.string_of_uint u) = false) as Hu.
  { intros u. apply str_has_digits; [|done]. destruct u; simpl; try done; apply string_of_uint_digits. }
  destruct (Z.to_int n); simpl; [apply Hu|]. rewrite Hu.
  by destruct (Ascii.eqb_spec c "-").
Qed.

(** Splitting what was joined with a separator that the parts do not contain *)
Lemma split_on_join_list c l : l ≠ [] → Forall (λ x, str_has c x = false) l → split_on c (join (String c EmptyString) l) = l.
Proof.
  intros Hl. induction 1 as [|x l Hx Hxs IH]; [done|]. destruct l as [|y l]; [by apply split_on_none|].
  change (join (String c "") (x :: y :: l)) with (x +:+ String c (join (String c "") (y :: l))).
  by rewrite split_on_app, IH by done.
Qed.
