(* ===== verification/PyRandom.v ===== *)
(** * [random.random()]

    The generator returns doubles [k / 2^53] with [0 <= k < 2^53]; a draw is
    its numerator [k].  The programs only use draws as [int(r * n)],
    [int(r * n + b)] and [r < p] for a decimal [p], whose floating-point
    roundings are written out here: all values are multiples of [2^-53], so a
    double is the integer counting these, rounded to 53 significant bits. *)
From S2P Require Import Prelude.
Open Scope Z_scope.

(** Round a nonnegative integer to 53 significant bits, ties to even. *)
Definition round53 (p : Z) : Z :=
  if p <? 2 ^ 53 then p
  else
    let u := 2 ^ (Z.log2 p - 52) in
    let q := p / u in
    let r := p mod u in
    (if 2 * r <? u then q
     else if u <? 2 * r then q + 1
     else if Z.even q then q else q + 1) * u.

(** [int(random.random() * n)] for a draw [k] *)
Definition int_scaled (n k : Z) : Z := round53 (k * n) / 2 ^ 53.

(** [int(random.random() * n + b)], also [int(b + random.random() * n)] *)
Definition int_affine (n b k : Z) : Z :=
  round53 (round53 (k * n) + b * 2 ^ 53) / 2 ^ 53.

(** The double nearest to [num / den], as [m / 2^e] *)
Definition ratio53 (num den : Z) : Z * Z :=
  let e0 := 52 + Z.log2 den - Z.log2 num in
  let e := if num * 2 ^ e0 <? 2 ^ 52 * den then e0 + 1 else e0 in
  let q := num * 2 ^ e / den in
  let r := num * 2 ^ e mod den in
  (if 2 * r <? den then q
   else if den <? 2 * r then q + 1
   else if Z.even q then q else q + 1, e).

(** [int(n * random.random())], which rounds towards zero *)
Definition draw_below {S} (n : Z) : M S Z :=
  if 0 <=? n then k ← random; mret (int_scaled n k) else k ← random; mret (- int_scaled (- n) k).

(** [random.random() < num / den] *)
Definition draw_lt (num den k : Z) : bool :=
  if num <=? 0 then false
  else let '(m, e) := ratio53 num den in k * 2 ^ e <? m * 2 ^ 53.

Definition rand_int {S} (n : Z) : M S Z := k ← random; mret (int_scaled n k).

(** [int(pct / 100.0 * n)] *)
Definition int_percent (pct n : Z) : Z :=
  if pct <=? 0 then 0
  else let '(m, e) := ratio53 pct 100 in round53 (m * n) / 2 ^ e.

(** [int(lo + random.random() * (hi - lo + 1))] *)
Definition random_randint {S} (lo hi : Z) : M S Z :=
  k ← random; mret (int_affine (hi - lo + 1) lo k).

(** [l[random_randint(0, len(l) - 1)]] *)
Definition random_choice {S A} (l : list A) : M S A :=
  i ← random_randint 0 (len l - 1); list_get l i.

Definition rand_lt {S} (num den : Z) : M S bool := k ← random; mret (draw_lt num den k).

(** [l[int(random.random() * len(l))]] *)
Definition rand_pick {S A} (l : list A) : M S A := i ← rand_int (len l); list_get l i.

(** [random.shuffle(l)]: position by position from the end, a swap with an
    earlier one or itself.  [random.choice] is [rand_pick].  Python 3 draws the
    position from bits of the generator, Python 2 as here: either way it is
    some number in range. *)
Definition shuffle {S A} (l : list A) : M S (list A) :=
  for_acc (reverse (range 1 (len l))) l (λ l i,
    j ← rand_int (i + 1);
    x ← list_get l i;
    y ← list_get l j;
    l ← list_set l i y;
    list_set l j x).

(** What CPython documents of the generator. *)
Definition rng_ok (w : world) : Prop := ∀ n, 0 ≤ rng w n < 2 ^ 53.

(** ** Bounds *)

Lemma round53_error p : 2 ^ 53 ≤ p →
  let u := 2 ^ (Z.log2 p - 52) in 2 * Z.abs (round53 p - p) ≤ u ∧ u * 2 ^ 52 ≤ p.
Proof.
  intros Hp u. unfold round53. destruct (Z.ltb_spec p (2 ^ 53)); [lia|].
  assert (0 < p) by lia.
  destruct (Z.log2_spec p) as [Hl1 Hl2]; [done|].
  assert (53 ≤ Z.log2 p) by (apply Z.log2_le_pow2; lia).
  fold u. assert (0 < u) by (apply Z.pow_pos_nonneg; lia).
  assert (u * 2 ^ 52 = 2 ^ Z.log2 p) as Hu.
  { unfold u. rewrite <-Z.pow_add_r by lia. f_equal. lia. }
  split; [|lia].
  pose proof (Z.div_mod p u ltac:(lia)) as Hdm.
  pose proof (Z.mod_pos_bound p u ltac:(lia)) as Hmb.
  destruct (Z.ltb_spec (2 * (p mod u)) u); [nia|].
  destruct (Z.ltb_spec u (2 * (p mod u))); [nia|].
  destruct (Z.even (p / u)); nia.
Qed.

Lemma round53_nonneg p : 0 ≤ p → 0 ≤ round53 p.
Proof.
  intros. unfold round53. destruct (Z.ltb_spec p (2 ^ 53)); [done|].
  assert (0 < 2 ^ (Z.log2 p - 52)) as Hu.
  { apply Z.pow_pos_nonneg; [lia|].
    assert (53 ≤ Z.log2 p) by (apply Z.log2_le_pow2; lia). lia. }
  assert (0 ≤ p / 2 ^ (Z.log2 p - 52)) by (apply Z.div_pos; lia).
  repeat case_match; nia.
Qed.

(** The product never rounds up to [n]: an index drawn this way is in range. *)
Lemma int_scaled_bounds n k :
  0 < n → 0 ≤ k < 2 ^ 53 → 0 ≤ int_scaled n k < n.
Proof.
  intros Hn Hk. unfold int_scaled.
  assert (0 ≤ k * n) by nia.
  split; [apply Z.div_pos; [by apply round53_nonneg|lia]|].
  apply Z.div_lt_upper_bound; [lia|].
  destruct (decide (2 ^ 53 ≤ k * n)) as [Hge|].
  - pose proof (round53_error _ Hge) as [H1 H2].
    set (u := 2 ^ (Z.log2 (k * n) - 52)) in *. nia.
  - unfold round53. destruct (Z.ltb_spec (k * n) (2 ^ 53)); nia.
Qed.

(** Rounding a value that already has 53 significant bits does nothing. *)
Lemma round53_multiple u q : 0 ≤ q ≤ 2 ^ 53 → 0 ≤ u → round53 (q * 2 ^ u) = q * 2 ^ u.
Proof.
  intros Hq Hu. unfold round53. destruct (Z.ltb_spec (q * 2 ^ u) (2 ^ 53)) as [|Hge]; [done|].
  assert (0 < 2 ^ u) by (apply Z.pow_pos_nonneg; lia).
  assert (0 < q) as Hq0 by nia.
  assert ((2 ^ (Z.log2 (q * 2 ^ u) - 52) | q * 2 ^ u)) as Hdiv.
  { destruct (decide (q = 2 ^ 53)) as [->|Hne].
    - rewrite <-Z.pow_add_r by lia. rewrite Z.log2_pow2 by lia.
      exists (2 ^ 52). rewrite <-Z.pow_add_r by lia. f_equal. lia.
    - assert (Z.log2 q ≤ 52) by (pose proof (Z.log2_lt_pow2 q 53 Hq0); lia).
      assert (53 ≤ Z.log2 (q * 2 ^ u)) as Hlog by (apply Z.log2_le_pow2; lia).
      rewrite Z.log2_mul_pow2 in * by lia.
      exists (q * 2 ^ (52 - Z.log2 q)). rewrite <-Z.mul_assoc, <-Z.pow_add_r by lia.
      do 2 f_equal. lia. }
  assert (53 ≤ Z.log2 (q * 2 ^ u)) by (apply Z.log2_le_pow2; lia).
  set (v := 2 ^ (Z.log2 (q * 2 ^ u) - 52)) in *.
  assert (0 < v) by (apply Z.pow_pos_nonneg; lia).
  apply Z.mod_divide in Hdiv as Hmod; [|lia]. rewrite Hmod.
  destruct (Z.ltb_spec (2 * 0) v); [|lia].
  pose proof (Z.div_mod (q * 2 ^ u) v). lia.
Qed.

Lemma round53_idem p : 0 ≤ p → round53 (round53 p) = round53 p.
Proof.
  intros Hp. destruct (decide (p < 2 ^ 53)) as [Hlt|Hge].
  { assert (round53 p = p) as Heq; [|by rewrite !Heq].
    unfold round53. by destruct (Z.ltb_spec p (2 ^ 53)); [|lia]. }
  assert (53 ≤ Z.log2 p) by (apply Z.log2_le_pow2; lia).
  assert (∃ q, 0 ≤ q ≤ 2 ^ 53 ∧ round53 p = q * 2 ^ (Z.log2 p - 52)) as (q & Hq & ->).
  2: { apply round53_multiple; lia. }
  set (u := 2 ^ (Z.log2 p - 52)).
  assert (0 < u) by (apply Z.pow_pos_nonneg; lia).
  assert (0 ≤ p / u < 2 ^ 53).
  { split; [apply Z.div_pos; lia|]. apply Z.div_lt_upper_bound; [done|].
    unfold u. rewrite <-Z.pow_add_r by lia. apply Z.log2_lt_pow2; lia. }
  unfold round53. destruct (Z.ltb_spec p (2 ^ 53)); [lia|]. fold u.
  eexists. split; [|reflexivity]. repeat case_match; lia.
Qed.

Lemma int_affine_0 n k : 0 ≤ n → 0 ≤ k → int_affine n 0 k = int_scaled n k.
Proof.
  intros Hn Hk. unfold int_affine, int_scaled. rewrite Z.mul_0_l, Z.add_0_r.
  rewrite round53_idem; [done|nia].
Qed.

Section Rules.
Context {S : Type}.

Lemma wp_rand_int n (Q : Z → S → world → Prop) E s w :
  0 < n → rng_ok w →
  (∀ i w', 0 ≤ i < n → rng_ok w' → stdout w' = stdout w → Q i s w') →
  wp (rand_int n) Q E s w.
Proof.
  intros Hn Hw HQ. unfold rand_int. wp_pures.
  apply HQ; [by apply int_scaled_bounds|done..].
Qed.

(** A random element of a non-empty list is an element of it. *)
Lemma wp_rand_pick {A} (l : list A) (Q : A → S → world → Prop) E s w :
  l ≠ [] → rng_ok w →
  (∀ x w', x ∈ l → rng_ok w' → stdout w' = stdout w → Q x s w') →
  wp (rand_pick l) Q E s w.
Proof.
  intros Hl Hw HQ. unfold rand_pick. wp_pures.
  apply wp_rand_int; [destruct l; unfold len; simpl; [done|lia]|done|].
  intros i w' Hi Hw' Hout. wp_pures.
  rewrite py_index_nonneg by done. simpl.
  destruct (lookup_lt_is_Some_2 l (Z.to_nat i)) as [x Hx]; [unfold len in *; lia|].
  rewrite Hx. eapply HQ; [|done..]. by eapply list_elem_of_lookup_2.
Qed.

Lemma wp_shuffle {A} (l : list A) (Q : list A → S → world → Prop) E s w :
  rng_ok w → (∀ l' w', l' ≡ₚ l → rng_ok w' → stdout w' = stdout w → Q l' s w') → wp (shuffle l) Q E s w.
Proof.
  intros Hw HQ. unfold shuffle.
  apply (wp_for_acc (λ _ l' s' w', s' = s ∧ l' ≡ₚ l ∧ rng_ok w' ∧ stdout w' = stdout w)); [done| |].
  2: { intros l' s' w' (-> & ? & ? & ?). by apply HQ. }
  intros pre i post l' s' w' Hr (-> & Hl & Hw' & Hout).
  assert (i ∈ range 1 (len l)) as Hi%elem_of_range by (rewrite <-elem_of_reverse, Hr; set_solver).
  assert (len l' = len l) as Hlen by (unfold len; by rewrite Hl).
  wp_pures. apply wp_rand_int; [lia|done|]. intros j w1 Hj Hw1 Hout1. wp_pures.
  destruct (lookup_lt_is_Some_2 l' (Z.to_nat i)) as [x Hx]; [unfold len in *; lia|].
  destruct (lookup_lt_is_Some_2 l' (Z.to_nat j)) as [y Hy]; [unfold len in *; lia|].
  rewrite py_index_nonneg by lia. simpl. rewrite Hx. wp_pures. rewrite py_index_nonneg by lia. simpl. rewrite Hy. wp_pures.
  rewrite py_index_nonneg by lia. simpl. wp_pures.
  rewrite py_index_nonneg by (unfold len; rewrite length_insert; unfold len in *; lia). simpl.
  split_and!; [done| |done|congruence]. rewrite Permutation_insert_swap; [done|done..].
Qed.

(** [random_randint(0, n - 1)] and a random choice stay in range. *)
Lemma wp_randint_0 hi (Q : Z → S → world → Prop) E s w :
  0 ≤ hi → rng_ok w →
  (∀ i w', 0 ≤ i ≤ hi → rng_ok w' → stdout w' = stdout w → Q i s w') →
  wp (random_randint 0 hi) Q E s w.
Proof.
  intros Hn Hw HQ. unfold random_randint. wp_pures. rewrite int_affine_0 by (try apply Hw; lia).
  apply HQ; [|done..]. pose proof (int_scaled_bounds (hi - 0 + 1) (rng w (rpos w))).
  specialize (Hw (rpos w)). lia.
Qed.

Lemma wp_random_choice {A} (l : list A) (Q : A → S → world → Prop) E s w :
  l ≠ [] → rng_ok w →
  (∀ x w', x ∈ l → rng_ok w' → stdout w' = stdout w → Q x s w') →
  wp (random_choice l) Q E s w.
Proof.
  intros Hl Hw HQ. unfold random_choice. wp_pures.
  apply wp_randint_0; [destruct l; unfold len; simpl; [done|lia]|done|].
  intros i w' Hi Hw' Hout. wp_pures.
  rewrite py_index_nonneg by lia. simpl.
  destruct (lookup_lt_is_Some_2 l (Z.to_nat i)) as [x Hx]; [unfold len in *; lia|].
  rewrite Hx. eapply HQ; [|done..]. by eapply list_elem_of_lookup_2.
Qed.
End Rules.

(** *** Drawing until a number is accepted

    Such a loop need not end for every stream, only if the draws do not avoid
    some number for ever. *)

(** Every number below [n] is among any [N] draws that are [stride] apart. *)
Definition spread (n : Z) (stride N : nat) (w : world) : Prop :=
  ∀ i v, 0 ≤ v < n → ∃ k, (k < N)%nat ∧ int_scaled n (rng w (i + stride * k)) = v.

Lemma spread_rng n stride N w w' : rng w' = rng w → spread n stride N w → spread n stride N w'.
Proof. intros Hw Hs i v Hv. rewrite Hw. by apply Hs. Qed.

Lemma rng_ok_rng w w' : rng w' = rng w → rng_ok w → rng_ok w'.
Proof. intros Hw Hok n. rewrite Hw. apply Hok. Qed.

Section Until.
Context {S : Type}.

Lemma wp_draw_below n (Q : Z → S → world → Prop) E s w : 0 < n → rng_ok w →
  (∀ v w', 0 ≤ v < n → rng w' = rng w → stdout w' = stdout w → Q v s w') → wp (draw_below n) Q E s w.
Proof.
  intros Hn Hw HQ. unfold draw_below. destruct (Z.leb_spec 0 n); [|lia]. wp_pures.
  apply HQ; [by apply int_scaled_bounds|done..].
Qed.

(** The loop [x = draw; while not accepted(x): x = draw], or drawing in the
    body only *)
Definition draw_until (fuel : nat) (n : Z) (accept : Z → bool) : M S Z :=
  while_ fuel tt (λ _, v ← rand_int n; mret (if accept v then inr v else inl tt)).

Lemma wp_draw_until fuel n N accept (Q : Z → S → world → Prop) E s w v :
  0 < n → rng_ok w → spread n 1 N w → (N ≤ fuel)%nat → 0 ≤ v < n → accept v = true →
  (∀ v w', 0 ≤ v < n → accept v = true → rng w' = rng w → stdout w' = stdout w → Q v s w') →
  wp (draw_until fuel n accept) Q E s w.
Proof.
  intros Hn Hw Hs Hfuel Hv Hacc HQ. destruct (Hs (rpos w) v Hv) as (k & Hk & Hdraw). rewrite Nat.mul_1_l in Hdraw.
  unfold draw_until. apply (wp_while_bound (λ m _ s' w', s' = s ∧ rng w' = rng w ∧ stdout w' = stdout w ∧ (rpos w' + m = rpos w + k)%nat) _ _ _ _ k).
  - by split_and!.
  - lia.
  - intros m [] s' w' (-> & Hr & Ho & Hp). unfold rand_int. wp_pures. rewrite Hr.
    destruct (accept (int_scaled n (rng w (rpos w')))) eqn:Ha.
    + apply HQ; [by apply int_scaled_bounds|done..].
    + destruct m as [|m].
      { rewrite Nat.add_0_r in Hp. rewrite Hp, Hdraw in Ha. congruence. }
      exists m. split; [lia|]. split_and!; [done..|]. simpl. lia.
Qed.
End Until.

(** *** Concrete generators, for evaluating the models *)

(** Draws given as percentages of the unit interval, then zeros *)
Definition world_of (percents : list Z) : world :=
  World [] (λ n, nth n ((λ p, p * 90071992547409) <$> percents) 0) 0.

Lemma world_of_ok percents :
  Forall (λ p, 0 ≤ p ≤ 100) percents → rng_ok (world_of percents).
Proof.
  intros Hp n. simpl. revert n.
  induction Hp as [|p l Hp Hl IH]; intros [|n]; simpl; try lia. apply IH.
Qed.

(** Draws that count through the unit interval in steps of [2^-j], each step
    drawn [s] times *)
Definition counting (s : nat) (j : Z) : world :=
  World [] (λ n, Z.of_nat (n / s) mod 2 ^ j * 2 ^ (53 - j)) 0.

Lemma counting_ok s j : 0 ≤ j ≤ 53 → rng_ok (counting s j).
Proof.
  intros Hj n. simpl rng. assert (0 < 2 ^ j) by (apply Z.pow_pos_nonneg; lia).
  assert (0 < 2 ^ (53 - j)) by (apply Z.pow_pos_nonneg; lia).
  pose proof (Z.mod_pos_bound (Z.of_nat (n / s)) (2 ^ j) ltac:(done)).
  assert (2 ^ 53 = 2 ^ j * 2 ^ (53 - j)) as -> by (rewrite <-Z.pow_add_r by lia; f_equal; lia). nia.
Qed.

Lemma counting_spread s i j : (0 < s)%nat → 0 ≤ i ≤ j → j ≤ 53 →
  spread (2 ^ i) s (Z.to_nat (2 ^ j)) (counting s j).
Proof.
  intros Hs Hi Hj p v Hv. assert (0 < 2 ^ j) by (apply Z.pow_pos_nonneg; lia).
  assert (2 ^ j = 2 ^ i * 2 ^ (j - i)) as Hji by (rewrite <-Z.pow_add_r by lia; f_equal; lia).
  set (c := v * 2 ^ (j - i)). assert (0 < 2 ^ (j - i)) by (apply Z.pow_pos_nonneg; lia). assert (0 ≤ c < 2 ^ j) by nia.
  pose proof (Z.mod_pos_bound (c - Z.of_nat (p / s)) (2 ^ j) ltac:(done)).
  exists (Z.to_nat ((c - Z.of_nat (p / s)) mod 2 ^ j)). split; [lia|]. simpl.
  rewrite Nat.mul_comm, Nat.div_add, Nat2Z.inj_add, Z2Nat.id, Zplus_mod_idemp_r by lia.
  replace (Z.of_nat (p / s) + (c - Z.of_nat (p / s))) with c by lia. rewrite Z.mod_small by done.
  unfold int_scaled. replace (c * 2 ^ (53 - j) * 2 ^ i) with (v * 2 ^ 53).
  - assert (2 ^ i ≤ 2 ^ 53) by (apply Z.pow_le_mono_r; lia).
    rewrite round53_multiple by lia. by rewrite Z.div_mul.
  - unfold c. rewrite <-!Z.mul_assoc, <-!Z.pow_add_r by lia. do 2 f_equal. lia.
Qed.
