(* ===== verification/PyFloat.v ===== *)
(** * Floating point

    The programs' floats are IEEE doubles: [SpecFloat] at 53 bits. *)
From Stdlib Require Import Floats.SpecFloat.
From S2P Require Import Prelude PyStr.
Open Scope Z_scope.

Definition float : Set := spec_float.

Definition f_of_Z (n : Z) : float := binary_normalize 53 1024 n 0 false.
Definition f_add : float → float → float := SFadd 53 1024.
Definition f_sub : float → float → float := SFsub 53 1024.
Definition f_mul : float → float → float := SFmul 53 1024.
Definition f_zero : float := S754_zero false.

(** The double nearest to [num / den], for positive [num] and [den] *)
Definition f_ratio (num den : positive) : float :=
  let '(q, e, l) := SFdiv_core_binary 53 1024 (Zpos num) 0 (Zpos den) 0 in
  binary_round_aux 53 1024 false q e l.

(** [a / b] *)
Definition f_div {S} (a b : float) : M S float :=
  if SFeqb b f_zero then raise ZeroDivisionError else mret (SFdiv 53 1024 a b).

Definition f_lt : float → float → bool := SFltb.
Definition f_eq : float → float → bool := SFeqb.

(** [int(x)]: towards zero; infinities and NaN do not occur *)
Definition f_trunc (x : float) : Z :=
  match x with
  | S754_finite s m e => (if s then Z.opp else id) (if 0 <=? e then Zpos m * 2 ^ e else Zpos m / 2 ^ (- e))
  | _ => 0
  end.

(** The quotient of nonnegative integers rounded to the nearest, ties to even *)
Definition round_div (a b : Z) : Z :=
  let q := a / b in
  let r := a mod b in
  if 2 * r <? b then q else if b <? 2 * r then q + 1 else if Z.even q then q else q + 1.

(** ['%.df' % x]: the exact value, rounded to [d] decimals *)
Definition fixed_digits (d n : Z) : string :=
  str_of_Z (n / 10 ^ d) +:+ (if 0 <? d then "." +:+ zfill d (str_of_Z (n mod 10 ^ d)) else "").
Definition fmt_f (d : Z) (x : float) : string :=
  match x with
  | S754_zero s => (if s then "-" else "") +:+ fixed_digits d 0
  | S754_finite s m e =>
      (if s then "-" else "") +:+
      fixed_digits d (if 0 <=? e then Zpos m * 2 ^ e * 10 ^ d else round_div (Zpos m * 10 ^ d) (2 ^ (- e)))
  | S754_infinity s => if s then "-inf" else "inf"
  | S754_nan => "nan"
  end.

(** *** [repr(x)]: the shortest decimal that reads back as [x] *)

(** [10^k], also for negative [k], as a fraction *)
Definition pow10 (k : Z) : positive * positive :=
  if 0 <=? k then (Z.to_pos (10 ^ k), 1%positive) else (1%positive, Z.to_pos (10 ^ (- k))).

(** The decimal exponent [k] with [10^k <= num/den < 10^(k+1)] *)
Definition decimal_exponent (num den : positive) : Z :=
  let guess := (Z.log2 (Zpos num) - Z.log2 (Zpos den)) * 30103 / 100000 in
  let le k := let '(a, b) := pow10 k in Zpos a * Zpos den <=? Zpos num * Zpos b in
  if le (guess + 1) then guess + 1 else if le guess then guess else guess - 1.

(** [n] significant digits of [num/den], as an integer and its exponent *)
Definition significant (n k : Z) (num den : positive) : Z * Z :=
  let '(a, b) := pow10 (k - n + 1) in
  (round_div (Zpos num * Zpos b) (Zpos den * Zpos a), k - n + 1).

Definition reads_as (m : positive) (e : Z) (digits k : Z) : bool :=
  let '(a, b) := pow10 k in
  match f_ratio (Z.to_pos digits * a) b with
  | S754_finite false m' e' => (Zpos m =? Zpos m') && (e =? e')
  | _ => false
  end.

Fixpoint shortest (fuel : nat) (n k : Z) (m : positive) (e : Z) (num den : positive) : Z * Z :=
  let p := significant n k num den in
  match fuel with
  | O => p
  | S fuel => if reads_as m e p.1 p.2 then p else shortest fuel (n + 1) k m e num den
  end.

Fixpoint strip_zeros (fuel : nat) (d k : Z) : Z * Z :=
  match fuel with
  | O => (d, k)
  | S fuel => if (d mod 10 =? 0) && negb (d =? 0) then strip_zeros fuel (d / 10) (k + 1) else (d, k)
  end.

(** Plain notation, which Python uses from 1e-4 up to 1e16 *)
Definition f_repr (x : float) : string :=
  match x with
  | S754_zero s => if s then "-0.0" else "0.0"
  | S754_infinity s => if s then "-inf" else "inf"
  | S754_nan => "nan"
  | S754_finite s m e =>
      let num := if 0 <=? e then (m * Z.to_pos (2 ^ e))%positive else m in
      let den := if 0 <=? e then 1%positive else Z.to_pos (2 ^ (- e)) in
      let p := shortest 16 1 (decimal_exponent num den) m e num den in
      let '(d, k) := strip_zeros 17 p.1 p.2 in
      (if s then "-" else "") +:+
      (if 0 <=? k then str_of_Z (d * 10 ^ k) +:+ ".0" else fixed_digits (- k) d)
  end.

(** *** An integer other than zero is not the float zero. *)

Lemma shr_1_pos r : 0 ≤ shr_m r → shr_m (shr_1 r) = shr_m r / 2.
Proof. destruct r as [[|[p|p|]|p] b1 b2]; simpl; intros H; try lia; rewrite <-Z.div2_div; done. Qed.

Lemma shr_iter_pos k r : 0 ≤ shr_m r → shr_m (SpecFloat.iter_pos shr_1 k r) = shr_m r / 2 ^ Zpos k.
Proof.
  assert (∀ k m, 0 ≤ m → 0 ≤ m / 2 ^ Zpos k) as Hnn by (intros; apply Z.div_pos; lia).
  assert (∀ a b m, m / 2 ^ Zpos a / 2 ^ Zpos b = m / 2 ^ (Zpos a + Zpos b)) as Hdiv.
  { intros a b m. by rewrite Z.div_div, Z.pow_add_r by lia. }
  revert r. induction k as [k IH|k IH|]; intros r Hr; simpl SpecFloat.iter_pos.
  - assert (0 ≤ shr_m (shr_1 r)) by (rewrite shr_1_pos by done; apply Z.div_pos; lia).
    rewrite !IH, shr_1_pos, Hdiv, Z.div_div by (try rewrite IH; auto; lia). f_equal.
    rewrite (Pos2Z.inj_xI k), <-Z.pow_succ_r by lia. f_equal. lia.
  - rewrite !IH, Hdiv by (try rewrite IH; auto). f_equal. rewrite (Pos2Z.inj_xO k). f_equal. lia.
  - by apply shr_1_pos.
Qed.

Lemma digits2_spec m : 0 < m → 2 ^ (Zdigits2 m - 1) ≤ m ∧ 1 ≤ Zdigits2 m.
Proof.
  destruct m as [|p|p]; [lia| |lia]. intros _. simpl. split; [|lia].
  induction p as [p IH|p IH|]; simpl; [| |done]; rewrite Pos2Z.inj_succ; 
    replace (Z.succ (Zpos (digits2_pos p)) - 1) with (Z.succ (Zpos (digits2_pos p) - 1)) by lia; rewrite Z.pow_succ_r by lia; lia.
Qed.

Lemma shr_fexp_pos m e l : 0 < m → -1074 ≤ e →
  0 < shr_m (shr_fexp 53 1024 m e l).1 ∧ -1074 ≤ (shr_fexp 53 1024 m e l).2.
Proof.
  intros Hm He. destruct (digits2_spec m Hm) as [Hd Hd1]. unfold shr_fexp, shr, fexp, emin.
  assert (shr_m (shr_record_of_loc m l) = m) as Hr by (by destruct l as [|[]]).
  destruct (_ - e) as [|k|k] eqn:Hk; simpl; rewrite ?Hr; [lia| |lia]. split; [|lia].
  rewrite shr_iter_pos, Hr by (rewrite Hr; lia). apply Z.div_str_pos. split; [lia|].
  etransitivity; [|exact Hd]. apply Z.pow_le_mono_r; lia.
Qed.

Lemma f_of_Z_nonzero m : 0 < m → SFeqb (f_of_Z m) f_zero = false.
Proof.
  intros Hm. unfold f_of_Z, binary_normalize. destruct m as [|p|p]; [lia| |lia]. unfold binary_round.
  destruct (shl_align _ _ _) as [mz ez] eqn:Hal. assert (-1074 ≤ ez) as Hez.
  { unfold shl_align, fexp, emin in Hal. destruct (_ - 0) as [|d|d] eqn:Hd; injection Hal as <- <-; lia. }
  unfold binary_round_aux. destruct (shr_fexp_pos (Zpos mz) ez loc_Exact ltac:(lia) Hez) as [H1 H2].
  destruct (shr_fexp 53 1024 (Zpos mz) ez loc_Exact) as [r e']. simpl in H1, H2.
  set (m' := round_nearest_even _ _). assert (0 < m') as Hm' by (unfold m', round_nearest_even; repeat case_match; lia).
  destruct (shr_fexp_pos m' e' loc_Exact Hm' H2) as [H3 _]. destruct (shr_fexp 53 1024 m' e' loc_Exact) as [r' e'']. simpl in *.
  destruct (shr_m r'); [lia| |lia]. by destruct (e'' <=? 1024 - 53).
Qed.

Example repr_tenth : f_repr (f_ratio 1 10) = "0.1".
Proof. vm_compute. reflexivity. Qed.
Example repr_sum : f_repr (f_add (f_ratio 1 10) (f_ratio 2 10)) = "0.30000000000000004".
Proof. vm_compute. reflexivity. Qed.
Example repr_third : fmt_f 2 (f_mul (f_of_Z 100) (f_ratio 1 3)) = "33.33" ∧ f_repr (f_of_Z 1230) = "1230.0".
Proof. split; vm_compute; reflexivity. Qed.
