(* ===== verification/PyFloatInt.v ===== *)
(** * Integers as floats

    Below [2^53] the doubles compute with integers exactly: [f_of_Z] commutes
    with sum, difference and product and keeps the order. *)
From Stdlib Require Import Floats.SpecFloat.
From S2P Require Import Prelude PyStr PyFloat.
Open Scope Z_scope.

Definition small (n : Z) : Prop := Z.abs n < 2 ^ 53.

(** ** Rounding a number that needs no rounding *)

Lemma digits2_log2 p : Zdigits2 (Zpos p) = Z.log2 (Zpos p) + 1.
Proof.
  assert (digits2_pos p = Pos.size p) as H by (induction p as [p IH|p IH|]; simpl; congruence).
  simpl. rewrite H. destruct p; simpl; lia.
Qed.

Lemma shr_1_even a : 0 ≤ a → shr_1 (Build_shr_record (a * 2) false false) = Build_shr_record a false false.
Proof. destruct a as [|p|p]; [done| |lia]. intros _. by rewrite Z.mul_comm. Qed.

Lemma shr_iter_even k a : 0 ≤ a →
  SpecFloat.iter_pos shr_1 k (Build_shr_record (a * 2 ^ Zpos k) false false) = Build_shr_record a false false.
Proof.
  revert a. induction k as [k IH|k IH|]; intros a Ha; cbn [SpecFloat.iter_pos].
  - assert (0 ≤ 2 ^ Zpos k) by (apply Z.pow_nonneg; lia).
    replace (a * 2 ^ Zpos k~1) with (a * 2 ^ Zpos k * 2 ^ Zpos k * 2).
    + rewrite shr_1_even, !IH by nia. done.
    + rewrite <-!Z.mul_assoc. f_equal. rewrite (Z.mul_comm _ 2), Z.mul_shuffle3, <-Z.pow_add_r, <-Z.pow_succ_r by lia.
      f_equal. lia.
  - replace (2 ^ Zpos k~0) with (2 ^ Zpos k * 2 ^ Zpos k) by (rewrite <-Z.pow_add_r by lia; f_equal; lia).
    rewrite (assoc Z.mul), !IH; [done| |]; assert (0 ≤ 2 ^ Zpos k) by (apply Z.pow_nonneg; lia); nia.
  - by apply shr_1_even.
Qed.

Lemma shr_even j a e : 0 ≤ j → 0 ≤ a →
  shr (Build_shr_record (a * 2 ^ j) false false) e j = (Build_shr_record a false false, e + j).
Proof.
  intros Hj Ha. destruct j as [|j|j]; simpl; [|by rewrite shr_iter_even|lia]. by rewrite Z.mul_1_r, Z.add_0_r.
Qed.

(** The significand and the exponent of a positive integer [p] *)
Definition scale (p : positive) : Z := 52 - Z.log2 (Zpos p).
Definition signif (p : positive) : positive := Z.to_pos (Zpos p * 2 ^ scale p).

Lemma scale_bounds p : Zpos p < 2 ^ 53 → 0 ≤ scale p ≤ 52.
Proof.
  intros Hp. unfold scale. pose proof (Z.log2_nonneg (Zpos p)). apply Z.log2_lt_pow2 in Hp; lia.
Qed.

Lemma signif_spec p : Zpos p < 2 ^ 53 →
  Zpos (signif p) = Zpos p * 2 ^ scale p ∧ 2 ^ 52 ≤ Zpos (signif p) < 2 ^ 53.
Proof.
  intros Hp. pose proof (scale_bounds p Hp) as Hs. assert (0 < 2 ^ scale p) by (apply Z.pow_pos_nonneg; lia).
  assert (Zpos (signif p) = Zpos p * 2 ^ scale p) as Heq by (unfold signif; rewrite Z2Pos.id; nia).
  split; [done|]. rewrite Heq. destruct (Z.log2_spec (Zpos p)) as [H1 H2]; [lia|].
  assert (2 ^ 52 = 2 ^ Z.log2 (Zpos p) * 2 ^ scale p) as H52.
  { unfold scale in *. rewrite <-Z.pow_add_r by (try apply Z.log2_nonneg; lia). f_equal. lia. }
  rewrite Z.pow_succ_r in H2 by apply Z.log2_nonneg. nia.
Qed.

Lemma log2_signif p : Zpos p < 2 ^ 53 → Z.log2 (Zpos (signif p)) = 52.
Proof. intros Hp. destruct (signif_spec p Hp) as [_ [H1 H2]]. by apply Z.log2_unique. Qed.

(** Rounding [p * 2^k / 2^k], where [k] leaves enough digits *)
Lemma round_aux_exact s p m k : Zpos p < 2 ^ 53 → Zpos m = Zpos p * 2 ^ k → scale p ≤ k →
  binary_round_aux 53 1024 s (Zpos m) (- k) loc_Exact = S754_finite s (signif p) (- scale p).
Proof.
  intros Hp Hm Hk. destruct (signif_spec p Hp) as [Hsig Hb]. pose proof (scale_bounds p Hp) as Hs.
  unfold binary_round_aux, shr_fexp, fexp, emin. rewrite digits2_log2. cbn [shr_record_of_loc].
  assert (Z.log2 (Zpos m) = Z.log2 (Zpos p) + k) as -> by (rewrite Hm, Z.log2_mul_pow2 by lia; lia).
  replace (Z.max (Z.log2 (Zpos p) + k + 1 + - k - 53) (3 - 1024 - 53) - - k) with (k - scale p) by (unfold scale in *; lia).
  assert (Zpos m = Zpos (signif p) * 2 ^ (k - scale p)) as ->.
  { rewrite Hsig, Hm, <-Z.mul_assoc, <-Z.pow_add_r by lia. do 2 f_equal. lia. }
  rewrite shr_even by lia. cbn [shr_m loc_of_shr_record round_nearest_even shr_record_of_loc].
  rewrite digits2_log2, log2_signif by done. replace (- k + (k - scale p)) with (- scale p) by lia.
  replace (Z.max (52 + 1 + - scale p - 53) (3 - 1024 - 53) - - scale p) with 0 by lia.
  cbn [shr shr_m]. destruct (Z.leb_spec (- scale p) (1024 - 53)); [done|lia].
Qed.

Lemma shift_pos_spec d m : Zpos (Pos.iter xO m d) = Zpos m * 2 ^ Zpos d.
Proof. rewrite Z.mul_comm. apply Zpower.shift_pos_correct. Qed.

Lemma round_exact s p m k : Zpos p < 2 ^ 53 → Zpos m = Zpos p * 2 ^ k → 0 ≤ k →
  binary_round 53 1024 s m (- k) = S754_finite s (signif p) (- scale p).
Proof.
  intros Hp Hm Hk. pose proof (scale_bounds p Hp) as Hs. unfold binary_round, fexp, emin.
  change (Zpos (digits2_pos m)) with (Zdigits2 (Zpos m)). rewrite digits2_log2.
  assert (Z.log2 (Zpos m) = Z.log2 (Zpos p) + k) as -> by (rewrite Hm, Z.log2_mul_pow2 by lia; lia).
  replace (Z.max (Z.log2 (Zpos p) + k + 1 + - k - 53) (3 - 1024 - 53)) with (- scale p) by (unfold scale in *; lia).
  unfold shl_align. destruct (- scale p - - k) as [|d|d] eqn:Hd.
  1, 2: apply round_aux_exact; [done..|lia].
  replace (- scale p) with (- (k + Zpos d)) at 1 by lia. apply round_aux_exact; [done| |lia].
  rewrite Z.pow_add_r, Z.mul_assoc, <-Hm by lia. apply shift_pos_spec.
Qed.

(** An integer times a power of two, divided by it *)
Lemma normalize_exact n k : small n → 0 ≤ k → binary_normalize 53 1024 (n * 2 ^ k) (- k) false = f_of_Z n.
Proof.
  unfold small. intros Hn Hk. assert (0 < 2 ^ k) as Hp by (apply Z.pow_pos_nonneg; lia). unfold f_of_Z.
  destruct n as [|p|p]; [done| |]; unfold binary_normalize.
  - destruct (Zpos p * 2 ^ k) as [|m|m] eqn:Hm; [lia| |lia].
    rewrite (round_exact _ p m k), <-(round_exact _ p p 0) by lia. done.
  - destruct (Zneg p * 2 ^ k) as [|m|m] eqn:Hm; [lia|lia|].
    rewrite (round_exact _ p m k), <-(round_exact _ p p 0) by lia. done.
Qed.

(** What [f_of_Z] computes *)
Lemma f_of_Z_pos p : Zpos p < 2 ^ 53 → f_of_Z (Zpos p) = S754_finite false (signif p) (- scale p).
Proof. intros Hp. unfold f_of_Z, binary_normalize. by rewrite <-(round_exact _ p p 0) by lia. Qed.
Lemma f_of_Z_neg p : Zpos p < 2 ^ 53 → f_of_Z (Zneg p) = S754_finite true (signif p) (- scale p).
Proof. intros Hp. unfold f_of_Z, binary_normalize. by rewrite <-(round_exact _ p p 0) by lia. Qed.

(** The cases of a small integer, with its float *)
Lemma f_of_Z_cases n : small n → n = 0 ∧ f_of_Z n = S754_zero false ∨
  ∃ m k, 0 ≤ k ≤ 52 ∧ 2 ^ 52 ≤ Zpos m < 2 ^ 53 ∧ Zpos m = Z.abs n * 2 ^ k ∧ f_of_Z n = S754_finite (n <? 0) m (- k).
Proof.
  unfold small. intros Hn. destruct n as [|p|p]; [by left| |]; right; exists (signif p), (scale p);
    (destruct (signif_spec p) as [Hsig Hb]; [lia|]); (split; [apply scale_bounds; lia|split; [done|split; [done|]]]).
  - apply f_of_Z_pos. lia.
  - apply f_of_Z_neg. lia.
Qed.

(** ** The operations *)

Lemma aligned m k k' : k ≤ k' → Zpos (fst (shl_align m (- k) (- k'))) = Zpos m * 2 ^ (k' - k).
Proof.
  intros Hk. unfold shl_align. destruct (- k' - - k) as [|d|d] eqn:Hd; cbn [fst]; [|lia|].
  - replace (k' - k) with 0 by lia. lia.
  - rewrite shift_pos_spec. do 2 f_equal. lia.
Qed.

Lemma f_add_of_Z a b : small a → small b → small (a + b) → f_add (f_of_Z a) (f_of_Z b) = f_of_Z (a + b).
Proof.
  intros Ha Hb Hab. destruct (f_of_Z_cases a Ha) as [[-> Ea]|(m & k & Hk & _ & Hm & Ea)].
  { rewrite Ea, Z.add_0_l. unfold f_add, SFadd. destruct (f_of_Z_cases b Hb) as [[-> Eb]|(m' & k' & _ & _ & _ & Eb)]; by rewrite Eb. }
  destruct (f_of_Z_cases b Hb) as [[-> Eb]|(m' & k' & Hk' & _ & Hm' & Eb)]; rewrite Ea, Eb; [by rewrite Z.add_0_r, Ea|].
  unfold f_add, SFadd. replace (Z.min (- k) (- k')) with (- Z.max k k') by lia. rewrite !aligned by lia.
  rewrite <-(normalize_exact (a + b) (Z.max k k')) by (done || lia). f_equal.
  assert (∀ n m k K, k ≤ K → 0 ≤ k → Zpos m = Z.abs n * 2 ^ k → cond_Zopp (n <? 0) (Zpos m * 2 ^ (K - k)) = n * 2 ^ K) as Hc.
  { intros n p j K HjK Hj Hp. assert (2 ^ K = 2 ^ j * 2 ^ (K - j)) as -> by (rewrite <-Z.pow_add_r by lia; f_equal; lia).
    rewrite Hp. destruct (Z.ltb_spec n 0); simpl; lia. }
  rewrite !Hc by (done || lia). lia.
Qed.

Lemma f_sub_of_Z a b : small a → small b → small (a - b) → f_sub (f_of_Z a) (f_of_Z b) = f_of_Z (a - b).
Proof.
  intros Ha Hb Hab. destruct (f_of_Z_cases b Hb) as [[-> Eb]|(m' & k' & Hk' & _ & Hm' & Eb)].
  { rewrite Eb, Z.sub_0_r. unfold f_sub, SFsub. destruct (f_of_Z_cases a Ha) as [[-> Ea]|(m & k & _ & _ & _ & Ea)]; by rewrite Ea. }
  assert (f_of_Z (- b) = S754_finite (negb (b <? 0)) m' (- k')) as Eb'.
  { unfold small in Hb. destruct b as [|p|p]; [done| |].
    - change (- Zpos p) with (Zneg p). rewrite f_of_Z_pos in Eb by lia. rewrite f_of_Z_neg by lia. simpl in *. congruence.
    - change (- Zneg p) with (Zpos p). rewrite f_of_Z_neg in Eb by lia. rewrite f_of_Z_pos by lia. simpl in *. congruence. }
  rewrite <-Z.add_opp_r, <-f_add_of_Z by (unfold small in *; lia). rewrite Eb', Eb.
  unfold f_sub, f_add, SFsub, SFadd. destruct (f_of_Z a); [done..|]. f_equal. by destruct (b <? 0).
Qed.

(** Not below zero, where a product may be the other zero *)
Lemma f_mul_of_Z a b : small a → small b → small (a * b) → 0 ≤ a → 0 ≤ b → f_mul (f_of_Z a) (f_of_Z b) = f_of_Z (a * b).
Proof.
  unfold small. intros Ha Hb Hab Ha0 Hb0. destruct a as [|p|]; [|destruct b as [|q|]|]; [| | |lia..].
  { destruct b as [|q|]; [done| |lia]. by rewrite (f_of_Z_pos q) by lia. }
  { by rewrite (f_of_Z_pos p) by lia. }
  rewrite (f_of_Z_pos p), (f_of_Z_pos q) by lia. simpl in Hab. change (Zpos p * Zpos q) with (Zpos (p * q)).
  rewrite (f_of_Z_pos (p * q)) by lia. unfold f_mul, SFmul. simpl xorb.
  destruct (signif_spec p) as [Hp _]; [lia|]. destruct (signif_spec q) as [Hq _]; [lia|].
  pose proof (scale_bounds p ltac:(lia)) as Hsp. pose proof (scale_bounds q ltac:(lia)) as Hsq.
  replace (- scale p + - scale q) with (- (scale p + scale q)) by lia. apply round_aux_exact; [lia| |].
  - rewrite !Pos2Z.inj_mul, Hp, Hq, Z.pow_add_r by lia. lia.
  - unfold scale in *. pose proof (Z.log2_mul_below (Zpos p) (Zpos q) ltac:(lia) ltac:(lia)) as Hl.
    change (Zpos p * Zpos q) with (Zpos (p * q)) in Hl. lia.
Qed.

Lemma scaled_lt a b m m' k k' : 2 ^ 52 ≤ Zpos m < 2 ^ 53 → 2 ^ 52 ≤ Zpos m' < 2 ^ 53 → 0 ≤ k' < k →
  Zpos m = a * 2 ^ k → Zpos m' = b * 2 ^ k' → a < b.
Proof.
  intros Hm Hm' Hk Ha Hb. assert (2 ^ k = 2 ^ k' * (2 * 2 ^ (k - k' - 1))) as Hpow.
  { rewrite <-Z.pow_succ_r, <-Z.pow_add_r by lia. f_equal. lia. }
  assert (0 < 2 ^ k') by (apply Z.pow_pos_nonneg; lia). assert (0 < 2 ^ (k - k' - 1)) by (apply Z.pow_pos_nonneg; lia).
  rewrite Hpow in Ha. assert (0 < a) by nia. assert (a * (2 * 2 ^ k') ≤ Zpos m) by nia. nia.
Qed.

(** The order of two positive magnitudes *)
Lemma compare_scaled a b m m' k k' : 2 ^ 52 ≤ Zpos m < 2 ^ 53 → 2 ^ 52 ≤ Zpos m' < 2 ^ 53 → 0 ≤ k → 0 ≤ k' →
  Zpos m = a * 2 ^ k → Zpos m' = b * 2 ^ k' →
  match - k ?= - k' with Lt => Lt | Gt => Gt | Eq => Pos.compare_cont Eq m m' end = (a ?= b).
Proof.
  intros Hm Hm' Hk Hk' Ha Hb. destruct (Z.compare_spec (- k) (- k')) as [Heq|Hlt|Hgt]; symmetry.
  - assert (k = k') as -> by lia. assert (0 < 2 ^ k') by (apply Z.pow_pos_nonneg; lia).
    change (Pos.compare_cont Eq m m') with (Zpos m ?= Zpos m'). rewrite Ha, Hb. by rewrite <-Zmult_compare_compat_r by lia.
  - apply Z.compare_lt_iff. apply (scaled_lt a b m m' k k'); [done..|lia|done|done].
  - apply Z.compare_gt_iff. apply (scaled_lt b a m' m k' k); [done..|lia|done|done].
Qed.

Lemma f_compare_of_Z a b : small a → small b → SFcompare (f_of_Z a) (f_of_Z b) = Some (a ?= b).
Proof.
  intros Ha Hb.
  destruct (f_of_Z_cases a Ha) as [[-> Ea]|(m & k & Hk & Hmb & Hm & Ea)],
    (f_of_Z_cases b Hb) as [[-> Eb]|(m' & k' & Hk' & Hmb' & Hm' & Eb)]; rewrite ?Ea, ?Eb; cbn [SFcompare]; f_equal.
  - assert (b ≠ 0) by (intros ->; lia). destruct (Z.ltb_spec b 0); symmetry; [apply Z.compare_gt_iff|apply Z.compare_lt_iff]; lia.
  - assert (a ≠ 0) by (intros ->; lia). destruct (Z.ltb_spec a 0); symmetry; [apply Z.compare_lt_iff|apply Z.compare_gt_iff]; lia.
  - assert (a ≠ 0) by (intros ->; lia). assert (b ≠ 0) by (intros ->; lia).
    destruct (Z.ltb_spec a 0), (Z.ltb_spec b 0); simpl.
    + transitivity (CompOpp (- a ?= - b)); [|by rewrite Z.compare_opp, <-Z.compare_antisym].
      rewrite <-(compare_scaled (- a) (- b) m m' k k') by (done || lia). by destruct (- k ?= - k').
    + symmetry. apply Z.compare_lt_iff. lia.
    + symmetry. apply Z.compare_gt_iff. lia.
    + rewrite <-(compare_scaled a b m m' k k') by (done || lia). done.
Qed.

Lemma f_lt_of_Z a b : small a → small b → f_lt (f_of_Z a) (f_of_Z b) = (a <? b).
Proof. intros Ha Hb. unfold f_lt, SFltb. rewrite f_compare_of_Z by done. unfold Z.ltb. by destruct (a ?= b). Qed.

Lemma f_eq_of_Z a b : small a → small b → f_eq (f_of_Z a) (f_of_Z b) = (a =? b).
Proof.
  intros Ha Hb. unfold f_eq, SFeqb. rewrite f_compare_of_Z by done. destruct (Z.eqb_spec a b) as [->|Hne].
  - by rewrite Z.compare_refl.
  - destruct (Z.compare_spec a b); [lia|done|done].
Qed.

Lemma f_of_Z_inj a b : small a → small b → f_of_Z a = f_of_Z b → a = b.
Proof.
  intros Ha Hb Heq. pose proof (f_compare_of_Z a b Ha Hb) as Hc. rewrite Heq, f_compare_of_Z in Hc by done.
  rewrite Z.compare_refl in Hc. injection Hc as Hc. symmetry in Hc. by apply Z.compare_eq in Hc.
Qed.
