(* ===== verification/PyDict.v ===== *)
(** * Dicts in insertion order

    A Python dict as the list of its items, for the dicts whose order the
    programs show: an assignment keeps the place of a key that is present and
    puts a new key last. *)
From S2P Require Import Prelude.
Open Scope Z_scope.

Section OrderedDict.
Context {K A : Type} `{!EqDecision K}.

Definition odict : Type := list (K * A).

(** [d.get(k)] *)
Fixpoint od_get (k : K) (d : odict) : option A :=
  match d with
  | [] => None
  | (k', a) :: d => if decide (k = k') then Some a else od_get k d
  end.

(** [d[k] = a] *)
Fixpoint od_set (k : K) (a : A) (d : odict) : odict :=
  match d with
  | [] => [(k, a)]
  | (k', a') :: d => if decide (k = k') then (k, a) :: d else (k', a') :: od_set k a d
  end.

(** [del d[k]] *)
Fixpoint od_del (k : K) (d : odict) : odict :=
  match d with
  | [] => []
  | (k', a) :: d => if decide (k = k') then od_del k d else (k', a) :: od_del k d
  end.

(** [k in d] *)
Definition od_mem (k : K) (d : odict) : bool := match od_get k d with Some _ => true | None => false end.

(** [d[k]] *)
Definition od_lookup {S} (d : odict) (k : K) : M S A := of_option KeyError (od_get k d).

Lemma od_get_set k k' a d : od_get k (od_set k' a d) = if decide (k = k') then Some a else od_get k d.
Proof.
  induction d as [|[j b] d IH]; simpl; [done|].
  destruct (decide (k' = j)) as [->|]; simpl; [by destruct (decide (k = j))|].
  destruct (decide (k = j)) as [->|]; [|done]. by rewrite decide_False.
Qed.

Lemma od_get_del k k' d : od_get k (od_del k' d) = if decide (k = k') then None else od_get k d.
Proof.
  induction d as [|[j b] d IH]; simpl; [by case_decide|].
  destruct (decide (k' = j)) as [->|]; simpl; [rewrite IH; by destruct (decide (k = j))|].
  destruct (decide (k = j)) as [->|]; [|done]. by rewrite decide_False.
Qed.

Lemma od_get_elem k a d : od_get k d = Some a → (k, a) ∈ d.
Proof.
  induction d as [|[j b] d IH]; simpl; [done|].
  case_decide; [intros [= ->]; subst; left|right; auto].
Qed.

(** The keys in order, and what assignments and deletions do to them *)
Lemma od_keys_set k a d : is_Some (od_get k d) → (od_set k a d).*1 = d.*1.
Proof.
  induction d as [|[j b] d IH]; simpl; [by intros []|].
  case_decide; simpl; [by subst|]. intros Hk. f_equal. by apply IH.
Qed.

Lemma od_keys_new k a d : od_get k d = None → (od_set k a d).*1 = d.*1 ++ [k].
Proof.
  induction d as [|[j b] d IH]; simpl; [done|].
  case_decide; [done|]. intros Hk. simpl. f_equal. by apply IH.
Qed.

Lemma od_get_None k d : od_get k d = None ↔ k ∉ d.*1.
Proof.
  induction d as [|[j b] d IH]; simpl; [by rewrite elem_of_nil; split; [intros _ []|]|].
  rewrite not_elem_of_cons. case_decide; [naive_solver|]. rewrite IH. naive_solver.
Qed.

(** A new key goes last. *)
Lemma od_set_new k a d : od_get k d = None → od_set k a d = d ++ [(k, a)].
Proof. induction d as [|[j b] d IH]; simpl; [done|]. case_decide; [done|]. intros Hk. f_equal. by apply IH. Qed.

Lemma od_get_app k d d' : od_get k (d ++ d') = match od_get k d with Some a => Some a | None => od_get k d' end.
Proof. induction d as [|[j b] d IH]; simpl; [done|]. by case_decide. Qed.

Lemma od_get_NoDup k a d : NoDup d.*1 → (k, a) ∈ d → od_get k d = Some a.
Proof.
  induction d as [|[j b] d IH]; simpl; [intros _ []%elem_of_nil|]. intros [Hj Hnd]%NoDup_cons [[= -> ->]|Hin]%elem_of_cons.
  - by rewrite decide_True.
  - rewrite decide_False; [by apply IH|]. intros ->. apply Hj. apply list_elem_of_fmap. by exists (j, a).
Qed.

Lemma elem_of_od_del k a k' d : (k, a) ∈ od_del k' d ↔ (k, a) ∈ d ∧ k ≠ k'.
Proof.
  induction d as [|[j b] d IH]; simpl; [by rewrite elem_of_nil; split; [intros []|intros [[] _]]|]. rewrite elem_of_cons.
  case_decide as Hj; [subst j; rewrite IH; naive_solver|]. rewrite elem_of_cons, IH. naive_solver.
Qed.

Lemma od_del_perm k a d : NoDup d.*1 → (k, a) ∈ d → d ≡ₚ (k, a) :: od_del k d.
Proof.
  induction d as [|[j b] d IH]; simpl; [by intros _ []%elem_of_nil|]. intros [Hj Hnd]%NoDup_cons [[= -> ->]|Hin]%elem_of_cons.
  - rewrite decide_True by done. constructor. assert (od_del j d = d) as ->; [|done]. clear -Hj.
    induction d as [|[i c] d IH]; simpl in *; [done|]. apply not_elem_of_cons in Hj as [? ?]. rewrite decide_False by done. f_equal. by apply IH.
  - rewrite decide_False; [|intros ->; apply Hj; apply list_elem_of_fmap; by exists (j, a)]. rewrite (IH Hnd Hin) at 1. constructor.
Qed.

Lemma wp_od_lookup {S} d k (Q : A → S → world → Prop) E s w :
  wp (od_lookup d k) Q E s w = match od_get k d with Some a => Q a s w | None => E KeyError s w end.
Proof. apply wp_of_option. Qed.
End OrderedDict.
Arguments odict : clear implicits.
#[export] Hint Rewrite @wp_od_lookup : wp.
Create Rewrite HintDb odict.
#[export] Hint Rewrite @od_get_set @od_get_del : odict.
