(* ===== verification/Malloc.v ===== *)
(** * The free-space manager: [vm-freespace/malloc.py]

    The class [malloc] keeps a list of free chunks and a dict from the
    addresses it handed out to their sizes.  This file models the class, the
    two drivers of the script (a random workload and an explicit list of
    operations), and shows that the free list and the allocated chunks always
    partition the heap. *)
From S2P Require Import Prelude PyStr PyRandom.
Open Scope Z_scope.

(** ** The object *)

Inductive policy := FIRST | BEST | WORST.
Inductive order := ADDRSORT | SIZESORT_UP | SIZESORT_DOWN | INSERT_FRONT | INSERT_BACK.

#[export] Instance policy_eq_dec : EqDecision policy.
Proof. solve_decision. Defined.
#[export] Instance order_eq_dec : EqDecision order.
Proof. solve_decision. Defined.

Definition policy_of_string (s : string) : option policy :=
  if bool_decide (s = "FIRST") then Some FIRST
  else if bool_decide (s = "BEST") then Some BEST
  else if bool_decide (s = "WORST") then Some WORST
  else None.

Definition order_of_string (s : string) : option order :=
  if bool_decide (s = "ADDRSORT") then Some ADDRSORT
  else if bool_decide (s = "SIZESORT+") then Some SIZESORT_UP
  else if bool_decide (s = "SIZESORT-") then Some SIZESORT_DOWN
  else if bool_decide (s = "INSERT-FRONT") then Some INSERT_FRONT
  else if bool_decide (s = "INSERT-BACK") then Some INSERT_BACK
  else None.

Record heap := Heap {
  size : Z;
  headerSize : Z;
  freelist : list (Z * Z);
  sizemap : gmap Z Z;
  hpolicy : policy;
  returnPolicy : order;
  coalesce : bool;
  align : Z;
}.

Definition set_freelist (l : list (Z * Z)) (h : heap) : heap :=
  Heap (size h) (headerSize h) l (sizemap h) (hpolicy h) (returnPolicy h) (coalesce h) (align h).

Definition set_sizemap (m : gmap Z Z) (h : heap) : heap :=
  Heap (size h) (headerSize h) (freelist h) m (hpolicy h) (returnPolicy h) (coalesce h) (align h).

(** [__init__]; [None] when one of its assertions fails *)
Definition init (size start headerSize : Z) (policy order : string)
    (coalesce : bool) (align : Z) : option heap :=
  p ← policy_of_string policy;
  o ← order_of_string order;
  if (align =? -1) || (0 <? align) then
    Some (Heap size headerSize [(start, size)] ∅ p o coalesce align)
  else None.

Definition addToMap (addr sz : Z) : M heap unit :=
  h ← get;
  passert (bool_decide (sizemap h !! addr = None));;
  modify (set_sizemap (<[addr := sz]> (sizemap h))).

(** *** Searching the free list *)

Record candidate := Candidate { bestAddr : Z; bestSize : Z; bestIdx : Z }.

Definition better (p : policy) (esize bestSize : Z) : bool :=
  match p with
  | BEST => esize <? bestSize
  | WORST => bestSize <? esize
  | FIRST => true
  end.

(** The [for i in range(len(self.freelist))] loop from index [i] on: the
    candidate and the number of elements looked at. *)
Fixpoint search (p : policy) (sz : Z) (l : list (Z * Z)) (i : Z) (b : candidate)
    (count : Z) : candidate * Z :=
  match l with
  | [] => (b, count)
  | (eaddr, esize) :: l' =>
      if (sz <=? esize) && better p esize (bestSize b) then
        match p with
        | FIRST => (Candidate eaddr esize i, count + 1)
        | _ => search p sz l' (i + 1) (Candidate eaddr esize i) (count + 1)
        end
      else search p sz l' (i + 1) b (count + 1)
  end.

(** The size really taken for a request: aligned, plus the header *)
Definition chunk_size (h : heap) (sz : Z) : Z :=
  (if align h =? -1 then sz
   else
     let left := sz mod align h in
     sz + (if left =? 0 then 0 else align h - left))
  + headerSize h.

Definition start_candidate (h : heap) : candidate :=
  Candidate 0 (match hpolicy h with BEST => size h + 1 | _ => -1 end) (-1).

Definition malloc (request : Z) : M heap (Z * Z) :=
  h ← get;
  let sz := chunk_size h request in
  let '(b, count) := search (hpolicy h) sz (freelist h) 0 (start_candidate h) 0 in
  if negb (bestIdx b =? -1) then
    (if sz <? bestSize b then
       l ← list_set (freelist h) (bestIdx b) (bestAddr b + sz, bestSize b - sz);
       modify (set_freelist l);;
       addToMap (bestAddr b) sz
     else if bestSize b =? sz then
       r ← list_pop (freelist h) (bestIdx b);
       modify (set_freelist r.2);;
       addToMap (bestAddr b) sz
     else raise NameError);;
    mret (bestAddr b, count)
  else mret (-1, count).

(** *** Freeing *)

Fixpoint coalesce_from (curr : Z * Z) (l : list (Z * Z)) : list (Z * Z) :=
  match l with
  | [] => [curr]
  | (eaddr, esize) :: l' =>
      if eaddr =? curr.1 + curr.2 then coalesce_from (curr.1, curr.2 + esize) l'
      else curr :: coalesce_from (eaddr, esize) l'
  end.

Definition insert_chunk (o : order) (c : Z * Z) (l : list (Z * Z)) : list (Z * Z) :=
  match o with
  | INSERT_BACK => l ++ [c]
  | INSERT_FRONT => c :: l
  | ADDRSORT => stable_sort (λ x y, x.1 <=? y.1) (l ++ [c])
  | SIZESORT_UP => stable_sort (λ x y, x.2 <=? y.2) (l ++ [c])
  | SIZESORT_DOWN => stable_sort (λ x y, y.2 <=? x.2) (l ++ [c])
  end.

Definition free (addr : Z) : M heap Z :=
  h ← get;
  match sizemap h !! addr with
  | None => mret (-1)
  | Some sz =>
      let l := insert_chunk (returnPolicy h) (addr, sz) (freelist h) in
      l ← (if coalesce h then
             match l with
             | [] => raise IndexError
             | curr :: l' => mret (coalesce_from curr l')
             end
           else mret l);
      modify (set_freelist l);;
      h ← get;
      modify (set_sizemap (delete addr (sizemap h)));;
      mret 0
  end.

Definition dump : M heap unit :=
  h ← get;
  put_str ("Free List [ Size " +:+ str_of_Z (len (freelist h)) +:+ " ]: ");;
  for_ (freelist h) (λ e,
    put_str ("[ addr:" +:+ str_of_Z e.1 +:+ " sz:" +:+ str_of_Z e.2 +:+ " ]"));;
  print "".

(** ** The drivers of the script *)

Record options := Options {
  o_headerSize : Z;
  opsNum : Z;
  opsRange : Z;
  opsPAlloc : Z;
  solve : bool;
}.

(** The globals of the main program: the object [m], the dict [p] from request
    numbers to pointers, the list [L] of its keys, and the counters. *)
Record driver := Driver {
  m : heap;
  p : gmap Z Z;
  L : list Z;
  c : Z;
  j : Z;
}.

Definition set_m (h : heap) (d : driver) : driver := Driver h (p d) (L d) (c d) (j d).
Definition set_p (x : gmap Z Z) (d : driver) : driver := Driver (m d) x (L d) (c d) (j d).
Definition set_L (x : list Z) (d : driver) : driver := Driver (m d) (p d) x (c d) (j d).
Definition set_c (x : Z) (d : driver) : driver := Driver (m d) (p d) (L d) x (j d).
Definition set_j (x : Z) (d : driver) : driver := Driver (m d) (p d) (L d) (c d) x.

Definition on_heap {A} (k : M heap A) : M driver A := zoom m set_m k.

(** The [Alloc] branch of the random workload *)
Definition random_alloc (o : options) : M driver unit :=
  k ← random;
  let size := int_scaled (opsRange o) k + 1 in
  r ← on_heap (malloc size);
  d ← get;
  when (negb (r.1 =? -1))
    (modify (set_p (<[c d := r.1]> (p d)));; modify (set_L (L d ++ [c d])));;
  put_str ("ptr[" +:+ str_of_Z (c d) +:+ "] = Alloc(" +:+ str_of_Z size +:+ ")");;
  (if solve o then
     print (" returned " +:+ str_of_Z (r.1 + o_headerSize o) +:+
            " (searched " +:+ str_of_Z r.2 +:+ " elements)")
   else print " returned ?");;
  modify (λ d, set_c (c d + 1) d);;
  modify (λ d, set_j (j d + 1) d).

(** The [Free] branch, taken when some pointer is live *)
Definition random_free (o : options) : M driver unit :=
  d ← get;
  i ← rand_int (len (L d));
  k ← list_get (L d) i;
  addr ← dict_get (p d) k;
  rc ← on_heap (free addr);
  print ("Free(ptr[" +:+ str_of_Z k +:+ "])");;
  (if solve o then print ("returned " +:+ str_of_Z rc) else print "returned ?");;
  modify (set_p (delete k (p d)));;
  r ← list_pop (L d) i;
  modify (set_L r.2);;
  modify (λ d, set_j (j d + 1) d).

(** One iteration of [while j < int(options.opsNum)] *)
Definition random_step (o : options) : M driver unit :=
  isalloc ← rand_lt (opsPAlloc o) 100;
  d ← get;
  pr ← (if isalloc : bool then random_alloc o;; mret true
        else if 0 <? Z.of_nat (base.size (p d)) then random_free o;; mret true
        else mret false);
  when pr ((if solve o then on_heap dump else print "List? ");; print "").

Definition run_random (o : options) (fuel : nat) : M driver unit :=
  while_ fuel tt (λ _,
    d ← get;
    if j d <? opsNum o then random_step o;; mret (inl tt) else mret (inr tt)).

(** [s.split(c)[1]] *)
Definition second_part (sep : Ascii.ascii) (s : string) : M driver string :=
  list_get (split_on sep s) 1.

(** The trailer of an operation of the explicit list *)
Definition list_report (o : options) : M driver unit :=
  (if solve o then on_heap dump else print "List?");; print "".

(** The body of [for op in options.opsList.split(',')] *)
Definition list_step (o : options) (op : string) : M driver unit :=
  match op with
  | EmptyString => raise IndexError
  | String "+" _ =>
      arg ← second_part "+" op;
      size ← py_int arg;
      r ← on_heap (malloc size);
      d ← get;
      when (negb (r.1 =? -1)) (modify (set_p (<[c d := r.1]> (p d))));;
      put_str ("ptr[" +:+ str_of_Z (c d) +:+ "] = Alloc(" +:+ str_of_Z size +:+ ")");;
      (if solve o then
         print (" returned " +:+ str_of_Z r.1 +:+ " (searched " +:+ str_of_Z r.2 +:+ " elements)")
       else print " returned ?");;
      modify (λ d, set_c (c d + 1) d);;
      list_report o
  | String "-" _ =>
      arg ← second_part "-" op;
      index ← py_int arg;
      d ← get;
      if Z.of_nat (base.size (p d)) <=? index then print "Invalid Free: Skipping"
      else
        print ("Free(ptr[" +:+ str_of_Z index +:+ "])");;
        addr ← dict_get (p d) index;
        rc ← on_heap (free addr);
        (if solve o then print ("returned " +:+ str_of_Z rc) else print "returned ?");;
        list_report o
  | _ => raise NameError
  end.

Definition run_list (o : options) (opsList : string) : M driver unit :=
  for_ (split_on "," opsList) (list_step o).

(** ** The heap as a set of chunks *)

(** 1 if the chunk [c] holds the address [x], else 0 *)
Definition hit (c : Z * Z) (x : Z) : Z :=
  if (c.1 <=? x) && (x <? c.1 + c.2) then 1 else 0.

(** How many chunks of [l] hold [x] *)
Definition hits (l : list (Z * Z)) (x : Z) : Z := foldr (λ c n, hit c x + n) 0 l.

(** All the chunks: the free ones and the allocated ones *)
Definition chunks (h : heap) : list (Z * Z) := freelist h ++ map_to_list (sizemap h).

(** The heap that starts at [start] is well formed: no chunk is empty, and each
    address of the heap is in exactly one chunk, free or allocated, each
    address outside in none. *)
Record wf (start : Z) (h : heap) : Prop := {
  wf_start : 0 ≤ start;
  wf_size : 0 < size h;
  wf_header : 0 ≤ headerSize h;
  wf_align : align h = -1 ∨ 0 < align h;
  wf_pos : Forall (λ c, 0 < c.2) (chunks h);
  wf_cover : ∀ x, hits (chunks h) x =
    if (start <=? x) && (x <? start + size h) then 1 else 0;
}.

(** *** Counting *)

Ltac solve_hit := unfold hit in *; simpl in *; repeat case_match; lia.

Lemma hit_range c x : 0 ≤ hit c x ≤ 1.
Proof. solve_hit. Qed.

Lemma hit_yes c x : c.1 ≤ x < c.1 + c.2 → hit c x = 1.
Proof. solve_hit. Qed.

Lemma hits_app l1 l2 x : hits (l1 ++ l2) x = hits l1 x + hits l2 x.
Proof. unfold hits. induction l1; simpl in *; lia. Qed.

Lemma hits_cons c l x : hits (c :: l) x = hit c x + hits l x.
Proof. done. Qed.

Lemma hits_nonneg l x : 0 ≤ hits l x.
Proof. induction l as [|c l IH]; simpl; [done|]. pose proof (hit_range c x). unfold hits in *; lia. Qed.

#[export] Instance hits_perm : Proper ((≡ₚ) ==> eq ==> eq) hits.
Proof.
  intros l1 l2 H x ? <-. induction H; rewrite ?hits_cons in *; lia.
Qed.

Arguments hits : simpl never.

Lemma hits_elem c l x : c ∈ l → hit c x ≤ hits l x.
Proof.
  intros [l1 [l2 ->]]%list_elem_of_split. rewrite hits_app, hits_cons.
  pose proof (hits_nonneg l1 x). pose proof (hits_nonneg l2 x). lia.
Qed.

Lemma hits_two l i j c d x :
  l !! i = Some c → l !! j = Some d → (i < j)%nat → hit c x = 1 → hit d x = 1 → 2 ≤ hits l x.
Proof.
  intros Hi Hj Hij Hc Hd.
  rewrite <-(take_drop (S i) l), hits_app.
  assert (c ∈ take (S i) l) as H1.
  { apply list_elem_of_lookup. exists i. rewrite lookup_take_lt by lia. done. }
  assert (d ∈ drop (S i) l) as H2.
  { apply list_elem_of_lookup. exists (j - S i)%nat. rewrite lookup_drop.
    rewrite <-Hj. f_equal. lia. }
  pose proof (hits_elem _ _ x H1). pose proof (hits_elem _ _ x H2). lia.
Qed.

Lemma chunks_insert h l addr sz :
  sizemap h !! addr = None →
  chunks (set_sizemap (<[addr := sz]> (sizemap h)) (set_freelist l h))
  ≡ₚ (addr, sz) :: l ++ map_to_list (sizemap h).
Proof.
  intros Hn. unfold chunks. simpl. rewrite map_to_list_insert by done.
  by rewrite Permutation_middle.
Qed.

Lemma chunks_delete h addr sz :
  sizemap h !! addr = Some sz →
  chunks h ≡ₚ (addr, sz) :: freelist h ++ map_to_list (delete addr (sizemap h)).
Proof.
  intros Hs. unfold chunks. rewrite <-(map_to_list_delete (sizemap h)) by done.
  by rewrite Permutation_middle.
Qed.

Section WithHeap.
Context (start : Z) (h : heap) (Hwf : wf start h).

Lemma wf_chunk c : c ∈ chunks h → 0 < c.2 ∧ start ≤ c.1 ∧ c.1 + c.2 ≤ start + size h.
Proof.
  intros Hc. pose proof (wf_pos _ _ Hwf) as Hpos. rewrite Forall_forall in Hpos.
  specialize (Hpos _ Hc) as Hp.
  pose proof (hits_elem c _ c.1 Hc) as H1. rewrite hit_yes in H1 by lia.
  pose proof (hits_elem c _ (c.1 + c.2 - 1) Hc) as H2. rewrite hit_yes in H2 by lia.
  rewrite (wf_cover _ _ Hwf) in H1, H2. repeat case_match; lia.
Qed.

Lemma wf_free_chunk c : c ∈ freelist h → 0 < c.2 ∧ start ≤ c.1 ∧ c.1 + c.2 ≤ start + size h.
Proof. intros. apply wf_chunk. apply elem_of_app. by left. Qed.

(** The first address of a free chunk is not an allocated one. *)
Lemma free_not_allocated c : c ∈ freelist h → sizemap h !! c.1 = None.
Proof.
  intros Hc. destruct (sizemap h !! c.1) as [sz|] eqn:Hs; [|done]. exfalso.
  pose proof (wf_free_chunk c Hc).
  assert ((c.1, sz) ∈ map_to_list (sizemap h)) as Hm by by apply elem_of_map_to_list.
  pose proof (wf_chunk (c.1, sz)) as Hsz. simpl in Hsz.
  destruct Hsz as [Hsz _]; [apply elem_of_app; by right|].
  pose proof (hits_elem _ _ c.1 Hc) as H1. rewrite hit_yes in H1 by lia.
  pose proof (hits_elem _ _ c.1 Hm) as H2. rewrite hit_yes in H2 by (simpl; lia).
  pose proof (wf_cover _ _ Hwf c.1) as Hcov. unfold chunks in Hcov.
  rewrite hits_app in Hcov. case_match; lia.
Qed.
End WithHeap.

(** *** What the search returns *)

(** [BEST] and [WORST] minimise this key of the size. *)
Definition key (p : policy) (sz : Z) : Z := match p with WORST => - sz | _ => sz end.

(** [c], at index [k], is the chunk the policy must choose. *)
Definition chosen (p : policy) (sz : Z) (l : list (Z * Z)) (k : nat) (c : Z * Z) : Prop :=
  l !! k = Some c ∧ sz ≤ c.2 ∧
  ∀ j d, l !! j = Some d → sz ≤ d.2 →
    match p with
    | FIRST => (k ≤ j)%nat
    | _ => key p c.2 ≤ key p d.2 ∧ ((j < k)%nat → key p c.2 < key p d.2)
    end.

Lemma search_first sz l i b count b' n :
  search FIRST sz l i b count = (b', n) →
  (b' = b ∧ ∀ d, d ∈ l → d.2 < sz) ∨
  (∃ k c, chosen FIRST sz l k c ∧ b' = Candidate c.1 c.2 (i + Z.of_nat k)).
Proof.
  revert i count. induction l as [|[a s] l IH]; intros i count; simpl.
  { intros [= <- <-]. left. set_solver. }
  rewrite andb_true_r. destruct (Z.leb_spec sz s).
  - intros [= <- <-]. right. exists 0%nat, (a, s). repeat split; simpl; try done.
    + intros; lia.
    + f_equal; lia.
  - intros [[-> Hl]|(k & c & (Hk & Hc & Hmin) & ->)]%IH.
    + left. split; [done|]. intros d [->|Hd]%elem_of_cons; simpl; [lia|by apply Hl].
    + right. exists (S k), c. repeat split; try done.
      * intros [|j] d; simpl; [intros [= <-]; simpl; lia|].
        intros Hj Hd. specialize (Hmin j d Hj Hd). lia.
      * f_equal; lia.
Qed.

(** A chunk ahead of the list that does not beat the choice keeps it. *)
Lemma chosen_cons p sz d l k c :
  p ≠ FIRST → (sz ≤ d.2 → key p c.2 < key p d.2) →
  chosen p sz l k c → chosen p sz (d :: l) (S k) c.
Proof.
  intros Hp Hd (Hk & Hc & Hmin). split_and!; [done..|].
  intros [|j] e Hj He; simpl in Hj.
  - simplify_eq. destruct p; [done|split; intros; lia..].
  - specialize (Hmin j e Hj He).
    destruct p; [done|destruct Hmin; split; [done|intros; auto with lia]..].
Qed.

(** A first chunk that nothing behind it beats is the choice. *)
Lemma chosen_head p sz c l :
  p ≠ FIRST → sz ≤ c.2 → (∀ d, d ∈ l → sz ≤ d.2 → key p c.2 ≤ key p d.2) →
  chosen p sz (c :: l) 0 c.
Proof.
  intros Hp Hc Hl. split_and!; [done..|].
  intros [|j] e Hj He; simpl in Hj.
  - simplify_eq. destruct p; [done|split; intros; lia..].
  - apply list_elem_of_lookup_2 in Hj. specialize (Hl e Hj He).
    destruct p; [done|split; intros; lia..].
Qed.

Lemma search_key p sz l i b count b' n :
  p ≠ FIRST →
  search p sz l i b count = (b', n) →
  (b' = b ∧ ∀ d, d ∈ l → sz ≤ d.2 → key p (bestSize b) ≤ key p d.2) ∨
  (∃ k c, chosen p sz l k c ∧ b' = Candidate c.1 c.2 (i + Z.of_nat k) ∧
          key p c.2 < key p (bestSize b)).
Proof.
  intros Hp. revert i b count. induction l as [|[a s] l IH]; intros i b count.
  { intros [= <- <-]. left. set_solver. }
  assert (search p sz ((a, s) :: l) i b count =
    if (sz <=? s) && (key p s <? key p (bestSize b))
    then search p sz l (i + 1) (Candidate a s i) (count + 1)
    else search p sz l (i + 1) b (count + 1)) as ->.
  { simpl. replace (better p s (bestSize b)) with (key p s <? key p (bestSize b)).
    - by destruct p.
    - destruct p; [done|done|simpl].
      destruct (Z.ltb_spec (bestSize b) s), (Z.ltb_spec (-s) (-bestSize b)); lia. }
  destruct (Z.leb_spec sz s) as [Hfit|Hfit]; cbn [andb];
    [destruct (Z.ltb_spec (key p s) (key p (bestSize b))) as [Hlt|Hlt]|];
    intros [[-> Hl]|(k & c & Hch & -> & Hc)]%IH; simpl in *.
  1: right; exists 0%nat, (a, s); split_and!;
       [by apply chosen_head|f_equal; lia|done].
  2, 4: left; split; [done|]; intros d [->|Hd]%elem_of_cons; simpl; [lia|by apply Hl].
  all: right; exists (S k), c; split_and!;
    [apply chosen_cons; [done|simpl; lia|done]|f_equal; lia|lia].
Qed.

(** The candidate [malloc] acts on is the policy's choice; without one, no
    free chunk is large enough. *)
Lemma search_spec start h sz b n :
  wf start h →
  search (hpolicy h) sz (freelist h) 0 (start_candidate h) 0 = (b, n) →
  (bestIdx b = -1 ∧ ∀ d, d ∈ freelist h → d.2 < sz) ∨
  (∃ k c, chosen (hpolicy h) sz (freelist h) k c ∧
          b = Candidate c.1 c.2 (Z.of_nat k)).
Proof.
  intros Hwf Hs. unfold start_candidate in Hs.
  assert (∀ d, d ∈ freelist h → 0 < d.2 ≤ size h) as Hsize.
  { intros d Hd. pose proof (wf_free_chunk _ _ Hwf d Hd). lia. }
  destruct (decide (hpolicy h = FIRST)) as [Hp|Hp].
  - rewrite Hp in *. apply search_first in Hs as [[-> Hl]|(k & c & Hch & ->)].
    + by left.
    + right. exists k, c. done.
  - apply search_key in Hs as [[-> Hl]|(k & c & Hch & -> & _)]; [left|right|done].
    + split; [done|]. intros d Hd. specialize (Hsize d Hd). specialize (Hl d Hd).
      destruct (hpolicy h); simpl in *; [done|lia..].
    + exists k, c. done.
Qed.

(** *** Allocation *)

Lemma chunk_size_pos start h request :
  wf start h → 0 < request → 0 < chunk_size h request.
Proof.
  intros [? ? ? Ha ? ?] ?. unfold chunk_size.
  destruct (Z.eqb_spec (align h) (-1)); [lia|].
  pose proof (Z.mod_pos_bound request (align h) ltac:(lia)).
  destruct (Z.eqb_spec (request mod align h) 0); lia.
Qed.

(** Moving the chunk [(addr, sz)] from the free list to the allocated ones
    preserves well-formedness. *)
Lemma wf_allocate start h l addr sz :
  wf start h → 0 < sz → sizemap h !! addr = None →
  Forall (λ c, 0 < c.2) l →
  (∀ x, hits l x + hit (addr, sz) x = hits (freelist h) x) →
  wf start (set_sizemap (<[addr := sz]> (sizemap h)) (set_freelist l h)).
Proof.
  intros [? ? ? ? Hpos Hcov] Hsz Hn Hl Hhits. split; [done..| |].
  - rewrite chunks_insert by done. unfold chunks in Hpos.
    apply Forall_app in Hpos as [_ Hpos]. constructor; [done|]. by apply Forall_app.
  - intros x. rewrite chunks_insert by done. simpl. rewrite <-Hcov. unfold chunks.
    rewrite hits_cons, !hits_app, <-Hhits. lia.
Qed.

(** What is left of the free list once [sz] bytes are cut off the chunk [c]
    at index [k]. *)
Definition cut (sz : Z) (l : list (Z * Z)) (k : nat) (c : Z * Z) : list (Z * Z) :=
  if sz <? c.2 then <[k := (c.1 + sz, c.2 - sz)]> l else delete k l.

Lemma cut_hits sz l k c x :
  l !! k = Some c → 0 < sz ≤ c.2 → hits (cut sz l k c) x + hit (c.1, sz) x = hits l x.
Proof.
  intros Hk Hsz. pose proof (lookup_lt_Some _ _ _ Hk).
  rewrite <-(take_drop_middle l k c) at 2 by done. unfold cut.
  destruct (Z.ltb_spec sz c.2).
  - rewrite insert_take_drop by done. rewrite !hits_app, !hits_cons. solve_hit.
  - rewrite delete_take_drop, !hits_app, !hits_cons. replace sz with c.2 by lia.
    destruct c. simpl. lia.
Qed.

Lemma cut_pos sz l k c :
  0 < sz → Forall (λ c, 0 < c.2) l → Forall (λ c, 0 < c.2) (cut sz l k c).
Proof.
  intros Hsz Hl. unfold cut. destruct (Z.ltb_spec sz c.2).
  - apply Forall_insert; [done|simpl; lia].
  - by apply Forall_delete.
Qed.

(** C1: [malloc] on a well-formed heap never fails an assertion.  It returns -1
    with the heap unchanged only if no free chunk is large enough for the
    aligned request plus its header; otherwise it returns the address of the
    chunk the policy prescribes (first fit, or smallest, or largest, earliest
    among equals), cuts the request off that chunk, records it, and the heap
    is well formed again. *)
Theorem malloc_correct start h w request :
  wf start h → 0 < request →
  wp (malloc request) (λ r h' w',
    let sz := chunk_size h request in
    w' = w ∧ wf start h' ∧
    ((r.1 = -1 ∧ h' = h ∧ ∀ c, c ∈ freelist h → c.2 < sz) ∨
     (∃ k c, chosen (hpolicy h) sz (freelist h) k c ∧ r.1 = c.1 ∧
        sizemap h !! c.1 = None ∧
        h' = set_sizemap (<[c.1 := sz]> (sizemap h))
               (set_freelist (cut sz (freelist h) k c) h)))) noexn h w.
Proof.
  intros Hwf Hreq. pose proof (chunk_size_pos _ _ _ Hwf Hreq) as Hpos.
  unfold malloc. wp_pures.
  destruct (search _ _ _ _ _ _) as [b n] eqn:Hs.
  destruct (search_spec _ _ _ _ _ Hwf Hs) as [[Hb Hl]|(k & c & Hch & ->)].
  { rewrite Hb. simpl. wp_pures. split_and!; [done..|]. by left. }
  destruct (Hch) as (Hk & Hsz & _). simpl.
  destruct (Z.eqb_spec (Z.of_nat k) (-1)); [lia|]. simpl.
  pose proof (lookup_lt_Some _ _ _ Hk) as Hlt.
  assert (c ∈ freelist h) as Hc by by eapply list_elem_of_lookup_2.
  pose proof (free_not_allocated _ _ Hwf _ Hc) as Hnone.
  assert (py_index (freelist h) (Z.of_nat k) = Some k) as Hidx.
  { rewrite py_index_nonneg by (unfold len; lia). by rewrite Nat2Z.id. }
  assert (wf start (set_sizemap (<[c.1 := chunk_size h request]> (sizemap h))
    (set_freelist (cut (chunk_size h request) (freelist h) k c) h))) as Hwf'.
  { pose proof (wf_pos _ _ Hwf) as [Hp _]%Forall_app.
    apply wf_allocate; [done..|by apply cut_pos|].
    intros x. by apply cut_hits. }
  rewrite wp_bind. destruct (Z.ltb_spec (chunk_size h request) c.2) as [Hcut|Hcut].
  - assert (cut (chunk_size h request) (freelist h) k c =
      <[k := (c.1 + chunk_size h request, c.2 - chunk_size h request)]> (freelist h)) as Heq.
    { unfold cut. by apply Z.ltb_lt in Hcut as ->. }
    wp_pures. rewrite Hidx. simpl. unfold addToMap. wp_pures. simpl.
    rewrite bool_decide_true, <-Heq by done. split_and!; [done..|]. right. by exists k, c.
  - destruct (Z.eqb_spec c.2 (chunk_size h request)); [|lia].
    assert (cut (chunk_size h request) (freelist h) k c = delete k (freelist h)) as Heq.
    { unfold cut. by apply Z.ltb_ge in Hcut as ->. }
    wp_pures. rewrite Hidx. simpl. rewrite Hk. simpl. unfold addToMap. wp_pures. simpl.
    rewrite bool_decide_true, <-Heq by done. split_and!; [done..|]. right. by exists k, c.
Qed.

(** *** Freeing *)

Lemma coalesce_hits curr l x :
  0 < curr.2 → Forall (λ c, 0 < c.2) l → hits (coalesce_from curr l) x = hits (curr :: l) x.
Proof.
  revert curr. induction l as [|[a s] l IH]; intros curr Hc Hl; [done|].
  apply Forall_cons in Hl as [Hs Hl]. simpl in Hs. simpl.
  destruct (Z.eqb_spec a (curr.1 + curr.2)).
  - rewrite IH by (simpl; lia || done). rewrite !hits_cons. fold (hits l x). solve_hit.
  - rewrite hits_cons, IH by done. done.
Qed.

Lemma coalesce_pos curr l :
  0 < curr.2 → Forall (λ c, 0 < c.2) l → Forall (λ c, 0 < c.2) (coalesce_from curr l).
Proof.
  revert curr. induction l as [|[a s] l IH]; intros curr Hc Hl; simpl; [by repeat constructor|].
  apply Forall_cons in Hl as [Hs Hl]. simpl in Hs. destruct (_ =? _).
  - apply IH; [simpl; lia|done].
  - constructor; [done|]. by apply IH.
Qed.

Lemma insert_chunk_perm o c l : insert_chunk o c l ≡ₚ c :: l.
Proof.
  assert (l ++ [c] ≡ₚ c :: l) as Hsnoc by by rewrite Permutation_app_comm.
  destruct o; simpl; by rewrite ?stable_sort_perm.
Qed.

(** The free list that [free] leaves. *)
Definition freed (h : heap) (addr sz : Z) : list (Z * Z) :=
  match insert_chunk (returnPolicy h) (addr, sz) (freelist h) with
  | curr :: l => if coalesce h then coalesce_from curr l else curr :: l
  | [] => []
  end.

Lemma freed_chunks h addr sz :
  0 < sz → Forall (λ c, 0 < c.2) (freelist h) →
  Forall (λ c, 0 < c.2) (freed h addr sz) ∧
  ∀ x, hits (freed h addr sz) x = hit (addr, sz) x + hits (freelist h) x.
Proof.
  intros Hsz Hl. unfold freed.
  pose proof (insert_chunk_perm (returnPolicy h) (addr, sz) (freelist h)) as Hp.
  destruct (insert_chunk _ _ _) as [|curr l]; [by apply Permutation_nil_cons in Hp|].
  assert (Forall (λ c, 0 < c.2) (curr :: l)) as Hall.
  { rewrite Hp. by constructor. }
  apply Forall_cons in Hall as [Hc Hl'].
  destruct (coalesce h); split.
  - by apply coalesce_pos.
  - intros x. rewrite coalesce_hits by done. by rewrite Hp.
  - by constructor.
  - intros x. by rewrite Hp.
Qed.

Lemma free_run h w addr :
  free addr h w =
  match sizemap h !! addr with
  | None => Ok (-1) h w
  | Some sz => Ok 0 (set_sizemap (delete addr (sizemap h))
                       (set_freelist (freed h addr sz) h)) w
  end.
Proof.
  unfold free, freed, get, mbind, M_bind.
  destruct (sizemap h !! addr) as [sz|]; [|done].
  pose proof (insert_chunk_perm (returnPolicy h) (addr, sz) (freelist h)) as Hp.
  destruct (insert_chunk _ _ _) as [|curr l]; [by apply Permutation_nil_cons in Hp|].
  by destruct (coalesce h).
Qed.

(** C2: [free] of an address that is not allocated returns -1 and changes
    nothing; of an allocated one, it returns 0, forgets the address, gives
    exactly its bytes back to the free list, whatever the list order and with
    or without coalescing, and the heap stays well formed. *)
Theorem free_correct start h w addr :
  wf start h →
  wp (free addr) (λ rc h' w', w' = w ∧ wf start h' ∧
    match sizemap h !! addr with
    | None => rc = -1 ∧ h' = h
    | Some sz => rc = 0 ∧ sizemap h' = delete addr (sizemap h) ∧
        ∀ x, hits (freelist h') x = hits (freelist h) x + hit (addr, sz) x
    end) noexn h w.
Proof.
  intros Hwf. unfold wp. rewrite free_run.
  destruct (sizemap h !! addr) as [sz|] eqn:Hs; [|done].
  pose proof (chunks_delete _ _ _ Hs) as Hch.
  destruct Hwf as [? ? ? ? Hpos Hcov]. rewrite Hch in Hpos.
  apply Forall_cons in Hpos as [Hsz [Hfl Hsm]%Forall_app]. simpl in Hsz.
  destruct (freed_chunks h addr sz Hsz Hfl) as [Hfp Hfh].
  split_and!; [done| |done|done|].
  - split; [done..| |]; unfold chunks; simpl.
    + by apply Forall_app.
    + intros x. rewrite <-Hcov, Hch, hits_cons, !hits_app, Hfh. lia.
  - intros x. simpl. rewrite Hfh. lia.
Qed.

(** *** Address order with coalescing *)

(** [d] starts after the end of [c], with a gap between them. *)
Definition gap (c d : Z * Z) : Prop := c.1 + c.2 < d.1.
Definition touch (c d : Z * Z) : Prop := c.1 + c.2 ≤ d.1.

Lemma delete_sorted (R : Z * Z → Z * Z → Prop) l k :
  StronglySorted R l → StronglySorted R (delete k l).
Proof.
  intros Hs. revert k. induction Hs as [|c l Hs IH Hall]; intros [|k]; simpl;
    [constructor..|done|]. constructor; [apply IH|by apply Forall_delete].
Qed.

Lemma cut_sorted sz l k c :
  0 < sz → l !! k = Some c → StronglySorted gap l → StronglySorted gap (cut sz l k c).
Proof.
  intros Hsz Hk Hs. unfold cut. destruct (Z.ltb_spec sz c.2); [|by apply delete_sorted].
  revert k Hk. induction Hs as [|d l Hs IH Hall]; intros [|k] Hk; simpl in *; [done..| |].
  - simplify_eq. constructor; [done|]. eapply Forall_impl; [done|].
    unfold gap. simpl. intros; lia.
  - constructor; [by apply IH|]. apply Forall_insert; [done|].
    rewrite Forall_lookup in Hall. specialize (Hall _ _ Hk). unfold gap in *. simpl. lia.
Qed.

Lemma sorted_disjoint l :
  StronglySorted (λ x y : Z * Z, x.1 ≤ y.1) l → Forall (λ c, 0 < c.2) l →
  (∀ x, hits l x ≤ 1) → StronglySorted touch l.
Proof.
  induction 1 as [|c l Hs IH Hall]; intros Hpos Hh; constructor.
  - apply IH; [by apply Forall_cons in Hpos as [_ ?]|]. intros x. specialize (Hh x).
    rewrite hits_cons in Hh. pose proof (hit_range c x). lia.
  - apply Forall_forall. intros d Hd. rewrite Forall_forall in Hall, Hpos.
    specialize (Hall d Hd). specialize (Hpos d (list_elem_of_further _ _ _ Hd)).
    unfold touch. destruct (decide (c.1 + c.2 ≤ d.1)); [done|]. exfalso.
    specialize (Hh d.1). rewrite hits_cons, hit_yes in Hh by (simpl in *; lia).
    pose proof (hits_elem d l d.1 Hd) as H1. rewrite hit_yes in H1 by lia. lia.
Qed.

Lemma coalesce_ge curr l :
  StronglySorted touch (curr :: l) → 0 < curr.2 → Forall (λ c, 0 < c.2) l →
  Forall (λ d, curr.1 ≤ d.1) (coalesce_from curr l).
Proof.
  revert curr. induction l as [|[a s] l IH]; intros curr Hs Hc Hl; simpl.
  { by repeat constructor. }
  apply StronglySorted_inv in Hs as [Hs [Ht Hall]%Forall_cons].
  apply Forall_cons in Hl as [Hsp Hl]. unfold touch in Ht. simpl in *.
  destruct (Z.eqb_spec a (curr.1 + curr.2)).
  - apply (IH (curr.1, curr.2 + s)); [|simpl; lia|done].
    apply StronglySorted_inv in Hs as [Hs Ha]. constructor; [done|].
    eapply Forall_impl; [exact Ha|]. unfold touch. simpl. intros; lia.
  - constructor; [lia|]. eapply Forall_impl; [by apply IH|]. simpl. intros; lia.
Qed.

(** Coalescing an address-ordered list leaves no two adjacent chunks. *)
Lemma coalesce_sorted curr l :
  StronglySorted touch (curr :: l) → 0 < curr.2 → Forall (λ c, 0 < c.2) l →
  StronglySorted gap (coalesce_from curr l).
Proof.
  revert curr. induction l as [|[a s] l IH]; intros curr Hs Hc Hl; simpl.
  { by repeat constructor. }
  apply StronglySorted_inv in Hs as [Hs [Ht Hall]%Forall_cons].
  apply Forall_cons in Hl as [Hsp Hl]. unfold touch in Ht. simpl in *.
  destruct (Z.eqb_spec a (curr.1 + curr.2)).
  - apply IH; [|simpl; lia|done].
    apply StronglySorted_inv in Hs as [Hs Ha]. constructor; [done|].
    eapply Forall_impl; [exact Ha|]. unfold touch. simpl. intros; lia.
  - constructor; [by apply IH|]. eapply Forall_impl; [by apply coalesce_ge|].
    unfold gap. simpl. intros; lia.
Qed.

(** The runs of the object: what a caller can reach from a fresh heap with
    positive requests and any frees. *)
Inductive reachable (h0 : heap) : heap → Prop :=
| reach_init : reachable h0 h0
| reach_malloc h w request r h' w' :
    reachable h0 h → 0 < request → malloc request h w = Ok r h' w' → reachable h0 h'
| reach_free h w addr rc h' w' :
    reachable h0 h → free addr h w = Ok rc h' w' → reachable h0 h'.

Record tidy (start : Z) (h : heap) : Prop := {
  tidy_wf : wf start h;
  tidy_order : returnPolicy h = ADDRSORT;
  tidy_coalesce : coalesce h = true;
  tidy_sorted : StronglySorted gap (freelist h);
}.

Lemma tidy_malloc start h w request r h' w' :
  tidy start h → 0 < request → malloc request h w = Ok r h' w' → tidy start h'.
Proof.
  intros [Hwf Ho Hc Hs] Hreq Hm.
  pose proof (chunk_size_pos _ _ _ Hwf Hreq).
  eapply wp_ok in Hm; [|by apply malloc_correct].
  destruct Hm as (-> & Hwf' & [(_ & -> & _)|(k & c & (Hk & _) & _ & _ & ->)]); [done|].
  split; [done..|]. by apply cut_sorted.
Qed.

Lemma tidy_free start h w addr rc h' w' :
  tidy start h → free addr h w = Ok rc h' w' → tidy start h'.
Proof.
  intros [Hwf Ho Hc Hs] Hm.
  pose proof (wp_ok _ _ _ _ _ _ _ (free_correct start h w addr Hwf) Hm) as (_ & Hwf' & _).
  rewrite free_run in Hm.
  destruct (sizemap h !! addr) as [sz|] eqn:Hsz; simplify_eq; [|done].
  split; [done..|]. simpl. unfold freed. rewrite Hc.
  pose proof (chunks_delete _ _ _ Hsz) as Hch.
  pose proof (insert_chunk_perm (returnPolicy h) (addr, sz) (freelist h)) as Hp.
  rewrite Ho in *. simpl in *.
  set (l := stable_sort _ _) in *.
  assert (StronglySorted (λ x y : Z * Z, x.1 ≤ y.1) l) as Hl.
  { apply stable_sort_sorted.
    - intros x y z ??. lia.
    - intros x y. by apply Z.leb_le.
    - intros x y ?%Z.leb_gt. lia. }
  assert (Forall (λ c, 0 < c.2) l) as Hpos.
  { pose proof (wf_pos _ _ Hwf) as Hpos. rewrite Hch in Hpos.
    rewrite Hp. apply Forall_cons in Hpos as [? [? _]%Forall_app]. by constructor. }
  assert (∀ x, hits l x ≤ 1) as Hhits.
  { intros x. pose proof (wf_cover _ _ Hwf x) as Hcov. rewrite Hch, hits_cons, hits_app in Hcov.
    rewrite Hp, hits_cons.
    pose proof (hits_nonneg (map_to_list (delete addr (sizemap h))) x). case_match; lia. }
  pose proof (sorted_disjoint _ Hl Hpos Hhits) as Htouch.
  destruct l as [|curr l]; [constructor|].
  apply Forall_cons in Hpos as [? ?]. by apply coalesce_sorted.
Qed.

Lemma reachable_tidy start h0 h : tidy start h0 → reachable h0 h → tidy start h ∧ size h = size h0.
Proof.
  intros Ht. induction 1 as [|h w request r h' w' _ [IH Hsize] Hreq Hm|h w addr rc h' w' _ [IH Hsize] Hm].
  - done.
  - split; [by eapply tidy_malloc|]. destruct IH as [Hwf _ _ _].
    eapply wp_ok in Hm; [|by apply (malloc_correct start)].
    destruct Hm as (_ & _ & [(_ & -> & _)|(k & c & _ & _ & _ & ->)]); done.
  - split; [by eapply tidy_free|]. rewrite free_run in Hm.
    destruct (sizemap h !! addr); by simplify_eq.
Qed.

Lemma wf_init start size hdr p o c al h :
  0 ≤ start → 0 < size → 0 ≤ hdr → init size start hdr p o c al = Some h →
  wf start h ∧ freelist h = [(start, size)] ∧ coalesce h = c ∧ order_of_string o = Some (returnPolicy h) ∧
  Malloc.size h = size ∧ sizemap h = ∅.
Proof.
  intros Hst Hsz Hh. unfold init.
  destruct (policy_of_string p) as [p'|]; [simpl|done].
  destruct (order_of_string o) as [o'|]; [simpl|done].
  destruct ((al =? -1) || (0 <? al)) eqn:Hal; [|done]. intros [= <-].
  split; [|done]. split; simpl; [done..| | |].
  - apply orb_prop in Hal as [?%Z.eqb_eq|?%Z.ltb_lt]; auto.
  - unfold chunks. simpl. rewrite map_to_list_empty. repeat constructor. done.
  - intros x. unfold chunks. simpl. rewrite map_to_list_empty.
    rewrite hits_cons. unfold hits. solve_hit.
Qed.

(** C3: with address order and coalescing, memory never stays fragmented: in
    any state reached by requests and frees in which nothing is allocated,
    the free list is again the single chunk the heap started as. *)
Theorem full_reclaim start sz hdr p al h0 h :
  0 ≤ start → 0 < sz → 0 ≤ hdr →
  init sz start hdr p "ADDRSORT" true al = Some h0 →
  reachable h0 h → sizemap h = ∅ → freelist h = [(start, sz)].
Proof.
  intros Hst Hsz Hh Hinit Hr Hempty.
  destruct (wf_init _ _ _ _ _ _ _ _ Hst Hsz Hh Hinit) as (Hwf0 & Hfl & Hco & Ho & Hs0 & _).
  destruct (reachable_tidy start h0 h) as [[Hwf _ _ Hs] Hsize]; [|done|].
  { vm_compute in Ho. split; [done|by injection Ho|done|]. rewrite Hfl. by repeat constructor. }
  rewrite Hs0 in Hsize.
  pose proof (wf_cover _ _ Hwf) as Hcov.
  unfold chunks in Hcov. rewrite Hempty, map_to_list_empty, app_nil_r, Hsize in Hcov.
  assert (∀ d, d ∈ freelist h → 0 < d.2 ∧ start ≤ d.1 ∧ d.1 + d.2 ≤ start + sz) as Hin.
  { intros d Hd. rewrite <-Hsize. by apply wf_free_chunk. }
  destruct (freelist h) as [|c l].
  { specialize (Hcov start). unfold hits in Hcov. simpl in Hcov. case_match; lia. }
  apply StronglySorted_inv in Hs as [Hs Hall]. rewrite Forall_forall in Hall.
  assert (∀ x, x ≤ c.1 + c.2 → hits l x = 0) as Hzero.
  { intros x Hx. clear -Hall Hx. induction l as [|d l IH]; [done|].
    rewrite hits_cons, IH by (intros; apply Hall; set_solver).
    specialize (Hall d ltac:(set_solver)). unfold gap in Hall. solve_hit. }
  destruct (Hin c) as (Hc1 & Hc2 & Hc3); [set_solver|].
  pose proof (Hcov start) as H1. rewrite hits_cons, Hzero in H1 by lia.
  pose proof (Hcov (c.1 + c.2)) as H2. rewrite hits_cons, Hzero in H2 by lia.
  assert (c.1 + c.2 = start + sz) as Hend by solve_hit.
  assert (c.1 = start) as Hbegin by solve_hit.
  destruct l as [|d l].
  - f_equal. destruct c; simpl in *. f_equal; lia.
  - specialize (Hall d ltac:(set_solver)). unfold gap in Hall.
    destruct (Hin d); [set_solver|]. lia.
Qed.

(** *** The random workload *)

(** The live pointers of the workload are distinct allocated addresses. *)
Record drv_inv (start : Z) (d : driver) : Prop := {
  inv_wf : wf start (m d);
  inv_nodup : NoDup (L d);
  inv_keys : ∀ i, i ∈ L d ↔ is_Some (p d !! i);
  inv_fresh : ∀ i, i ∈ L d → i < c d;
  inv_live : ∀ i a, p d !! i = Some a → is_Some (sizemap (m d) !! a);
  inv_inj : ∀ i i' a, p d !! i = Some a → p d !! i' = Some a → i = i';
}.

Lemma drv_inv_alloc start d h ptr n :
  drv_inv start d → wf start h → sizemap (m d) !! ptr = None →
  sizemap h = <[ptr := n]> (sizemap (m d)) →
  drv_inv start (Driver h (<[c d := ptr]> (p d)) (L d ++ [c d]) (c d + 1) (j d + 1)).
Proof.
  intros [Hwf Hnd Hkeys Hfresh Hlive Hinj] Hwf' Hnone Hsm.
  assert (c d ∉ L d) as Hc by (intros Hin%Hfresh; lia).
  assert (∀ i a, p d !! i = Some a → a ≠ ptr) as Hne.
  { intros i a Hi ->. destruct (Hlive _ _ Hi). congruence. }
  split; simpl.
  - done.
  - apply NoDup_app. split_and!; [done|set_solver|]. apply NoDup_singleton.
  - intros i. rewrite elem_of_app, list_elem_of_singleton.
    destruct (decide (i = c d)) as [->|].
    + rewrite lookup_insert_eq. naive_solver.
    + rewrite lookup_insert_ne by done. rewrite <-Hkeys. naive_solver.
  - intros i [Hi%Hfresh| ->%list_elem_of_singleton]%elem_of_app; lia.
  - intros i a. rewrite Hsm. destruct (decide (i = c d)) as [->|].
    + rewrite lookup_insert_eq. intros [= <-]. by rewrite lookup_insert_eq.
    + rewrite lookup_insert_ne by done. intros Hi.
      rewrite lookup_insert_ne by (symmetry; by eapply Hne). by eapply Hlive.
  - intros i i' a. destruct (decide (i = c d)) as [->|], (decide (i' = c d)) as [->|];
      rewrite ?lookup_insert_eq, ?lookup_insert_ne by done; intros; simplify_eq; try done;
      [by edestruct Hne|by edestruct Hne|by eapply Hinj].
Qed.

Lemma drv_inv_free start d h k addr idx :
  drv_inv start d → wf start h → L d !! idx = Some k → p d !! k = Some addr →
  sizemap h = delete addr (sizemap (m d)) →
  drv_inv start (Driver h (delete k (p d)) (delete idx (L d)) (c d) (j d + 1)).
Proof.
  intros [Hwf Hnd Hkeys Hfresh Hlive Hinj] Hwf' Hidx Hk Hsm.
  pose proof (delete_Permutation _ _ _ Hidx) as Hp.
  assert (NoDup (k :: delete idx (L d))) as [Hnk Hnd']%NoDup_cons by by rewrite <-Hp.
  assert (∀ i, i ∈ L d ↔ i = k ∨ i ∈ delete idx (L d)) as Hin.
  { intros i. rewrite Hp at 1. by rewrite elem_of_cons. }
  split; simpl.
  - done.
  - done.
  - intros i. destruct (decide (i = k)) as [->|].
    + rewrite lookup_delete_eq. split; [done|]. by intros [? ?].
    + rewrite lookup_delete_ne, <-Hkeys, Hin by done. naive_solver.
  - intros i Hi. apply Hfresh, Hin. by right.
  - intros i a Hi. apply lookup_delete_Some in Hi as [Hne Hi]. rewrite Hsm.
    rewrite lookup_delete_ne; [by eapply Hlive|]. intros ->. apply Hne. by eapply Hinj.
  - intros i i' a [_ Hi]%lookup_delete_Some [_ Hi']%lookup_delete_Some. by eapply Hinj.
Qed.

Lemma wp_random_alloc o start d w (Q : unit → driver → world → Prop) :
  drv_inv start d → rng_ok w → 0 < opsRange o →
  (∀ d' w', drv_inv start d' → rng_ok w' → j d' = j d + 1 → Q tt d' w') →
  wp (random_alloc o) Q noexn d w.
Proof.
  intros Hinv Hw Hr HQ. unfold random_alloc, on_heap. wp_pures.
  pose proof (int_scaled_bounds (opsRange o) (rng w (rpos w)) Hr (Hw _)) as Hb.
  eapply wp_mono; [apply (malloc_correct start); [apply Hinv|lia]| |done].
  cbn beta. intros [ptr cnt] h w' (-> & Hwf & Hcase). wp_pures. simpl in Hcase.
  assert (drv_inv start (Driver h (if negb (ptr =? -1) then <[c d := ptr]> (p d) else p d)
    (if negb (ptr =? -1) then L d ++ [c d] else L d) (c d + 1) (j d + 1))) as Hinv'.
  { destruct Hcase as [(-> & -> & _)|(k & ch & (Hk & _) & -> & Hn & ->)]; simpl.
    - destruct Hinv as [? ? ? Hf ? ?]; split; simpl; try done.
      intros i Hi%Hf. lia.
    - destruct Hinv as [Hwf0 ?]. pose proof (wf_free_chunk _ _ Hwf0 ch) as Hch.
      destruct Hch as (_ & Hst & _); [by eapply list_elem_of_lookup_2|].
      pose proof (wf_start _ _ Hwf0).
      destruct (Z.eqb_spec ch.1 (-1)); [lia|]. simpl.
      by eapply drv_inv_alloc. }
  destruct (negb (ptr =? -1)); destruct (solve o); wp_pures; by apply HQ.
Qed.

Lemma wp_random_free o start d w (Q : unit → driver → world → Prop) :
  drv_inv start d → rng_ok w → p d ≠ ∅ →
  (∀ d' w', drv_inv start d' → rng_ok w' → j d' = j d + 1 → Q tt d' w') →
  wp (random_free o) Q noexn d w.
Proof.
  intros Hinv Hw Hp HQ. unfold random_free, on_heap. wp_pures.
  assert (0 < len (L d)) as Hlen.
  { apply map_choose in Hp as (i & a & Hi).
    assert (i ∈ L d) as Hin by (apply (inv_keys _ _ Hinv); eauto).
    destruct (L d); [set_solver|]. unfold len. simpl. lia. }
  apply wp_rand_int; [done|done|]. intros i w' Hi Hw' _. wp_pures.
  rewrite py_index_nonneg by done. simpl.
  destruct (lookup_lt_is_Some_2 (L d) (Z.to_nat i)) as [k Hk]; [unfold len in *; lia|].
  rewrite Hk. wp_pures.
  destruct (proj1 (inv_keys _ _ Hinv k)) as [addr Ha]; [by eapply list_elem_of_lookup_2|].
  rewrite Ha. wp_pures.
  eapply wp_mono; [by apply (free_correct start), Hinv| |done].
  cbn beta. intros rc h w'' (-> & Hwf & Hres). wp_pures.
  destruct (inv_live _ _ Hinv _ _ Ha) as [sz Hsz]. rewrite Hsz in Hres.
  destruct Hres as (-> & Hsm & _).
  pose proof (drv_inv_free _ _ _ _ _ _ Hinv Hwf Hk Ha Hsm) as Hinv'.
  destruct (solve o); wp_pures; simpl; rewrite py_index_nonneg by done; simpl;
    rewrite Hk; simpl; by apply HQ.
Qed.

(** An iteration of the random workload raises no exception (no dict or
    list lookup fails, the allocator's assertions hold), keeps the heap well
    formed and every pointer in [p] allocated, and counts at most one
    operation. *)
Theorem random_step_safe o start d w :
  drv_inv start d → rng_ok w → 0 < opsRange o →
  wp (random_step o) (λ _ d' w', drv_inv start d' ∧ rng_ok w' ∧
    (j d' = j d + 1 ∨ (j d' = j d ∧ m d' = m d))) noexn d w.
Proof.
  intros Hinv Hw Hr.
  assert (∀ l k d w, rng_ok w → wp (for_ l (λ e : Z * Z, put_str (k e)))
    (λ _ d' w', d' = d ∧ rng_ok w') (λ _ _ _, False) (d : heap) w) as Hfor.
  { intros l k. induction l as [|e l IH]; intros; simpl; wp_pures; [done|]. by apply IH. }
  assert (∀ d' w', drv_inv start d' → rng_ok w' → j d' = j d + 1 →
    wp ((if solve o then on_heap dump else print "List? ");; print "")
      (λ _ d' w', drv_inv start d' ∧ rng_ok w' ∧
         (j d' = j d + 1 ∨ (j d' = j d ∧ m d' = m d))) noexn d' w') as Hend.
  { intros d' w' Hinv' Hw' Hj. unfold on_heap, dump.
    destruct (solve o); wp_pures; [|by auto].
    eapply wp_mono; [by apply Hfor| |done]. cbn beta. intros _ h w'' [-> Hw''].
    wp_pures. split_and!; [by destruct d'|done|by left]. }
  unfold random_step, rand_lt. wp_pures. destruct (draw_lt _ _ _).
  - wp_pures. eapply wp_random_alloc; [done..|]. intros.
    rewrite wp_ret, wp_when. by apply Hend.
  - destruct (Z.ltb_spec 0 (Z.of_nat (base.size (p d)))) as [Hsz|]; wp_pures.
    + eapply wp_random_free; [done..| |].
      * intros Hp. rewrite Hp, map_size_empty in Hsz. lia.
      * intros. rewrite wp_ret, wp_when. by apply Hend.
    + by auto.
Qed.

(** *** Witnesses *)

Definition demo_heap : heap :=
  Heap 100 0 [(1000, 100)] ∅ BEST ADDRSORT true (-1).

Lemma demo_heap_wf : wf 1000 demo_heap.
Proof.
  destruct (wf_init 1000 100 0 "BEST" "ADDRSORT" true (-1) demo_heap) as [Hwf _];
    [lia..|vm_compute; reflexivity|exact Hwf].
Qed.

Definition demo_world : world := world_of [30; 95; 80; 0; 70].

Lemma demo_world_ok : rng_ok demo_world.
Proof. apply world_of_ok. repeat constructor; lia. Qed.

Lemma malloc_correct_witness :
  (∃ h', malloc 10 demo_heap demo_world = Ok (1000, 1) h' demo_world) ∧
  wp (malloc 10) (λ r h' w', wf 1000 h') noexn demo_heap demo_world.
Proof.
  split; [eexists; vm_compute; reflexivity|].
  eapply wp_conseq; [apply (malloc_correct 1000); [exact demo_heap_wf|lia]|].
  cbn. intros r h' w' (_ & Hwf & _). exact Hwf.
Defined.

Lemma free_correct_witness :
  wp (free 1000) (λ rc h' w', rc = -1 ∧ h' = demo_heap) noexn demo_heap demo_world.
Proof.
  eapply wp_conseq; [apply (free_correct 1000); exact demo_heap_wf|].
  cbn. intros rc h' w' (_ & _ & H). exact H.
Defined.

(** A heap after one request and the matching free *)
Definition demo_run : option heap :=
  match malloc 10 demo_heap demo_world with
  | Ok _ h w => match free 1000 h w with Ok _ h' _ => Some h' | _ => None end
  | _ => None
  end.

Lemma demo_run_reachable h : demo_run = Some h → reachable demo_heap h.
Proof.
  unfold demo_run. destruct (malloc 10 demo_heap demo_world) as [r h1 w1| |] eqn:H1; [|done..].
  destruct (free 1000 h1 w1) as [rc h2 w2| |] eqn:H2; [|done..].
  intros [= <-]. eapply reach_free; [|exact H2].
  eapply reach_malloc; [apply reach_init| |exact H1]. lia.
Qed.

Lemma full_reclaim_witness :
  ∃ h, demo_run = Some h ∧ sizemap h = ∅ ∧ freelist h = [(1000, 100)].
Proof.
  eexists. split; [vm_compute; reflexivity|]. split; [vm_compute; reflexivity|].
  eapply (full_reclaim 1000 100 0 "BEST" (-1) demo_heap);
    [lia..|vm_compute; reflexivity| |vm_compute; reflexivity].
  apply demo_run_reachable. vm_compute. reflexivity.
Defined.

Definition demo_driver : driver := Driver demo_heap ∅ [] 0 0.

Lemma demo_driver_inv : drv_inv 1000 demo_driver.
Proof.
  split; simpl; [exact demo_heap_wf|constructor|..].
  - intros i. rewrite lookup_empty. split; [by intros ?%elem_of_nil|by intros [? ?]].
  - by intros i ?%elem_of_nil.
  - intros i a. by rewrite lookup_empty.
  - intros i i' a. by rewrite lookup_empty.
Qed.

Definition demo_options : options := Options 0 10 10 50 true.

Lemma random_step_safe_witness :
  wp (random_step demo_options) (λ _ d' _, drv_inv 1000 d') noexn demo_driver demo_world.
Proof.
  eapply wp_conseq; [apply (random_step_safe demo_options 1000);
    [exact demo_driver_inv|exact demo_world_ok|unfold demo_options; simpl; lia]|].
  cbn. intros _ d' w' (H & _). exact H.
Defined.

(** A failed request leaves a hole in [p] that the length test of a later free
    does not notice: the explicit list [+200,+1,-0] ends in a [KeyError]. *)
Example list_mode_hole :
  ∃ d w, run_list demo_options "+200,+1,-0" demo_driver demo_world = Raise KeyError d w.
Proof. eexists _, _. vm_compute. reflexivity. Qed.
