(* ===== verification/Ssd.v ===== *)
(** * The solid-state drive: [file-ssd/ssd.py]

    A flash device of blocks of pages behind a flash translation layer, in
    the three variants of the simulator: direct mapping, log structured with
    garbage collection, and the ideal device.  The logical contents, a finite
    map from logical pages to data, is the specification. *)
From S2P Require Import Prelude PyStr PyRandom.
Open Scope Z_scope.

(** ** State *)

Inductive ssd_kind := TYPE_DIRECT | TYPE_LOGGING | TYPE_IDEAL.
Inductive page_state := STATE_INVALID | STATE_ERASED | STATE_VALID.

#[export] Instance ssd_kind_eq_dec : EqDecision ssd_kind.
Proof. solve_decision. Defined.
#[export] Instance page_state_eq_dec : EqDecision page_state.
Proof. solve_decision. Defined.

(** The constructor's arguments that never change.  The times are whole
    microseconds, as the command line gives them. *)
Record config := Config {
  ssd_type : ssd_kind;
  num_logical_pages : Z;
  num_blocks : Z;
  pages_per_block : Z;
  block_erase_time : Z;
  page_program_time : Z;
  page_read_time : Z;
  gc_high_water_mark : Z;
  gc_low_water_mark : Z;
  gc_trace : bool;
  show_state : bool;
}.

Definition num_pages (cfg : config) : Z := num_blocks cfg * pages_per_block cfg.

(** The counters of physical operations: per block, and their sums *)
Record phys_stats := PhysStats {
  physical_erase_count : gmap Z Z;
  physical_read_count : gmap Z Z;
  physical_write_count : gmap Z Z;
  physical_erase_sum : Z;
  physical_write_sum : Z;
  physical_read_sum : Z;
}.

(** The counters of logical operations and of their failures *)
Record logi_stats := LogiStats {
  logical_trim_sum : Z;
  logical_write_sum : Z;
  logical_read_sum : Z;
  logical_trim_fail_sum : Z;
  logical_write_fail_sum : Z;
  logical_read_fail_sum : Z;
}.

Record ssd := Ssd {
  state : gmap Z page_state;
  data : gmap Z string;
  current_page : Z;
  current_block : Z;
  gc_count : Z;
  gc_current_block : Z;
  gc_used_blocks : gmap Z Z;
  live_count : gmap Z Z;
  forward_map : gmap Z Z;
  reverse_map : gmap Z Z;
  phys : phys_stats;
  logi : logi_stats;
}.

#[export] Instance phys_settable : Settable phys_stats := λ s,
  PhysStats (physical_erase_count s) (physical_read_count s) (physical_write_count s)
    (physical_erase_sum s) (physical_write_sum s) (physical_read_sum s).
#[export] Instance logi_settable : Settable logi_stats := λ s,
  LogiStats (logical_trim_sum s) (logical_write_sum s) (logical_read_sum s)
    (logical_trim_fail_sum s) (logical_write_fail_sum s) (logical_read_fail_sum s).
#[export] Instance ssd_settable : Settable ssd := λ s,
  Ssd (state s) (data s) (current_page s) (current_block s) (gc_count s)
    (gc_current_block s) (gc_used_blocks s) (live_count s) (forward_map s)
    (reverse_map s) (phys s) (logi s).

Definition kind_of_string (s : string) : option ssd_kind :=
  if bool_decide (s = "direct") then Some TYPE_DIRECT
  else if bool_decide (s = "log") then Some TYPE_LOGGING
  else if bool_decide (s = "ideal") then Some TYPE_IDEAL
  else None.

(** [d = {}; for i in range(n): d[i] = v] *)
Definition const_dict {A} (n : Z) (v : A) : gmap Z A :=
  list_to_map ((λ i, (i, v)) <$> range 0 n).

Section Device.
Context (cfg : config).

(** [__init__] *)
Definition init : ssd :=
  let zero_blocks := const_dict (num_blocks cfg) 0 in
  Ssd (const_dict (num_pages cfg) STATE_INVALID) (const_dict (num_pages cfg) " ")
    (-1) 0 0 0 zero_blocks zero_blocks
    (const_dict (num_logical_pages cfg) (-1)) (const_dict (num_pages cfg) (-1))
    (PhysStats zero_blocks zero_blocks zero_blocks 0 0 0)
    (LogiStats 0 0 0 0 0 0).

Definition blocks_in_use : M ssd Z :=
  s ← get;
  for_acc (range 0 (num_blocks cfg)) 0 (λ used i,
    u ← dict_get (gc_used_blocks s) i; mret (used + u)).

(** *** The flash operations *)

Definition physical_erase (block_address : Z) : M ssd unit :=
  let page_begin := block_address * pages_per_block cfg in
  let page_end := page_begin + pages_per_block cfg - 1 in
  for_ (range page_begin (page_end + 1)) (λ page,
    modify (λ s, s <| data ::= <[page := " "]> |> <| state ::= <[page := STATE_ERASED]> |>));;
  modify (λ s, s <| gc_used_blocks ::= <[block_address := 0]> |>);;
  s ← get;
  c ← dict_add (physical_erase_count (phys s)) block_address 1;
  modify (λ s, s <| phys ::= λ st, st <| physical_erase_count := c |>
                                      <| physical_erase_sum ::= Z.succ |> |>).

Definition physical_program (page_address : Z) (d : string) : M ssd unit :=
  modify (λ s, s <| data ::= <[page_address := d]> |>
                 <| state ::= <[page_address := STATE_VALID]> |>);;
  s ← get;
  c ← dict_add (physical_write_count (phys s)) (int_div page_address (pages_per_block cfg)) 1;
  modify (λ s, s <| phys ::= λ st, st <| physical_write_count := c |>
                                      <| physical_write_sum ::= Z.succ |> |>).

Definition physical_read (page_address : Z) : M ssd string :=
  s ← get;
  c ← dict_add (physical_read_count (phys s)) (int_div page_address (pages_per_block cfg)) 1;
  modify (λ s, s <| phys ::= λ st, st <| physical_read_count := c |>
                                      <| physical_read_sum ::= Z.succ |> |>);;
  s ← get;
  dict_get (data s) page_address.

Definition read_direct (address : Z) : M ssd string := physical_read address.

(** *** Writing *)

Definition map_page (page_address physical : Z) : M ssd unit :=
  modify (λ s, s <| forward_map ::= <[page_address := physical]> |>
                 <| reverse_map ::= <[physical := page_address]> |>).

Definition write_direct (page_address : Z) (d : string) : M ssd string :=
  let block_address := int_div page_address (pages_per_block cfg) in
  let page_begin := block_address * pages_per_block cfg in
  let page_end := page_begin + pages_per_block cfg - 1 in
  old_list ← for_acc (range page_begin (page_end + 1)) [] (λ old_list old_page,
    s ← get;
    st ← dict_get (state s) old_page;
    if decide (st = STATE_VALID) then
      old_data ← physical_read old_page; mret (old_list ++ [(old_page, old_data)])
    else mret old_list);
  physical_erase block_address;;
  for_ old_list (λ old : Z * string,
    if old.1 =? page_address then mret tt else physical_program old.1 old.2);;
  physical_program page_address d;;
  map_page page_address page_address;;
  mret "success".

Definition write_ideal (page_address : Z) (d : string) : M ssd string :=
  physical_program page_address d;;
  map_page page_address page_address;;
  mret "success".

Definition is_block_free (block : Z) : M ssd bool :=
  let first_page := block * pages_per_block cfg in
  s ← get;
  st ← dict_get (state s) first_page;
  if decide (st = STATE_INVALID ∨ st = STATE_ERASED) then
    (if decide (st = STATE_INVALID) then physical_erase block else mret tt);;
    current_block <~ block;;
    current_page <~ first_page;;
    modify (λ s, s <| gc_used_blocks ::= <[block := 1]> |>);;
    mret true
  else mret false.

Definition find_free (blocks : list Z) : M ssd bool :=
  r ← for_ret blocks tt (λ _ block,
    b ← is_block_free block; mret (if b : bool then inr tt else inl tt));
  mret (match r with inr _ => true | inl _ => false end).

Definition get_cursor : M ssd Z :=
  s ← get;
  if current_page s =? -1 then
    b ← find_free (range (current_block s) (num_blocks cfg));
    if b : bool then mret 0
    else
      s ← get;
      b ← find_free (range 0 (current_block s));
      if b : bool then mret 0 else mret (-1)
  else mret 0.

Definition update_cursor : M ssd unit :=
  s ← get;
  let page := current_page s + 1 in
  current_page <~ page;;
  r ← py_mod page (pages_per_block cfg);
  when (r =? 0) (current_page <~ -1).

Definition write_logging (page_address : Z) (d : string) : M ssd string :=
  c ← get_cursor;
  if c =? -1 then
    modify (λ s, s <| logi ::= λ l, l <| logical_write_fail_sum ::= Z.succ |> |>);;
    mret "failure: device full"
  else
    s ← get;
    st ← dict_get (state s) (current_page s);
    passert (bool_decide (st = STATE_ERASED));;
    physical_program (current_page s) d;;
    map_page page_address (current_page s);;
    update_cursor;;
    mret "success".

(** *** The logical interface *)

Definition illegal (address : Z) : bool :=
  (address <? 0) || (num_logical_pages cfg <=? address).

Definition trim (address : Z) : M ssd string :=
  modify (λ s, s <| logi ::= λ l, l <| logical_trim_sum ::= Z.succ |> |>);;
  let fail msg :=
    modify (λ s, s <| logi ::= λ l, l <| logical_trim_fail_sum ::= Z.succ |> |>);;
    mret msg in
  if illegal address then fail "fail: illegal trim address"
  else
    s ← get;
    p ← dict_get (forward_map s) address;
    if p =? -1 then fail "fail: uninitialized trim"
    else
      modify (λ s, s <| forward_map ::= <[address := -1]> |>);;
      mret "success".

Definition read (address : Z) : M ssd string :=
  modify (λ s, s <| logi ::= λ l, l <| logical_read_sum ::= Z.succ |> |>);;
  let fail msg :=
    modify (λ s, s <| logi ::= λ l, l <| logical_read_fail_sum ::= Z.succ |> |>);;
    mret msg in
  if illegal address then fail "fail: illegal read address"
  else
    s ← get;
    p ← dict_get (forward_map s) address;
    if p =? -1 then fail "fail: uninitialized read"
    else read_direct p.

Definition write (address : Z) (d : string) : M ssd string :=
  modify (λ s, s <| logi ::= λ l, l <| logical_write_sum ::= Z.succ |> |>);;
  if illegal address then
    modify (λ s, s <| logi ::= λ l, l <| logical_write_fail_sum ::= Z.succ |> |>);;
    mret "fail: illegal write address"
  else
    match ssd_type cfg with
    | TYPE_DIRECT => write_direct address d
    | TYPE_IDEAL => write_ideal address d
    | TYPE_LOGGING => write_logging address d
    end.

(** *** Printing *)

(** The space after every tenth column of the page tables *)
Definition tenth (i : Z) : M ssd unit := when ((0 <? i) && ((i + 1) mod 10 =? 0)) (put_str " ").

Definition printable_state (st : page_state) : string :=
  match st with STATE_INVALID => "i" | STATE_ERASED => "E" | STATE_VALID => "v" end.

Definition dump_ftl : M ssd unit :=
  s ← get;
  put_str "FTL   ";;
  let ftl_columns := int_div (pages_per_block cfg * num_blocks cfg) 7 in
  count ← for_acc (range 0 (num_logical_pages cfg)) 0 (λ count i,
    p ← dict_get (forward_map s) i;
    if p =? -1 then mret count
    else
      let count := count + 1 in
      put_str (fmt_d 3 i +:+ ":" +:+ fmt_d 3 p +:+ " ");;
      r ← py_mod count ftl_columns;
      when (r =? 0) (put_str (nl +:+ "      "));;
      mret count);
  when (count =? 0) (put_str "(empty)");;
  print "".

Definition dump_block_row : M ssd unit :=
  put_str "Block ";;
  for_ (range 0 (num_blocks cfg)) (λ i,
    let out_str := str_of_Z i in
    put_str (out_str +:+ str_mul " " (pages_per_block cfg - slen out_str + 1)));;
  print "".

(** The page numbers, one line per decimal digit *)
Definition dump_page_rows : M ssd unit :=
  let max_len := slen (str_of_Z (num_pages cfg)) in
  for_ (reverse (range 1 (max_len + 1))) (λ n,
    put_str (if n =? max_len then "Page  " else "      ");;
    for_ (range 0 (num_pages cfg)) (λ i,
      let row := zfill max_len (str_of_Z i) in
      put_str (String.substring (Z.to_nat (max_len - n)) 1 row);;
      tenth i);;
    print "").

Definition dump_state_row : M ssd unit :=
  s ← get;
  put_str "State ";;
  for_ (range 0 (num_pages cfg)) (λ i,
    st ← dict_get (state s) i; put_str (printable_state st);; tenth i);;
  print "".

Definition dump_data_row : M ssd unit :=
  s ← get;
  put_str "Data  ";;
  for_ (range 0 (num_pages cfg)) (λ i,
    st ← dict_get (state s) i;
    (if decide (st = STATE_VALID) then d ← dict_get (data s) i; put_str d else put_str " ");;
    tenth i);;
  print "".

Definition dump_live_row : M ssd unit :=
  s ← get;
  put_str "Live  ";;
  for_ (range 0 (num_pages cfg)) (λ i,
    st ← dict_get (state s) i;
    live ← (if decide (st = STATE_VALID) then
              l ← dict_get (reverse_map s) i;
              p ← dict_get (forward_map s) l;
              mret (p =? i)
            else mret false);
    put_str (if live : bool then "+" else " ");;
    tenth i);;
  print "".

Definition dump : M ssd unit :=
  dump_ftl;; dump_block_row;; dump_page_rows;; dump_state_row;; dump_data_row;; dump_live_row.

Definition stats_row (title : string) (counts : gmap Z Z) (sum : Z) : M ssd unit :=
  put_str title;;
  for_ (range 0 (num_blocks cfg)) (λ i,
    c ← dict_get counts i; put_str (fmt_d 3 c +:+ "        "));;
  print ("  Sum: " +:+ str_of_Z sum).

(** [%.2f] of a whole number *)
Definition fmt_2f (n : Z) : string := str_of_Z n +:+ ".00".

Definition stats : M ssd unit :=
  s ← get;
  let ph := phys s in let lg := logi s in
  print "Physical Operations Per Block";;
  stats_row "Erases " (physical_erase_count ph) (physical_erase_sum ph);;
  stats_row "Writes " (physical_write_count ph) (physical_write_sum ph);;
  stats_row "Reads  " (physical_read_count ph) (physical_read_sum ph);;
  print "";;
  print "Logical Operation Sums";;
  print ("  Write count " +:+ str_of_Z (logical_write_sum lg) +:+
         " (" +:+ str_of_Z (logical_write_fail_sum lg) +:+ " failed)");;
  print ("  Read count  " +:+ str_of_Z (logical_read_sum lg) +:+
         " (" +:+ str_of_Z (logical_read_fail_sum lg) +:+ " failed)");;
  print ("  Trim count  " +:+ str_of_Z (logical_trim_sum lg) +:+
         " (" +:+ str_of_Z (logical_trim_fail_sum lg) +:+ " failed)");;
  print "";;
  print "Times";;
  print ("  Erase time " +:+ fmt_2f (physical_erase_sum ph * block_erase_time cfg));;
  print ("  Write time " +:+ fmt_2f (physical_write_sum ph * page_program_time cfg));;
  print ("  Read time  " +:+ fmt_2f (physical_read_sum ph * page_read_time cfg));;
  print ("  Total time " +:+ fmt_2f (physical_erase_sum ph * block_erase_time cfg
         + physical_write_sum ph * page_program_time cfg
         + physical_read_sum ph * page_read_time cfg)).

(** *** Garbage collection *)

(** The live physical pages of the block that starts at [page_start] *)
Definition collect_live (page_start : Z) : M ssd (list Z) :=
  for_acc (range page_start (page_start + pages_per_block cfg)) [] (λ live_pages page,
    s ← get;
    logical_page ← dict_get (reverse_map s) page;
    if logical_page =? -1 then mret live_pages
    else
      p ← dict_get (forward_map s) logical_page;
      mret (if p =? page then live_pages ++ [page] else live_pages)).

Definition copy_live (page : Z) : M ssd unit :=
  s ← get;
  when (gc_trace cfg)
    (print ("gc " +:+ str_of_Z (gc_count s) +:+ ":: read(physical_page=" +:+ str_of_Z page +:+ ")");;
     print ("gc " +:+ str_of_Z (gc_count s) +:+ ":: write()"));;
  d ← physical_read page;
  s ← get;
  l ← dict_get (reverse_map s) page;
  write l d;;
  mret ().

(** The body of the loop over blocks: [true] when the collection is done *)
Definition gc_block (block : Z) : M ssd bool :=
  s ← get;
  if block =? current_block s then mret false
  else
    let page_start := block * pages_per_block cfg in
    st ← dict_get (state s) page_start;
    if decide (st = STATE_ERASED) then mret false
    else
      live_pages ← collect_live page_start;
      if len live_pages =? pages_per_block cfg then mret false
      else
        for_ live_pages copy_live;;
        physical_erase block;;
        s ← get;
        when (gc_trace cfg)
          (print ("gc " +:+ str_of_Z (gc_count s) +:+ ":: erase(block=" +:+ str_of_Z block +:+ ")");;
           when (show_state cfg) (print "";; dump;; print ""));;
        used ← blocks_in_use;
        if used <=? gc_low_water_mark cfg then
          gc_current_block <~ block;;
          modify (λ s, s <| gc_count ::= Z.succ |>);;
          mret true
        else mret false.

Definition garbage_collect : M ssd unit :=
  s ← get;
  _ ← for_ret (range (gc_current_block s) (num_blocks cfg) ++ range 0 (gc_current_block s)) tt
    (λ _ block, b ← gc_block block; mret (if b : bool then inr tt else inl tt));
  mret ().

Definition upkeep : M ssd unit :=
  used ← blocks_in_use;
  when (gc_high_water_mark cfg <=? used) garbage_collect.

(** ** The main program *)

(** *** Generating commands *)

Record gen_options := GenOptions {
  num_cmds : Z;
  percent_reads : Z;
  percent_writes : Z;
  read_fail : Z;
  hot_cold : bool;      (** a skew was given *)
  hot_percent : Z;
  hot_target : Z;
}.

Record gen := Gen {
  cmd_list : list string;
  valid_addresses : list Z;
  skew_start : Z;
}.

#[export] Instance gen_settable : Settable gen := λ s,
  Gen (cmd_list s) (valid_addresses s) (skew_start s).

(** [string.digits + string.ascii_lowercase + string.ascii_uppercase], as a
    list of characters *)
Definition printable : list string :=
  let chars a n := (λ i, String (ascii_of_nat i) EmptyString) <$> seq a n in
  chars 48%nat 10%nat ++ chars 97%nat 26%nat ++ chars 65%nat 26%nat.

(** [l.remove(x)] *)
Definition list_remove {S} (l : list Z) (x : Z) : M S (list Z) :=
  of_option ValueError ((λ r, delete r.1 l) <$> list_find (x =.) l).

Definition add_cmd (cmd : string) : M gen unit := modify (λ g, g <| cmd_list ::= (.++ [cmd]) |>).

(** One iteration of [while len(cmd_list) < num_cmds] *)
Definition gen_step (o : gen_options) : M gen unit :=
  let max_page_addr := num_logical_pages cfg in
  which_cmd ← rand_int 100;
  g ← get;
  if which_cmd <? percent_reads o then
    r ← random_randint 0 99;
    if r <? read_fail o then
      address ← random_randint 0 (max_page_addr - 1);
      add_cmd ("r" +:+ str_of_Z address)
    else if len (valid_addresses g) <? 2 then mret ()
    else
      address ← random_choice (valid_addresses g);
      add_cmd ("r" +:+ str_of_Z address)
  else if which_cmd <? percent_reads o + percent_writes o then
    hot ← (if (skew_start g =? 0) && hot_cold o then rand_lt (hot_percent o) 100 else mret false);
    address ← (if hot : bool
               then random_randint 0 (int_percent (hot_target o) (max_page_addr - 1))
               else random_randint 0 (max_page_addr - 1));
    when (negb (bool_decide (address ∈ valid_addresses g)))
      (modify (λ g, g <| valid_addresses ::= (.++ [address]) |>));;
    d ← random_choice printable;
    add_cmd ("w" +:+ str_of_Z address +:+ ":" +:+ d);;
    when (0 <? skew_start g) (modify (λ g, g <| skew_start ::= Z.pred |>))
  else if len (valid_addresses g) <? 1 then mret ()
  else
    address ← random_choice (valid_addresses g);
    add_cmd ("t" +:+ str_of_Z address);;
    l ← list_remove (valid_addresses g) address;
    valid_addresses <~ l.

Definition generate (o : gen_options) (fuel : nat) : M gen unit :=
  while_ fuel tt (λ _,
    g ← get;
    if len (cmd_list g) <? num_cmds o then gen_step o;; mret (inl tt) else mret (inr tt)).

(** *** Executing them *)

(** [cmd], parsed as the main loop parses it *)
Definition exec_cmd (show_cmds quiz_cmds solve : bool) (op : Z) (cmd : string) : M ssd Z :=
  let show_or_quiz shown quizzed :=
    if show_cmds || (quiz_cmds && solve) then print shown
    else when quiz_cmds (print quizzed) in
  match cmd with
  | String "r" _ =>
      a ← list_get (split_on "r" cmd) 1; address ← py_int a;
      d ← read address;
      show_or_quiz
        ("cmd " +:+ fmt_d 3 op +:+ ":: read(" +:+ str_of_Z address +:+ ") -> " +:+ d)
        ("cmd " +:+ fmt_d 3 op +:+ ":: read(" +:+ str_of_Z address +:+ ") -> ??");;
      mret (op + 1)
  | String "w" _ =>
      let parts := split_on ":" cmd in
      p0 ← list_get parts 0; a ← list_get (split_on "w" p0) 1; address ← py_int a;
      d ← list_get parts 1;
      rc ← write address d;
      show_or_quiz
        ("cmd " +:+ fmt_d 3 op +:+ ":: write(" +:+ str_of_Z address +:+ ", " +:+ d +:+ ") -> " +:+ rc)
        ("cmd " +:+ fmt_d 3 op +:+ ":: command(??) -> ??");;
      mret (op + 1)
  | String "t" _ =>
      a ← list_get (split_on "t" cmd) 1; address ← py_int a;
      rc ← trim address;
      show_or_quiz
        ("cmd " +:+ fmt_d 3 op +:+ ":: trim(" +:+ str_of_Z address +:+ ") -> " +:+ rc)
        ("cmd " +:+ str_of_Z op +:+ ":: command(??) -> ??");;
      mret (op + 1)
  | _ => mret op
  end.

(** The body of [for cmd in cmd_list]; an empty command ends the loop. *)
Definition run_cmd (show_st show_cmds quiz_cmds solve : bool) (op : Z) (cmd : string) : M ssd (Z + unit) :=
  match cmd with
  | EmptyString => mret (inr tt)
  | _ =>
      op ← exec_cmd show_cmds quiz_cmds solve op cmd;
      when show_st (print "";; dump;; print "");;
      upkeep;;
      mret (inl op)
  end.

Definition run_cmds (show_st show_cmds quiz_cmds solve : bool) (cmd_list : list string) : M ssd unit :=
  _ ← for_ret cmd_list 0 (run_cmd show_st show_cmds quiz_cmds solve);
  mret ().

(** What the main program does with the device, once the commands are known *)
Definition main (show_cmds quiz_cmds solve show_stats : bool) (cmd_list : list string) : M ssd unit :=
  let show_st := show_state cfg || quiz_cmds in
  dump;; print "";;
  run_cmds show_st show_cmds quiz_cmds solve cmd_list;;
  when (negb show_st) (print "";; dump);;
  print "";;
  when show_stats (stats;; print "").
End Device.

(** ** Correctness *)

(** The logical contents: what a read of each mapped page returns *)
Definition contents (s : ssd) : gmap Z string :=
  omap (λ p, if p =? -1 then None else data s !! p) (forward_map s).
Arguments contents : simpl never.

Section Proofs.
Context (cfg : config).
Context (ppb_pos : 0 < pages_per_block cfg) (nb_pos : 0 < num_blocks cfg).

#[local] Abbreviation ppb := (pages_per_block cfg).
#[local] Abbreviation nb := (num_blocks cfg).
#[local] Abbreviation np := (num_pages cfg).
#[local] Abbreviation nlp := (num_logical_pages cfg).

Definition in_block (b p : Z) : Prop := b * ppb ≤ p < (b + 1) * ppb.

#[export] Instance in_block_dec b p : Decision (in_block b p).
Proof. unfold in_block. apply _. Defined.

Lemma in_block_first b : in_block b (b * ppb).
Proof. unfold in_block. lia. Qed.

Lemma in_block_page b p : 0 ≤ b < nb → in_block b p → 0 ≤ p < np.
Proof. unfold in_block, num_pages. nia. Qed.

Lemma in_block_inj b b' p : in_block b p → in_block b' p → b = b'.
Proof. unfold in_block. nia. Qed.

Lemma page_block p : 0 ≤ p < np → 0 ≤ int_div p ppb < nb ∧ in_block (int_div p ppb) p.
Proof.
  unfold num_pages, int_div, in_block. intros Hp. rewrite Z.quot_div_nonneg by lia.
  pose proof (Z.div_mod p ppb ltac:(lia)). pose proof (Z.mod_pos_bound p ppb ltac:(lia)).
  split; [|nia]. split; [apply Z.div_pos; lia|apply Z.div_lt_upper_bound; lia].
Qed.

(** *** Domains of the dicts *)

Definition phys_ok (ph : phys_stats) : Prop :=
  has nb (physical_erase_count ph) ∧ has nb (physical_read_count ph) ∧
  has nb (physical_write_count ph).

(** Every dict has its keys, and the reverse map its range. *)
Record wf (s : ssd) : Prop := {
  wf_state : has np (state s);
  wf_data : has np (data s);
  wf_used : has nb (gc_used_blocks s);
  wf_forward : has nlp (forward_map s);
  wf_reverse : has np (reverse_map s);
  wf_phys : phys_ok (phys s);
  wf_logical : ∀ p l, reverse_map s !! p = Some l → l = -1 ∨ 0 ≤ l < nlp;
}.

(** Changing the counters alone *)
Definition same_device (s s' : ssd) : Prop :=
  s' <| phys := phys s |> <| logi := logi s |> = s.

Lemma wp_physical_program p d s w Q E :
  wf s → 0 ≤ p < np →
  (∀ ph, phys_ok ph →
     Q tt (s <| data ::= <[p := d]> |> <| state ::= <[p := STATE_VALID]> |> <| phys := ph |>) w) →
  wp (physical_program cfg p d) Q E s w.
Proof.
  intros Hwf Hp HQ. unfold physical_program, dict_add. wp_pures.
  destruct (wf_phys _ Hwf) as (He & Hr & Hw).
  destruct (has_lookup _ _ (int_div p ppb) Hw) as [c Hc]; [by apply page_block|].
  simpl. rewrite Hc. wp_pures. apply (HQ (_ : phys_stats)).
  split_and!; simpl; [done|done|by apply has_insert].
Qed.

Lemma wp_physical_read p s w Q E :
  wf s → 0 ≤ p < np →
  (∀ ph d, phys_ok ph → data s !! p = Some d → Q d (s <| phys := ph |>) w) →
  wp (physical_read cfg p) Q E s w.
Proof.
  intros Hwf Hp HQ. unfold physical_read, dict_add. wp_pures.
  destruct (wf_phys _ Hwf) as (He & Hr & Hw).
  destruct (has_lookup _ _ (int_div p ppb) Hr) as [c Hc]; [by apply page_block|].
  destruct (has_lookup _ _ p (wf_data _ Hwf)) as [d Hd]; [done|].
  rewrite Hc. wp_pures. simpl. rewrite Hd. apply (HQ (_ : phys_stats)); [|done].
  split_and!; simpl; [done|by apply has_insert|done].
Qed.

(** What an erase of block [b] leaves of the page table [m] *)
Definition wiped {A} (b : Z) (v : A) (m m' : gmap Z A) : Prop :=
  ∀ p, m' !! p = if decide (in_block b p) then Some v else m !! p.

Lemma wiped_has {A} n b (v : A) m m' : has n m → wiped b v m m' → has n m'.
Proof. intros Hm Hw i Hi. rewrite (Hw i). case_decide; eauto. Qed.

Lemma wp_physical_erase b s w Q E :
  wf s → 0 ≤ b < nb →
  (∀ d st ph, wiped b " " (data s) d → wiped b STATE_ERASED (state s) st → phys_ok ph →
     Q tt (s <| data := d |> <| state := st |> <| gc_used_blocks ::= <[b := 0]> |>
             <| phys := ph |>) w) →
  wp (physical_erase cfg b) Q E s w.
Proof.
  intros Hwf Hb HQ. unfold physical_erase. rewrite wp_bind.
  replace (b * ppb + ppb - 1 + 1) with ((b + 1) * ppb) by lia.
  apply (wp_for (λ pre s1 w1, w1 = w ∧ ∃ d st,
    s1 = s <| data := d |> <| state := st |> ∧
    (∀ p, d !! p = if decide (p ∈ pre) then Some " " else data s !! p) ∧
    (∀ p, st !! p = if decide (p ∈ pre) then Some STATE_ERASED else state s !! p))).
  - split; [done|]. exists (data s), (state s). split; [by destruct s|].
    split; intros p; rewrite decide_False by set_solver; done.
  - intros pre x post s1 w1 _ (-> & d & st & -> & Hd & Hst). wp_pures.
    split; [done|]. exists (<[x := " "]> d), (<[x := STATE_ERASED]> st). split; [done|].
    split; intros p; destruct (decide (x = p)) as [->|];
      rewrite ?lookup_insert_eq, ?lookup_insert_ne by done.
    1, 3: rewrite decide_True by set_solver; done.
    1: rewrite Hd. 2: rewrite Hst.
    all: destruct (decide (p ∈ pre)); [rewrite decide_True by set_solver; done|].
    all: rewrite decide_False by set_solver; done.
  - intros s1 w1 (-> & d & st & -> & Hd & Hst). wp_pures. unfold dict_add. wp_pures.
    destruct (wf_phys _ Hwf) as (He & Hr & Hw).
    destruct (has_lookup _ _ b He) as [c Hc]; [done|].
    simpl. rewrite Hc. wp_pures.
    apply (HQ d st (_ : phys_stats)).
    + intros p. rewrite Hd. apply decide_ext. apply elem_of_range.
    + intros p. rewrite Hst. apply decide_ext. apply elem_of_range.
    + split_and!; simpl; [by apply has_insert|done|done].
Qed.

(** The number of blocks in use is computed without failing. *)
Lemma wp_blocks_in_use s w (Q : Z → ssd → world → Prop) E :
  wf s → (∀ n, Q n s w) → wp (blocks_in_use cfg) Q E s w.
Proof.
  intros Hwf HQ. unfold blocks_in_use. wp_pures.
  apply (wp_for_acc (λ _ _ s1 w1, s1 = s ∧ w1 = w)); [done| |by intros ? ? ? [-> ->]].
  intros pre x post b s1 w1 Hx [-> ->]. wp_pures.
  apply range_split in Hx as (_ & _ & Hx).
  by destruct (has_lookup _ _ x (wf_used _ Hwf)) as [u ->].
Qed.

(** *** The direct and the ideal device: every page stays in its place *)

Record flat_inv (s : ssd) : Prop := {
  fi_wf : wf s;
  fi_size : nlp ≤ np;
  fi_map : ∀ l p, forward_map s !! l = Some p → p ≠ -1 →
    p = l ∧ 0 ≤ l < nlp ∧ state s !! l = Some STATE_VALID;
  fi_rev : ∀ p, state s !! p = Some STATE_VALID →
    ∃ l, reverse_map s !! p = Some l ∧ 0 ≤ l < nlp;
  fi_used : ∀ b, 0 ≤ b < nb → gc_used_blocks s !! b = Some 0;
}.

(** Writing logical page [l] in place is correct if it changes no other valid
    page, whatever else it does to the flash. *)
Lemma flat_write s s' l d :
  flat_inv s → 0 ≤ l < nlp →
  wf s' →
  forward_map s' = <[l := l]> (forward_map s) →
  reverse_map s' = <[l := l]> (reverse_map s) →
  data s' !! l = Some d → state s' !! l = Some STATE_VALID →
  (∀ p, p ≠ l → state s !! p = Some STATE_VALID →
     state s' !! p = Some STATE_VALID ∧ data s' !! p = data s !! p) →
  (∀ p, p ≠ l → state s' !! p = Some STATE_VALID → state s !! p = Some STATE_VALID) →
  (∀ b, 0 ≤ b < nb → gc_used_blocks s' !! b = Some 0) →
  flat_inv s' ∧ contents s' = <[l := d]> (contents s).
Proof.
  intros [Hwf Hsize Hmap Hrev _] Hl Hwf' Hf Hr Hd Hst Hkeep Hback Hused. split.
  - split; [done..| | |done].
    + intros l' p Hp Hne. rewrite Hf in Hp.
      destruct (decide (l = l')) as [->|]; simplify_map_eq; [done|].
      destruct (Hmap _ _ Hp Hne) as (-> & ? & ?). split; [done|]. split; [done|]. by apply Hkeep.
    + intros p Hp. rewrite Hr. destruct (decide (l = p)) as [->|]; simplify_map_eq; eauto.
  - apply map_eq. intros l'. unfold contents. rewrite lookup_omap, Hf.
    destruct (decide (l = l')) as [->|].
    + rewrite !lookup_insert_eq. simpl. destruct (Z.eqb_spec l' (-1)); [lia|done].
    + rewrite !lookup_insert_ne by done. rewrite lookup_omap.
      destruct (forward_map s !! l') as [p|] eqn:Hp; [simpl|done].
      destruct (Z.eqb_spec p (-1)); [done|].
      destruct (Hmap _ _ Hp) as (-> & _ & Hv); [done|]. by apply Hkeep.
Qed.

(** The valid pages of a block that [write_direct] reads before the erase *)
Lemma wp_read_old s w Q E b :
  wf s → 0 ≤ b < nb →
  (∀ ph old, phys_ok ph →
     (∀ p x, (p, x) ∈ old ↔ in_block b p ∧ state s !! p = Some STATE_VALID ∧ data s !! p = Some x) →
     Q old (s <| phys := ph |>) w) →
  wp (for_acc (range (b * ppb) ((b + 1) * ppb)) [] (λ old_list old_page,
    s ← get;
    st ← dict_get (state s) old_page;
    if decide (st = STATE_VALID) then
      old_data ← physical_read cfg old_page; mret (old_list ++ [(old_page, old_data)])
    else mret old_list)) Q E s w.
Proof.
  intros Hwf Hb HQ.
  apply (wp_for_acc (λ pre old s1 w1, w1 = w ∧ ∃ ph, s1 = s <| phys := ph |> ∧ phys_ok ph ∧
    ∀ p x, (p, x) ∈ old ↔ p ∈ pre ∧ state s !! p = Some STATE_VALID ∧ data s !! p = Some x)).
  - split; [done|]. exists (phys s). split; [by destruct s|]. split; [apply Hwf|]. set_solver.
  - intros pre page post old s1 w1 Hr (-> & ph & -> & Hph & Hold).
    apply range_split in Hr as (_ & _ & Hpage).
    assert (0 ≤ page < np) as Hp by by eapply in_block_page.
    destruct (has_lookup _ _ page (wf_state _ Hwf)) as [st Hst]; [done|].
    wp_pures. simpl. rewrite Hst. case_decide as Hv; wp_pures.
    + subst. apply wp_physical_read; [by destruct Hwf; split|done|].
      intros ph' x Hph' Hx. wp_pures. split; [done|]. exists ph'. split_and!; [done..|].
      intros p y. rewrite !elem_of_app, Hold, !list_elem_of_singleton. simpl in Hx.
      naive_solver.
    + split; [done|]. exists ph. split_and!; [done..|].
      intros p y. rewrite elem_of_app, list_elem_of_singleton, Hold. naive_solver.
  - intros old s1 w1 (-> & ph & -> & Hph & Hold). apply HQ; [done|].
    intros p x. rewrite Hold, elem_of_range. done.
Qed.

(** Writing the old pages back, all but [l] *)
Lemma wp_restore_old l old s w Q E :
  wf s → (∀ p x, (p, x) ∈ old → 0 ≤ p < np) →
  (∀ ph dt st, phys_ok ph → has np dt → has np st →
     (∀ p x, (p, x) ∈ old → p ≠ l → st !! p = Some STATE_VALID ∧ ∃ y, (p, y) ∈ old ∧ dt !! p = Some y) →
     (∀ p, (p = l ∨ ∀ x, (p, x) ∉ old) → st !! p = state s !! p ∧ dt !! p = data s !! p) →
     Q tt (s <| data := dt |> <| state := st |> <| phys := ph |>) w) →
  wp (for_ old (λ old : Z * string,
    if old.1 =? l then mret tt else physical_program cfg old.1 old.2)) Q E s w.
Proof.
  intros Hwf Hold HQ.
  apply (wp_for (λ pre s1 w1, w1 = w ∧ ∃ ph dt st,
    s1 = s <| data := dt |> <| state := st |> <| phys := ph |> ∧
    phys_ok ph ∧ has np dt ∧ has np st ∧
    (∀ p x, (p, x) ∈ pre → p ≠ l → st !! p = Some STATE_VALID ∧ ∃ y, (p, y) ∈ pre ∧ dt !! p = Some y) ∧
    (∀ p, (p = l ∨ ∀ x, (p, x) ∉ pre) → st !! p = state s !! p ∧ dt !! p = data s !! p))).
  - split; [done|]. exists (phys s), (data s), (state s).
    destruct Hwf. split_and!; [by destruct s|done..|set_solver|done].
  - intros pre [p x] post s1 w1 Hsplit (-> & ph & dt & st & -> & Hph & Hdt & Hst & Hin & Hout).
    simpl. destruct (Z.eqb_spec p l) as [->|Hne]; wp_pures.
    + split; [done|]. exists ph, dt, st. split_and!; [done..| |].
      * intros p y [Hp|Hp]%elem_of_app Hpl; [|set_solver].
        destruct (Hin _ _ Hp Hpl) as (? & z & ? & ?). split; [done|]. exists z. set_solver.
      * intros p Hp. apply Hout. set_solver.
    + apply wp_physical_program.
      { destruct Hwf; by split. }
      { apply (Hold p x). rewrite Hsplit. apply elem_of_app. right. apply elem_of_cons. by left. }
      intros ph' Hph'. split; [done|]. exists ph', (<[p := x]> dt), (<[p := STATE_VALID]> st).
      split_and!; [done|done|by apply has_insert|by apply has_insert| |].
      * intros q y Hq Hql. destruct (decide (p = q)) as [->|].
        { rewrite !lookup_insert_eq. split; [done|]. exists x. set_solver. }
        rewrite !lookup_insert_ne by done. apply elem_of_app in Hq as [Hq|Hq]; [|set_solver].
        destruct (Hin _ _ Hq Hql) as (? & z & ? & ?). split; [done|]. exists z. set_solver.
      * intros q Hq. rewrite !lookup_insert_ne by set_solver. apply Hout. set_solver.
  - intros s1 w1 (-> & ph & dt & st & -> & ? & ? & ? & ? & ?). by apply HQ.
Qed.

Lemma write_direct_spec l d s w :
  flat_inv s → 0 ≤ l < nlp →
  wp (write_direct cfg l d) (λ r s' w', r = "success" ∧ w' = w ∧
    flat_inv s' ∧ contents s' = <[l := d]> (contents s)) noexn s w.
Proof.
  intros Hinv Hl. pose proof (fi_wf _ Hinv) as Hwf. pose proof (fi_size _ Hinv).
  destruct (page_block l) as [Hb Hlb]; [lia|].
  unfold write_direct. rewrite wp_bind. set (b := int_div l ppb) in *.
  replace (b * ppb + ppb - 1 + 1) with ((b + 1) * ppb) by lia.
  apply wp_read_old; [done..|]. intros ph old Hph Hold. wp_pures.
  apply wp_physical_erase; [by destruct Hwf; split|done|].
  intros de ste ph' Hde Hste Hph'. wp_pures.
  assert (wf (s <| phys := ph |> <| data := de |> <| state := ste |>
    <| gc_used_blocks ::= <[b := 0]> |> <| phys := ph' |>)) as Hwf'.
  { destruct Hwf. split; simpl in *; [by eapply wiped_has|by eapply wiped_has|by apply has_insert|done..]. }
  apply wp_restore_old; [done| |].
  { intros p x Hp%Hold. eapply in_block_page; [done|]. apply Hp. }
  intros ph2 dt st Hph2 Hdt Hst Hin Hout. wp_pures.
  apply wp_physical_program; [by destruct Hwf'; split|lia|].
  intros ph3 Hph3. wp_pures. unfold map_page. wp_pures. do 2 (split; [done|]).
  assert (∀ p, p ≠ l → state s !! p = Some STATE_VALID →
    st !! p = Some STATE_VALID ∧ dt !! p = data s !! p) as Hkeep.
  { intros p Hne Hv. destruct (decide (in_block b p)) as [Hib|Hib].
    - destruct (has_lookup _ _ p (wf_data _ Hwf)) as [x Hx]; [by eapply in_block_page|].
      destruct (Hin p x) as (? & y & Hy%Hold & ->); [by apply Hold|done|].
      split; [done|]. naive_solver.
    - destruct (Hout p) as [-> ->]; [right; intros x Hx%Hold; tauto|]. simpl.
      rewrite (Hste p), (Hde p), !decide_False by done. done. }
  apply flat_write; simpl; try done.
  - destruct Hwf'. split; simpl in *; [by apply has_insert..|done|by apply has_insert|by apply has_insert|done|].
    intros p l' [[<- <-]|[? ?]]%lookup_insert_Some; [right; lia|by eapply wf_logical0].
  - by rewrite lookup_insert_eq.
  - by rewrite lookup_insert_eq.
  - intros p Hne Hv. rewrite !lookup_insert_ne by done. by apply Hkeep.
  - intros p Hne Hv. rewrite lookup_insert_ne in Hv by done.
    destruct (decide (in_block b p ∧ state s !! p = Some STATE_VALID)) as [[_ ?]|Hno]; [done|].
    destruct (Hout p) as [Hv' _]; [right; intros x Hx%Hold; tauto|].
    rewrite Hv' in Hv. simpl in Hv. rewrite (Hste p) in Hv. by case_decide.
  - intros b' Hb'. destruct (decide (b = b')) as [->|]; [by rewrite lookup_insert_eq|].
    rewrite lookup_insert_ne by done. by apply (fi_used _ Hinv).
Qed.

Lemma write_ideal_spec l d s w :
  flat_inv s → 0 ≤ l < nlp →
  wp (write_ideal cfg l d) (λ r s' w', r = "success" ∧ w' = w ∧
    flat_inv s' ∧ contents s' = <[l := d]> (contents s)) noexn s w.
Proof.
  intros Hinv Hl. pose proof (fi_wf _ Hinv) as Hwf. pose proof (fi_size _ Hinv).
  unfold write_ideal, map_page. wp_pures. apply wp_physical_program; [done|lia|].
  intros ph Hph. wp_pures. do 2 (split; [done|]). apply flat_write; simpl; try done.
  - destruct Hwf. split; simpl in *; [by apply has_insert..|done|by apply has_insert|by apply has_insert|done|].
    intros p l' [[<- <-]|[? ?]]%lookup_insert_Some; [right; lia|by eapply wf_logical0].
  - by rewrite lookup_insert_eq.
  - by rewrite lookup_insert_eq.
  - intros p Hne Hv. by rewrite !lookup_insert_ne.
  - intros p Hne Hv. by rewrite lookup_insert_ne in Hv.
  - apply (fi_used _ Hinv).
Qed.

(** *** The log-structured device *)

Definition first_valid (s : ssd) (b : Z) : Prop := state s !! (b * ppb) = Some STATE_VALID.

#[export] Instance first_valid_dec s b : Decision (first_valid s b).
Proof. unfold first_valid. apply _. Defined.

(** A block is free when its first page is not valid. *)
Definition has_free (s : ssd) : Prop := ∃ b, 0 ≤ b < nb ∧ ¬ first_valid s b.

#[export] Instance has_free_dec s : Decision (has_free s).
Proof.
  destruct (decide (Exists (λ b, ¬ first_valid s b) (range 0 nb))) as [Hx|Hx]; [left|right].
  - apply Exists_exists in Hx as (b & Hb%elem_of_range & ?). by exists b.
  - intros (b & Hb & ?). apply Hx, Exists_exists. exists b. split; [by apply elem_of_range|done].
Defined.

(** Pages that can be programmed before a new block must be opened *)
Definition rest (s : ssd) : Z :=
  if current_page s =? -1 then 0 else (current_block s + 1) * ppb - current_page s.

(** What holds of the maps and of the blocks other than the open one *)
Record log_base (s : ssd) : Prop := {
  lb_wf : wf s;
  lb_map : ∀ l p, forward_map s !! l = Some p → p ≠ -1 →
    0 ≤ p < np ∧ state s !! p = Some STATE_VALID ∧ reverse_map s !! p = Some l;
  lb_rev : ∀ p, state s !! p = Some STATE_VALID →
    ∃ l, reverse_map s !! p = Some l ∧ 0 ≤ l < nlp;
  lb_blocks : ∀ b p, 0 ≤ b < nb → ¬ first_valid s b → in_block b p →
    state s !! p ≠ Some STATE_VALID ∧
    (state s !! (b * ppb) = Some STATE_ERASED → state s !! p = Some STATE_ERASED);
  lb_block : 0 ≤ current_block s < nb;
}.

(** The pages of the open block from the cursor on are erased. *)
Definition tail_erased (s : ssd) : Prop :=
  in_block (current_block s) (current_page s) ∧
  ∀ p, current_page s ≤ p < (current_block s + 1) * ppb → state s !! p = Some STATE_ERASED.

(** Between two operations: no block is open, or the open one has been
    written to; a block is in use exactly when its first page is valid. *)
Record log_inv (s : ssd) : Prop := {
  li_base : log_base s;
  li_cursor : current_page s = -1 ∨
    (tail_erased s ∧ current_block s * ppb < current_page s ∧ first_valid s (current_block s));
  li_used : ∀ b, 0 ≤ b < nb →
    gc_used_blocks s !! b = Some (if decide (first_valid s b) then 1 else 0);
}.

(** With the cursor set: the open block may still be empty. *)
Record ready (s : ssd) : Prop := {
  rd_base : log_base s;
  rd_cursor : tail_erased s;
  rd_first : current_block s * ppb = current_page s ∨ first_valid s (current_block s);
  rd_used : ∀ b, 0 ≤ b < nb →
    gc_used_blocks s !! b =
    Some (if decide (b = current_block s ∨ first_valid s b) then 1 else 0);
}.

(** [s'] results from [s] by opening a free block. *)
Record opened (s s' : ssd) : Prop := {
  op_free : ¬ first_valid s (current_block s');
  op_page : current_page s' = current_block s' * ppb;
  op_pages : ∀ p, ¬ in_block (current_block s') p →
    state s' !! p = state s !! p ∧ data s' !! p = data s !! p;
  op_forward : forward_map s' = forward_map s;
  op_reverse : reverse_map s' = reverse_map s;
  op_gc : gc_current_block s' = gc_current_block s;
}.

(** Changing pages of a block that holds no mapped page keeps the contents. *)
Lemma contents_frame s s' :
  forward_map s' = forward_map s →
  (∀ l p, forward_map s !! l = Some p → p ≠ -1 → data s' !! p = data s !! p) →
  contents s' = contents s.
Proof.
  intros Hf Hd. apply map_eq. intros l. unfold contents. rewrite !lookup_omap, Hf.
  destruct (forward_map s !! l) as [p|] eqn:Hp; [simpl|done].
  destruct (Z.eqb_spec p (-1)); [done|eauto].
Qed.

Lemma opened_contents s s' : log_base s → 0 ≤ current_block s' < nb →
  opened s s' → contents s' = contents s.
Proof.
  intros Hs Hb [Hfree _ Hpages Hf _ _]. apply contents_frame; [done|].
  intros l p Hp Hne. destruct (lb_map _ Hs _ _ Hp Hne) as (_ & Hv & _).
  destruct (decide (in_block (current_block s') p)) as [Hib|]; [|by apply Hpages].
  by destruct (lb_blocks _ Hs _ _ Hb Hfree Hib).
Qed.

(** Opening a free block of a device without an open one makes it ready. *)
Lemma open_ready s s' :
  log_inv s → 0 ≤ current_block s' < nb → wf s' → opened s s' →
  (∀ p, in_block (current_block s') p → state s' !! p = Some STATE_ERASED) →
  gc_used_blocks s' = <[current_block s' := 1]> (gc_used_blocks s) →
  ready s'.
Proof.
  intros [Hbase Hcur Hused] Hb Hwf' [Hfree Hpage Hpages Hf Hr _] Her Hu.
  assert (∀ b', b' ≠ current_block s' → first_valid s' b' ↔ first_valid s b') as Hfv.
  { intros b' Hne. unfold first_valid. destruct (Hpages (b' * ppb)) as [-> _]; [|done].
    intros Hib. apply Hne. eapply in_block_inj; [apply in_block_first|done]. }
  split.
  - split; [done| | | |done].
    + intros l p Hp Hne. rewrite Hf in Hp. destruct (lb_map _ Hbase _ _ Hp Hne) as (? & Hv & ?).
      rewrite Hr. split; [done|]. split; [|done].
      destruct (decide (in_block (current_block s') p)) as [Hib|]; [|by destruct (Hpages p) as [-> _]].
      by destruct (lb_blocks _ Hbase _ _ Hb Hfree Hib).
    + intros p Hv. rewrite Hr. apply (lb_rev _ Hbase).
      destruct (decide (in_block (current_block s') p)) as [Hib|Hib].
      * rewrite (Her _ Hib) in Hv. done.
      * destruct (Hpages p Hib) as [<- _]. done.
    + intros b p Hb' Hnv Hib. destruct (decide (b = current_block s')) as [->|Hne].
      * rewrite (Her _ Hib). done.
      * assert (∀ q, in_block b q → state s' !! q = state s !! q) as Hst.
        { intros q Hq. apply Hpages. intros Hq'. apply Hne. by eapply in_block_inj. }
        rewrite (Hst p), (Hst (b * ppb)) by (done || apply in_block_first).
        apply (lb_blocks _ Hbase); [done| |done]. by rewrite <-Hfv.
  - unfold tail_erased. rewrite Hpage. split; [apply in_block_first|].
    intros p Hp. apply Her. done.
  - by left.
  - intros b Hb'. rewrite Hu. destruct (decide (b = current_block s')) as [->|Hne].
    + rewrite lookup_insert_eq. by rewrite decide_True by auto.
    + rewrite lookup_insert_ne by done. rewrite Hused by done. f_equal.
      apply decide_ext. rewrite Hfv by done. naive_solver.
Qed.

Lemma wp_is_block_free b s w (Q : bool → ssd → world → Prop) E :
  log_inv s → 0 ≤ b < nb →
  (first_valid s b → Q false s w) →
  (∀ s', ready s' → opened s s' → Q true s' w) →
  wp (is_block_free cfg b) Q E s w.
Proof.
  intros Hinv Hb Hno Hyes. pose proof (lb_wf _ (li_base _ Hinv)) as Hwf.
  unfold is_block_free. wp_pures.
  destruct (has_lookup _ _ (b * ppb) (wf_state _ Hwf)) as [st Hst].
  { eapply in_block_page; [done|apply in_block_first]. }
  rewrite Hst. case_decide as Hd.
  2: { wp_pures. apply Hno. unfold first_valid. destruct st; naive_solver. }
  assert (¬ first_valid s b) as Hnv by (unfold first_valid; rewrite Hst; naive_solver).
  case_decide as Hinvalid; wp_pures.
  - apply wp_physical_erase; [done..|]. intros de ste ph Hde Hste Hph. wp_pures.
    assert (opened s (s <| data := de |> <| state := ste |> <| gc_used_blocks ::= <[b := 0]> |>
      <| phys := ph |> <| current_block := b |> <| current_page := b * ppb |>
      <| gc_used_blocks ::= <[b := 1]> |>)) as Hop.
    { split; try done.
      intros p Hp. simpl. by rewrite (Hde p), (Hste p), !decide_False. }
    apply Hyes; [|exact Hop]. eapply open_ready; [done|done| |done| |].
    + destruct Hwf; split; simpl; try done; try by eapply wiped_has.
      by repeat apply has_insert.
    + simpl. intros p Hp. by rewrite (Hste p), decide_True.
    + simpl. by rewrite insert_insert_eq.
  - destruct Hd as [|Hd]; [done|]. subst st.
    assert (opened s (s <| current_block := b |> <| current_page := b * ppb |>
      <| gc_used_blocks ::= <[b := 1]> |>)) as Hop by by split.
    apply Hyes; [|exact Hop]. eapply open_ready; [done|done| |done| |done].
    + destruct Hwf; split; simpl; try done. by apply has_insert.
    + simpl. intros p Hp. by apply (lb_blocks _ (li_base _ Hinv) b p Hb Hnv Hp).
Qed.

Lemma wp_find_free blocks s w (Q : bool → ssd → world → Prop) E :
  log_inv s → (∀ b, b ∈ blocks → 0 ≤ b < nb) →
  ((∀ b, b ∈ blocks → first_valid s b) → Q false s w) →
  (∀ s', ready s' → opened s s' → Q true s' w) →
  wp (find_free cfg blocks) Q E s w.
Proof.
  intros Hinv Hb Hno Hyes. unfold find_free. rewrite wp_bind.
  apply (wp_for_ret (λ pre _ s1 w1, s1 = s ∧ w1 = w ∧ ∀ b, b ∈ pre → first_valid s b)).
  - split_and!; [done..|set_solver].
  - intros pre b post [] s1 w1 -> (-> & -> & Hpre). wp_pures.
    apply wp_is_block_free; [done|apply Hb; set_solver|..].
    + intros Hv. wp_pures. split_and!; [done..|set_solver].
    + intros s' Hr Hop. wp_pures. by apply Hyes.
  - intros [] s1 w1 (-> & -> & Hall). wp_pures. by apply Hno.
Qed.

Lemma log_inv_ready s : log_inv s → current_page s ≠ -1 → ready s.
Proof.
  intros [Hbase [?|(? & ? & ?)] Hused] Hne; [done|].
  split; [done..|by right|]. intros b Hb. rewrite Hused by done. f_equal.
  apply decide_ext. naive_solver.
Qed.

(** [get_cursor] finds the next page to program, opening a free block when
    the last one is full, or reports that no block is free. *)
Lemma wp_get_cursor s w (Q : Z → ssd → world → Prop) E :
  log_inv s →
  (current_page s = -1 → ¬ has_free s → Q (-1) s w) →
  (∀ s', ready s' → (current_page s ≠ -1 ∧ s' = s ∨ current_page s = -1 ∧ opened s s') →
     Q 0 s' w) →
  wp (get_cursor cfg) Q E s w.
Proof.
  intros Hinv Hno Hyes. unfold get_cursor. wp_pures.
  pose proof (lb_block _ (li_base _ Hinv)) as Hb.
  destruct (Z.eqb_spec (current_page s) (-1)) as [Hcp|Hcp].
  2: { wp_pures. apply Hyes; [by apply log_inv_ready|by left]. }
  wp_pures. apply wp_find_free; [done|intros b Hin%elem_of_range; lia|..].
  2: { intros. wp_pures. apply Hyes; [done|by right]. }
  intros Hall. wp_pures. apply wp_find_free; [done|intros b Hin%elem_of_range; lia|..].
  2: { intros. wp_pures. apply Hyes; [done|by right]. }
  intros Hall'. wp_pures. apply Hno; [done|]. intros (b & Hb' & Hnv). apply Hnv.
  destruct (decide (b < current_block s)); [apply Hall'|apply Hall]; apply elem_of_range; lia.
Qed.

(** Programming the cursor's page and advancing the cursor *)
Lemma ready_write s1 s2 l d :
  ready s1 → 0 ≤ l < nlp → wf s2 →
  forward_map s2 = <[l := current_page s1]> (forward_map s1) →
  reverse_map s2 = <[current_page s1 := l]> (reverse_map s1) →
  data s2 = <[current_page s1 := d]> (data s1) →
  state s2 = <[current_page s1 := STATE_VALID]> (state s1) →
  current_block s2 = current_block s1 →
  gc_used_blocks s2 = gc_used_blocks s1 →
  current_page s2 = (if (current_page s1 + 1) =? (current_block s1 + 1) * ppb
                     then -1 else current_page s1 + 1) →
  log_inv s2 ∧ contents s2 = <[l := d]> (contents s1).
Proof.
  intros [[Hwf1 Hmap Hrev Hblocks Hcb] [Hib Htail] Hfirst Hused] Hl Hwf Hf Hr Hd Hs Hb Hu Hcp.
  set (cp := current_page s1) in *. set (cb := current_block s1) in *.
  assert (state s1 !! cp = Some STATE_ERASED) as Her by (apply Htail; unfold in_block in Hib; lia).
  assert (0 ≤ cp < np) as Hcpr by by eapply in_block_page.
  assert (∀ b, 0 ≤ b < nb → first_valid s2 b ↔ b = cb ∨ first_valid s1 b) as Hfv.
  { intros b Hb'. unfold first_valid. rewrite Hs.
    destruct (decide (cp = b * ppb)) as [Heq|Hne].
    - rewrite Heq, lookup_insert_eq. split; [|done]. intros _. left.
      eapply in_block_inj; [apply in_block_first|]. by rewrite <-Heq.
    - rewrite lookup_insert_ne by done. split; [by right|]. intros [->|?]; [|done].
      destruct Hfirst as [Heq|?]; [by destruct Hne|done]. }
  split; [split|].
  - split; [done| | | |by rewrite Hb].
    + intros l' p Hp Hne. rewrite Hf in Hp. rewrite Hs, Hr.
      apply lookup_insert_Some in Hp as [[<- <-]|[Hll Hp]].
      { by rewrite !lookup_insert_eq. }
      destruct (Hmap _ _ Hp Hne) as (? & Hv & ?).
      rewrite !lookup_insert_ne by congruence. done.
    + intros p. rewrite Hs, Hr. intros [[<- _]|[Hne Hv]]%lookup_insert_Some.
      * rewrite lookup_insert_eq. eauto.
      * rewrite lookup_insert_ne by done. by apply Hrev.
    + intros b p Hb' Hnv Hp. rewrite Hfv in Hnv by done.
      assert (cp ≠ p ∧ cp ≠ b * ppb) as [? ?].
      { split; intros Heq; apply Hnv; left; apply (in_block_inj b cb cp); try done.
        - by rewrite Heq.
        - rewrite Heq. apply in_block_first. }
      rewrite Hs, !lookup_insert_ne by done. apply Hblocks; [done| |done]. tauto.
  - destruct (Z.eqb_spec (cp + 1) ((cb + 1) * ppb)); [by left|right].
    unfold tail_erased. rewrite Hcp, Hb. unfold in_block in *. split; [split; [lia|]|split; [lia|]].
    + intros p Hp. rewrite Hs, lookup_insert_ne by lia. apply Htail. lia.
    + apply Hfv; [done|by left].
  - intros b Hb'. rewrite Hu, Hused by done. f_equal. apply decide_ext. rewrite Hfv by done. done.
  - apply map_eq. intros l'. unfold contents. rewrite lookup_omap, Hf, Hd.
    destruct (decide (l = l')) as [->|].
    + rewrite !lookup_insert_eq. simpl. destruct (Z.eqb_spec cp (-1)); [lia|].
      by rewrite lookup_insert_eq.
    + rewrite !lookup_insert_ne by done. rewrite lookup_omap.
      destruct (forward_map s1 !! l') as [p|] eqn:Hp; [simpl|done].
      destruct (Z.eqb_spec p (-1)); [done|].
      destruct (Hmap _ _ Hp) as (_ & Hv & _); [done|].
      rewrite lookup_insert_ne by congruence. done.
Qed.

(** What a successful log write leaves alone: a block in use other than the
    open one, and it takes one page of room. *)
Record log_frame (l : Z) (s s' : ssd) : Prop := {
  lf_block : ∀ b, 0 ≤ b < nb → first_valid s b → b ≠ current_block s →
    b ≠ current_block s' ∧ first_valid s' b ∧
    ∀ p, in_block b p → reverse_map s' !! p = reverse_map s !! p ∧ data s' !! p = data s !! p ∧
      state s' !! p = state s !! p ∧ forward_map s' !! l ≠ Some p;
  lf_forward : ∀ l', l' ≠ l → forward_map s' !! l' = forward_map s !! l';
  lf_room : if decide (0 < rest s) then rest s' = rest s - 1 ∧ (has_free s → has_free s')
            else rest s' = ppb - 1;
  lf_gc : gc_current_block s' = gc_current_block s;
  lf_new : ∃ p, in_block (current_block s') p ∧ forward_map s' !! l = Some p;
  lf_open : current_page s ≠ -1 ∨ has_free s;
}.

Lemma log_inv_rest s : log_inv s → current_page s ≠ -1 → 0 < rest s.
Proof.
  intros [_ [?|((Hib & _) & _)] _] Hne; [done|]. unfold rest, in_block in *.
  destruct (Z.eqb_spec (current_page s) (-1)); lia.
Qed.

Lemma write_logging_spec l d s w (Q : string → ssd → world → Prop) E :
  log_inv s → 0 ≤ l < nlp →
  (current_page s = -1 → ¬ has_free s →
     Q "failure: device full"
       (s <| logi ::= (λ l, l <| logical_write_fail_sum ::= Z.succ |>) |>) w) →
  (∀ s', log_inv s' → contents s' = <[l := d]> (contents s) → log_frame l s s' →
     Q "success" s' w) →
  wp (write_logging cfg l d) Q E s w.
Proof.
  intros Hinv Hl Hfull Hok. unfold write_logging. wp_pures.
  apply wp_get_cursor; [done| |].
  { intros Hcp Hno. cbn [Z.eqb]. wp_pures. by apply Hfull. }
  intros s1 Hrd Hcase. cbn [Z.eqb]. wp_pures.
  destruct (Hrd) as [Hbase [Hib Htail] Hfirst Hused1].
  pose proof (lb_block _ Hbase) as Hcb. pose proof (lb_wf _ Hbase) as Hwf1.
  assert (state s1 !! current_page s1 = Some STATE_ERASED) as Her.
  { apply Htail. unfold in_block in Hib. lia. }
  assert (0 ≤ current_page s1 < np) as Hcp by by eapply in_block_page.
  rewrite Her. wp_pures. rewrite bool_decide_true by done.
  apply wp_physical_program; [done..|]. intros ph Hph.
  unfold map_page, update_cursor, py_mod. wp_pures. simpl.
  destruct (Z.eqb_spec ppb 0); [lia|]. wp_pures.
  assert (((current_page s1 + 1) mod ppb =? 0) =
          (current_page s1 + 1 =? (current_block s1 + 1) * ppb)) as Hmod.
  { unfold in_block in Hib.
    destruct (Z.eqb_spec (current_page s1 + 1) ((current_block s1 + 1) * ppb)) as [->|].
    - by rewrite Z.mod_mul by lia.
    - apply Z.eqb_neq. replace (current_page s1 + 1) with
        ((current_page s1 + 1 - current_block s1 * ppb) + current_block s1 * ppb) by lia.
      rewrite Z.mod_add, Z.mod_small by lia. lia. }
  rewrite Hmod.
  assert (∀ s', s' = (s1 <| data ::= <[current_page s1 := d]> |>
      <| state ::= <[current_page s1 := STATE_VALID]> |> <| phys := ph |>
      <| forward_map ::= <[l := current_page s1]> |>
      <| reverse_map ::= <[current_page s1 := l]> |>
      <| current_page := if current_page s1 + 1 =? (current_block s1 + 1) * ppb
                         then -1 else current_page s1 + 1 |>) → Q "success" s' w) as Hfin.
  2: { destruct (current_page s1 + 1 =? _); wp_pures; apply Hfin; done. }
  intros s' Hs'.
  assert (wf s') as Hwf'.
  { subst s'. destruct Hwf1; split; simpl; try done; try by apply has_insert.
    intros p l' [[<- <-]|[? ?]]%lookup_insert_Some; [by right|by eapply wf_logical0]. }
  destruct (ready_write s1 s' l d) as [Hinv' Hcont]; [done..|subst s'; done|subst s'; done|
    subst s'; done|subst s'; done|subst s'; done|subst s'; done|subst s'; done|].
  assert (contents s1 = contents s) as Hc1.
  { destruct Hcase as [[_ ->]|[_ Hop]]; [done|]. eapply opened_contents; [apply Hinv|done..]. }
  rewrite Hc1 in Hcont. apply Hok; [done..|]. clear Hok Hfull Hmod.
  assert (∀ b, 0 ≤ b < nb → first_valid s b → b ≠ current_block s → b ≠ current_block s1) as Hnb.
  { intros b Hb Hv Hne ->. destruct Hcase as [[_ ->]|[_ Hop]]; [done|]. by destruct (op_free _ _ Hop). }
  assert (∀ b p, b ≠ current_block s1 → in_block b p → current_page s1 ≠ p) as Hcpne.
  { intros b p Hne Hp <-. apply Hne. by eapply in_block_inj. }
  assert (∀ b p, b ≠ current_block s1 → in_block b p → state s1 !! p = state s !! p ∧
    data s1 !! p = data s !! p ∧ reverse_map s1 !! p = reverse_map s !! p) as Hsame.
  { intros b p Hne Hp. destruct Hcase as [[_ ->]|[_ [_ _ Hpg _ -> _]]]; [done|].
    destruct (Hpg p) as [-> ->]; [|done]. intros Hp'. apply Hne. by eapply in_block_inj. }
  split.
  - intros b Hb Hv Hne. specialize (Hnb b Hb Hv Hne).
    assert (∀ p, in_block b p → reverse_map s' !! p = reverse_map s !! p ∧
      data s' !! p = data s !! p ∧ state s' !! p = state s !! p ∧ forward_map s' !! l ≠ Some p) as Hp.
    { intros p Hp. specialize (Hcpne b p Hnb Hp). destruct (Hsame b p Hnb Hp) as (? & ? & ?).
      subst s'. simpl. rewrite lookup_insert_eq, !lookup_insert_ne by done. naive_solver. }
    split; [by subst s'|]. split; [|done].
    unfold first_valid. destruct (Hp (b * ppb)) as (_ & _ & -> & _); [apply in_block_first|done].
  - intros l' Hne. subst s'. simpl. rewrite lookup_insert_ne by done.
    destruct Hcase as [[_ ->]|[_ [_ _ _ -> _ _]]]; done.
  - assert (rest s' = (current_block s1 + 1) * ppb - (current_page s1 + 1)) as Hrest.
    { subst s'. unfold rest. simpl.
      destruct (Z.eqb_spec (current_page s1 + 1) ((current_block s1 + 1) * ppb)); simpl; [lia|].
      destruct (Z.eqb_spec (current_page s1 + 1) (-1)); lia. }
    destruct Hcase as [[Hcur ->]|[Hcur Hop]].
    + rewrite decide_True by by apply log_inv_rest. rewrite Hrest. split.
      { unfold rest. destruct (Z.eqb_spec (current_page s) (-1)); [done|lia]. }
      intros (b & Hb & Hnv). exists b. split; [done|]. unfold first_valid. subst s'. simpl.
      rewrite lookup_insert_ne; [done|]. intros Heq. apply Hnv.
      assert (b = current_block s) as ->.
      { eapply in_block_inj; [apply in_block_first|]. by rewrite <-Heq. }
      destruct (li_cursor _ Hinv) as [?|(_ & _ & ?)]; [lia|done].
    + rewrite decide_False by (unfold rest; rewrite Hcur; simpl; lia).
      rewrite Hrest, (op_page _ _ Hop). lia.
  - subst s'. simpl. destruct Hcase as [[_ ->]|[_ [_ _ _ _ _ ->]]]; done.
  - exists (current_page s1). subst s'. simpl. by rewrite lookup_insert_eq.
  - destruct Hcase as [[? _]|[_ Hop]]; [by left|right].
    exists (current_block s1). split; [done|apply Hop].
Qed.

(** *** Dumping the device *)

Lemma wp_tenth i s w Q E : (∀ w', Q tt s w') → wp (tenth i) Q E s w.
Proof. intros HQ. unfold tenth. wp_pures. case_match; apply HQ. Qed.

(** A loop of prints leaves the device alone. *)
Lemma wp_for_pure {A} (l : list A) (body : A → M ssd unit) s w Q E :
  (∀ x w, x ∈ l → wp (body x) (λ _ s' _, s' = s) E s w) →
  (∀ w', Q tt s w') → wp (for_ l body) Q E s w.
Proof.
  intros Hbody HQ. apply (wp_for (λ _ s' _, s' = s)); [done| |by intros ? ? ->].
  intros pre x post s' w' -> ->. apply Hbody. apply elem_of_app. right. apply elem_of_cons. by left.
Qed.

(** Printing the device fails on no lookup, given at least seven
    pages, the least number of FTL columns the simulator can divide by. *)
Lemma wp_dump s w (Q : unit → ssd → world → Prop) E :
  wf s → 7 ≤ np →
  (∀ p, state s !! p = Some STATE_VALID → ∃ l, reverse_map s !! p = Some l ∧ 0 ≤ l < nlp) →
  (∀ w', Q tt s w') → wp (dump cfg) Q E s w.
Proof.
  intros Hwf Hnp Hrev HQ. unfold dump. wp_pures. unfold dump_ftl. wp_pures.
  apply (wp_for_acc (λ _ count s' _, s' = s ∧ 0 ≤ count)); [done| |].
  { intros pre i post count s1 w1 Hi [-> Hc].
    apply range_split in Hi as (_ & _ & Hi). wp_pures.
    destruct (has_lookup _ _ i (wf_forward _ Hwf)) as [p ->]; [done|].
    destruct (Z.eqb_spec p (-1)); wp_pures; [done|]. unfold py_mod.
    assert (1 ≤ int_div (ppb * nb) 7).
    { unfold int_div. apply Z.quot_le_lower_bound; unfold num_pages in Hnp; lia. }
    destruct (Z.eqb_spec (int_div (ppb * nb) 7) 0); [lia|]. wp_pures.
    case_match; split; (done || lia). }
  intros count s1 w1 [-> _]. wp_pures.
  assert (∀ w, wp (dump_block_row cfg;; dump_page_rows cfg;; dump_state_row cfg;;
    dump_data_row cfg;; dump_live_row cfg) Q E s w) as Hrows.
  2: { case_match; match goal with |- wp _ _ _ _ ?w' => pose proof (Hrows w') as Hr end;
       by rewrite wp_bind in Hr. }
  clear w w1 count. intros w. unfold dump_block_row, dump_page_rows. wp_pures.
  apply wp_for_pure; [by intros; wp_pures|]. intros w1. wp_pures.
  apply wp_for_pure.
  { intros n w2 _. wp_pures. apply wp_for_pure; [|by intros; wp_pures].
    intros i w3 _. wp_pures. by apply wp_tenth. }
  assert (∀ i, 0 ≤ i < np → ∃ st, state s !! i = Some st) as Hst.
  { intros. by apply (has_lookup np); [apply Hwf|]. }
  intros w2. unfold dump_state_row, dump_data_row, dump_live_row. wp_pures.
  apply wp_for_pure.
  { intros i w3 Hi%elem_of_range. wp_pures. destruct (Hst i Hi) as [st ->]. wp_pures. by apply wp_tenth. }
  intros w3. wp_pures. apply wp_for_pure.
  { intros i w4 Hi%elem_of_range. wp_pures. destruct (Hst i Hi) as [st ->].
    case_decide; wp_pures; [|by apply wp_tenth].
    destruct (has_lookup _ _ i (wf_data _ Hwf)) as [d ->]; [done|]. wp_pures. by apply wp_tenth. }
  intros w4. wp_pures. apply wp_for_pure; [|intros; wp_pures; apply HQ].
  intros i w5 Hi%elem_of_range. wp_pures. destruct (Hst i Hi) as [st Hs]. rewrite Hs.
  case_decide as Hv; wp_pures; [|by apply wp_tenth]. subst st.
  destruct (Hrev _ Hs) as (l & -> & Hl). wp_pures.
  destruct (has_lookup _ _ l (wf_forward _ Hwf)) as [p ->]; [done|]. wp_pures. by apply wp_tenth.
Qed.

(** *** Garbage collection *)

Lemma log_inv_stats s ph lg :
  log_inv s → phys_ok ph → log_inv (s <| phys := ph |> <| logi := lg |>).
Proof.
  intros [[[] ? ? ? ?] ? ?] Hph. split; [|done|done]. by split; [split|..].
Qed.

(** The collector's view of a block: its mapped pages *)
Lemma wp_collect_live b s w (Q : list Z → ssd → world → Prop) E :
  log_base s → 0 ≤ b < nb →
  (∀ live, NoDup live → len live ≤ ppb →
     (∀ p, p ∈ live ↔ in_block b p ∧ ∃ l, l ≠ -1 ∧ reverse_map s !! p = Some l ∧
        forward_map s !! l = Some p) → Q live s w) →
  wp (collect_live cfg (b * ppb)) Q E s w.
Proof.
  intros Hs Hb HQ. unfold collect_live. replace (b * ppb + ppb) with ((b + 1) * ppb) by lia.
  pose proof (lb_wf _ Hs) as Hwf.
  apply (wp_for_acc (λ pre live s1 w1, s1 = s ∧ w1 = w ∧ NoDup pre ∧ NoDup live ∧
    (length live ≤ length pre)%nat ∧
    (∀ p, p ∈ live ↔ p ∈ pre ∧ ∃ l, l ≠ -1 ∧ reverse_map s !! p = Some l ∧
        forward_map s !! l = Some p))).
  - split_and!; [done|done|constructor|constructor|done|set_solver].
  - intros pre p post live s1 w1 Hr (-> & -> & Hnd & Hnd' & Hlen & Hlive).
    pose proof Hr as (Hpre & _ & Hp)%range_split. wp_pures.
    assert (p ∉ pre) as Hnp by (subst pre; rewrite elem_of_range; lia).
    assert (NoDup (pre ++ [p])).
    { apply NoDup_app. split_and!; [done|set_solver|apply NoDup_singleton]. }
    destruct (has_lookup _ _ p (wf_reverse _ Hwf)) as [l Hl].
    { by eapply in_block_page. }
    rewrite Hl. destruct (Z.eqb_spec l (-1)) as [->|Hne]; wp_pures.
    { split_and!; [done..|rewrite length_app; simpl; lia|].
      intros q. rewrite Hlive, elem_of_app, list_elem_of_singleton. naive_solver. }
    destruct (wf_logical _ Hwf _ _ Hl) as [?|Hlr]; [done|].
    destruct (has_lookup _ _ l (wf_forward _ Hwf)) as [q Hq]; [done|]. rewrite Hq.
    destruct (Z.eqb_spec q p) as [->|Hqp]; (split_and!; [done..| | |]).
    + apply NoDup_app. split_and!; [done| |apply NoDup_singleton].
      intros x Hx%Hlive Hx'%list_elem_of_singleton. naive_solver.
    + rewrite !length_app. simpl. lia.
    + intros x. rewrite !elem_of_app, Hlive, !list_elem_of_singleton. naive_solver.
    + done.
    + rewrite length_app. simpl. lia.
    + intros x. rewrite Hlive, elem_of_app, list_elem_of_singleton. naive_solver.
  - intros live s1 w1 (-> & -> & _ & Hnd & Hlen & Hlive). apply HQ; [done| |].
    + unfold len. rewrite length_range in Hlen. lia.
    + intros p. rewrite Hlive, elem_of_range. done.
Qed.

(** Erasing a block that holds no mapped page, and is not open, frees it. *)
Lemma erase_unmapped b s s' :
  log_inv s → 0 ≤ b < nb → b ≠ current_block s → wf s' →
  (∀ l p, forward_map s !! l = Some p → p ≠ -1 → ¬ in_block b p) →
  wiped b " " (data s) (data s') → wiped b STATE_ERASED (state s) (state s') →
  gc_used_blocks s' = <[b := 0]> (gc_used_blocks s) →
  forward_map s' = forward_map s → reverse_map s' = reverse_map s →
  current_block s' = current_block s → current_page s' = current_page s →
  log_inv s' ∧ has_free s' ∧ contents s' = contents s.
Proof.
  intros [[Hwf0 Hmap Hrev Hblocks Hcb] Hcur Hused] Hb Hne Hwf Hno Hd Hs Hu Hf Hr Hcb' Hcp'.
  assert (∀ p, in_block b p → state s' !! p = Some STATE_ERASED) as Hin.
  { intros p Hp. by rewrite (Hs p), decide_True. }
  assert (∀ b' p, b' ≠ b → in_block b' p → state s' !! p = state s !! p) as Hout.
  { intros b' p Hb' Hp. rewrite (Hs p), decide_False; [done|].
    intros Hp'. apply Hb'. by eapply in_block_inj. }
  assert (¬ first_valid s' b) as Hnv.
  { unfold first_valid. rewrite Hin by apply in_block_first. done. }
  assert (∀ b', b' ≠ b → first_valid s' b' ↔ first_valid s b') as Hfv.
  { intros b' Hb'. unfold first_valid. by rewrite (Hout b') by (done || apply in_block_first). }
  split; [split|split].
  - split; [done| | | |by rewrite Hcb'].
    + intros l p Hp Hp'. rewrite Hf in Hp. destruct (Hmap _ _ Hp Hp') as (? & ? & ?).
      rewrite Hr, (Hs p), decide_False by eauto. done.
    + intros p. rewrite (Hs p), Hr. case_decide; [done|]. apply Hrev.
    + intros b' p Hb' Hnv' Hp. destruct (decide (b' = b)) as [->|Hbb].
      * by rewrite Hin.
      * rewrite !(Hout b') by (done || apply in_block_first). apply Hblocks; [done| |done].
        by rewrite <-Hfv.
  - unfold tail_erased. rewrite Hcb', Hcp'.
    destruct Hcur as [?|((Hib & Ht) & ? & ?)]; [by left|right].
    split_and!; [by apply Hib..| |done|by apply Hfv].
    intros p Hp. rewrite (Hout (current_block s)); [by apply Ht|done|unfold in_block in *; lia].
  - intros b' Hb'. rewrite Hu. destruct (decide (b = b')) as [->|].
    + by rewrite lookup_insert_eq, decide_False.
    + rewrite lookup_insert_ne, Hused by done. f_equal. apply decide_ext. by rewrite Hfv.
  - by exists b.
  - apply contents_frame; [done|]. intros l p Hp Hp'. by rewrite (Hd p), decide_False by eauto.
Qed.

(** [n] more pages can be written. *)
Definition room (s : ssd) (n : Z) : Prop := n ≤ rest s ∨ (has_free s ∧ n ≤ rest s + ppb).

Lemma log_inv_rest_nonneg s : log_inv s → 0 ≤ rest s.
Proof.
  intros Hinv. destruct (decide (current_page s = -1)) as [Hcp|Hcp].
  - unfold rest. by rewrite Hcp.
  - apply log_inv_rest in Hcp; [lia|done].
Qed.

Lemma room_step l s s' n : log_inv s → log_frame l s s' → room s (n + 1) → 0 ≤ n → room s' n.
Proof.
  intros Hinv [_ _ Hroom _ _ _] Hr Hn. pose proof (log_inv_rest_nonneg _ Hinv). unfold room in *.
  case_decide; [|left; destruct Hr as [?|[_ ?]]; lia].
  destruct Hroom as [-> Hfree]. destruct Hr as [?|[? ?]]; [left; lia|right; split; [auto|lia]].
Qed.

Section Collector.
Context (Hlog : ssd_type cfg = TYPE_LOGGING).

Lemma write_log_spec l d s w (Q : string → ssd → world → Prop) E :
  log_inv s → 0 ≤ l < nlp →
  (∀ lg, current_page s = -1 → ¬ has_free s → Q "failure: device full" (s <| logi := lg |>) w) →
  (∀ s', log_inv s' → contents s' = <[l := d]> (contents s) → log_frame l s s' →
     Q "success" s' w) →
  wp (write cfg l d) Q E s w.
Proof.
  intros Hinv Hl Hfull Hok. unfold write. wp_pures.
  assert (illegal cfg l = false) as ->.
  { unfold illegal. destruct (Z.ltb_spec l 0), (Z.leb_spec nlp l); done || lia. }
  rewrite Hlog.
  pose proof (log_inv_stats s (phys s)
    (logi s <| logical_write_sum ::= Z.succ |>) Hinv (wf_phys _ (lb_wf _ (li_base _ Hinv)))) as Hinv1.
  apply write_logging_spec; [exact Hinv1|done|..].
  - intros Hcp Hno. apply Hfull; done.
  - intros s' Hi Hc Hf. apply Hok; [done|done|]. destruct Hf; by split.
Qed.

(** The state of the collection of block [b], [todo] being the live pages not
    copied yet: everything the block still maps is in [todo], the contents
    are those of [s0], and the copies fit. *)
Record collecting (b : Z) (s0 : ssd) (todo : list Z) (s : ssd) : Prop := {
  co_inv : log_inv s;
  co_contents : contents s = contents s0;
  co_gc : gc_current_block s = gc_current_block s0;
  co_block : b ≠ current_block s;
  co_valid : todo = [] ∨ first_valid s b;
  co_todo : ∀ p, p ∈ todo → in_block b p ∧ ∃ l, reverse_map s !! p = Some l ∧
    0 ≤ l < nlp ∧ forward_map s !! l = Some p;
  co_mapped : ∀ l p, forward_map s !! l = Some p → p ≠ -1 → in_block b p → p ∈ todo;
  co_room : todo = [] ∨ room s (len todo);
}.

(** The collector prints only when it is traced. *)
Definition quiet (w w' : world) : Prop := gc_trace cfg = false → w' = w.

Lemma wp_copy_live b s0 p todo s w (Q : unit → ssd → world → Prop) E :
  0 ≤ b < nb → NoDup (p :: todo) → collecting b s0 (p :: todo) s →
  (∀ s' w', collecting b s0 todo s' → quiet w w' → Q tt s' w') →
  wp (copy_live cfg p) Q E s w.
Proof.
  intros Hb [Hnp Hnd]%NoDup_cons [Hinv Hc Hgc Hne [?|Hv] Htodo Hmap [?|Hroom]] HQ; [done..|].
  destruct (Htodo p) as (Hp & l & Hl & Hlr & Hfl); [by constructor|].
  assert (0 ≤ p < np) as Hpr by by eapply in_block_page.
  unfold copy_live. wp_pures.
  assert (∀ w1, quiet w w1 → wp (d ← physical_read cfg p; s ← get; l ← dict_get (reverse_map s) p;
    write cfg l d;; mret ()) Q E s w1) as Hgo.
  2: { case_match; match goal with |- wp _ _ _ _ ?w' => pose proof (Hgo w') as Hr end;
       rewrite wp_bind in Hr; apply Hr; unfold quiet; congruence. }
  intros w1 Hw1. wp_pures.
  apply wp_physical_read; [apply Hinv|done|]. intros ph d Hph Hd. wp_pures. simpl. rewrite Hl. wp_pures.
  pose proof (log_inv_stats s ph (logi s) Hinv Hph) as Hinv1.
  assert (s <| phys := ph |> <| logi := logi s |> = s <| phys := ph |>) as Heq by by destruct s.
  rewrite Heq in Hinv1.
  apply write_log_spec; [done|done| |].
  { intros lg Hcp Hno. exfalso. unfold room, rest, len in Hroom. simpl in *. rewrite Hcp in Hroom.
    destruct Hroom as [?|[? _]]; [simpl in *; lia|done]. }
  intros s' Hinv' Hc' Hf. wp_pures. apply HQ; [|exact Hw1].
  assert (contents s !! l = Some d) as Hcl.
  { unfold contents. rewrite lookup_omap, Hfl. simpl. destruct (Z.eqb_spec p (-1)); [lia|done]. }
  destruct (lf_block _ _ _ Hf b Hb Hv Hne) as (Hne' & Hv' & Hsame). simpl in Hsame.
  assert (room s' (len todo)) as Hroom'.
  { eapply room_step; [exact Hinv1|done| |unfold len; lia].
    replace (len todo + 1) with (len (p :: todo)) by (unfold len; simpl; lia).
    destruct Hroom as [?|[? ?]]; [by left|by right]. }
  split; [done| | |done|by right| | |by right].
  - rewrite Hc', <-Hc. by apply insert_id.
  - rewrite (lf_gc _ _ _ Hf). done.
  - intros q Hq. destruct (Htodo q) as (Hqb & l' & Hl' & ? & Hfl'); [by constructor|].
    split; [done|]. exists l'. destruct (Hsame q Hqb) as (-> & _).
    rewrite (lf_forward _ _ _ Hf); [done|]. intros ->. simplify_eq.
  - intros l' q Hq Hq1 Hqb. destruct (decide (l' = l)) as [->|Hll].
    + by destruct (Hsame q Hqb) as (_ & _ & _ & ?).
    + rewrite (lf_forward _ _ _ Hf) in Hq by done. simpl in Hq.
      specialize (Hmap _ _ Hq Hq1 Hqb) as [->|?]%elem_of_cons; [|done].
      destruct (lb_map _ (li_base _ Hinv) _ _ Hq Hq1) as (_ & _ & ?). congruence.
Qed.

(** The operations of the collector print; the trace can be dumped. *)
Context (Hdump : gc_trace cfg = false ∨ 7 ≤ np).

Definition gc_ok (s : ssd) : Prop := 0 ≤ gc_current_block s < nb.

(** Every page of block [b] is the current copy of a logical page. *)
Definition live (s : ssd) (p : Z) : Prop :=
  ∃ l, l ≠ -1 ∧ reverse_map s !! p = Some l ∧ forward_map s !! l = Some p.
Definition full (s : ssd) (b : Z) : Prop := ∀ p, in_block b p → live s p.

(** The live pages of a block that is not full fit somewhere else. *)
Definition can_gc (s : ssd) : Prop := has_free s ∨ ppb - 1 ≤ rest s.

(** What collecting from [s] never changes *)
Record kept (s s' : ssd) : Prop := {
  kp_inv : log_inv s';
  kp_gc : gc_ok s';
  kp_contents : contents s' = contents s;
}.

Lemma NoDup_block_full (b : Z) (l : list Z) :
  NoDup l → (∀ p, p ∈ l → in_block b p) → len l = ppb → ∀ p, in_block b p → p ∈ l.
Proof.
  intros Hnd Hin Hlen p Hp.
  assert (l ⊆+ range (b * ppb) ((b + 1) * ppb)) as Hsub.
  { apply NoDup_submseteq; [done|]. intros x Hx. apply elem_of_range. by apply Hin. }
  assert (l ≡ₚ range (b * ppb) ((b + 1) * ppb)) as ->.
  { apply submseteq_length_Permutation; [done|]. rewrite length_range. unfold len in Hlen. lia. }
  by apply elem_of_range.
Qed.

Lemma wp_gc_done b s w :
  log_inv s → 0 ≤ b < nb → gc_ok s →
  wp (used ← blocks_in_use cfg;
      if used <=? gc_low_water_mark cfg then
        gc_current_block <~ b;;
        modify (λ s, s <| gc_count ::= Z.succ |>);;
        mret true
      else mret false)
    (λ _ s' w', kept s s' ∧ (has_free s → has_free s') ∧ w' = w) noexn s w.
Proof.
  intros Hinv Hb Hgc. wp_pures. apply wp_blocks_in_use; [apply Hinv|]. intros n.
  case_match; wp_pures; [|done]. split; [|done].
  split; [|done|done]. destruct Hinv as [[[]] ? ?]. by split; [split; [split|..]|..].
Qed.

Lemma wp_gc_block b s w :
  log_inv s → gc_ok s → can_gc s → 0 ≤ b < nb →
  wp (gc_block cfg b) (λ r s' w', kept s s' ∧ quiet w w' ∧
    (has_free s' ∨ (r = false ∧ s' = s ∧ (b = current_block s ∨ full s b)))) noexn s w.
Proof.
  intros Hinv Hgc Hcan Hb. unfold gc_block. wp_pures.
  destruct (Z.eqb_spec b (current_block s)) as [|Hne]; wp_pures.
  { split; [by split|]. split; [done|]. right. auto. }
  pose proof (li_base _ Hinv) as Hbase. pose proof (lb_wf _ Hbase) as Hwf.
  destruct (has_lookup _ _ (b * ppb) (wf_state _ Hwf)) as [st Hst].
  { eapply in_block_page; [done|apply in_block_first]. }
  rewrite Hst. case_decide as Her; wp_pures.
  { do 2 (split; [done|]). left. exists b. split; [done|]. unfold first_valid. rewrite Hst. congruence. }
  apply wp_collect_live; [done..|]. intros live_pages Hnd Hlen Hlive. wp_pures.
  destruct (Z.eqb_spec (len live_pages) ppb) as [Hfull|Hless]; wp_pures.
  { do 2 (split; [done|]). right. do 2 (split; [done|]). right. intros p Hp. apply Hlive.
    eapply NoDup_block_full; [done| |done|done]. intros q Hq. by apply Hlive. }
  assert (collecting b s live_pages s) as Hco.
  { split; [done|done|done|done| | | |].
    - destruct (decide (first_valid s b)); [by right|left].
      destruct live_pages as [|p live_pages]; [done|]. exfalso.
      destruct (proj1 (Hlive p)) as (Hp & l & Hl1 & Hl & Hf); [by constructor|].
      destruct (lb_blocks _ Hbase b p) as [Hnv _]; [done..|]. apply Hnv.
      apply (lb_map _ Hbase l p); [done|]. pose proof (in_block_page _ _ Hb Hp). lia.
    - intros p (Hp & l & Hl1 & Hl & Hf)%Hlive. split; [done|]. exists l.
      destruct (wf_logical _ Hwf _ _ Hl); naive_solver.
    - intros l p Hf Hp1 Hp. apply Hlive. split; [done|]. exists l.
      destruct (lb_map _ Hbase _ _ Hf Hp1) as (_ & Hv & Hr).
      destruct (lb_rev _ Hbase _ Hv) as (l' & Hl' & ?). simplify_eq. split; [lia|done].
    - right. pose proof (log_inv_rest_nonneg _ Hinv).
      destruct Hcan as [?|?]; [right; split; [done|lia]|left; lia]. }
  apply (wp_for (λ pre s1 w1, quiet w w1 ∧
    ∀ post, live_pages = pre ++ post → collecting b s post s1)).
  { split; [done|]. by intros post ->. }
  { intros pre p post s1 w1 Heq [Hq Hpre]. specialize (Hpre _ Heq).
    eapply wp_copy_live; [exact Hb| |exact Hpre|].
    - rewrite Heq in Hnd. by apply NoDup_app in Hnd as (_ & _ & ?).
    - intros s' w' Hco' Hq'. split; [intros Ht; by rewrite Hq', Hq|].
      intros post' Heq'. rewrite Heq, <-app_assoc in Heq'.
      apply app_inv_head in Heq'. by simplify_eq/=. }
  intros s1 w1 [Hq1 Hco1]. specialize (Hco1 [] ltac:(by rewrite app_nil_r)).
  destruct Hco1 as [Hinv1 Hc1 Hgc1 Hne1 _ _ Hmap1 _]. wp_pures.
  pose proof (lb_wf _ (li_base _ Hinv1)) as Hwf1.
  apply wp_physical_erase; [done..|]. intros de ste ph Hde Hste Hph. wp_pures.
  destruct (erase_unmapped b s1 (s1 <| data := de |> <| state := ste |>
    <| gc_used_blocks ::= <[b := 0]> |> <| phys := ph |>)) as (Hinv2 & Hfree2 & Hc2); try done.
  { destruct Hwf1; split; simpl; try done; try by eapply wiped_has. by apply has_insert. }
  { intros l p Hf Hp Hib. by specialize (Hmap1 _ _ Hf Hp Hib) as ?%elem_of_nil. }
  rewrite Hc1 in Hc2.
  set (s2 := _ <| phys := ph |>) in *.
  assert (gc_ok s2) as Hgc2 by (unfold s2, gc_ok; simpl; by rewrite Hgc1).
  clearbody s2. pose proof (li_base _ Hinv2) as Hbase2.
  assert (∀ w2, quiet w w2 → wp (blocks_in_use cfg) (λ (a : Z) (s' : ssd) (w' : world),
    wp (if a <=? gc_low_water_mark cfg then gc_current_block <~ b;;
      modify (λ s, s <| gc_count ::= Z.succ |>);; mret true else mret false)
      (λ r s'' w'', kept s s'' ∧ quiet w w'' ∧
        (has_free s'' ∨ (r = false ∧ s'' = s ∧ (b = current_block s ∨ full s b)))) noexn s' w')
    noexn s2 w2) as Hend.
  { intros w2 Hw2. pose proof (wp_gc_done b s2 w2 Hinv2 Hb Hgc2) as Hdone.
    rewrite wp_bind in Hdone. eapply wp_conseq; [exact Hdone|]. intros used s3 w3 Hr.
    eapply wp_conseq; [exact Hr|]. intros r s4 w4 ([] & ? & ->).
    split; [by split; [..|congruence]|]. auto. }
  destruct (gc_trace cfg) eqn:Htr; wp_pures; [|by apply Hend].
  assert (∀ w2, quiet w w2) as Hany by by (intros ?; unfold quiet; rewrite Htr).
  destruct Hdump as [|Hnp]; [congruence|].
  destruct (show_state cfg); wp_pures; [|by apply Hend].
  apply wp_dump; [apply Hbase2|done|apply Hbase2|]. intros w'. wp_pures. by apply Hend.
Qed.

(** A collection keeps the contents.  It leaves a free block, unless it has
    found every block other than the open one full of live pages. *)
Lemma wp_garbage_collect s w :
  log_inv s → gc_ok s → can_gc s →
  wp (garbage_collect cfg)
    (λ _ s' w', kept s s' ∧ quiet w w' ∧
       (has_free s' ∨ (s' = s ∧ ∀ b, 0 ≤ b < nb → b = current_block s ∨ full s b))) noexn s w.
Proof.
  intros Hinv Hgc Hcan. unfold garbage_collect. wp_pures.
  apply (wp_for_ret (λ pre _ s' w', kept s s' ∧ quiet w w' ∧
       (has_free s' ∨ (s' = s ∧ ∀ b, b ∈ pre → b = current_block s ∨ full s b)))).
  - split; [done|]. split; [done|]. right. split; [done|]. intros b ?%elem_of_nil. done.
  - intros pre b post [] s1 w1 Heq ([Hi Hg Hc] & Hq & Hf). wp_pures.
    assert (0 ≤ b < nb) as Hb.
    { assert (b ∈ range (gc_current_block s) nb ++ range 0 (gc_current_block s)) as Hin.
      { rewrite Heq. apply elem_of_app. right. by constructor. }
      unfold gc_ok in Hgc. rewrite elem_of_app, !elem_of_range in Hin. lia. }
    eapply wp_conseq; [apply wp_gc_block; [done|done| |done]|].
    { destruct Hf as [?|[-> _]]; [by left|done]. }
    intros r s2 w2 ([? ? Hc2] & Hq2 & Hf2). rewrite Hc in Hc2.
    assert (kept s s2 ∧ quiet w w2) as [? ?].
    { split; [done|]. intros Ht. by rewrite Hq2, Hq. }
    destruct r; wp_pures; (do 2 (split; [done|])); (destruct Hf2 as [?|(? & -> & Hb2)]; [by left|]); [done|].
    destruct Hf as [?|[-> Hf]]; [by left|]. right. split; [done|].
    intros b' [?|Hb'%list_elem_of_singleton]%elem_of_app; subst; auto.
  - intros [] s1 w1 (? & ? & Hf). wp_pures. do 2 (split; [done|]).
    destruct Hf as [?|[-> Hf]]; [by left|right]. split; [done|]. intros b Hb. apply Hf.
    unfold gc_ok in Hgc. rewrite elem_of_app, !elem_of_range. lia.
Qed.

End Collector.

(** *** Reads and trims, for every kind of drive *)

(** Every page the forward map names exists. *)
Definition addressed (s : ssd) : Prop :=
  ∀ l p, forward_map s !! l = Some p → p ≠ -1 → 0 ≤ p < np.

Lemma flat_addressed s : flat_inv s → addressed s.
Proof.
  intros Hinv l p Hp Hne. destruct (fi_map _ Hinv _ _ Hp Hne) as (-> & ? & _).
  pose proof (fi_size _ Hinv). lia.
Qed.

Lemma log_addressed s : log_inv s → addressed s.
Proof. intros Hinv l p Hp Hne. by apply (lb_map _ (li_base _ Hinv) l). Qed.

(** What the forward map holds for a legal page *)
Lemma lookup_contents s a : wf s → addressed s → 0 ≤ a < nlp →
  ∃ p, forward_map s !! a = Some p ∧
    (p = -1 ∧ contents s !! a = None ∨
     p ≠ -1 ∧ 0 ≤ p < np ∧ ∃ d, data s !! p = Some d ∧ contents s !! a = Some d).
Proof.
  intros Hwf Had Ha. destruct (has_lookup _ _ a (wf_forward _ Hwf) Ha) as [p Hp].
  exists p. split; [done|]. unfold contents. rewrite lookup_omap, Hp. simpl.
  destruct (Z.eqb_spec p (-1)); [by left|right]. specialize (Had _ _ Hp n).
  destruct (has_lookup _ _ p (wf_data _ Hwf) Had) as [d Hd]. eauto 6.
Qed.

Lemma illegal_false a : illegal cfg a = false ↔ 0 ≤ a < nlp.
Proof. unfold illegal. rewrite orb_false_iff, Z.ltb_ge, Z.leb_gt. done. Qed.

(** Unmapping a page *)
Lemma contents_unmap s a : contents (s <| forward_map ::= <[a := -1]> |>) = delete a (contents s).
Proof.
  apply map_eq. intros l. unfold contents. simpl. rewrite lookup_omap.
  destruct (decide (a = l)) as [->|].
  - by rewrite lookup_insert_eq, lookup_delete_eq.
  - by rewrite lookup_insert_ne, lookup_delete_ne, lookup_omap by done.
Qed.
End Proofs.

(** ** The logical disk

    What every drive promises: a map from its logical pages to data, and one
    answer per operation. *)
Inductive disk_op :=
| OpRead (a : Z)
| OpWrite (a : Z) (d : string)
| OpTrim (a : Z).

Abbreviation disk := (gmap Z string).

Definition disk_step (nlp : Z) (m : disk) (o : disk_op) : disk * string :=
  let legal a := bool_decide (0 ≤ a < nlp) in
  match o with
  | OpRead a =>
      (m, if legal a then default "fail: uninitialized read" (m !! a)
          else "fail: illegal read address")
  | OpWrite a d =>
      if legal a then (<[a := d]> m, "success") else (m, "fail: illegal write address")
  | OpTrim a =>
      if legal a then
        match m !! a with
        | Some _ => (delete a m, "success")
        | None => (m, "fail: uninitialized trim")
        end
      else (m, "fail: illegal trim address")
  end.

Definition disk_run (nlp : Z) (m : disk) (ops : list disk_op) : disk :=
  foldl (λ m o, (disk_step nlp m o).1) m ops.

(** The operation on a device *)
Definition perform (cfg : config) (o : disk_op) : M ssd string :=
  match o with
  | OpRead a => read cfg a
  | OpWrite a d => write cfg a d
  | OpTrim a => trim cfg a
  end.

(** The interface of the drives to the main program: [I] holds when a command
    starts and [J] before the upkeep that follows it. *)
Class Drive (cfg : config) (I J : ssd → Prop) : Prop := {
  drive_init : I (init cfg);
  drive_perform : ∀ o s w, I s →
    wp (perform cfg o) (λ r s' w', w' = w ∧ J s' ∧
      disk_step (num_logical_pages cfg) (contents s) o = (contents s', r)) noexn s w;
  drive_upkeep : ∀ s w, J s →
    wp (upkeep cfg) (λ _ s' w', quiet cfg w w' ∧ I s' ∧ contents s' = contents s) noexn s w;
  drive_dump : ∀ s w (Q : unit → ssd → world → Prop), 7 ≤ num_pages cfg → I s ∨ J s →
    (∀ w', Q tt s w') → wp (dump cfg) Q noexn s w;
}.

(** *** One operation *)

Section Perform.
Context (cfg : config).
Context (ppb_pos : 0 < pages_per_block cfg) (nb_pos : 0 < num_blocks cfg).
#[local] Abbreviation nlp := (num_logical_pages cfg).
#[local] Abbreviation spec := (disk_step (num_logical_pages cfg)).

Lemma wp_read a s w (Q : string → ssd → world → Prop) E :
  wf cfg s → addressed cfg s →
  (∀ ph lg, phys_ok cfg ph → Q (spec (contents s) (OpRead a)).2 (s <| phys := ph |> <| logi := lg |>) w) →
  wp (read cfg a) Q E s w.
Proof.
  intros Hwf Had HQ. unfold read. wp_pures. simpl in HQ.
  assert (∀ lg, s <| phys := phys s |> <| logi := lg |> = s <| logi := lg |>) as Heq by by destruct s.
  destruct (illegal cfg a) eqn:Hl.
  { wp_pures. rewrite bool_decide_false in HQ.
    - unfold update in *. simpl in *. apply (HQ (phys s) (_ : logi_stats)). apply Hwf.
    - intros H%illegal_false. congruence. }
  apply illegal_false in Hl. rewrite bool_decide_true in HQ by done. wp_pures. simpl.
  destruct (lookup_contents cfg _ _ Hwf Had Hl) as (p & -> & [[-> Hc]|(Hp & Hr & d & Hd & Hc)]);
    rewrite Hc in HQ.
  { wp_pures. apply (HQ (phys s) (_ : logi_stats)). apply Hwf. }
  destruct (Z.eqb_spec p (-1)); [done|]. unfold read_direct.
  apply wp_physical_read; [done|by destruct Hwf; split|done|].
  simpl. intros ph d' Hph Hd'. simplify_eq. by apply HQ.
Qed.

Lemma wp_trim a s w (Q : string → ssd → world → Prop) E :
  wf cfg s → addressed cfg s →
  (∀ lg r, spec (contents s) (OpTrim a) = (contents s, r) → Q r (s <| logi := lg |>) w) →
  (∀ lg r, 0 ≤ a < nlp → spec (contents s) (OpTrim a) = (delete a (contents s), r) →
     Q r (s <| forward_map ::= <[a := -1]> |> <| logi := lg |>) w) →
  wp (trim cfg a) Q E s w.
Proof.
  intros Hwf Had Hkeep Hdel. unfold trim. wp_pures. simpl in *.
  destruct (illegal cfg a) eqn:Hl.
  { wp_pures. apply (Hkeep (_ : logi_stats)). rewrite bool_decide_false; [done|].
    intros H%illegal_false. congruence. }
  apply illegal_false in Hl. rewrite bool_decide_true in * by done. wp_pures. simpl.
  destruct (lookup_contents cfg _ _ Hwf Had Hl) as (p & -> & [[-> Hc]|(Hp & Hr & d & Hd & Hc)]);
    rewrite Hc in *.
  { wp_pures. by apply (Hkeep (_ : logi_stats)). }
  destruct (Z.eqb_spec p (-1)); [done|]. wp_pures. by apply (Hdel (_ : logi_stats)).
Qed.

(** The three operations, from what the kind of the drive contributes *)
Lemma wp_perform (J : ssd → Prop) o s w :
  wf cfg s → addressed cfg s →
  (∀ ph lg, phys_ok cfg ph → J (s <| phys := ph |> <| logi := lg |>)) →
  (∀ a lg, 0 ≤ a < nlp → J (s <| forward_map ::= <[a := -1]> |> <| logi := lg |>)) →
  (∀ a d lg, 0 ≤ a < nlp →
     wp (match ssd_type cfg with
         | TYPE_DIRECT => write_direct cfg a d
         | TYPE_IDEAL => write_ideal cfg a d
         | TYPE_LOGGING => write_logging cfg a d
         end)
       (λ r s' w', w' = w ∧ J s' ∧ r = "success" ∧ contents s' = <[a := d]> (contents s))
       noexn (s <| logi := lg |>) w) →
  wp (perform cfg o) (λ r s' w', w' = w ∧ J s' ∧ spec (contents s) o = (contents s', r)) noexn s w.
Proof.
  intros Hwf Had Hstats Hunmap Hwrite.
  assert (∀ lg, J (s <| logi := lg |>)) as Hlogi.
  { intros lg. specialize (Hstats (phys s) lg (wf_phys _ _ Hwf)). by destruct s. }
  destruct o as [a|a d|a]; simpl.
  - apply wp_read; [done..|]. intros ph lg Hph. split; [done|]. split; [by apply Hstats|done].
  - unfold write. wp_pures. destruct (illegal cfg a) eqn:Hl.
    { wp_pures. split; [done|]. split; [apply (Hlogi (_ : logi_stats))|].
      rewrite bool_decide_false; [done|]. intros H%illegal_false. congruence. }
    apply illegal_false in Hl. rewrite bool_decide_true by done.
    eapply wp_conseq; [apply (Hwrite a d (_ : logi_stats) Hl)|].
    simpl. intros r s' w' (-> & ? & -> & ->). done.
  - apply wp_trim; [done..| |].
    + intros lg r Heq. split; [done|]. by split.
    + intros lg r Ha Heq. split; [done|]. split; [by apply Hunmap|].
      rewrite <-contents_unmap in Heq. done.
Qed.
End Perform.

(** *** The direct and the ideal drive *)

Class FlatConfig (cfg : config) : Prop := {
  flat_kind : ssd_type cfg ≠ TYPE_LOGGING;
  flat_ppb : 0 < pages_per_block cfg;
  flat_blocks : 0 < num_blocks cfg;
  flat_size : num_logical_pages cfg ≤ num_pages cfg;
  flat_water : 0 < gc_high_water_mark cfg;
}.

Lemma lookup_const_dict {A} n (v : A) i : const_dict n v !! i = if decide (0 ≤ i < n) then Some v else None.
Proof.
  unfold const_dict. case_decide as Hi.
  - apply elem_of_list_to_map_1.
    + rewrite <-list_fmap_compose. simpl. rewrite list_fmap_id. apply NoDup_range.
    + apply list_elem_of_fmap. exists i. split; [done|]. by apply elem_of_range.
  - apply not_elem_of_list_to_map_1. rewrite <-list_fmap_compose. simpl. rewrite list_fmap_id.
    by rewrite elem_of_range.
Qed.

Lemma has_const_dict {A} n (v : A) : has n (const_dict n v).
Proof. intros i Hi. rewrite lookup_const_dict, decide_True by done. eauto. Qed.

Lemma ssd_wf_init cfg : wf cfg (init cfg).
Proof.
  split; try apply has_const_dict; [repeat split; apply has_const_dict|].
  intros p l. simpl. rewrite lookup_const_dict. case_decide; [|done]. intros [= <-]. by left.
Qed.

Lemma init_lookup {A} n (v x : A) i : const_dict n v !! i = Some x → x = v ∧ 0 ≤ i < n.
Proof. rewrite lookup_const_dict. case_decide; [|done]. by intros [= ->]. Qed.

Lemma wp_blocks_sum cfg c s w (Q : Z → ssd → world → Prop) E :
  0 ≤ num_blocks cfg →
  (∀ b, 0 ≤ b < num_blocks cfg → gc_used_blocks s !! b = Some c) →
  Q (num_blocks cfg * c) s w → wp (blocks_in_use cfg) Q E s w.
Proof.
  intros Hnb Hc HQ. unfold blocks_in_use. wp_pures.
  apply (wp_for_acc (λ pre used s1 w1, s1 = s ∧ w1 = w ∧ used = len pre * c)).
  - split; [done|]. split; [done|]. unfold len. simpl. lia.
  - intros pre x post b s1 w1 Hx (-> & -> & ->). wp_pures.
    apply range_split in Hx as (_ & _ & Hx). rewrite Hc by done.
    do 2 (split; [done|]). unfold len. rewrite length_app. simpl. lia.
  - intros used s1 w1 (-> & -> & ->). unfold len. rewrite length_range.
    replace (Z.of_nat (Z.to_nat (num_blocks cfg - 0))) with (num_blocks cfg) by lia. done.
Qed.

Lemma flat_stats cfg s ph lg :
  flat_inv cfg s → phys_ok cfg ph → flat_inv cfg (s <| phys := ph |> <| logi := lg |>).
Proof. intros [[] ? ? ? ?] Hph. by split; [split|..]. Qed.

Lemma flat_unmap cfg s a lg : flat_inv cfg s → 0 ≤ a < num_logical_pages cfg →
  flat_inv cfg (s <| forward_map ::= <[a := -1]> |> <| logi := lg |>).
Proof.
  intros [[] ? Hmap ? ?] Ha. split; [split|..]; simpl; try done; [by apply has_insert|].
  intros l p [[_ <-]|[? ?]]%lookup_insert_Some Hp; [done|by apply Hmap].
Qed.

#[export] Instance flat_drive cfg `{!FlatConfig cfg} : Drive cfg (flat_inv cfg) (flat_inv cfg).
Proof.
  destruct select (FlatConfig cfg) as [Hkind Hppb Hnb Hsize Hwater]. split.
  - split; [apply ssd_wf_init|done|..]; simpl.
    + by intros l p [-> _]%init_lookup ?.
    + by intros p [? _]%init_lookup.
    + intros b Hb. by rewrite lookup_const_dict, decide_True.
  - intros o s w Hs. apply wp_perform; [done|apply Hs|by apply flat_addressed|..].
    + intros. by apply flat_stats.
    + intros. by apply flat_unmap.
    + intros a d lg Ha.
      assert (flat_inv cfg (s <| logi := lg |>)) as Hs'.
      { pose proof (flat_stats _ _ (phys s) lg Hs (wf_phys _ _ (fi_wf _ _ Hs))). by destruct s. }
      destruct (ssd_type cfg); [|done|].
      * eapply wp_conseq; [by apply write_direct_spec|]. by intros r s' w' (-> & -> & ? & ?).
      * eapply wp_conseq; [by apply write_ideal_spec|]. by intros r s' w' (-> & -> & ? & ?).
  - intros s w Hs. unfold upkeep. wp_pures.
    apply (wp_blocks_sum _ 0); [lia|apply Hs|].
    rewrite Z.mul_0_r. destruct (Z.leb_spec (gc_high_water_mark cfg) 0); [lia|]. by wp_pures.
  - intros s w Q Hnp Hs HQ. apply wp_dump; destruct Hs as [Hs|Hs]; try apply Hs; done.
Qed.

(** *** The log-structured drive

    One block more than the logical pages fill, and a collection at the
    latest when every block is in use. *)
Class LogConfig (cfg : config) : Prop := {
  log_kind : ssd_type cfg = TYPE_LOGGING;
  log_ppb : 0 < pages_per_block cfg;
  log_blocks : 0 < num_blocks cfg;
  log_spare : num_logical_pages cfg ≤ (num_blocks cfg - 1) * pages_per_block cfg;
  log_water : gc_high_water_mark cfg ≤ num_blocks cfg;
  log_dumps : gc_trace cfg = false ∨ 7 ≤ num_pages cfg;
}.

(** Between commands a block is free. *)
Record log_idle (cfg : config) (s : ssd) : Prop := {
  lo_inv : log_inv cfg s;
  lo_gc : gc_ok cfg s;
  lo_free : has_free cfg s;
}.

(** A command may have opened the last one, and then has written one page. *)
Record log_busy (cfg : config) (s : ssd) : Prop := {
  lu_inv : log_inv cfg s;
  lu_gc : gc_ok cfg s;
  lu_free : has_free cfg s ∨ rest cfg s = pages_per_block cfg - 1 ∧
    ∃ p, in_block cfg (current_block s) p ∧ live s p;
}.

(** No more pages are live than there are logical pages. *)
Lemma live_bound cfg s ps : 0 ≤ num_logical_pages cfg → wf cfg s →
  NoDup ps → (∀ p, p ∈ ps → live s p) → len ps ≤ num_logical_pages cfg.
Proof.
  intros Hnlp Hwf Hnd Hlive.
  set (f p := default (-1) (reverse_map s !! p)).
  assert (NoDup (f <$> ps)) as Hnd'.
  { apply NoDup_fmap_2_strong; [|done]. intros p q Hp Hq. unfold f.
    destruct (Hlive p Hp) as (l & _ & -> & Hl), (Hlive q Hq) as (l' & _ & -> & Hl'). simpl.
    intros ->. congruence. }
  assert (f <$> ps ⊆+ range 0 (num_logical_pages cfg)) as Hsub%submseteq_length.
  { apply NoDup_submseteq; [done|]. intros l (p & -> & Hp)%list_elem_of_fmap.
    destruct (Hlive p Hp) as (l & Hne & Hl & _). unfold f. rewrite Hl. simpl.
    apply elem_of_range. by destruct (wf_logical _ _ Hwf _ _ Hl). }
  rewrite length_fmap, length_range in Hsub. unfold len. lia.
Qed.

(** Over-provisioning: some block besides the open one can be collected. *)
Lemma not_all_full cfg s p : LogConfig cfg → log_inv cfg s →
  in_block cfg (current_block s) p → live s p →
  ¬ (∀ b, 0 ≤ b < num_blocks cfg → b = current_block s ∨ full cfg s b).
Proof.
  intros [_ Hppb Hnb Hspare _ _] Hinv Hp Hl Hall.
  pose proof (lb_block _ _ (li_base _ _ Hinv)) as Hcb.
  set (cb := current_block s) in *. set (n := pages_per_block cfg) in *.
  set (ps := p :: range 0 (cb * n) ++ range ((cb + 1) * n) (num_pages cfg)).
  assert (len ps ≤ num_logical_pages cfg) as Hlen.
  { apply (live_bound _ s).
    - destruct Hl as (l & ? & Hl & _).
      destruct (wf_logical _ _ (lb_wf _ _ (li_base _ _ Hinv)) _ _ Hl); lia.
    - apply Hinv.
    - unfold in_block in Hp. constructor; [|apply NoDup_app; split; [apply NoDup_range|split]].
      + rewrite elem_of_app, !elem_of_range. lia.
      + intros x. rewrite !elem_of_range. lia.
      + apply NoDup_range.
    - intros q [->|Hq]%elem_of_cons; [done|]. rewrite elem_of_app, !elem_of_range in Hq.
      assert (0 ≤ q < num_pages cfg ∧ ¬ in_block cfg cb q) as [Hq' Hnq].
      { unfold in_block, num_pages in *. fold n. nia. }
      destruct (page_block cfg Hppb q Hq') as [Hqb Hqin].
      destruct (Hall _ Hqb) as [Heq|Hfull]; [by rewrite Heq in Hqin|by apply Hfull]. }
  unfold ps, len in Hlen. simpl in Hlen. rewrite length_app, !length_range in Hlen.
  unfold num_pages in Hlen. fold n in Hlen. nia.
Qed.

Lemma log_unmap cfg s a lg : log_inv cfg s → 0 ≤ a < num_logical_pages cfg →
  log_inv cfg (s <| forward_map ::= <[a := -1]> |> <| logi := lg |>).
Proof.
  intros [[[] Hmap ? ? ?] ? ?] Ha. split; [|done|done].
  split; [split|..]; simpl; try done; [by apply has_insert|].
  intros l p [[_ <-]|[? ?]]%lookup_insert_Some Hp; [done|by apply Hmap].
Qed.

Lemma log_inv_init cfg :
  0 < pages_per_block cfg → 0 < num_blocks cfg → log_inv cfg (init cfg).
Proof.
  intros Hppb Hnb.
  assert (∀ b, ¬ first_valid cfg (init cfg) b) as Hnv.
  { intros b. unfold first_valid. simpl. intros [? _]%init_lookup. done. }
  split; [split| |]; simpl; [apply ssd_wf_init|..].
  - by intros l p [-> _]%init_lookup ?.
  - by intros p [? _]%init_lookup.
  - intros b p Hb _ Hp. split; [intros [? _]%init_lookup; done|].
    intros [? _]%init_lookup. done.
  - lia.
  - by left.
  - intros b Hb. rewrite lookup_const_dict, decide_True by done.
    rewrite decide_False; [done|]. apply Hnv.
Qed.

#[export] Instance log_drive cfg `{!LogConfig cfg} : Drive cfg (log_idle cfg) (log_busy cfg).
Proof.
  destruct select (LogConfig cfg) as [Hkind Hppb Hnb Hspare Hwater Hdumps]. split.
  - split; [by apply log_inv_init|unfold gc_ok; simpl; lia|].
    exists 0. split; [lia|]. unfold first_valid. simpl. by intros [? _]%init_lookup.
  - intros o s w [Hinv Hgc Hfree].
    assert (∀ lg, s <| phys := phys s |> <| logi := lg |> = s <| logi := lg |>) as Heq by by destruct s.
    apply wp_perform; [done|apply Hinv|by apply log_addressed|..].
    + intros. split; [by apply log_inv_stats|done|by left].
    + intros. split; [by apply log_unmap|done|by left].
    + intros a d lg Ha. rewrite Hkind.
      assert (log_inv cfg (s <| logi := lg |>)) as Hs'.
      { rewrite <-Heq. apply log_inv_stats; [done|apply Hinv]. }
      apply write_logging_spec; [done..|]. intros s' Hs Hc Hf. split; [done|]. split; [|done].
      split; [done|unfold gc_ok; by rewrite (lf_gc _ _ _ _ Hf)|].
      pose proof (lf_room _ _ _ _ Hf) as Hroom. case_decide; [left; by apply Hroom|right].
      split; [done|]. destruct (lf_new _ _ _ _ Hf) as (p & Hp & Hl). exists p. split; [done|].
      exists a. split; [lia|]. split; [|done].
      apply (lb_map _ _ (li_base _ _ Hs) a p Hl).
      pose proof (in_block_page _ Hppb _ _ (lb_block _ _ (li_base _ _ Hs)) Hp). lia.
  - intros s w [Hinv Hgc Hcase]. unfold upkeep. wp_pures.
    assert (∀ n, (¬ has_free cfg s → n = num_blocks cfg) →
      wp (when (gc_high_water_mark cfg <=? n) (garbage_collect cfg))
        (λ _ s' w', quiet cfg w w' ∧ log_idle cfg s' ∧ contents s' = contents s) noexn s w) as Hgo.
    { intros n Hn. wp_pures. destruct (Z.leb_spec (gc_high_water_mark cfg) n) as [Hle|Hlt].
      - eapply wp_conseq; [apply wp_garbage_collect; try done|].
        { destruct Hcase as [?|[Hr _]]; [by left|right; lia]. }
        intros [] s' w' ([] & Hq & Hfree). split; [done|]. split; [|done]. split; [done..|].
        destruct Hcase as [Hf|(_ & p & Hp & Hl)]; destruct Hfree as [?|[-> Hall]]; try done.
        exfalso. eapply not_all_full; [by split|done..].
      - split; [done|]. split; [|done]. split; [done..|].
        destruct (decide (has_free cfg s)) as [|Hno]; [done|]. specialize (Hn Hno). lia. }
    destruct (decide (has_free cfg s)) as [Hfree|Hfree].
    + apply wp_blocks_in_use; [apply Hinv|]. intros n. by apply Hgo.
    + apply (wp_blocks_sum _ 1); [lia| |].
      * intros b Hb. rewrite (li_used _ _ Hinv) by done. rewrite decide_True; [done|].
        destruct (decide (first_valid cfg s b)); [done|]. destruct Hfree. by exists b.
      * apply Hgo. lia.
  - intros s w Q Hnp Hs HQ. apply wp_dump; destruct Hs as [[Hs _ _]|[Hs _ _]]; try apply Hs; done.
Qed.

(** ** The command loop over any drive *)

(** The command an operation is written as *)
Definition op_str (o : disk_op) : string :=
  match o with
  | OpRead a => "r" +:+ str_of_Z a
  | OpWrite a d => "w" +:+ str_of_Z a +:+ ":" +:+ d
  | OpTrim a => "t" +:+ str_of_Z a
  end.

(** Data with a colon would be cut. *)
Definition plain (o : disk_op) : Prop :=
  match o with OpWrite _ d => str_has ":" d = false | _ => True end.

(** The line that reports the [n]-th operation and its answer *)
Definition report (n : Z) (o : disk_op) (r : string) : string :=
  "cmd " +:+ fmt_d 3 n +:+
  match o with
  | OpRead a => ":: read(" +:+ str_of_Z a +:+ ") -> " +:+ r
  | OpWrite a d => ":: write(" +:+ str_of_Z a +:+ ", " +:+ d +:+ ") -> " +:+ r
  | OpTrim a => ":: trim(" +:+ str_of_Z a +:+ ") -> " +:+ r
  end.

(** What the disk prints for a list of operations *)
Fixpoint reports (nlp n : Z) (m : disk) (ops : list disk_op) : list string :=
  match ops with
  | [] => []
  | o :: ops =>
      let '(m', r) := disk_step nlp m o in
      (report n o r +:+ nl) :: reports nlp (n + 1) m' ops
  end.

Lemma split_op c n : is_digit c = false → c ≠ "-"%char →
  split_on c (String c (str_of_Z n)) = [""; str_of_Z n].
Proof.
  intros Hc Hm. simpl. rewrite Ascii.eqb_refl, split_on_none; [done|]. by apply str_of_Z_has.
Qed.

Section Client.
Context (cfg : config) (show_cmds quiz_cmds solve : bool).

(** A well-formed command performs its operation and reports it. *)
Lemma wp_exec_cmd n o s w (Q : Z → ssd → world → Prop) E :
  plain o →
  wp (perform cfg o) (λ r s' w',
    ∀ w'', (show_cmds = true → w'' = emit (report n o r +:+ nl) w') → Q (n + 1) s' w'') E s w →
  wp (exec_cmd cfg show_cmds quiz_cmds solve n (op_str o)) Q E s w.
Proof.
  intros Hplain Hp. unfold exec_cmd.
  assert (∀ r q (R : Z → ssd → world → Prop) s' w',
    (∀ w'', (show_cmds = true → w'' = emit (r +:+ nl) w') → R (n + 1) s' w'') →
    wp (if show_cmds || quiz_cmds && solve then print r else when quiz_cmds (print q))
      (λ _ s w, wp (mret (n + 1)) R E s w) E s' w') as Hshow.
  { intros r q R s' w' HR. destruct show_cmds; simpl; wp_pures; [by apply HR|].
    destruct (quiz_cmds && solve); wp_pures; [by apply HR|].
    destruct quiz_cmds; by apply HR. }
  destruct o as [a|a d|a]; cbn [op_str].
  - change ("r" +:+ str_of_Z a) with (String "r" (str_of_Z a)). cbn [perform] in Hp.
    rewrite split_op by done. erewrite (list_get_nat _ 1) by done. unfold py_int. wp_pures.
    rewrite int_of_str_of_Z. wp_pures.
    eapply wp_conseq; [exact Hp|]. intros r s' w' HQ.
    rewrite wp_bind. apply Hshow. exact HQ.
  - change ("w" +:+ str_of_Z a +:+ ":" +:+ d) with (String "w" (str_of_Z a +:+ String ":" d)).
    cbn [perform] in Hp.
    assert (split_on ":" (String "w" (str_of_Z a +:+ String ":" d)) = [String "w" (str_of_Z a); d]) as Hsp.
    { change (String "w" (str_of_Z a +:+ String ":" d)) with (String "w" (str_of_Z a) +:+ String ":" d).
      rewrite split_on_app; [by rewrite split_on_none|]. simpl. by apply str_of_Z_has. }
    rewrite Hsp. erewrite (list_get_nat _ 0) by done. rewrite wp_bind, wp_ret.
    rewrite split_op by done. erewrite (list_get_nat [""; _] 1), (list_get_nat [_; d] 1) by done. unfold py_int. wp_pures.
    rewrite int_of_str_of_Z. wp_pures.
    eapply wp_conseq; [exact Hp|]. intros r s' w' HQ.
    rewrite wp_bind. apply Hshow. exact HQ.
  - change ("t" +:+ str_of_Z a) with (String "t" (str_of_Z a)). cbn [perform] in Hp.
    rewrite split_op by done. erewrite (list_get_nat _ 1) by done. unfold py_int. wp_pures.
    rewrite int_of_str_of_Z. wp_pures.
    eapply wp_conseq; [exact Hp|]. intros r s' w' HQ.
    rewrite wp_bind. apply Hshow. exact HQ.
Qed.
End Client.

Arguments disk_step : simpl never.

(** The loop over the commands runs the logical disk, whatever the drive. *)
Lemma wp_run_cmds cfg I J `{!Drive cfg I J} show_st show_cmds quiz_cmds solve ops s w :
  Forall plain ops → I s → (show_st = false ∨ 7 ≤ num_pages cfg) →
  wp (run_cmds cfg show_st show_cmds quiz_cmds solve (op_str <$> ops))
    (λ _ s' w', I s' ∧ contents s' = disk_run (num_logical_pages cfg) (contents s) ops ∧
       (show_cmds = true → show_st = false → gc_trace cfg = false →
        stdout w' = reverse (reports (num_logical_pages cfg) 0 (contents s) ops) ++ stdout w))
    noexn s w.
Proof.
  intros Hplain HI Hst. unfold run_cmds. rewrite wp_bind.
  assert (∀ (R : unit → ssd → world → Prop) n ops s w, Forall plain ops → I s →
    (∀ s' w', I s' → contents s' = disk_run (num_logical_pages cfg) (contents s) ops →
       (show_cmds = true → show_st = false → gc_trace cfg = false →
        stdout w' = reverse (reports (num_logical_pages cfg) n (contents s) ops) ++ stdout w) →
       R tt s' w') →
    wp (for_ret (op_str <$> ops) n (run_cmd cfg show_st show_cmds quiz_cmds solve))
      (λ _ s w, wp (mret ()) R noexn s w) noexn s w) as Hgen.
  2: { apply Hgen; [done..|]. by intros s' w' ? ? ?. }
  clear s w ops Hplain HI. intros R n ops s w Hplain. revert n s w.
  induction Hplain as [|o ops Ho _ IH]; intros n s w HI HR; simpl.
  { apply HR; [done..|]. done. }
  rewrite wp_bind.
  assert (run_cmd cfg show_st show_cmds quiz_cmds solve n (op_str o) =
    op ← exec_cmd cfg show_cmds quiz_cmds solve n (op_str o);
    when show_st (print "";; dump cfg;; print "");; upkeep cfg;; mret (inl op)) as ->.
  { unfold run_cmd. by destruct o. }
  rewrite wp_bind. apply wp_exec_cmd; [done|].
  eapply wp_conseq; [by apply drive_perform|].
  intros r s1 w1 (-> & HJ & Hstep) w2 Hw2.
  unfold disk_run in HR. simpl in HR. rewrite Hstep in HR. simpl in HR.
  assert (∀ w3, (show_st = false → w3 = w2) →
    wp (upkeep cfg;; mret (inl (n + 1)))
      (λ r s w, wp (match r with
        | inl b => for_ret (op_str <$> ops) b (run_cmd cfg show_st show_cmds quiz_cmds solve)
        | inr r => mret (inr r) end)
        (λ _ s w, wp (mret ()) R noexn s w) noexn s w) noexn s1 w3) as Hup.
  { intros w3 Hw3. rewrite wp_bind. eapply wp_conseq; [by apply drive_upkeep|].
    intros _ s2 w4 (Hq & HI2 & Hc). wp_pures. apply IH; [done|].
    rewrite Hc. intros s' w' ? ? Hout. apply HR; [done..|].
    intros H1 H2 H3. rewrite Hout, Hq, Hw3, Hw2 by done. simpl.
    rewrite reverse_cons, <-app_assoc. done. }
  rewrite wp_bind, wp_when. destruct show_st; [|by apply Hup].
  destruct Hst as [|Hnp]; [done|]. wp_pures.
  apply (drive_dump (I:=I) (J:=J)); [done|by right|]. intros w3. rewrite wp_print. by apply Hup.
Qed.

Lemma contents_init cfg : contents (init cfg) = ∅.
Proof.
  apply map_eq. intros l. unfold contents. simpl. rewrite lookup_omap, lookup_const_dict, lookup_empty.
  by case_decide.
Qed.

(** ** Properties *)

(** C5: a direct-mapped or ideal drive implements the logical disk.  Any list
    of commands, from the initial state, runs without an exception; the final
    contents are those of the abstract disk, and in quiet mode the reports are
    the disk's answers: each read returns the last data written to its page
    since the last trim, and each operation on an illegal or unmapped page its
    error, whatever the erases and copies of the blocks in between. *)
Theorem flat_drive_refines cfg `{!FlatConfig cfg} show_st show_cmds quiz_cmds solve ops w
    (Hplain : Forall plain ops) (Hst : show_st = false ∨ 7 ≤ num_pages cfg) :
  ∃ s' w', run_cmds cfg show_st show_cmds quiz_cmds solve (op_str <$> ops) (init cfg) w = Ok tt s' w' ∧
    contents s' = disk_run (num_logical_pages cfg) ∅ ops ∧
    (show_cmds = true → show_st = false → gc_trace cfg = false →
     stdout w' = reverse (reports (num_logical_pages cfg) 0 ∅ ops) ++ stdout w).
Proof.
  destruct (wp_noexn_ok _ _ _ _ (wp_run_cmds cfg _ _ show_st show_cmds quiz_cmds solve ops
    (init cfg) w Hplain drive_init Hst)) as ([] & s' & w' & Hrun & _ & Hc & Hout).
  rewrite contents_init in *. eauto.
Qed.

(** C4: a log-structured drive implements the logical disk, provided it has
    one block more than its logical pages need and collects at the latest when
    every block is in use.  No write finds the device full, although blocks
    are opened, filled, collected and erased, and no collection loses a
    page. *)
Theorem log_drive_refines cfg `{!LogConfig cfg} show_st show_cmds quiz_cmds solve ops w
    (Hplain : Forall plain ops) (Hst : show_st = false ∨ 7 ≤ num_pages cfg) :
  ∃ s' w', run_cmds cfg show_st show_cmds quiz_cmds solve (op_str <$> ops) (init cfg) w = Ok tt s' w' ∧
    contents s' = disk_run (num_logical_pages cfg) ∅ ops ∧
    (show_cmds = true → show_st = false → gc_trace cfg = false →
     stdout w' = reverse (reports (num_logical_pages cfg) 0 ∅ ops) ++ stdout w).
Proof.
  destruct (wp_noexn_ok _ _ _ _ (wp_run_cmds cfg _ _ show_st show_cmds quiz_cmds solve ops
    (init cfg) w Hplain drive_init Hst)) as ([] & s' & w' & Hrun & _ & Hc & Hout).
  rewrite contents_init in *. eauto.
Qed.

(** On any log-structured drive, a write of a legal page either succeeds,
    changing the contents at that page only, or finds the device full, exactly
    when the open block is used up and no block is free, and then changes
    nothing but the failure count. *)
Theorem log_write_correct cfg (Hppb : 0 < pages_per_block cfg) s w l d
    (Hinv : log_inv cfg s) (Hl : 0 ≤ l < num_logical_pages cfg) :
  ∃ s', (current_page s = -1 ∧ ¬ has_free cfg s ∧
         write_logging cfg l d s w = Ok "failure: device full" s' w ∧
         s' = s <| logi ::= (λ l, l <| logical_write_fail_sum ::= Z.succ |>) |>) ∨
        ((current_page s ≠ -1 ∨ has_free cfg s) ∧
         write_logging cfg l d s w = Ok "success" s' w ∧
         log_inv cfg s' ∧ contents s' = <[l := d]> (contents s)).
Proof.
  assert (wp (write_logging cfg l d) (λ r s' w', w' = w ∧
    ((current_page s = -1 ∧ ¬ has_free cfg s ∧ r = "failure: device full" ∧
       s' = s <| logi ::= (λ l, l <| logical_write_fail_sum ::= Z.succ |>) |>) ∨
     ((current_page s ≠ -1 ∨ has_free cfg s) ∧ r = "success" ∧ log_inv cfg s' ∧
       contents s' = <[l := d]> (contents s)))) noexn s w) as Hwp.
  2: { apply wp_noexn_ok in Hwp as (r & s' & w' & Hrun & -> & Hcase). exists s'. naive_solver. }
  pose proof (lb_block _ _ (li_base _ _ Hinv)).
  apply write_logging_spec; [done|lia|done|done| |].
  - intros Hcp Hno. split; [done|]. by left.
  - intros s' Hinv' Hc Hf. split; [done|]. right. split; [apply Hf|done].
Qed.

(** C6: a garbage collection started with a free block, or with enough room
    left in the open one, keeps the contents and the invariants of the log,
    whichever blocks it copies and erases; it leaves a free block unless every
    block but the open one is full of live pages, and then does nothing. *)
Theorem garbage_collect_correct cfg (Hkind : ssd_type cfg = TYPE_LOGGING)
    (Hppb : 0 < pages_per_block cfg) (Htr : gc_trace cfg = false ∨ 7 ≤ num_pages cfg) s w
    (Hinv : log_inv cfg s) (Hgc : gc_ok cfg s) (Hroom : can_gc cfg s) :
  ∃ s' w', garbage_collect cfg s w = Ok tt s' w' ∧ log_inv cfg s' ∧ gc_ok cfg s' ∧
    contents s' = contents s ∧
    (has_free cfg s' ∨
     s' = s ∧ ∀ b, 0 ≤ b < num_blocks cfg → b = current_block s ∨ full cfg s b).
Proof.
  pose proof (lb_block _ _ (li_base _ _ Hinv)).
  destruct (wp_noexn_ok _ _ _ _ (wp_garbage_collect cfg Hppb ltac:(lia) Hkind Htr s w Hinv Hgc Hroom))
    as ([] & s' & w' & Hrun & [] & _ & Hf). eauto 10.
Qed.

(** *** The generated commands *)

Definition legal_op (nlp : Z) (o : disk_op) : Prop :=
  plain o ∧ match o with OpRead a | OpWrite a _ | OpTrim a => 0 ≤ a < nlp end.

(** The commands generated so far are operations on legal pages, and the
    addresses thought to be mapped are legal. *)
Record gen_ok (cfg : config) (g : gen) : Prop := {
  go_cmds : ∃ ops, cmd_list g = op_str <$> ops ∧ Forall (legal_op (num_logical_pages cfg)) ops;
  go_valid : ∀ a, a ∈ valid_addresses g → 0 ≤ a < num_logical_pages cfg;
}.

Lemma gen_ok_add cfg g o va sk :
  gen_ok cfg g → legal_op (num_logical_pages cfg) o →
  (∀ a, a ∈ va → 0 ≤ a < num_logical_pages cfg) →
  gen_ok cfg (Gen (cmd_list g ++ [op_str o]) va sk).
Proof.
  intros [(ops & Hops & Hall) _] Ho Hva. split; [|done]. exists (ops ++ [o]). simpl.
  rewrite Hops, fmap_app. split; [done|]. apply Forall_app. split; [done|]. by apply Forall_singleton.
Qed.

Lemma printable_plain d : d ∈ printable → str_has ":" d = false.
Proof.
  assert (forallb (λ d, negb (str_has ":" d)) printable = true) as Hall by by vm_compute.
  rewrite forallb_forall in Hall. intros Hd%list_elem_of_In%Hall. by apply negb_true_iff.
Qed.

Lemma wp_list_remove {St} (l : list Z) x (Q : list Z → St → world → Prop) E s w :
  x ∈ l → (∀ l', (∀ y, y ∈ l' → y ∈ l) → Q l' s w) → wp (list_remove l x) Q E s w.
Proof.
  intros Hx HQ. unfold list_remove.
  destruct (list_find_elem_of (x =.) l x Hx eq_refl) as [[i y] Hi]. rewrite Hi. simpl.
  wp_pures. apply HQ. intros z Hz. rewrite delete_take_drop in Hz.
  apply elem_of_app in Hz as [Hz|Hz]; [by eapply elem_of_take in Hz as (? & ? & _); eapply list_elem_of_lookup_2
    |by eapply list_elem_of_lookup in Hz as [? Hz]; rewrite lookup_drop in Hz; eapply list_elem_of_lookup_2].
Qed.

(** An iteration of the command generator raises nothing and adds at most
    one command, always a well-formed operation on a legal page: the drives
    never see an illegal address from it.  ([int] of the skew's product is
    required to name a page, as it does for targets of at most 100%.) *)
Theorem gen_step_legal cfg o g w (Hpages : 0 < num_logical_pages cfg)
    (Htarget : 0 ≤ int_percent (hot_target o) (num_logical_pages cfg - 1) < num_logical_pages cfg)
    (Hg : gen_ok cfg g) (Hw : rng_ok w) :
  ∃ g' w', gen_step cfg o g w = Ok tt g' w' ∧ gen_ok cfg g' ∧ rng_ok w' ∧ stdout w' = stdout w ∧
    len (cmd_list g) ≤ len (cmd_list g') ≤ len (cmd_list g) + 1.
Proof.
  assert (wp (gen_step cfg o) (λ _ g' w', gen_ok cfg g' ∧ rng_ok w' ∧ stdout w' = stdout w ∧
    len (cmd_list g) ≤ len (cmd_list g') ≤ len (cmd_list g) + 1) noexn g w) as Hwp.
  2: { apply wp_noexn_ok in Hwp as ([] & g' & w' & Hrun & ?). eauto 10. }
  assert (∀ x, len (cmd_list g ++ [x]) = len (cmd_list g) + 1) as Hlen.
  { intros. unfold len. rewrite length_app. simpl. lia. }
  destruct (Hg) as [Hcmds Hvalid].
  assert (∀ o va sk w', legal_op (num_logical_pages cfg) o →
    (∀ a, a ∈ va → 0 ≤ a < num_logical_pages cfg) → rng_ok w' → stdout w' = stdout w →
    gen_ok cfg (Gen (cmd_list g ++ [op_str o]) va sk) ∧ rng_ok w' ∧ stdout w' = stdout w ∧
    len (cmd_list g) ≤ len (cmd_list g ++ [op_str o]) ≤ len (cmd_list g) + 1) as Hadd.
  { intros op va sk w' Hop Hva Hw' Ho'. split; [by apply gen_ok_add|].
    do 2 (split; [done|]). rewrite Hlen. lia. }
  assert (∀ w', rng_ok w' → stdout w' = stdout w →
    gen_ok cfg g ∧ rng_ok w' ∧ stdout w' = stdout w ∧
    len (cmd_list g) ≤ len (cmd_list g) ≤ len (cmd_list g) + 1) as Hskip by auto with lia.
  unfold gen_step, add_cmd. wp_pures.
  apply wp_rand_int; [lia|done|]. intros k w1 Hk Hw1 Ho1. wp_pures.
  destruct (k <? percent_reads o); [|destruct (k <? percent_reads o + percent_writes o)].
  - wp_pures. apply wp_randint_0; [lia|done|]. intros r w2 Hr Hw2 Ho2. wp_pures.
    destruct (r <? read_fail o); wp_pures.
    { apply wp_randint_0; [lia|done|]. intros a w3 Ha Hw3 Ho3. wp_pures.
      apply (Hadd (OpRead a)); [|done..|congruence]. split; [done|lia]. }
    destruct (Z.ltb_spec (len (valid_addresses g)) 2) as [|Hl]; wp_pures; [apply Hskip; [done|congruence]|].
    apply wp_random_choice; [by intros Hn; rewrite Hn in Hl|done|].
    intros a w3 Ha Hw3 Ho3. wp_pures.
    apply (Hadd (OpRead a)); [|done..|congruence]. split; [done|by apply Hvalid].
  - assert (∀ hot : bool, ∀ w2, rng_ok w2 → stdout w2 = stdout w →
      wp (address ← (if hot then random_randint 0 (int_percent (hot_target o) (num_logical_pages cfg - 1))
                     else random_randint 0 (num_logical_pages cfg - 1));
          when (negb (bool_decide (address ∈ valid_addresses g)))
            (modify (λ g, g <| valid_addresses ::= (.++ [address]) |>));;
          d ← random_choice printable;
          modify (λ g, g <| cmd_list ::= (.++ ["w" +:+ str_of_Z address +:+ ":" +:+ d]) |>);;
          when (0 <? skew_start g) (modify (λ g, g <| skew_start ::= Z.pred |>)))
        (λ _ g' w', gen_ok cfg g' ∧ rng_ok w' ∧ stdout w' = stdout w ∧
           len (cmd_list g) ≤ len (cmd_list g') ≤ len (cmd_list g) + 1) noexn g w2) as Hwrite.
    { intros hot w2 Hw2 Ho2.
      assert (∀ a w3, 0 ≤ a < num_logical_pages cfg → rng_ok w3 → stdout w3 = stdout w →
        wp (when (negb (bool_decide (a ∈ valid_addresses g)))
              (modify (λ g, g <| valid_addresses ::= (.++ [a]) |>));;
            d ← random_choice printable;
            modify (λ g, g <| cmd_list ::= (.++ ["w" +:+ str_of_Z a +:+ ":" +:+ d]) |>);;
            when (0 <? skew_start g) (modify (λ g, g <| skew_start ::= Z.pred |>)))
          (λ _ g' w', gen_ok cfg g' ∧ rng_ok w' ∧ stdout w' = stdout w ∧
             len (cmd_list g) ≤ len (cmd_list g') ≤ len (cmd_list g) + 1) noexn g w3) as Hdata.
      { intros a w3 Ha Hw3 Ho3. wp_pures.
        case_match; wp_pures; (apply wp_random_choice; [done|done|]);
          intros d w4 Hd%printable_plain Hw4 Ho4; wp_pures;
          case_match; (apply (Hadd (OpWrite a d)); [done| |done|congruence]);
          try exact Hvalid; intros b [?|?%list_elem_of_singleton]%elem_of_app; subst; auto. }
      wp_pures. destruct hot; (apply wp_randint_0; [lia|done|]); intros a w3 Ha Hw3 Ho3;
        (apply Hdata; [lia|done|congruence]). }
    wp_pures. destruct ((skew_start g =? 0) && hot_cold o); wp_pures.
    + unfold rand_lt. wp_pures. apply wp_unbind. by apply Hwrite.
    + apply wp_unbind. by apply (Hwrite false).
  - destruct (Z.ltb_spec (len (valid_addresses g)) 1) as [|Hl]; wp_pures; [by apply Hskip|].
    apply wp_random_choice; [by intros Hn; rewrite Hn in Hl|done|].
    intros a w3 Ha Hw3 Ho3. wp_pures. apply wp_list_remove; [done|]. intros l' Hl'. wp_pures.
    apply (Hadd (OpTrim a)); [|by auto|done|congruence]. split; [done|by apply Hvalid].
Qed.

(** ** Witnesses *)

Definition example_config (k : ssd_kind) : config :=
  Config k 6 3 3 1000 40 10 3 1 false false.

(** Enough overwrites for the log drive to collect twice *)
Definition example_ops : list disk_op :=
  (λ i, OpWrite (i mod 6) (str_of_Z i)) <$> range 0 14.

#[export] Instance example_flat : FlatConfig (example_config TYPE_DIRECT).
Proof. by split. Qed.
#[export] Instance example_log : LogConfig (example_config TYPE_LOGGING).
Proof. split; try done. by left. Qed.

Lemma example_plain : Forall plain (example_ops ++ [OpTrim 3; OpRead 3; OpRead 0; OpRead 9]).
Proof. repeat constructor. Qed.

Lemma flat_drive_refines_witness :
  ∃ s' w', run_cmds (example_config TYPE_DIRECT) true true false false
      (op_str <$> example_ops ++ [OpTrim 3; OpRead 3; OpRead 0; OpRead 9])
      (init (example_config TYPE_DIRECT)) (world_of []) = Ok tt s' w' ∧
    contents s' !! 0 = Some "12" ∧ contents s' !! 3 = None.
Proof.
  assert (7 ≤ num_pages (example_config TYPE_DIRECT)) as Hnp by by vm_compute.
  destruct (flat_drive_refines (example_config TYPE_DIRECT) true true false false
    (example_ops ++ [OpTrim 3; OpRead 3; OpRead 0; OpRead 9]) (world_of [])
    example_plain (or_intror Hnp)) as (s' & w' & Hrun & Hc & _).
  exists s', w'. split; [exact Hrun|]. rewrite Hc.
  split; vm_compute; reflexivity.
Defined.

Lemma log_drive_refines_witness :
  ∃ s' w', run_cmds (example_config TYPE_LOGGING) false true false false
      (op_str <$> example_ops ++ [OpTrim 3; OpRead 3; OpRead 0; OpRead 9])
      (init (example_config TYPE_LOGGING)) (world_of []) = Ok tt s' w' ∧
    contents s' !! 0 = Some "12" ∧ contents s' !! 3 = None ∧
    hd "" (stdout w') = "cmd  17:: read(9) -> fail: illegal read address" +:+ nl.
Proof.
  destruct (log_drive_refines (example_config TYPE_LOGGING) false true false false
    (example_ops ++ [OpTrim 3; OpRead 3; OpRead 0; OpRead 9]) (world_of [])
    example_plain (or_introl eq_refl)) as (s' & w' & Hrun & Hc & Hout).
  exists s', w'. split; [exact Hrun|]. rewrite Hc, Hout by done.
  split; [|split]; vm_compute; reflexivity.
Defined.

Lemma log_write_correct_witness :
  ∃ s', write_logging (example_config TYPE_LOGGING) 4 "a" (init (example_config TYPE_LOGGING))
    (world_of []) = Ok "success" s' (world_of []) ∧ contents s' = {[ 4 := "a" ]}.
Proof.
  destruct (log_write_correct (example_config TYPE_LOGGING) ltac:(done)
    (init (example_config TYPE_LOGGING)) (world_of []) 4 "a"
    ltac:(by apply log_inv_init) ltac:(done)) as (s' & [(_ & Hno & _)|(_ & Hrun & _ & Hc)]).
  - exfalso. apply Hno. exists 0. by vm_compute.
  - exists s'. split; [exact Hrun|]. rewrite Hc, contents_init. done.
Defined.

Lemma garbage_collect_correct_witness :
  ∃ s' w', garbage_collect (example_config TYPE_LOGGING) (init (example_config TYPE_LOGGING))
    (world_of []) = Ok tt s' w' ∧ contents s' = ∅.
Proof.
  destruct (garbage_collect_correct (example_config TYPE_LOGGING) eq_refl ltac:(done)
    (or_introl eq_refl) (init (example_config TYPE_LOGGING)) (world_of [])
    ltac:(by apply log_inv_init) ltac:(done) ltac:(left; exists 0; by vm_compute))
    as (s' & w' & Hrun & _ & _ & Hc & _).
  exists s', w'. split; [exact Hrun|]. by rewrite Hc, contents_init.
Defined.

Lemma gen_step_legal_witness :
  ∃ g' w', gen_step (example_config TYPE_LOGGING) (GenOptions 10 40 50 0 false 0 0) (Gen [] [] 0)
      (world_of [50; 20; 30]) = Ok tt g' w' ∧ gen_ok (example_config TYPE_LOGGING) g'.
Proof.
  destruct (gen_step_legal (example_config TYPE_LOGGING) (GenOptions 10 40 50 0 false 0 0)
    (Gen [] [] 0) (world_of [50; 20; 30])) as (g' & w' & Hrun & Hg & _).
  - done.
  - by vm_compute.
  - split; [by exists []|]. by intros a ?%elem_of_nil.
  - apply world_of_ok. repeat constructor; lia.
  - exists g', w'. by split.
Defined.

(** What the over-provisioning buys: with nine logical pages on the same nine
    physical ones, a collection that finds the device full erases a block whose
    pages it could not copy, and logical page 2 loses its data. *)
Example collection_loses_page :
  match run_cmds (Config TYPE_LOGGING 9 3 3 1000 40 10 3 1 false false) false true false false
    ["w0:a"; "w1:b"; "w2:c"; "w3:d"; "w4:e"; "w5:f"; "w6:g"; "w0:h"; "r2"]
    (init (Config TYPE_LOGGING 9 3 3 1000 40 10 3 1 false false)) (world_of []) with
  | Ok _ _ w => hd "" (stdout w)
  | _ => ""
  end = "cmd   8:: read(2) ->  " +:+ nl.
Proof. vm_compute. reflexivity. Qed.
