(* ===== verification/Vsfs.v ===== *)
(** * The very simple file system: [file-implementation/vsfs.py]

    Inode and data bitmaps, inodes with at most one block each, directories
    and hard links, and the generator of random requests. *)
From S2P Require Import Prelude PyStr PyRandom.
Open Scope Z_scope.

(** ** State *)

Inductive ftype := FT_dir | FT_file | FT_free.
#[export] Instance ftype_eq_dec : EqDecision ftype.
Proof. solve_decision. Defined.

Definition str_of_ftype (t : ftype) : string :=
  match t with FT_dir => "d" | FT_file => "f" | FT_free => "free" end.

Record bitmap := Bitmap { size : Z; bmap : list Z; numAllocated : Z }.

(** A directory entry is a name and an inode number. *)
Record block := Block {
  b_ftype : ftype;
  dirUsed : Z;
  maxUsed : Z;
  dirList : list (string * Z);
  b_data : string;
}.

Record inode := Inode { i_ftype : ftype; addr : Z; refCnt : Z }.

Record fs := Fs {
  numInodes : Z;
  numData : Z;
  ibitmap : bitmap;
  inodes : list inode;
  dbitmap : bitmap;
  data : list block;
  files : list string;
  dirs : list string;
  nameToInum : gmap string Z;
}.

#[export] Instance bitmap_settable : Settable bitmap := λ s, Bitmap (size s) (bmap s) (numAllocated s).
#[export] Instance block_settable : Settable block := λ s,
  Block (b_ftype s) (dirUsed s) (maxUsed s) (dirList s) (b_data s).
#[export] Instance inode_settable : Settable inode := λ s, Inode (i_ftype s) (addr s) (refCnt s).
#[export] Instance fs_settable : Settable fs := λ s,
  Fs (numInodes s) (numData s) (ibitmap s) (inodes s) (dbitmap s) (data s) (files s) (dirs s)
    (nameToInum s).

(** The globals set from the command line *)
Record options := Options { printOps : bool; printState : bool; printFinal : bool }.

Definition ROOT : Z := 0.

(** ** [class bitmap] *)

Definition bitmap_init (n : Z) : bitmap := Bitmap n ((λ _, 0) <$> range 0 n) 0.

Definition bitmap_alloc : M bitmap Z :=
  b ← get;
  r ← for_ret (range 0 (len (bmap b))) tt (λ _ num,
    b ← get;
    v ← list_get (bmap b) num;
    if v =? 0 then
      l ← list_set (bmap b) num 1;
      bmap <~ l;;
      modify (λ b, b <| numAllocated ::= Z.succ |>);;
      mret (inr num)
    else mret (inl tt));
  mret (match r with inr num => num | inl _ => -1 end).

Definition bitmap_free (num : Z) : M bitmap unit :=
  b ← get;
  v ← list_get (bmap b) num;
  passert (v =? 1);;
  modify (λ b, b <| numAllocated ::= Z.pred |>);;
  l ← list_set (bmap b) num 0;
  bmap <~ l.

Definition bitmap_markAllocated (num : Z) : M bitmap unit :=
  b ← get;
  v ← list_get (bmap b) num;
  passert (v =? 0);;
  modify (λ b, b <| numAllocated ::= Z.succ |>);;
  l ← list_set (bmap b) num 1;
  bmap <~ l.

Definition numFree (b : bitmap) : Z := size b - numAllocated b.

Definition bitmap_dump (b : bitmap) : string := foldl (λ s v, s +:+ str_of_Z v) "" (bmap b).

(** ** [class block] *)

Definition block_init (t : ftype) : block := Block t 0 32 [] "".

Definition block_dump (b : block) : string :=
  match b_ftype b with
  | FT_free => "[]"
  | FT_dir =>
      let rc := foldl (λ rc d,
        let short := "(" +:+ d.1 +:+ "," +:+ str_of_Z d.2 +:+ ")" in
        if bool_decide (rc = "") then short else rc +:+ " " +:+ short) "" (dirList b) in
      "[" +:+ rc +:+ "]"
  | FT_file => "[" +:+ b_data b +:+ "]"
  end.

Definition block_setType (t : ftype) : M block unit :=
  b ← get;
  passert (bool_decide (b_ftype b = FT_free));;
  b_ftype <~ t.

Definition addData (x : string) : M block unit :=
  b ← get;
  passert (bool_decide (b_ftype b = FT_file));;
  b_data <~ x.

Definition getFreeEntries : M block Z :=
  b ← get;
  passert (bool_decide (b_ftype b = FT_dir));;
  mret (maxUsed b - dirUsed b).

Definition getNumEntries : M block Z :=
  b ← get;
  passert (bool_decide (b_ftype b = FT_dir));;
  mret (dirUsed b).

Definition getEntry (num : Z) : M block (string * Z) :=
  b ← get;
  passert (bool_decide (b_ftype b = FT_dir));;
  passert (num <? dirUsed b);;
  list_get (dirList b) num.

Definition addDirEntry (name : string) (inum : Z) : M block unit :=
  b ← get;
  passert (bool_decide (b_ftype b = FT_dir));;
  modify (λ b, b <| dirList ::= (.++ [(name, inum)]) |>);;
  modify (λ b, b <| dirUsed ::= Z.succ |>);;
  b ← get;
  passert (dirUsed b <=? maxUsed b).

(** [tmp[len(tmp) - 1]] of a split path *)
Definition basename (name : string) : string := default "" (last (split_on "/" name)).

Definition delDirEntry (name : string) : M block unit :=
  b ← get;
  passert (bool_decide (b_ftype b = FT_dir));;
  let dname := basename name in
  r ← for_ret (range 0 (len (dirList b))) tt (λ _ i,
    b ← get;
    d ← list_get (dirList b) i;
    if bool_decide (d.1 = dname) then
      l ← list_pop (dirList b) i;
      dirList <~ l.2;;
      modify (λ b, b <| dirUsed ::= Z.pred |>);;
      mret (inr tt)
    else mret (inl tt));
  match r with inr _ => mret tt | inl _ => passert false end.

Definition dirEntryExists (name : string) : M block bool :=
  b ← get;
  passert (bool_decide (b_ftype b = FT_dir));;
  mret (existsb (λ d, bool_decide (name = d.1)) (dirList b)).

(** The entries of a freed directory stay in [dirList]. *)
Definition block_free : M block unit :=
  b ← get;
  passert (negb (bool_decide (b_ftype b = FT_free)));;
  when (bool_decide (b_ftype b = FT_dir)) (passert (dirUsed b =? 2);; dirUsed <~ 0);;
  b_data <~ "";;
  b_ftype <~ FT_free.

(** ** [class inode] *)

Definition inode_init : inode := Inode FT_free (-1) 1.

Definition setAll (t : ftype) (a r : Z) : M inode unit :=
  i_ftype <~ t;; addr <~ a;; refCnt <~ r.
Definition incRefCnt : M inode unit := modify (λ i, i <| refCnt ::= Z.succ |>).
Definition decRefCnt : M inode unit := modify (λ i, i <| refCnt ::= Z.pred |>).
Definition getRefCnt : M inode Z := gets refCnt.
Definition setAddr (a : Z) : M inode unit := addr <~ a.
Definition getSize : M inode Z := i ← get; mret (if addr i =? -1 then 0 else 1).
Definition getAddr : M inode Z := gets addr.
Definition getType : M inode ftype := gets i_ftype.
Definition inode_free : M inode unit := i_ftype <~ FT_free;; addr <~ -1.

(** ** [class fs] *)

Section Fs.
Context (opts : options).

Definition on_inode {A} (inum : Z) (m : M inode A) : M fs A :=
  zoom_at inodes (λ l s, s <| inodes := l |>) inum m.
Definition on_block {A} (bnum : Z) (m : M block A) : M fs A :=
  zoom_at data (λ l s, s <| data := l |>) bnum m.
Definition on_ibitmap {A} (m : M bitmap A) : M fs A := zoom ibitmap (λ b s, s <| ibitmap := b |>) m.
Definition on_dbitmap {A} (m : M bitmap A) : M fs A := zoom dbitmap (λ b s, s <| dbitmap := b |>) m.

(** The object before the root directory is made *)
Definition fs_blank (nInodes nData : Z) : fs :=
  Fs nInodes nData (bitmap_init nInodes) ((λ _, inode_init) <$> range 0 nInodes)
    (bitmap_init nData) ((λ _, block_init FT_free) <$> range 0 nData) [] [] ∅.

(** [__init__] *)
Definition fs_init : M fs unit :=
  on_ibitmap (bitmap_markAllocated ROOT);;
  on_inode ROOT (setAll FT_dir 0 2);;
  on_dbitmap (bitmap_markAllocated ROOT);;
  on_block 0 (block_setType FT_dir);;
  on_block 0 (addDirEntry "." ROOT);;
  on_block 0 (addDirEntry ".." ROOT);;
  files <~ [];;
  dirs <~ ["/"];;
  nameToInum <~ {[ "/" := ROOT ]}.

Definition fs_dump : M fs unit :=
  s ← get;
  print ("inode bitmap  " +:+ bitmap_dump (ibitmap s));;
  put_str "inodes       ";;
  for_ (range 0 (numInodes s)) (λ i,
    ftype ← on_inode i getType;
    match ftype with
    | FT_free => put_str "[]"
    | _ =>
        a ← on_inode i getAddr; r ← on_inode i getRefCnt;
        put_str ("[" +:+ str_of_ftype ftype +:+ " a:" +:+ str_of_Z a +:+ " r:" +:+ str_of_Z r +:+ "]")
    end);;
  print "";;
  print ("data bitmap   " +:+ bitmap_dump (dbitmap s));;
  put_str "data         ";;
  for_ (range 0 (numData s)) (λ i,
    b ← on_block i (gets block_dump); put_str b);;
  print "".

Definition name_pool : list string :=
  ["a"; "b"; "c"; "d"; "e"; "f"; "g"; "h"; "j"; "k"; "m"; "n"; "o"; "p"; "q"; "r"; "s"; "t"; "u";
   "v"; "w"; "x"; "y"; "z"].

Definition makeName : M fs string := rand_pick name_pool.

Definition inodeAlloc : M fs Z := on_ibitmap bitmap_alloc.
Definition inodeFree (inum : Z) : M fs unit :=
  on_ibitmap (bitmap_free inum);; on_inode inum inode_free.
Definition dataAlloc : M fs Z := on_dbitmap bitmap_alloc.
Definition dataFree (bnum : Z) : M fs unit :=
  on_dbitmap (bitmap_free bnum);; on_block bnum block_free.

Definition getParent (name : string) : string :=
  let tmp := split_on "/" name in
  if len tmp =? 2 then "/"
  else foldl (λ pname t, pname +:+ "/" +:+ t) "" (take (length tmp - 2) (drop 1 tmp)).

(** [self.nameToInum[name]] *)
Definition lookup_name (name : string) : M fs Z := s ← get; dict_get (nameToInum s) name.

(** [l.remove(x)] on a list of names *)
Definition remove_name {S} (l : list string) (x : string) : M S (list string) :=
  of_option ValueError ((λ r, delete r.1 l) <$> list_find (x =.) l).

Definition deleteFile (tfile : string) : M fs Z :=
  when (printOps opts) (print ("unlink(" +:+ dq +:+ tfile +:+ dq +:+ ");"));;
  inum ← lookup_name tfile;
  ftype ← on_inode inum getType;
  r ← on_inode inum getRefCnt;
  (if r =? 1 then
     dblock ← on_inode inum getAddr;
     when (negb (dblock =? -1)) (dataFree dblock);;
     inodeFree inum
   else on_inode inum decRefCnt);;
  let parent := getParent tfile in
  pinum ← lookup_name parent;
  pblock ← on_inode pinum getAddr;
  when (bool_decide (ftype = FT_dir)) (on_inode pinum decRefCnt);;
  on_block pblock (delDirEntry tfile);;
  s ← get;
  l ← remove_name (files s) tfile;
  files <~ l;;
  mret 0.

Definition createLink (target newfile parent : string) : M fs Z :=
  parentInum ← lookup_name parent;
  pblock ← on_inode parentInum getAddr;
  room ← on_block pblock getFreeEntries;
  if room <=? 0 then mret (-1)
  else
    dup ← on_block pblock (dirEntryExists newfile);
    if dup : bool then mret (-1)
    else
      tinum ← lookup_name target;
      on_inode tinum incRefCnt;;
      let ename := basename newfile in
      on_block pblock (addDirEntry ename tinum);;
      mret tinum.

Definition createFile (parent newfile : string) (ftype : ftype) : M fs Z :=
  parentInum ← lookup_name parent;
  pblock ← on_inode parentInum getAddr;
  room ← on_block pblock getFreeEntries;
  if room <=? 0 then mret (-1)
  else
    block ← on_inode parentInum getAddr;
    dup ← on_block block (dirEntryExists newfile);
    if dup : bool then mret (-1)
    else
      inum ← inodeAlloc;
      if inum =? -1 then mret (-1)
      else
        let finish fblock refCnt :=
          on_inode inum (setAll ftype fblock refCnt);;
          when (bool_decide (ftype = FT_dir)) (on_inode parentInum incRefCnt);;
          on_block pblock (addDirEntry newfile inum);;
          mret inum in
        if bool_decide (ftype = FT_dir) then
          fblock ← dataAlloc;
          if fblock =? -1 then inodeFree inum;; mret (-1)
          else
            on_block fblock (block_setType FT_dir);;
            on_block fblock (addDirEntry "." inum);;
            on_block fblock (addDirEntry ".." parentInum);;
            finish fblock 2
        else finish (-1) 1.

Definition writeFile (tfile x : string) : M fs Z :=
  inum ← lookup_name tfile;
  curSize ← on_inode inum getSize;
  if curSize =? 1 then mret (-1)
  else
    fblock ← dataAlloc;
    if fblock =? -1 then mret (-1)
    else
      on_block fblock (block_setType FT_file);;
      on_block fblock (addData x);;
      on_inode inum (setAddr fblock);;
      when (printOps opts)
        (print ("fd=open(" +:+ dq +:+ tfile +:+ dq +:+ ", O_WRONLY|O_APPEND); write(fd, buf, BLOCKSIZE); close(fd);"));;
      mret 0.

(** *** The random requests *)

Definition full_name (parent nfile : string) : string :=
  if bool_decide (parent = "/") then parent +:+ nfile else parent +:+ "/" +:+ nfile.

Definition doDelete : M fs Z :=
  s ← get;
  if len (files s) =? 0 then mret (-1)
  else dfile ← rand_pick (files s); deleteFile dfile.

Definition doLink : M fs Z :=
  s ← get;
  if len (files s) =? 0 then mret (-1)
  else
    parent ← rand_pick (dirs s);
    nfile ← makeName;
    target ← rand_pick (files s);
    let fullName := full_name parent nfile in
    inum ← createLink target nfile parent;
    if 0 <=? inum then
      modify (λ s, s <| files ::= (.++ [fullName]) |> <| nameToInum ::= <[fullName := inum]> |>);;
      when (printOps opts) (print ("link(" +:+ dq +:+ target +:+ dq +:+ ", " +:+ dq +:+ fullName +:+ dq +:+ ");"));;
      mret 0
    else mret (-1).

Definition doCreate (ftype : ftype) : M fs Z :=
  s ← get;
  parent ← rand_pick (dirs s);
  nfile ← makeName;
  let fullName := full_name parent nfile in
  inum ← createFile parent nfile ftype;
  if 0 <=? inum then
    (if bool_decide (ftype = FT_dir) then modify (λ s, s <| dirs ::= (.++ [fullName]) |>)
     else modify (λ s, s <| files ::= (.++ [fullName]) |>));;
    modify (λ s, s <| nameToInum ::= <[fullName := inum]> |>);;
    let shown := if bool_decide (parent = "/") then "" else parent in
    when (printOps opts)
      (print ((if bool_decide (ftype = FT_dir) then "mkdir(" else "creat(")
              +:+ dq +:+ shown +:+ "/" +:+ nfile +:+ dq +:+ ");"));;
    mret 0
  else mret (-1).

Definition doAppend : M fs Z :=
  s ← get;
  if len (files s) =? 0 then mret (-1)
  else
    afile ← rand_pick (files s);
    k ← rand_int 26;
    writeFile afile (String (ascii_of_nat (97 + Z.to_nat k)) EmptyString).

(** The choice of one request *)
Definition do_request : M fs Z :=
  r ← random;
  if draw_lt 3 10 r then doAppend
  else if draw_lt 5 10 r then doDelete
  else if draw_lt 7 10 r then doLink
  else
    r ← random;
    if draw_lt 75 100 r then doCreate FT_file else doCreate FT_dir.

(** [while rc == -1]; the fuel bounds the attempts. *)
Definition one_request (fuel : nat) : M fs unit :=
  while_ fuel (-1) (λ rc,
    if rc =? -1 then
      rc ← do_request;
      s ← get;
      when (numFree (ibitmap s) =? 0)
        (print "File system out of inodes; rerun with more via command-line flag?";;
         raise (SystemExit 1));;
      when (numFree (dbitmap s) =? 0)
        (print "File system out of data blocks; rerun with more via command-line flag?";;
         raise (SystemExit 1));;
      mret (inl rc)
    else mret (inr tt)).

(** [str] of a list of names *)
Definition list_repr (l : list string) : string :=
  "[" +:+ join ", " ((λ x, "'" +:+ x +:+ "'") <$> l) +:+ "]".

Definition run (fuel : nat) (numRequests : Z) : M fs unit :=
  print "Initial state";; print "";; fs_dump;; print "";;
  for_ (range 0 numRequests) (λ _,
    when (negb (printOps opts)) (print "Which operation took place?");;
    one_request fuel;;
    if printState opts then print "";; fs_dump;; print ""
    else
      print "";;
      print "  State of file system (inode bitmap, inodes, data bitmap, data)?";;
      print "");;
  s ← get;
  when (printFinal opts)
    (print "";; print "Summary of files, directories::";; print "";;
     print ("  Files:       " +:+ list_repr (files s));;
     print ("  Directories: " +:+ list_repr (dirs s));;
     print "").
End Fs.

(** ** Names *)

Definition slashless (n : string) : Prop := str_has "/" n = false.
Definition absolute (d : string) : Prop := ∃ s, d = String "/" s.

Lemma full_name_split d n : slashless n → absolute d →
  split_on "/" (full_name d n) = (if bool_decide (d = "/") then [""] else split_on "/" d) ++ [n].
Proof.
  intros Hn [s ->]. unfold full_name. case_bool_decide as Hd.
  - rewrite Hd. change ("/" +:+ n) with ("" +:+ String "/" n). by rewrite split_on_snoc.
  - change (String "/" s +:+ "/" +:+ n) with (String "/" s +:+ String "/" n). by rewrite split_on_snoc.
Qed.

Lemma basename_full d n : slashless n → absolute d → basename (full_name d n) = n.
Proof. intros Hn Hd. unfold basename. by rewrite full_name_split, last_snoc. Qed.

Lemma getParent_full d n : slashless n → absolute d → getParent (full_name d n) = d.
Proof.
  intros Hn Hd. unfold getParent. rewrite full_name_split by done.
  case_bool_decide as Hroot; [done|]. destruct Hd as [s ->]. rewrite split_on_cons.
  pose proof (split_on_nonnil "/" s) as Hne. cbn [app].
  destruct (Z.eqb_spec (len ("" :: split_on "/" s ++ [n])) 2) as [Hlen|_].
  { unfold len in Hlen. simpl in Hlen. rewrite length_app in Hlen. simpl in Hlen.
    destruct (split_on "/" s); simpl in Hlen; [done|lia]. }
  cbn [length drop]. rewrite drop_0, length_app. cbn [length].
  rewrite take_app_length' by lia. by rewrite (split_on_join "/" s "").
Qed.

Lemma full_name_inj d n d' n' :
  slashless n → slashless n' → absolute d → absolute d' →
  full_name d n = full_name d' n' → d = d' ∧ n = n'.
Proof.
  intros Hn Hn' Hd Hd' Heq. split.
  - rewrite <-(getParent_full d n), <-(getParent_full d' n') by done. by rewrite Heq.
  - rewrite <-(basename_full d n), <-(basename_full d' n') by done. by rewrite Heq.
Qed.

Lemma full_name_absolute d n : absolute d → absolute (full_name d n).
Proof. intros [s ->]. unfold full_name. case_bool_decide; eexists; done. Qed.

Lemma full_name_not_root d n : slashless n → n ≠ "" → absolute d → full_name d n ≠ "/".
Proof.
  intros Hn Hne Hd Heq. apply Hne. rewrite <-(basename_full d n), Heq by done. done.
Qed.

Lemma name_pool_ok n : n ∈ name_pool → slashless n ∧ n ≠ "" ∧ n ≠ "." ∧ n ≠ "..".
Proof.
  intros Hn. assert (Forall (λ n, slashless n ∧ n ≠ "" ∧ n ≠ "." ∧ n ≠ "..") name_pool) as Hall.
  { unfold slashless. repeat constructor; done. }
  rewrite Forall_forall in Hall. by apply Hall.
Qed.

(** ** Bitmaps *)

Definition bit (t : ftype) : Z := if decide (t = FT_free) then 0 else 1.

Lemma bit_free : bit FT_free = 0.
Proof. done. Qed.

Lemma bit_used t : t ≠ FT_free → bit t = 1.
Proof. intros. unfold bit. by rewrite decide_False. Qed.

(** Bit [i] is set exactly when the [i]-th object is in use, and the count is
    the number of set bits. *)
Record bits_ok (b : bitmap) (n : Z) (ts : list ftype) : Prop := {
  bo_size : size b = n ∧ n = len ts;
  bo_bits : bmap b = bit <$> ts;
  bo_count : numAllocated b = len (filter (.≠ FT_free) ts);
}.

Lemma count_insert ts i t t' : ts !! i = Some t →
  len (filter (.≠ FT_free) (<[i := t']> ts)) =
  len (filter (.≠ FT_free) ts) - bit t + bit t'.
Proof.
  intros Hi. rewrite <-(take_drop_middle ts i t Hi) at 2.
  rewrite insert_take_drop by (by eapply lookup_lt_Some).
  rewrite !filter_app, !filter_cons. unfold len, bit. rewrite !length_app.
  repeat case_decide; simpl; try done; lia.
Qed.

Lemma bits_insert b n ts i t t' : bits_ok b n ts → ts !! i = Some t →
  bits_ok (b <| bmap := <[i := bit t']> (bmap b) |>
             <| numAllocated := numAllocated b - bit t + bit t' |>) n (<[i := t']> ts).
Proof.
  intros [[Hs Hn] Hb Hc] Hi. split; simpl.
  - unfold len in *. by rewrite length_insert.
  - by rewrite Hb, list_fmap_insert.
  - by rewrite (count_insert _ _ t), Hc.
Qed.

Lemma bits_lookup b n ts i t : bits_ok b n ts → ts !! i = Some t → bmap b !! i = Some (bit t).
Proof. intros [_ Hb _] Hi. by rewrite Hb, list_lookup_fmap, Hi. Qed.

(** [alloc] hands out the first free index, or fails when there is none. *)
Lemma wp_bitmap_alloc b n ts w (Q : Z → bitmap → world → Prop) E :
  bits_ok b n ts →
  ((∀ i t, ts !! i = Some t → t ≠ FT_free) → Q (-1) b w) →
  (∀ i, ts !! i = Some FT_free →
     Q (Z.of_nat i) (b <| bmap := <[i := 1]> (bmap b) |> <| numAllocated ::= Z.succ |>) w) →
  wp bitmap_alloc Q E b w.
Proof.
  intros Hb Hfull Hok. unfold bitmap_alloc. wp_pures.
  apply (wp_for_ret (λ pre _ b' w', b' = b ∧ w' = w ∧
    ∀ i t, Z.of_nat i ∈ pre → ts !! i = Some t → t ≠ FT_free)).
  - split; [done|]. split; [done|]. intros i t Hi. by apply elem_of_nil in Hi.
  - intros pre k post [] b' w' Hsplit (-> & -> & Hpre).
    apply range_split in Hsplit as (_ & _ & Hk). unfold len in Hk.
    assert (k = Z.of_nat (Z.to_nat k)) as Hkn by lia. rewrite Hkn. set (i := Z.to_nat k) in *.
    assert (∃ t, ts !! i = Some t) as [t Ht].
    { apply lookup_lt_is_Some. rewrite (bo_bits _ _ _ Hb), length_fmap in Hk. lia. }
    wp_pures. rewrite py_get_nat, (bits_lookup _ _ _ _ _ Hb Ht). wp_pures.
    unfold bit. destruct (decide (t = FT_free)) as [->|Hne]; cbn [Z.eqb].
    + wp_pures. rewrite py_set_nat by lia. wp_pures. by apply Hok.
    + wp_pures. split; [done|]. split; [done|]. intros j t' Hj Hj'.
      apply elem_of_app in Hj as [Hj|Hj%list_elem_of_singleton]; [by eapply Hpre|].
      assert (j = i) as -> by lia. congruence.
  - intros [] b' w' (-> & -> & Hall). wp_pures. apply Hfull. intros i t Hi.
    eapply Hall; [|done]. apply elem_of_range. apply lookup_lt_Some in Hi.
    unfold len. rewrite (bo_bits _ _ _ Hb), length_fmap. lia.
Qed.

Lemma wp_bitmap_free b n ts i t w (Q : unit → bitmap → world → Prop) E :
  bits_ok b n ts → ts !! i = Some t → t ≠ FT_free →
  Q tt (b <| bmap := <[i := 0]> (bmap b) |> <| numAllocated ::= Z.pred |>) w →
  wp (bitmap_free (Z.of_nat i)) Q E b w.
Proof.
  intros Hb Hi Ht HQ. unfold bitmap_free. wp_pures.
  rewrite py_get_nat, (bits_lookup _ _ _ _ _ Hb Hi). wp_pures.
  unfold bit. rewrite decide_False by done. cbn [Z.eqb Pos.eqb]. simpl.
  rewrite py_set_nat; [by wp_pures|].
  rewrite (bo_bits _ _ _ Hb), length_fmap. by eapply lookup_lt_Some.
Qed.
(** ** Inodes and blocks *)

(** Each inode in use owns a block of its type, or is a file without one, and
    each block in use has exactly one owner. *)
Record wired (ns : list inode) (bs : list block) : Prop := {
  wd_addr : ∀ i n, ns !! i = Some n → i_ftype n ≠ FT_free →
    (addr n = -1 ∧ i_ftype n = FT_file) ∨
    ∃ a b, addr n = Z.of_nat a ∧ bs !! a = Some b ∧ b_ftype b = i_ftype n;
  wd_owner : ∀ a b, bs !! a = Some b → b_ftype b ≠ FT_free →
    ∃ i n, ns !! i = Some n ∧ i_ftype n ≠ FT_free ∧ addr n = Z.of_nat a;
  wd_inj : ∀ i j ni nj, ns !! i = Some ni → ns !! j = Some nj →
    i_ftype ni ≠ FT_free → i_ftype nj ≠ FT_free → addr ni = addr nj → addr ni ≠ -1 → i = j;
}.

Ltac insert_cases H :=
  apply list_lookup_insert_Some in H as [(? & ? & ?)|[? H]]; subst.

Lemma wired_retype ns bs i n n' : wired ns bs → ns !! i = Some n →
  i_ftype n' = i_ftype n → addr n' = addr n → wired (<[i := n']> ns) bs.
Proof.
  intros [Ha Ho Hi] Hn Ht Had. pose proof (lookup_lt_Some _ _ _ Hn). split.
  - intros j m Hm Hu. insert_cases Hm; [rewrite Ht, Had in *|]; eauto.
  - intros a b Hb Hu. destruct (Ho a b Hb Hu) as (j & m & Hm & ? & ?).
    destruct (decide (i = j)) as [->|].
    + exists j, n'. rewrite list_lookup_insert_eq by done. simplify_eq. by rewrite Ht, Had.
    + exists j, m. by rewrite list_lookup_insert_ne.
  - intros j k nj nk Hj Hk Hu1 Hu2 Heq Hne. insert_cases Hj; insert_cases Hk; try done;
      rewrite ?Ht, ?Had in *; eauto.
Qed.

Lemma wired_block ns bs a b b' : wired ns bs → bs !! a = Some b →
  b_ftype b' = b_ftype b → wired ns (<[a := b']> bs).
Proof.
  intros [Ha Ho Hi] Hb Ht. pose proof (lookup_lt_Some _ _ _ Hb). split; [|..|done].
  - intros i n Hn Hu. destruct (Ha i n Hn Hu) as [?|(c & d & ? & Hd & ?)]; [by left|right].
    destruct (decide (a = c)) as [->|].
    + exists c, b'. rewrite list_lookup_insert_eq by done. split; [done|]. split; [done|]. congruence.
    + exists c, d. by rewrite list_lookup_insert_ne.
  - intros c d Hd Hu. insert_cases Hd; [rewrite Ht in Hu|]; eauto.
Qed.

(** An inode without a block takes a free one. *)
Lemma wired_attach ns bs i n n' a b b' : wired ns bs →
  ns !! i = Some n → (i_ftype n = FT_free ∨ addr n = -1) →
  bs !! a = Some b → b_ftype b = FT_free →
  i_ftype n' ≠ FT_free → addr n' = Z.of_nat a → b_ftype b' = i_ftype n' →
  wired (<[i := n']> ns) (<[a := b']> bs).
Proof.
  intros [Ha Ho Hi] Hn Hfree Hb Hbf Hu Had Ht.
  pose proof (lookup_lt_Some _ _ _ Hn). pose proof (lookup_lt_Some _ _ _ Hb).
  assert (∀ j m, ns !! j = Some m → i_ftype m ≠ FT_free → addr m ≠ Z.of_nat a) as Hnot.
  { intros j m Hm Hum Heq. destruct (Ha j m Hm Hum) as [[? _]|(c & d & Hc & Hd & Hdt)]; [lia|].
    rewrite Heq in Hc. apply Nat2Z.inj in Hc as <-. congruence. }
  split.
  - intros j m Hm Hum. insert_cases Hm.
    + right. exists a, b'. by rewrite list_lookup_insert_eq.
    + destruct (Ha j m Hm Hum) as [?|(c & d & Hc & Hd & Hdt)]; [by left|right].
      exists c, d. rewrite list_lookup_insert_ne; [done|]. intros <-. by destruct (Hnot j m Hm Hum).
  - intros c d Hd Hud. insert_cases Hd.
    + exists i, n'. by rewrite list_lookup_insert_eq.
    + destruct (Ho c d Hd Hud) as (j & m & Hm & Hum & Hc). exists j, m.
      rewrite list_lookup_insert_ne; [done|]. intros <-. rewrite Hn in Hm. simplify_eq.
      destruct Hfree; [done|lia].
  - intros j k nj nk Hj Hk Huj Huk Heq Hne. insert_cases Hj; insert_cases Hk; try done; [..|by eauto].
    + rewrite Had in Heq. by destruct (Hnot k nk Hk Huk).
    + rewrite Had in Heq. by destruct (Hnot j nj Hj Huj).
Qed.

(** A new file has no block. *)
Lemma wired_file ns bs i n n' : wired ns bs →
  ns !! i = Some n → i_ftype n = FT_free → i_ftype n' = FT_file → addr n' = -1 →
  wired (<[i := n']> ns) bs.
Proof.
  intros [Ha Ho Hi] Hn Hf Ht Had. pose proof (lookup_lt_Some _ _ _ Hn). split.
  - intros j m Hm Hum. insert_cases Hm; [by left|eauto].
  - intros a b Hb Hu. destruct (Ho a b Hb Hu) as (j & m & Hm & ? & ?). exists j, m.
    rewrite list_lookup_insert_ne; [done|]. intros <-. congruence.
  - intros j k nj nk Hj Hk Huj Huk Heq Hne. insert_cases Hj; insert_cases Hk; try done; [|by eauto].
    congruence.
Qed.

(** An inode is freed, with its block if it has one. *)
Lemma wired_free ns bs i n n' : wired ns bs →
  ns !! i = Some n → i_ftype n ≠ FT_free → addr n = -1 → i_ftype n' = FT_free →
  wired (<[i := n']> ns) bs.
Proof.
  intros [Ha Ho Hi] Hn Hu Had Hf. pose proof (lookup_lt_Some _ _ _ Hn). split.
  - intros j m Hm Hum. insert_cases Hm; [done|eauto].
  - intros a b Hb Hub. destruct (Ho a b Hb Hub) as (j & m & Hm & ? & ?). exists j, m.
    rewrite list_lookup_insert_ne; [done|]. intros <-. simplify_eq. lia.
  - intros j k nj nk Hj Hk Huj Huk Heq Hne. insert_cases Hj; insert_cases Hk; try done; by eauto.
Qed.

Lemma wired_free_block ns bs i n n' a b' : wired ns bs →
  ns !! i = Some n → i_ftype n ≠ FT_free → addr n = Z.of_nat a → i_ftype n' = FT_free →
  b_ftype b' = FT_free → wired (<[i := n']> ns) (<[a := b']> bs).
Proof.
  intros [Ha Ho Hi] Hn Hu Had Hf Hbf. pose proof (lookup_lt_Some _ _ _ Hn). split.
  - intros j m Hm Hum. insert_cases Hm; [done|].
    destruct (Ha j m Hm Hum) as [?|(c & d & Hc & Hd & Hdt)]; [by left|right].
    exists c, d. rewrite list_lookup_insert_ne; [done|]. intros <-.
    assert (i = j); [|done]. apply (Hi i j n m); try done; [congruence|lia].
  - intros c d Hd Hud. insert_cases Hd; [done|].
    destruct (Ho c d Hd Hud) as (j & m & Hm & ? & ?). exists j, m.
    rewrite list_lookup_insert_ne; [done|]. intros <-. simplify_eq. lia.
  - intros j k nj nk Hj Hk Huj Huk Heq Hne. insert_cases Hj; insert_cases Hk; try done; by eauto.
Qed.
(** ** Links

    The entries of all directories, and how many of them name an inode *)
Definition entries (bs : list block) : list (string * Z) := mjoin (dirList <$> bs).
Definition count (l : list (string * Z)) (k : Z) : Z := len (filter (λ e, e.2 = k) l).
Definition links (bs : list block) (k : Z) : Z := count (entries bs) k.

(** The reference count of an inode in use, and 0 for any other number *)
Definition refs (ns : list inode) (k : Z) : Z :=
  if k <? 0 then 0
  else match ns !! Z.to_nat k with
       | Some n => if decide (i_ftype n = FT_free) then 0 else refCnt n
       | None => 0
       end.

Lemma count_app l l' k : count (l ++ l') k = count l k + count l' k.
Proof. unfold count, len. rewrite filter_app, length_app. lia. Qed.

Lemma count_cons e l k : count (e :: l) k = (if decide (e.2 = k) then 1 else 0) + count l k.
Proof. unfold count, len. rewrite filter_cons. case_decide; simpl; lia. Qed.

Lemma count_nonneg l k : 0 ≤ count l k.
Proof. unfold count, len. lia. Qed.

Lemma count_elem l n k : (n, k) ∈ l → 1 ≤ count l k.
Proof.
  intros (l1 & l2 & ->)%list_elem_of_split. rewrite count_app, count_cons. simpl.
  rewrite decide_True by done. pose proof (count_nonneg l1 k). pose proof (count_nonneg l2 k). lia.
Qed.

Lemma links_insert bs a b b' k : bs !! a = Some b →
  links (<[a := b']> bs) k = links bs k - count (dirList b) k + count (dirList b') k.
Proof.
  intros Hb. unfold links, entries. rewrite <-(take_drop_middle bs a b Hb) at 2.
  rewrite insert_take_drop by (by eapply lookup_lt_Some).
  rewrite !fmap_app, !fmap_cons, !join_app, !count_app. simpl. rewrite !count_app. lia.
Qed.

(** Changing a block that keeps its entries *)
Lemma links_same bs a b b' k : bs !! a = Some b → dirList b' = dirList b →
  links (<[a := b']> bs) k = links bs k.
Proof. intros Hb Heq. rewrite (links_insert _ _ b) by done. rewrite Heq. lia. Qed.

Lemma links_elem bs a b n k : bs !! a = Some b → (n, k) ∈ dirList b → count (dirList b) k ≤ links bs k.
Proof.
  intros Hb Hn. unfold links, entries. rewrite <-(take_drop_middle bs a b Hb).
  rewrite fmap_app, fmap_cons, join_app, count_app. simpl. rewrite count_app.
  pose proof (count_nonneg (mjoin (dirList <$> take a bs)) k).
  pose proof (count_nonneg (mjoin (dirList <$> drop (S a) bs)) k). lia.
Qed.

(** Two entries in different blocks count twice. *)
Lemma links_two bs a a' b b' n n' k : bs !! a = Some b → bs !! a' = Some b' → a ≠ a' →
  (n, k) ∈ dirList b → (n', k) ∈ dirList b' → 2 ≤ links bs k.
Proof.
  intros Hb Hb' Hne Hn Hn'.
  assert (<[a := b <| dirList := [] |>]> bs !! a' = Some b') as Hb2 by by rewrite list_lookup_insert_ne.
  pose proof (links_elem _ _ _ _ _ Hb2 Hn') as H1. rewrite (links_insert _ _ b) in H1 by done.
  apply count_elem in Hn, Hn'. unfold count, len in *. simpl in *. lia.
Qed.

Lemma refs_nat ns (i : nat) n : ns !! i = Some n →
  refs ns (Z.of_nat i) = if decide (i_ftype n = FT_free) then 0 else refCnt n.
Proof.
  intros Hn. unfold refs. destruct (Z.ltb_spec (Z.of_nat i) 0); [lia|]. by rewrite Nat2Z.id, Hn.
Qed.

Lemma refs_insert ns i n n' k : ns !! i = Some n →
  refs (<[i := n']> ns) k =
  if decide (k = Z.of_nat i) then (if decide (i_ftype n' = FT_free) then 0 else refCnt n') else refs ns k.
Proof.
  intros Hn. pose proof (lookup_lt_Some _ _ _ Hn). case_decide as Hk.
  - subst k. rewrite (refs_nat _ _ n'); [done|]. by rewrite list_lookup_insert_eq.
  - unfold refs. destruct (Z.ltb_spec k 0); [done|]. rewrite list_lookup_insert_ne; [done|]. lia.
Qed.

(** ** The disk *)

Record block_ok (b : block) : Prop := {
  bk_max : maxUsed b = 32;
  bk_used : dirUsed b = len (dirList b) ∧ dirUsed b ≤ 32;
  bk_names : NoDup (dirList b).*1;
  bk_plain : b_ftype b ≠ FT_dir → dirList b = [];
}.

(** The bitmaps agree with the tables, inodes and blocks with each other, and
    the reference count of an inode is the number of entries that name it. *)
Record disk_ok (s : fs) : Prop := {
  dk_ibits : bits_ok (ibitmap s) (numInodes s) (i_ftype <$> inodes s);
  dk_dbits : bits_ok (dbitmap s) (numData s) (b_ftype <$> data s);
  dk_wired : wired (inodes s) (data s);
  dk_blocks : ∀ a b, data s !! a = Some b → block_ok b;
  dk_links : ∀ k, links (data s) k = refs (inodes s) k;
  dk_pos : ∀ i n, inodes s !! i = Some n → i_ftype n ≠ FT_free → 1 ≤ refCnt n;
  dk_free : ∀ i n, inodes s !! i = Some n → i_ftype n = FT_free → addr n = -1;
}.

(** The bitmap after [alloc] and after [free] of an index *)
Definition allocated (i : nat) (b : bitmap) : bitmap :=
  b <| bmap := <[i := 1]> (bmap b) |> <| numAllocated ::= Z.succ |>.
Definition released (i : nat) (b : bitmap) : bitmap :=
  b <| bmap := <[i := 0]> (bmap b) |> <| numAllocated ::= Z.pred |>.

Lemma bits_allocated b n ts i t : bits_ok b n ts → ts !! i = Some FT_free → t ≠ FT_free →
  bits_ok (allocated i b) n (<[i := t]> ts).
Proof.
  intros Hb Hi Ht. pose proof (bits_insert _ _ _ _ _ t Hb Hi) as Hok.
  rewrite (bit_used t), bit_free in Hok by done.
  unfold allocated. destruct b; cbn in *. unfold update in *. simpl in *.
  replace (Z.succ numAllocated0) with (numAllocated0 - 0 + 1) by lia. exact Hok.
Qed.

Lemma bits_released b n ts i t : bits_ok b n ts → ts !! i = Some t → t ≠ FT_free →
  bits_ok (released i b) n (<[i := FT_free]> ts).
Proof.
  intros Hb Hi Ht. pose proof (bits_insert _ _ _ _ _ FT_free Hb Hi) as Hok.
  rewrite (bit_used t), bit_free in Hok by done.
  unfold released. destruct b; cbn in *. unfold update in *. simpl in *.
  replace (Z.pred numAllocated0) with (numAllocated0 - 1 + 0) by lia. exact Hok.
Qed.

Lemma bits_same b n ts i t : bits_ok b n ts → ts !! i = Some t → bits_ok b n (<[i := t]> ts).
Proof. intros Hb Hi. by rewrite list_insert_id. Qed.
(** ** The name space of the generator *)

(** Directory [d] is inode [i], whose block [a] is [b]. *)
Definition dir_at (s : fs) (d : string) (i a : nat) (b : block) : Prop :=
  nameToInum s !! d = Some (Z.of_nat i) ∧
  (∃ n, inodes s !! i = Some n ∧ i_ftype n = FT_dir ∧ addr n = Z.of_nat a) ∧
  data s !! a = Some b.

(** [f] is the entry [n] of directory [d]. *)
Definition entry_at (s : fs) (f d n : string) : Prop :=
  d ∈ dirs s ∧ slashless n ∧ n ≠ "" ∧ f = full_name d n ∧
  ∃ k i a b, nameToInum s !! f = Some k ∧ dir_at s d i a b ∧ (n, k) ∈ dirList b.

(** Every listed name is an entry of its parent directory and leads to an
    inode of its kind. *)
Record names_ok (s : fs) : Prop := {
  nm_root : "/" ∈ dirs s;
  nm_dirs : ∀ d, d ∈ dirs s → absolute d ∧ ∃ i a b, dir_at s d i a b;
  nm_inj : ∀ d d', d ∈ dirs s → d' ∈ dirs s → nameToInum s !! d = nameToInum s !! d' → d = d';
  nm_files : ∀ f, f ∈ files s → ∃ i n, nameToInum s !! f = Some (Z.of_nat i) ∧
    inodes s !! i = Some n ∧ i_ftype n = FT_file;
  nm_paths : ∀ f, f ∈ files s ∨ f ∈ dirs s ∧ f ≠ "/" → ∃ d n, entry_at s f d n;
  nm_nodup : NoDup (files s);
}.

Record consistent (s : fs) : Prop := {
  cs_disk : disk_ok s;
  cs_names : names_ok s;
}.

(** A step that keeps the directories, and the entries of the names that stay *)
Lemma names_frame s s' : names_ok s →
  dirs s' = dirs s → (∀ f, f ∈ files s' → f ∈ files s) → NoDup (files s') →
  nameToInum s' = nameToInum s →
  (∀ i n, inodes s !! i = Some n → i_ftype n = FT_dir →
     ∃ n', inodes s' !! i = Some n' ∧ i_ftype n' = FT_dir ∧ addr n' = addr n) →
  (∀ f i n, f ∈ files s' → nameToInum s !! f = Some (Z.of_nat i) → inodes s !! i = Some n →
     i_ftype n = FT_file → ∃ n', inodes s' !! i = Some n' ∧ i_ftype n' = FT_file) →
  (∀ d i a b, d ∈ dirs s → dir_at s d i a b → ∃ b', data s' !! a = Some b' ∧
     ∀ n k, (n, k) ∈ dirList b → slashless n → full_name d n ∈ files s' ∨ full_name d n ∈ dirs s →
       (n, k) ∈ dirList b') →
  names_ok s'.
Proof.
  intros [Hroot Hdirs Hinj Hfiles Hpaths _] Hd Hf Hnd Hn Hdir Hfile Hblk.
  assert (∀ d i a b, d ∈ dirs s → dir_at s d i a b → ∃ b', dir_at s' d i a b' ∧
     ∀ n k, (n, k) ∈ dirList b → slashless n → full_name d n ∈ files s' ∨ full_name d n ∈ dirs s →
       (n, k) ∈ dirList b') as Hat.
  { intros d i a b Hin Hat. destruct (Hblk d i a b Hin Hat) as (b' & Hb' & Hent).
    exists b'. split; [|done]. destruct Hat as (Hi & (n & Hni & Hnt & Ha) & _).
    destruct (Hdir _ _ Hni Hnt) as (n' & ? & ? & ?).
    split; [by rewrite Hn|]. split; [|done]. exists n'. split; [done|]. split; [done|]. congruence. }
  split; rewrite ?Hd, ?Hn; try done.
  - intros d Hin. destruct (Hdirs d Hin) as (? & i & a & b & Hda). split; [done|].
    destruct (Hat _ _ _ _ Hin Hda) as (b' & ? & _). eauto.
  - intros f Hin. destruct (Hfiles f (Hf f Hin)) as (i & n & Hi & Hni & Ht).
    destruct (Hfile f i n) as (n' & ? & ?); [done..|]. eauto.
  - intros f Hin. destruct (Hpaths f) as (d & n & Hind & Hs & Hne & Heq & k & i & a & b & Hk & Hda & Hent).
    { destruct Hin as [?|?]; [left; auto|by right]. }
    destruct (Hat _ _ _ _ Hind Hda) as (b' & Hda' & Hb').
    exists d, n. unfold entry_at. rewrite Hd, Hn. split; [done|]. do 3 (split; [done|]).
    exists k, i, a, b'. split; [done|]. split; [done|]. apply Hb'; [done..|].
    rewrite <-Heq. destruct Hin as [?|[? _]]; auto.
Qed.

(** No listed name has the full name of a pair that is not an entry. *)
Lemma fresh_name s d n i a b : names_ok s → d ∈ dirs s → dir_at s d i a b →
  slashless n → n ≠ "" → (∀ k, (n, k) ∉ dirList b) →
  (full_name d n ∉ files s) ∧ (full_name d n ∉ dirs s).
Proof.
  intros Hok Hd Hat Hs Hne Hno. destruct (nm_dirs _ Hok d Hd) as [Habs _].
  assert (¬ (full_name d n ∈ files s ∨ full_name d n ∈ dirs s ∧ full_name d n ≠ "/")) as H.
  { intros Hin. destruct (nm_paths _ Hok _ Hin) as (d' & n' & Hd' & Hs' & _ & Heq & k & i' & a' & b' & _ & Hat' & Hent).
    destruct (nm_dirs _ Hok d' Hd') as [Habs' _].
    destruct (full_name_inj d n d' n') as [-> ->]; [done..|].
    destruct Hat as (Hi & (m & Hm & _ & Ha) & Hb), Hat' as (Hi' & (m' & Hm' & _ & Ha') & Hb').
    simplify_eq. rewrite Ha in Ha'. apply Nat2Z.inj in Ha' as <-. simplify_eq. by apply (Hno k). }
  pose proof (full_name_not_root d n Hs Hne Habs). naive_solver.
Qed.

(** Registering a new name: [bind] adds [f], for inode [k], to the map. *)
Definition bind (f : string) (k : Z) (s : fs) : fs := s <| nameToInum ::= <[f := k]> |>.

Lemma bind_dir_at s f k d i a b : f ≠ d → dir_at (bind f k s) d i a b ↔ dir_at s d i a b.
Proof. intros Hne. unfold dir_at, bind. simpl. by rewrite lookup_insert_ne. Qed.

Lemma names_add s d n i a b k j m (isdir : bool) : names_ok s → d ∈ dirs s → dir_at s d i a b →
  slashless n → n ≠ "" → (n, k) ∈ dirList b →
  full_name d n ∉ files s → full_name d n ∉ dirs s →
  k = Z.of_nat j → inodes s !! j = Some m →
  i_ftype m = (if isdir then FT_dir else FT_file) →
  (isdir = true → (∃ c x, addr m = Z.of_nat c ∧ data s !! c = Some x) ∧
     ∀ d', d' ∈ dirs s → nameToInum s !! d' ≠ Some k) →
  names_ok (bind (full_name d n) k
    (if isdir then s <| dirs ::= (.++ [full_name d n]) |> else s <| files ::= (.++ [full_name d n]) |>)).
Proof.
  intros Hok Hd Hat Hs Hne Hent Hnf Hndir -> Hm Ht Hdir.
  destruct (Hok) as [Hroot Hdirs Hinj Hfiles Hpaths Hnodup].
  destruct (Hdirs d Hd) as [Habs _]. pose proof (full_name_not_root d n Hs Hne Habs) as Hnr.
  set (f := full_name d n) in *.
  assert (∀ g, g ∈ files s ∨ g ∈ dirs s → f ≠ g) as Hneq by (intros g Hg <-; tauto).
  set (s' := if isdir then s <| dirs ::= (.++ [f]) |> else s <| files ::= (.++ [f]) |>).
  assert (inodes s' = inodes s ∧ data s' = data s ∧ nameToInum s' = nameToInum s) as (Hi & Hdat & Hnm)
    by by destruct isdir.
  assert (∀ g i a b, dir_at s' g i a b ↔ dir_at s g i a b) as Hat'.
  { intros. unfold dir_at. by rewrite Hi, Hdat, Hnm. }
  assert (∀ g, g ∈ dirs s → g ∈ dirs s') as Hup by (intros; destruct isdir; set_solver).
  assert (∀ g, g ∈ dirs s' → g ∈ dirs s ∨ g = f ∧ isdir = true) as Hdown by (intros; destruct isdir; set_solver).
  assert (∀ g, g ∈ files s' → g ∈ files s ∨ g = f ∧ isdir = false) as Hfdown by (intros; destruct isdir; set_solver).
  assert (∀ d' n', entry_at s (full_name d' n') d' n' → full_name d' n' ∈ files s ∨ full_name d' n' ∈ dirs s →
    entry_at (bind f (Z.of_nat j) s') (full_name d' n') d' n') as Hentry.
  { intros d' n' (Hd' & Hs' & Hne' & _ & k' & i' & a' & b' & Hk' & Hda & Hb') Hin.
    split; [by apply Hup|]. do 3 (split; [done|]). exists k', i', a', b'.
    unfold bind at 1. simpl. rewrite Hnm, lookup_insert_ne by auto. split; [done|].
    rewrite bind_dir_at by auto. by rewrite Hat'. }
  split.
  - by apply Hup.
  - intros g [Hg|[-> ->]]%Hdown.
    + destruct (Hdirs g Hg) as (? & i' & a' & b' & Hda). split; [done|]. exists i', a', b'.
      apply bind_dir_at; [auto|]. by apply Hat'.
    + split; [by apply full_name_absolute|]. destruct (Hdir eq_refl) as [(c & x & Hc & Hx) _].
      exists j, c, x. unfold dir_at, bind. simpl. rewrite lookup_insert_eq. eauto 10.
  - unfold bind. simpl. rewrite Hnm. intros g g' [Hg|[-> ->]]%Hdown [Hg'|[-> Hb']]%Hdown; try done.
    + rewrite !lookup_insert_ne by auto. by apply Hinj.
    + rewrite lookup_insert_eq, lookup_insert_ne by auto. intros Heq. by destruct (Hdir Hb') as [_ []%(.$ g)].
    + rewrite lookup_insert_eq, lookup_insert_ne by auto. intros Heq. by destruct (Hdir eq_refl) as [_ []%(.$ g')].
  - unfold bind. simpl. rewrite Hnm, Hi. intros g [Hg|[-> Hisd]]%Hfdown.
    + rewrite lookup_insert_ne by auto. by apply Hfiles.
    + rewrite lookup_insert_eq. exists j, m. split; [done|]. split; [done|]. by rewrite Ht, Hisd.
  - intros g Hg. assert (g = f ∨ g ∈ files s ∨ g ∈ dirs s ∧ g ≠ "/") as [->|Hold].
    { destruct Hg as [[?|[? _]]%Hfdown|[[?|[? _]]%Hdown ?]]; auto. }
    + exists d, n. split; [by apply Hup|]. do 3 (split; [done|]). exists (Z.of_nat j), i, a, b.
      unfold bind at 1. simpl. rewrite lookup_insert_eq. split; [done|].
      rewrite bind_dir_at by auto. by rewrite Hat'.
    + destruct (Hpaths g Hold) as (d' & n' & He). assert (g = full_name d' n') as -> by apply He.
      exists d', n'. apply Hentry; [done|tauto].
  - unfold bind. simpl. destruct isdir; simpl; [done|]. apply NoDup_app. split; [done|].
    split; [|apply NoDup_singleton]. intros x Hx ->%list_elem_of_singleton. done.
Qed.
(** ** The operations *)

(** The inode and the data a name leads to *)
Definition inode_of (s : fs) (f : string) : option inode :=
  k ← nameToInum s !! f; if k <? 0 then None else inodes s !! Z.to_nat k.
Definition content (s : fs) (f : string) : option string :=
  n ← inode_of s f;
  if addr n =? -1 then Some "" else b_data <$> data s !! Z.to_nat (addr n).

Lemma content_nat s f i n : nameToInum s !! f = Some (Z.of_nat i) → inodes s !! i = Some n →
  content s f = if addr n =? -1 then Some "" else b_data <$> data s !! Z.to_nat (addr n).
Proof.
  intros Hf Hn. unfold content, inode_of. rewrite Hf. simpl.
  destruct (Z.ltb_spec (Z.of_nat i) 0); [lia|]. by rewrite Nat2Z.id, Hn.
Qed.

Section Ops.
Context (opts : options).
Implicit Types (s : fs) (E : exn → fs → world → Prop).

Lemma wp_inode_gets {A} (f : inode → A) i n s w (Q : A → fs → world → Prop) E :
  inodes s !! i = Some n → Q (f n) s w → wp (on_inode (Z.of_nat i) (gets f)) Q E s w.
Proof.
  intros Hn HQ. eapply wp_zoom_at; [done|]. wp_pures. rewrite list_insert_id by done. by destruct s.
Qed.

Lemma wp_inode_set (m : M inode unit) f i n s w (Q : unit → fs → world → Prop) E :
  inodes s !! i = Some n → (∀ x w, m x w = Ok tt (f x) w) →
  Q tt (s <| inodes := <[i := f n]> (inodes s) |>) w → wp (on_inode (Z.of_nat i) m) Q E s w.
Proof. intros Hn Hm HQ. eapply wp_zoom_at; [done|]. unfold wp. by rewrite Hm. Qed.

Lemma wp_block_read {A} (m : M block A) (x : A) a b s w (Q : A → fs → world → Prop) E :
  data s !! a = Some b → (∀ w, m b w = Ok x b w) →
  Q x s w → wp (on_block (Z.of_nat a) m) Q E s w.
Proof.
  intros Hb Hm HQ. eapply wp_zoom_at; [done|]. unfold wp. rewrite Hm, list_insert_id by done. by destruct s.
Qed.

Lemma wp_block_set (m : M block unit) b' a b s w (Q : unit → fs → world → Prop) E :
  data s !! a = Some b → (∀ w, m b w = Ok tt b' w) →
  Q tt (s <| data := <[a := b']> (data s) |>) w → wp (on_block (Z.of_nat a) m) Q E s w.
Proof. intros Hb Hm HQ. eapply wp_zoom_at; [done|]. unfold wp. by rewrite Hm. Qed.

Lemma wp_lookup_name f k s w (Q : Z → fs → world → Prop) E :
  nameToInum s !! f = Some k → Q k s w → wp (lookup_name f) Q E s w.
Proof. intros Hf HQ. unfold lookup_name. wp_pures. by rewrite Hf. Qed.

Lemma getSize_run n w : getSize n w = Ok (if addr n =? -1 then 0 else 1) n w.
Proof. done. Qed.

(** The methods of a block, run *)
Ltac run_method := unfold mbind, M_bind, mret, M_ret, get, passert, modify; simpl.

Lemma setType_run t b w : b_ftype b = FT_free →
  block_setType t b w = Ok tt (b <| b_ftype := t |>) w.
Proof. intros Hb. unfold block_setType. run_method. by rewrite Hb. Qed.

Lemma addData_run x b w : b_ftype b = FT_file → addData x b w = Ok tt (b <| b_data := x |>) w.
Proof. intros Hb. unfold addData. run_method. by rewrite Hb. Qed.

Lemma getFreeEntries_run b w : b_ftype b = FT_dir →
  getFreeEntries b w = Ok (maxUsed b - dirUsed b) b w.
Proof. intros Hb. unfold getFreeEntries. run_method. by rewrite Hb. Qed.

Lemma dirEntryExists_run n b w : b_ftype b = FT_dir →
  dirEntryExists n b w = Ok (existsb (λ d, bool_decide (n = d.1)) (dirList b)) b w.
Proof. intros Hb. unfold dirEntryExists. run_method. by rewrite Hb. Qed.

Definition with_entry (e : string * Z) (b : block) : block :=
  b <| dirList ::= (.++ [e]) |> <| dirUsed ::= Z.succ |>.

Lemma addDirEntry_run n k b w : b_ftype b = FT_dir → dirUsed b < maxUsed b →
  addDirEntry n k b w = Ok tt (with_entry (n, k) b) w.
Proof.
  intros Hb Hlt. unfold addDirEntry. run_method. rewrite Hb. simpl.
  destruct (Z.leb_spec (Z.succ (dirUsed b)) (maxUsed b)); [done|lia].
Qed.

Lemma existsb_name n l : existsb (λ d : string * Z, bool_decide (n = d.1)) l = bool_decide (n ∈ l.*1).
Proof.
  induction l as [|[m k] l IH]; simpl; [done|]. rewrite IH.
  apply eq_bool_prop_intro. rewrite orb_True, !bool_decide_spec, elem_of_cons. done.
Qed.

(** [dataAlloc] and [inodeAlloc] on a consistent bitmap *)
Lemma wp_dataAlloc s w (Q : Z → fs → world → Prop) E :
  bits_ok (dbitmap s) (numData s) (b_ftype <$> data s) →
  ((∀ a b, data s !! a = Some b → b_ftype b ≠ FT_free) → Q (-1) s w) →
  (∀ a b, data s !! a = Some b → b_ftype b = FT_free →
     Q (Z.of_nat a) (s <| dbitmap ::= allocated a |>) w) →
  wp dataAlloc Q E s w.
Proof.
  intros Hb Hfull Hok. unfold dataAlloc, on_dbitmap. rewrite wp_zoom.
  eapply wp_bitmap_alloc; [done| |].
  - intros Hall. assert (s <| dbitmap := dbitmap s |> = s) as -> by by destruct s.
    apply Hfull. intros a b Hab. eapply (Hall a). by rewrite list_lookup_fmap, Hab.
  - intros a Ha. rewrite list_lookup_fmap in Ha. apply fmap_Some in Ha as (b & Hab & Ht).
    by eapply Hok.
Qed.

Lemma wp_inodeAlloc s w (Q : Z → fs → world → Prop) E :
  bits_ok (ibitmap s) (numInodes s) (i_ftype <$> inodes s) →
  ((∀ i n, inodes s !! i = Some n → i_ftype n ≠ FT_free) → Q (-1) s w) →
  (∀ i n, inodes s !! i = Some n → i_ftype n = FT_free →
     Q (Z.of_nat i) (s <| ibitmap ::= allocated i |>) w) →
  wp inodeAlloc Q E s w.
Proof.
  intros Hb Hfull Hok. unfold inodeAlloc, on_ibitmap. rewrite wp_zoom.
  eapply wp_bitmap_alloc; [done| |].
  - intros Hall. assert (s <| ibitmap := ibitmap s |> = s) as -> by by destruct s.
    apply Hfull. intros i n Hn. eapply (Hall i). by rewrite list_lookup_fmap, Hn.
  - intros i Hi. rewrite list_lookup_fmap in Hi. apply fmap_Some in Hi as (n & Hn & Ht).
    by eapply Hok.
Qed.

(** The disk after a file without a block got block [a] *)
Lemma disk_write s i n a b x : disk_ok s →
  inodes s !! i = Some n → i_ftype n = FT_file → addr n = -1 →
  data s !! a = Some b → b_ftype b = FT_free →
  disk_ok (s <| dbitmap ::= allocated a |>
             <| data := <[a := b <| b_ftype := FT_file |> <| b_data := x |>]> (data s) |>
             <| inodes := <[i := n <| addr := Z.of_nat a |>]> (inodes s) |>).
Proof.
  intros [Hib Hdb Hw Hblk Hlinks Hpos Hfr] Hn Ht Ha Hb Hbf. split; simpl.
  - rewrite list_fmap_insert. simpl. apply bits_same; [done|]. by rewrite list_lookup_fmap, Hn.
  - rewrite list_fmap_insert. simpl. apply bits_allocated; [done| |done].
    by rewrite list_lookup_fmap, Hb, <-Hbf.
  - eapply wired_attach; [done..| |done|done| | |]; [by right|..]; simpl; [by rewrite Ht|done|done].
  - intros c d Hd. insert_cases Hd; [|eauto].
    destruct (Hblk _ _ Hb) as [? ? ? Hp]. split; try done. intros _. apply Hp. by rewrite Hbf.
  - intros k. rewrite (links_same _ _ b) by done. rewrite (refs_insert _ _ n) by done. simpl.
    rewrite Hlinks. case_decide; [|done]. subst. by rewrite (refs_nat _ _ n).
  - intros j m Hm. insert_cases Hm; [simpl|]; eauto.
  - intros j m Hm. insert_cases Hm; [simpl; congruence|]; eauto.
Qed.

(** The first data of a file, seen under all its names *)
Definition append_done (f x : string) (s s' : fs) : Prop :=
  f ∈ files s ∧ files s' = files s ∧ dirs s' = dirs s ∧ nameToInum s' = nameToInum s ∧
  content s f = Some "" ∧
  ∀ g, g ∈ files s → content s' g =
    if decide (nameToInum s !! g = nameToInum s !! f) then Some x else content s g.

Lemma wp_writeFile f x s w : consistent s → f ∈ files s →
  wp (writeFile opts f x) (λ r s' w', (rng_ok w → rng_ok w') ∧ consistent s' ∧
    (r = -1 ∧ s' = s ∨ r = 0 ∧ append_done f x s s')) noexn s w.
Proof.
  intros Hs Hf. destruct (Hs) as [Hdisk Hnames].
  destruct (nm_files _ Hnames f Hf) as (i & n & Hk & Hn & Ht).
  unfold writeFile. wp_pures. eapply wp_lookup_name; [done|]. wp_pures.
  eapply wp_zoom_at; [done|]. unfold wp at 1. rewrite getSize_run.
  rewrite list_insert_id by done. assert (s <| inodes := inodes s |> = s) as -> by by destruct s.
  destruct (Z.eqb_spec (addr n) (-1)) as [Ha|Ha]; cbn [Z.eqb Pos.eqb]; wp_pures; [|by auto].
  apply wp_dataAlloc; [apply Hdisk|intros; cbn [Z.eqb Pos.eqb]; wp_pures; by auto|].
  intros a b Hb Hbf. destruct (Z.eqb_spec (Z.of_nat a) (-1)); [lia|]. wp_pures.
  eapply wp_block_set; [done|intros; by apply setType_run|]. wp_pures.
  eapply wp_block_set; [simpl; by rewrite list_lookup_insert_eq by (by eapply lookup_lt_Some)|
    intros; by apply addData_run|]. wp_pures.
  eapply (wp_inode_set _ (λ n, n <| addr := Z.of_nat a |>)); [done|done|]. wp_pures.
  simpl. rewrite list_insert_insert_eq.
  pose proof (disk_write s i n a b x Hdisk Hn Ht Ha Hb Hbf) as Hdisk'.
  set (s' := _ <| inodes := <[i := n <| addr := Z.of_nat a |>]> (inodes s) |>) in *.
  assert (names_ok s') as Hnames'.
  { apply (names_frame s); [done|done|done|apply Hnames|done|..]; simpl.
    - intros j m Hm Htm. exists m. rewrite list_lookup_insert_ne; [done|]. intros ->. congruence.
    - intros g j m Hg Hgj Hm Htm. destruct (decide (i = j)) as [->|].
      + simplify_eq. eexists. by rewrite list_lookup_insert_eq by (by eapply lookup_lt_Some).
      + exists m. by rewrite list_lookup_insert_ne.
    - intros d j c y Hd (Hj & (m & Hm & Htm & Hc) & Hy). exists y.
      rewrite list_lookup_insert_ne; [done|]. intros <-.
      destruct (wd_addr _ _ (dk_wired _ Hdisk) j m Hm) as [[? _]|(c' & y' & Hc' & Hy' & Hty')];
        [by rewrite Htm|lia|]. rewrite Hc in Hc'. apply Nat2Z.inj in Hc' as <-. simplify_eq. congruence. }
  assert (content s f = Some "") as Hempty.
  { erewrite content_nat by done. by rewrite Ha. }
  assert (∀ g, g ∈ files s → content s' g =
    if decide (nameToInum s !! g = nameToInum s !! f) then Some x else content s g) as Hcontent.
  { intros g Hg. destruct (nm_files _ Hnames g Hg) as (j & m & Hgj & Hm & Htm).
    destruct (decide (nameToInum s !! g = nameToInum s !! f)) as [Heq|Hne].
    - rewrite (content_nat s' g i (n <| addr := Z.of_nat a |>)); simpl.
      + destruct (Z.eqb_spec (Z.of_nat a) (-1)); [lia|].
        rewrite Nat2Z.id, list_lookup_insert_eq by (by eapply lookup_lt_Some). done.
      + congruence.
      + by rewrite list_lookup_insert_eq by (by eapply lookup_lt_Some).
    - assert (i ≠ j) as Hij by congruence.
      rewrite (content_nat s g j m), (content_nat s' g j m); simpl; try done.
      + destruct (Z.eqb_spec (addr m) (-1)) as [|Hma]; [done|].
        rewrite list_lookup_insert_ne; [done|]. intros ->.
        destruct (wd_addr _ _ (dk_wired _ Hdisk) j m Hm) as [[? _]|(c' & y' & Hc' & Hy' & Hty')];
          [by rewrite Htm|lia|]. rewrite Hc', Nat2Z.id in Hb. congruence.
      + by rewrite list_lookup_insert_ne. }
  destruct (printOps opts); wp_pures; (split; [done|]); (split; [by split|]);
    right; (split; [done|]); by repeat split.
Qed.
(** *** Removing and adding entries *)

Definition without_entry (i : nat) (b : block) : block :=
  b <| dirList := delete i (dirList b) |> <| dirUsed ::= Z.pred |>.

Lemma delDirEntry_run name b i k w : b_ftype b = FT_dir → NoDup (dirList b).*1 →
  dirList b !! i = Some (basename name, k) →
  delDirEntry name b w = Ok tt (without_entry i b) w.
Proof.
  intros Hb Hnd Hi.
  assert (wp (delDirEntry name) (λ _ b' w', b' = without_entry i b ∧ w' = w) noexn b w) as Hwp.
  2: { by apply wp_noexn_ok in Hwp as ([] & ? & ? & ? & -> & ->). }
  unfold delDirEntry. wp_pures. rewrite Hb. wp_pures.
  apply (wp_for_ret (λ pre _ b' w', b' = b ∧ w' = w ∧ (Z.of_nat i ∉ pre))).
  - split; [done|]. split; [done|]. by intros ?%elem_of_nil.
  - intros pre z post [] b' w' Hsplit (-> & -> & Hpre).
    apply range_split in Hsplit as (_ & _ & Hz). unfold len in Hz.
    assert (z = Z.of_nat (Z.to_nat z)) as Hzn by lia. rewrite Hzn. set (j := Z.to_nat z) in *.
    wp_pures. rewrite py_get_nat.
    destruct (lookup_lt_is_Some_2 (dirList b) j) as [[m k'] Hj]; [lia|]. rewrite Hj. simpl.
    case_bool_decide as Hm.
    + assert (j = i) as ->.
      { eapply (NoDup_lookup _ _ _ m Hnd); rewrite list_lookup_fmap; [by rewrite Hj|by rewrite Hi, Hm]. }
      wp_pures. rewrite py_index_nat, decide_True by (by eapply lookup_lt_Some). simpl.
      rewrite Hi. simpl. wp_pures. done.
    + wp_pures. split; [done|]. split; [done|]. rewrite elem_of_app, list_elem_of_singleton.
      intros [?|Heq]; [done|]. apply Nat2Z.inj in Heq as ->. rewrite Hi in Hj. simplify_eq.
  - intros [] b' w' (_ & _ & Hno). destruct Hno. apply elem_of_range.
    apply lookup_lt_Some in Hi. unfold len. lia.
Qed.

Lemma delete_perm {A} (l : list A) i x : l !! i = Some x → l ≡ₚ x :: delete i l.
Proof.
  intros Hi. rewrite delete_take_drop. rewrite <-(take_drop_middle l i x Hi) at 1.
  by rewrite Permutation_middle.
Qed.

Lemma count_delete l i e k : l !! i = Some e →
  count (delete i l) k = count l k - (if decide (e.2 = k) then 1 else 0).
Proof.
  intros Hi. unfold count, len. rewrite (delete_perm l i e Hi) at 2.
  rewrite filter_cons. case_decide; simpl; lia.
Qed.

Lemma count_two l i j n n' k : l !! i = Some (n, k) → l !! j = Some (n', k) → i ≠ j → 2 ≤ count l k.
Proof.
  intros Hi Hj Hne. pose proof (count_delete l i _ k Hi) as Hd. simpl in Hd.
  rewrite decide_True in Hd by done.
  assert ((n', k) ∈ delete i l) as Hin.
  { apply (delete_perm l i _) in Hi as Hp. assert ((n', k) ∈ (n, k) :: delete i l) as [Heq|?]%elem_of_cons.
    - rewrite <-Hp. by eapply list_elem_of_lookup_2.
    - destruct (decide (i < j)%nat).
      + apply (list_elem_of_lookup_2 _ (j - 1)). rewrite list_lookup_delete_ge by lia.
        replace (S (j - 1)) with j by lia. done.
      + apply (list_elem_of_lookup_2 _ j). rewrite list_lookup_delete_lt by lia. done.
    - done. }
  apply count_elem in Hin. lia.
Qed.

Lemma block_ok_with b n k : block_ok b → b_ftype b = FT_dir → dirUsed b < maxUsed b →
  n ∉ (dirList b).*1 → block_ok (with_entry (n, k) b).
Proof.
  intros [Hm [Hu Hle] Hnd _] Hb Hlt Hn. split; simpl; [done|..].
  - unfold len in *. rewrite length_app. simpl. lia.
  - rewrite fmap_app. apply NoDup_app. split; [done|]. split; [|apply NoDup_singleton].
    simpl. intros x Hx ->%list_elem_of_singleton. done.
  - intros Hno. by destruct Hno.
Qed.

Lemma block_ok_without b i e : block_ok b → dirList b !! i = Some e → b_ftype b = FT_dir →
  block_ok (without_entry i b).
Proof.
  intros [Hm [Hu Hle] Hnd _] Hi Hb. split; simpl; [done|..].
  - unfold len in *. rewrite length_delete by eauto. apply lookup_lt_Some in Hi. lia.
  - rewrite (delete_perm _ _ _ Hi) in Hnd. simpl in Hnd. by apply NoDup_cons in Hnd as [_ ?].
  - intros Hno. by destruct Hno.
Qed.

(** A new entry for an inode whose count goes up by one *)
Lemma disk_enter s i n n' ib a b nm : disk_ok s →
  inodes s !! i = Some n → i_ftype n' ≠ FT_free →
  refCnt n' = (if decide (i_ftype n = FT_free) then 0 else refCnt n) + 1 →
  bits_ok ib (numInodes s) (<[i := i_ftype n']> (i_ftype <$> inodes s)) →
  wired (<[i := n']> (inodes s)) (data s) →
  data s !! a = Some b → b_ftype b = FT_dir → dirUsed b < maxUsed b → nm ∉ (dirList b).*1 →
  disk_ok (s <| ibitmap := ib |> <| inodes := <[i := n']> (inodes s) |>
             <| data := <[a := with_entry (nm, Z.of_nat i) b]> (data s) |>).
Proof.
  intros [Hib Hdb Hw Hblk Hlinks Hpos Hfr] Hn Hu Hr Hib' Hw' Hb Hbd Hlt Hnm. split; simpl.
  - by rewrite list_fmap_insert.
  - rewrite list_fmap_insert. apply bits_same; [done|]. by rewrite list_lookup_fmap, Hb.
  - by eapply wired_block.
  - intros c d Hd. insert_cases Hd; [|eauto]. apply block_ok_with; eauto.
  - intros k. rewrite (links_insert _ _ b) by done. simpl. rewrite count_app, count_cons. simpl.
    rewrite (refs_insert _ _ n) by done. rewrite Hlinks. unfold count at 3, len. simpl.
    rewrite (decide_False (P := i_ftype n' = FT_free)) by done. rewrite Hr.
    destruct (decide (Z.of_nat i = k)) as [<-|]; [rewrite decide_True by done|rewrite decide_False by done; lia].
    rewrite (refs_nat _ _ n) by done. lia.
  - intros j m Hm. insert_cases Hm; [|eauto]. intros _. rewrite Hr.
    case_decide as Hd; [lia|]. specialize (Hpos _ _ Hn Hd). lia.
  - intros j m Hm. insert_cases Hm; eauto. congruence.
Qed.

(** Removing an entry of an inode whose count goes down by one; [bs] is the
    block table after the inode's block may have been freed. *)
Lemma disk_remove s i n n' ib db bs a b j nm : disk_ok s →
  inodes s !! i = Some n → i_ftype n ≠ FT_free →
  (if decide (i_ftype n' = FT_free) then 0 else refCnt n') = refCnt n - 1 →
  (i_ftype n' ≠ FT_free → 1 ≤ refCnt n') → (i_ftype n' = FT_free → addr n' = -1) →
  bits_ok ib (numInodes s) (<[i := i_ftype n']> (i_ftype <$> inodes s)) →
  bits_ok db (numData s) (b_ftype <$> bs) →
  wired (<[i := n']> (inodes s)) bs →
  (∀ c d, bs !! c = Some d → block_ok d) → (∀ k, links bs k = links (data s) k) →
  bs !! a = Some b → b_ftype b = FT_dir → dirList b !! j = Some (nm, Z.of_nat i) →
  disk_ok (s <| ibitmap := ib |> <| dbitmap := db |> <| inodes := <[i := n']> (inodes s) |>
             <| data := <[a := without_entry j b]> bs |>).
Proof.
  intros [Hib Hdb Hw Hblk Hlinks Hpos Hfr] Hn Hu Hr Hp Hf Hib' Hdb' Hw' Hblk' Hlinks' Hb Hbd Hj. split; simpl.
  - by rewrite list_fmap_insert.
  - rewrite list_fmap_insert. apply bits_same; [done|]. by rewrite list_lookup_fmap, Hb.
  - by eapply wired_block.
  - intros c d Hd. insert_cases Hd; [|eauto]. eapply block_ok_without; eauto.
  - intros k. rewrite (links_insert _ _ b) by done. simpl. erewrite count_delete by done. simpl.
    rewrite (refs_insert _ _ n) by done. rewrite Hlinks', Hlinks, Hr.
    destruct (decide (Z.of_nat i = k)) as [<-|]; [rewrite decide_True by done|rewrite decide_False by done; lia].
    rewrite (refs_nat _ _ n), decide_False by done. lia.
  - intros c m Hm. insert_cases Hm; eauto.
  - intros c m Hm. insert_cases Hm; eauto.
Qed.
(** *** Linking *)

(** The block of a listed directory is a directory. *)
Lemma dir_at_block s d i a b : disk_ok s → dir_at s d i a b → b_ftype b = FT_dir.
Proof.
  intros Hdisk (_ & (n & Hn & Ht & Ha) & Hb).
  destruct (wd_addr _ _ (dk_wired _ Hdisk) i n Hn) as [[_ ?]|(c & x & Hc & Hx & Hxt)]; [by rewrite Ht|congruence|].
  rewrite Ha in Hc. apply Nat2Z.inj in Hc as <-. congruence.
Qed.

(** A step that only adds inodes and entries keeps the listed names. *)
Lemma names_grow s s' : disk_ok s → names_ok s →
  dirs s' = dirs s → files s' = files s → nameToInum s' = nameToInum s →
  (∀ j m, inodes s !! j = Some m → i_ftype m ≠ FT_free →
     ∃ m', inodes s' !! j = Some m' ∧ i_ftype m' = i_ftype m ∧ addr m' = addr m) →
  (∀ c d, data s !! c = Some d → b_ftype d = FT_dir →
     ∃ d', data s' !! c = Some d' ∧ ∀ e, e ∈ dirList d → e ∈ dirList d') →
  names_ok s'.
Proof.
  intros Hdisk Hnames Hd Hf Hn Hi Hb. apply (names_frame s); rewrite ?Hf; try done.
  - apply Hnames.
  - intros i n Hin Ht. destruct (Hi i n Hin) as (n' & ? & ? & ?); [by rewrite Ht|].
    exists n'. split; [done|]. split; congruence.
  - intros f i n _ _ Hin Ht. destruct (Hi i n Hin) as (n' & ? & ? & ?); [by rewrite Ht|].
    exists n'. split; [done|]. congruence.
  - intros d i a b _ Hat. destruct (Hb a b) as (b' & ? & ?); [by apply Hat|by eapply dir_at_block|].
    exists b'. split; [done|]. intros n k Hnk _ _. auto.
Qed.

(** Data under a name that keeps its inode's block *)
Lemma content_frame s s' g : nameToInum s' !! g = nameToInum s !! g →
  (∀ i n, nameToInum s !! g = Some (Z.of_nat i) → inodes s !! i = Some n →
     ∃ n', inodes s' !! i = Some n' ∧ addr n' = addr n ∧
       (∀ c, addr n = Z.of_nat c → b_data <$> data s' !! c = b_data <$> data s !! c)) →
  (∃ i n, nameToInum s !! g = Some (Z.of_nat i) ∧ inodes s !! i = Some n ∧ -1 ≤ addr n) →
  content s' g = content s g.
Proof.
  intros Hg Hi (i & n & Hgi & Hn & Hle). destruct (Hi i n Hgi Hn) as (n' & Hn' & Ha & Hd).
  rewrite (content_nat s g i n), (content_nat s' g i n') by congruence. rewrite Ha.
  destruct (Z.eqb_spec (addr n) (-1)); [done|]. apply Hd. lia.
Qed.

Lemma file_addr s f : consistent s → f ∈ files s →
  ∃ i n, nameToInum s !! f = Some (Z.of_nat i) ∧ inodes s !! i = Some n ∧ -1 ≤ addr n.
Proof.
  intros [Hdisk Hnames] Hf. destruct (nm_files _ Hnames f Hf) as (i & n & ? & Hn & Ht).
  exists i, n. split; [done|]. split; [done|].
  destruct (wd_addr _ _ (dk_wired _ Hdisk) i n Hn) as [[? _]|(c & _ & ? & _)]; [by rewrite Ht|lia|lia].
Qed.

Definition linked (i : nat) (m : inode) (a : nat) (b : block) (n : string) (s : fs) : fs :=
  s <| inodes := <[i := m <| refCnt ::= Z.succ |>]> (inodes s) |>
    <| data := <[a := with_entry (n, Z.of_nat i) b]> (data s) |>.

Lemma linked_ok i m d pi a b n s : consistent s →
  inodes s !! i = Some m → i_ftype m ≠ FT_free → dir_at s d pi a b →
  n ∉ (dirList b).*1 → dirUsed b < maxUsed b → consistent (linked i m a b n s).
Proof.
  intros [Hdisk Hnames] Hm Hmt Hat Hn Hlt.
  pose proof (dir_at_block _ _ _ _ _ Hdisk Hat) as Hbd. destruct (Hat) as (_ & _ & Hb).
  assert (disk_ok (linked i m a b n s)) as Hdisk'.
  { assert (linked i m a b n s = s <| ibitmap := ibitmap s |> <| inodes := <[i := m <| refCnt ::= Z.succ |>]> (inodes s) |>
      <| data := <[a := with_entry (n, Z.of_nat i) b]> (data s) |>) as -> by by destruct s.
    eapply disk_enter; try done.
    - simpl. rewrite decide_False by done. done.
    - simpl. apply bits_same; [apply Hdisk|]. by rewrite list_lookup_fmap, Hm.
    - by eapply wired_retype; [apply Hdisk|..]. }
  split; [done|]. apply (names_grow s); try done; simpl.
  - intros j m' Hj Hu. destruct (decide (i = j)) as [->|].
    + simplify_eq. eexists. by rewrite list_lookup_insert_eq by (by eapply lookup_lt_Some).
    + exists m'. by rewrite list_lookup_insert_ne.
  - intros c x Hx Hxt. destruct (decide (a = c)) as [->|].
    + simplify_eq. eexists. rewrite list_lookup_insert_eq by (by eapply lookup_lt_Some).
      split; [done|]. simpl. intros e He. apply elem_of_app. by left.
    + exists x. by rewrite list_lookup_insert_ne.
Qed.

Lemma basename_plain n : slashless n → basename n = n.
Proof. intros Hn. unfold basename. by rewrite split_on_none. Qed.

Lemma wp_createLink target n d s w (Q : Z → fs → world → Prop) E :
  consistent s → target ∈ files s → d ∈ dirs s → slashless n →
  Q (-1) s w →
  (∀ i m pi a b, nameToInum s !! target = Some (Z.of_nat i) → inodes s !! i = Some m →
     i_ftype m = FT_file → dir_at s d pi a b → n ∉ (dirList b).*1 → dirUsed b < maxUsed b →
     Q (Z.of_nat i) (linked i m a b n s) w) →
  wp (createLink target n d) Q E s w.
Proof.
  intros Hs Ht Hd Hn Hno Hyes. destruct (Hs) as [Hdisk Hnames].
  destruct (nm_dirs _ Hnames d Hd) as (_ & pi & a & b & Hat).
  destruct (nm_files _ Hnames target Ht) as (i & m & Hk & Hm & Hmt).
  destruct (Hat) as (Hpi & (pn & Hpn & Hpt & Hpa) & Hb).
  pose proof (dir_at_block _ _ _ _ _ Hdisk Hat) as Hbd.
  unfold createLink. wp_pures. eapply wp_lookup_name; [done|]. wp_pures.
  eapply wp_inode_gets; [done|]. wp_pures. rewrite Hpa.
  eapply wp_block_read; [done|intros; by apply getFreeEntries_run|]. wp_pures.
  destruct (Z.leb_spec (maxUsed b - dirUsed b) 0); wp_pures; [done|].
  eapply wp_block_read; [done|intros; by apply dirEntryExists_run|]. wp_pures.
  rewrite existsb_name. case_bool_decide as Hin; wp_pures; [done|].
  eapply wp_lookup_name; [done|]. wp_pures.
  eapply (wp_inode_set _ (λ x, x <| refCnt ::= Z.succ |>)); [done|done|]. wp_pures.
  rewrite basename_plain by done.
  eapply wp_block_set; [done|intros; apply addDirEntry_run; [done|lia]|]. wp_pures.
  apply (Hyes i m pi a b); try done. lia.
Qed.

Lemma content_bind f k s g : f ≠ g → content (bind f k s) g = content s g.
Proof. intros Hne. unfold content, inode_of, bind. simpl. by rewrite lookup_insert_ne. Qed.

Lemma linked_content i m d pi a b n s g : inodes s !! i = Some m → dir_at s d pi a b →
  (∃ i n, nameToInum s !! g = Some (Z.of_nat i) ∧ inodes s !! i = Some n ∧ -1 ≤ addr n) →
  content (linked i m a b n s) g = content s g.
Proof.
  intros Hm (_ & _ & Hb) Hg. apply content_frame; [done| |done]. intros j y _ Hy.
  assert (∀ c, b_data <$> data (linked i m a b n s) !! c = b_data <$> data s !! c) as Hd.
  { intros c. simpl. destruct (decide (a = c)) as [->|]; [|by rewrite list_lookup_insert_ne].
    rewrite list_lookup_insert_eq by (by eapply lookup_lt_Some). by rewrite Hb. }
  simpl. destruct (decide (i = j)) as [->|].
  - simplify_eq. eexists. rewrite list_lookup_insert_eq by (by eapply lookup_lt_Some). eauto.
  - exists y. rewrite list_lookup_insert_ne by done. eauto.
Qed.

(** The names are not part of the disk. *)
Lemma disk_frame s s' : disk_ok s →
  numInodes s' = numInodes s → numData s' = numData s → ibitmap s' = ibitmap s →
  dbitmap s' = dbitmap s → inodes s' = inodes s → data s' = data s → disk_ok s'.
Proof. intros [] Hni Hnd Hi Hd Hn Hb. by split; rewrite ?Hi, ?Hd, ?Hn, ?Hb, ?Hni, ?Hnd. Qed.

(** The result of a request: it fails and nothing changes, or it is done. *)
Definition outcome (s : fs) (done_ : fs → Prop) (r : Z) (s' : fs) (w' : world) : Prop :=
  rng_ok w' ∧ consistent s' ∧ (r = -1 ∧ s' = s ∨ r = 0 ∧ done_ s').

(** A new name for an old file *)
Definition link_done (s s' : fs) : Prop :=
  ∃ target f, target ∈ files s ∧ (f ∉ files s) ∧
    files s' = files s ++ [f] ∧ dirs s' = dirs s ∧
    nameToInum s' !! f = nameToInum s !! target ∧ content s' f = content s target ∧
    ∀ g, g ∈ files s → content s' g = content s g.

Lemma wp_doLink s w : consistent s → rng_ok w →
  wp (doLink opts) (outcome s (link_done s)) noexn s w.
Proof.
  intros Hs Hw. unfold doLink. wp_pures.
  destruct (Z.eqb_spec (len (files s)) 0) as [Hl|Hl]; wp_pures; [by split; auto|].
  assert (files s ≠ []) as Hf by (intros Hf; by rewrite Hf in Hl).
  assert (dirs s ≠ []) as Hdne by (intros Hd; pose proof (nm_root _ (cs_names _ Hs)) as H; by rewrite Hd in H; apply elem_of_nil in H).
  apply wp_rand_pick; [done..|]. intros d w1 Hd Hw1 _. wp_pures. unfold makeName.
  apply wp_rand_pick; [done..|]. intros n w2 Hn%name_pool_ok Hw2 _. wp_pures.
  destruct Hn as (Hsl & Hne & _).
  apply wp_rand_pick; [done..|]. intros t w3 Ht Hw3 _. wp_pures.
  apply wp_createLink; [done..| |].
  { simpl. wp_pures. split; [done|]. auto. }
  intros i m pi a b Hk Hm Hmt Hat Hfresh Hlt.
  destruct (Z.leb_spec 0 (Z.of_nat i)); [|lia]. wp_pures.
  assert (i_ftype m ≠ FT_free) as Hmu by by rewrite Hmt.
  pose proof (linked_ok _ _ _ _ _ _ _ _ Hs Hm Hmu Hat Hfresh Hlt) as [Hdisk' Hnames'].
  destruct (nm_dirs _ (cs_names _ Hs) d Hd) as [Habs _].
  destruct (fresh_name s d n pi a b) as [Hnf Hnd]; try done; [apply Hs|..].
  { intros k Hin. apply Hfresh. apply list_elem_of_fmap. by exists (n, k). }
  set (s1 := linked i m a b n s) in *.
  assert (inodes s1 !! i = Some (m <| refCnt ::= Z.succ |>)) as Hi1.
  { simpl. by rewrite list_lookup_insert_eq by (by eapply lookup_lt_Some). }
  assert (data s1 !! a = Some (with_entry (n, Z.of_nat i) b)) as Hb1.
  { simpl. rewrite list_lookup_insert_eq; [done|]. eapply lookup_lt_Some, Hat. }
  assert (dir_at s1 d pi a (with_entry (n, Z.of_nat i) b)) as Hat1.
  { destruct Hat as (? & (pn & Hpn & Hpt & Hpa) & ?). split; [done|]. split; [|done].
    exists pn. split; [|done]. simpl. rewrite list_lookup_insert_ne; [done|]. intros ->. congruence. }
  assert (names_ok (bind (full_name d n) (Z.of_nat i) (s1 <| files ::= (.++ [full_name d n]) |>))) as Hnames2.
  { apply (names_add s1 d n pi a (with_entry (n, Z.of_nat i) b) _ i (m <| refCnt ::= Z.succ |>) false);
      try done. simpl. apply elem_of_app. right. by constructor. }
  assert (∀ g, g ∈ files s → full_name d n ≠ g) as Hneq by (by intros g Hg <-).
  assert (∀ g, g ∈ files s → content s1 g = content s g) as Hsame.
  { intros g Hg. apply (linked_content _ _ d pi); try done. by apply file_addr. }
  assert (link_done s (bind (full_name d n) (Z.of_nat i) (s1 <| files ::= (.++ [full_name d n]) |>))) as Hdone.
  { exists t, (full_name d n). split; [done|]. split; [done|]. split; [done|]. split; [done|].
    split; [by simpl; rewrite lookup_insert_eq|]. split.
    - rewrite <-(Hsame t Ht). unfold content at 1, inode_of. simpl. rewrite lookup_insert_eq.
      symmetry. unfold content, inode_of. simpl. by rewrite Hk.
    - intros g Hg. rewrite content_bind by auto. by apply Hsame. }
  assert (consistent (bind (full_name d n) (Z.of_nat i) (s1 <| files ::= (.++ [full_name d n]) |>))) as Hs2.
  { split; [|done]. by apply (disk_frame s1). }
  destruct (printOps opts); wp_pures; (split; [done|]); (split; [done|]); right; by split.
Qed.
(** *** Creating *)

Definition created_file (j a : nat) (b : block) (n : string) (s : fs) : fs :=
  s <| ibitmap ::= allocated j |>
    <| inodes := <[j := Inode FT_file (-1) 1]> (inodes s) |>
    <| data := <[a := with_entry (n, Z.of_nat j) b]> (data s) |>.

(** Block [x] as the directory of inode [j], in the directory of inode [p] *)
Definition new_dir (j p : nat) (x : block) : block :=
  with_entry ("..", Z.of_nat p) (with_entry (".", Z.of_nat j) (x <| b_ftype := FT_dir |>)).

Arguments new_dir : simpl never.

Definition created_dir (j p : nat) (pn : inode) (a c : nat) (b x : block) (n : string) (s : fs) : fs :=
  s <| ibitmap ::= allocated j |> <| dbitmap ::= allocated c |>
    <| inodes := <[p := pn <| refCnt ::= Z.succ |>]> (<[j := Inode FT_dir (Z.of_nat c) 2]> (inodes s)) |>
    <| data := <[a := with_entry (n, Z.of_nat j) b]> (<[c := new_dir j p x]> (data s)) |>.

Lemma created_file_ok j m d pi a b n s : consistent s →
  inodes s !! j = Some m → i_ftype m = FT_free → dir_at s d pi a b →
  n ∉ (dirList b).*1 → dirUsed b < maxUsed b → consistent (created_file j a b n s).
Proof.
  intros [Hdisk Hnames] Hm Hmt Hat Hn Hlt.
  pose proof (dir_at_block _ _ _ _ _ Hdisk Hat) as Hbd. destruct (Hat) as (_ & _ & Hb).
  assert (disk_ok (created_file j a b n s)) as Hdisk'.
  { eapply disk_enter; try done.
    - simpl. by rewrite Hmt.
    - simpl. apply bits_allocated; [apply Hdisk| |done]. by rewrite list_lookup_fmap, Hm, <-Hmt.
    - by eapply wired_file; [apply Hdisk|..]. }
  split; [done|]. apply (names_grow s); try done; simpl.
  - intros i m' Hi Hu. exists m'. rewrite list_lookup_insert_ne; [done|]. intros ->. congruence.
  - intros c x Hx Hxt. destruct (decide (a = c)) as [->|].
    + simplify_eq. eexists. rewrite list_lookup_insert_eq by (by eapply lookup_lt_Some).
      split; [done|]. simpl. intros e He. apply elem_of_app. by left.
    + exists x. by rewrite list_lookup_insert_ne.
Qed.

Lemma new_dir_ok j p x : block_ok x → b_ftype x = FT_free → block_ok (new_dir j p x) ∧
  dirList (new_dir j p x) = [(".", Z.of_nat j); ("..", Z.of_nat p)].
Proof.
  intros [Hm [Hu _] _ Hp] Hx. assert (dirList x = []) as Hd by (apply Hp; by rewrite Hx).
  unfold new_dir, with_entry. split; [|simpl; by rewrite Hd].
  unfold len in *. split; simpl; unfold len; rewrite ?Hd in *; simpl in *; try done; [lia|].
  repeat constructor; set_solver.
Qed.

Lemma created_dir_ok j m d p pn a b c x n s : consistent s →
  inodes s !! j = Some m → i_ftype m = FT_free → dir_at s d p a b → inodes s !! p = Some pn →
  data s !! c = Some x → b_ftype x = FT_free →
  n ∉ (dirList b).*1 → dirUsed b < maxUsed b → consistent (created_dir j p pn a c b x n s).
Proof.
  intros [Hdisk Hnames] Hm Hmt Hat Hpn Hx Hxt Hn Hlt.
  pose proof (dir_at_block _ _ _ _ _ Hdisk Hat) as Hbd.
  destruct (Hat) as (_ & (pn' & Hpn' & Hpt & Hpa) & Hb). simplify_eq.
  assert (j ≠ p) as Hjp by congruence. assert (c ≠ a) as Hca by congruence.
  destruct (Hdisk) as [Hib Hdb Hw Hblk Hlinks Hpos Hfr].
  destruct (new_dir_ok j p x (Hblk _ _ Hx) Hxt) as [Hok Hlist].
  assert (<[j := Inode FT_dir (Z.of_nat c) 2]> (inodes s) !! p = Some pn) as Hpn'
    by by rewrite list_lookup_insert_ne.
  assert (<[c := new_dir j p x]> (data s) !! a = Some b) as Hb' by by rewrite list_lookup_insert_ne.
  assert (disk_ok (created_dir j p pn a c b x n s)) as Hdisk'.
  { split; simpl.
    - rewrite !list_fmap_insert. simpl. apply bits_same.
      + apply bits_allocated; [done| |done]. by rewrite list_lookup_fmap, Hm, <-Hmt.
      + by rewrite list_lookup_insert_ne, list_lookup_fmap, Hpn by done.
    - rewrite !list_fmap_insert. simpl. apply bits_same.
      + apply bits_allocated; [done| |done]. by rewrite list_lookup_fmap, Hx, <-Hxt.
      + rewrite list_lookup_insert_ne, list_lookup_fmap, Hb by done. done.
    - eapply wired_block; [|done|done]. eapply wired_retype; [|done..].
      eapply wired_attach; [done|done|by left|done|done|done|done|done].
    - intros e y Hy. insert_cases Hy; [apply block_ok_with; eauto|].
      insert_cases Hy; eauto.
    - intros k. rewrite (links_insert _ _ b), (links_insert _ _ x) by done. simpl.
      rewrite (refs_insert _ _ pn), (refs_insert _ _ m) by done. simpl.
      assert (dirList x = []) as Hxl by (apply (Hblk _ _ Hx); by rewrite Hxt).
      rewrite Hxl, Hlinks. simpl. rewrite count_app, !count_cons. simpl.
      assert (count [] k = 0) as -> by done.
      pose proof (refs_nat _ _ _ Hpn) as Hrp. rewrite decide_False in Hrp by by rewrite Hpt.
      pose proof (refs_nat _ _ _ Hm) as Hrj. rewrite decide_True in Hrj by done.
      rewrite (decide_False (P := i_ftype pn = FT_free)) by by rewrite Hpt.
      repeat case_decide; subst; lia.
    - assert (1 ≤ refCnt pn) by (apply (Hpos _ _ Hpn); by rewrite Hpt).
      intros i y Hy. insert_cases Hy; simpl; [lia|].
      insert_cases Hy; simpl; [lia|eauto].
    - intros i y Hy. insert_cases Hy; simpl; [congruence|]. insert_cases Hy; simpl; [done|eauto]. }
  split; [done|]. apply (names_grow s); try done; simpl.
  - intros i y Hy Hu. assert (i ≠ j) by congruence. destruct (decide (p = i)) as [->|].
    + simplify_eq. eexists. rewrite list_lookup_insert_eq; [done|]. by eapply lookup_lt_Some.
    + exists y. by rewrite !list_lookup_insert_ne.
  - intros e y Hy Hyt. assert (c ≠ e) by congruence. destruct (decide (a = e)) as [->|].
    + simplify_eq. eexists. rewrite list_lookup_insert_eq by (by eapply lookup_lt_Some).
      split; [done|]. simpl. intros z Hz. apply elem_of_app. by left.
    + exists y. by rewrite !list_lookup_insert_ne.
Qed.
Lemma release_allocated i b : bmap b !! i = Some 0 ->
  allocated i b <| bmap := <[i := 0]> (bmap (allocated i b)) |> <| numAllocated ::= Z.pred |> = b.
Proof.
  intros Hi. destruct b as [n bs k]. unfold allocated. simpl in *. unfold update. simpl.
  by rewrite list_insert_insert_eq, list_insert_id, Z.pred_succ.
Qed.

(** Freeing the inode just allocated undoes the allocation. *)
Lemma wp_undo_inode s j m w (Q : unit → fs → world → Prop) E : disk_ok s →
  inodes s !! j = Some m → i_ftype m = FT_free → Q tt s w →
  wp (inodeFree (Z.of_nat j)) Q E (s <| ibitmap ::= allocated j |>) w.
Proof.
  intros Hdisk Hm Hmt HQ. unfold inodeFree, on_ibitmap. wp_pures.
  assert ((i_ftype <$> inodes s) !! j = Some FT_free) as Hj by by rewrite list_lookup_fmap, Hm, <-Hmt.
  pose proof (bits_allocated _ _ _ _ FT_file (dk_ibits _ Hdisk) Hj ltac:(done)) as Hbits.
  eapply (wp_bitmap_free _ _ _ _ FT_file); [exact Hbits| |done|].
  { rewrite list_lookup_insert_eq; [done|]. by eapply lookup_lt_Some. }
  eapply (wp_inode_set _ (λ n, n <| i_ftype := FT_free |> <| addr := -1 |>)); [exact Hm|done|].
  assert (m <| i_ftype := FT_free |> <| addr := -1 |> = m) as ->.
  { pose proof (dk_free _ Hdisk _ _ Hm Hmt) as Ha. destruct m. simpl in *. by subst. }
  pose proof (bits_lookup _ _ _ _ _ (dk_ibits _ Hdisk) Hj) as Hbit. clear Hbits Hdisk Hj.
  match goal with |- Q tt ?x w => replace x with s; [exact HQ|] end.
  destruct s as [ni nd ib ns db bs fl ds nm]. simpl in *. unfold update. simpl.
  rewrite (list_insert_id ns) by done. f_equal. symmetry. by apply (release_allocated j ib).
Qed.

Lemma wp_createFile d n t s w (Q : Z → fs → world → Prop) E :
  consistent s → d ∈ dirs s → t ≠ FT_free → Q (-1) s w →
  (∀ j m p pn a b, inodes s !! j = Some m → i_ftype m = FT_free → dir_at s d p a b →
     inodes s !! p = Some pn → n ∉ (dirList b).*1 → dirUsed b < maxUsed b →
     (t = FT_file → Q (Z.of_nat j) (created_file j a b n s) w) ∧
     (t = FT_dir → ∀ c x, data s !! c = Some x → b_ftype x = FT_free →
        Q (Z.of_nat j) (created_dir j p pn a c b x n s) w)) →
  wp (createFile d n t) Q E s w.
Proof.
  intros Hs Hd Ht Hno Hyes. destruct (Hs) as [Hdisk Hnames].
  destruct (nm_dirs _ Hnames d Hd) as (_ & p & a & b & Hat).
  destruct (Hat) as (Hp & (pn & Hpn & Hpt & Hpa) & Hb).
  pose proof (dir_at_block _ _ _ _ _ Hdisk Hat) as Hbd.
  unfold createFile. wp_pures. eapply wp_lookup_name; [done|]. wp_pures.
  eapply wp_inode_gets; [done|]. wp_pures. rewrite Hpa.
  eapply wp_block_read; [done|intros; by apply getFreeEntries_run|]. wp_pures.
  destruct (Z.leb_spec (maxUsed b - dirUsed b) 0) as [|Hlt]; wp_pures; [done|].
  eapply wp_inode_gets; [done|]. wp_pures. rewrite Hpa.
  eapply wp_block_read; [done|intros; by apply dirEntryExists_run|]. wp_pures.
  rewrite existsb_name. case_bool_decide as Hin; wp_pures; [done|].
  apply wp_inodeAlloc; [apply Hdisk|intros; cbn [Z.eqb Pos.eqb]; by wp_pures|].
  intros j m Hm Hmt. destruct (Z.eqb_spec (Z.of_nat j) (-1)); [lia|].
  destruct (Hyes j m p pn a b) as [Hfile Hdir]; [done..|lia|].
  assert (dirUsed b < maxUsed b) as Hlt' by lia. assert (j ≠ p) as Hjp by congruence.
  case_bool_decide as Htd; wp_pures.
  - subst t. apply wp_dataAlloc; [apply Hdisk| |].
    { intros _. cbn [Z.eqb Pos.eqb]. wp_pures. eapply wp_undo_inode; [done..|]. by wp_pures. }
    intros c x Hx Hxt. destruct (Z.eqb_spec (Z.of_nat c) (-1)); [lia|]. wp_pures.
    simpl in Hx. pose proof (lookup_lt_Some _ _ _ Hx) as Hc.
    destruct (dk_blocks _ Hdisk c x Hx) as [Hxm [Hxu _] _ Hxp].
    assert (dirUsed x = 0) as Hxu0 by (rewrite Hxu, Hxp by (by rewrite Hxt); done).
    assert (c ≠ a) as Hca by congruence.
    eapply wp_block_set; [done|intros; by apply setType_run|]. wp_pures.
    eapply wp_block_set; [simpl; by rewrite list_lookup_insert_eq|
      intros; apply addDirEntry_run; simpl; [done|lia]|]. wp_pures.
    eapply wp_block_set; [simpl; rewrite list_insert_insert_eq; by rewrite list_lookup_insert_eq|
      intros; apply addDirEntry_run; simpl; [done|lia]|]. wp_pures.
    eapply (wp_inode_set _ (λ _, Inode FT_dir (Z.of_nat c) 2)); [done|done|]. wp_pures.
    eapply (wp_inode_set _ (λ x, x <| refCnt ::= Z.succ |>));
      [simpl; by rewrite list_lookup_insert_ne|done|]. wp_pures.
    eapply wp_block_set; [simpl; rewrite !list_insert_insert_eq, list_lookup_insert_ne by done; done|
      intros; by apply addDirEntry_run|].
    wp_pures. simpl. rewrite !list_insert_insert_eq. apply Hdir; done.
  - assert (t = FT_file) as -> by by destruct t.
    eapply (wp_inode_set _ (λ _, Inode FT_file (-1) 1)); [done|done|]. wp_pures.
    eapply wp_block_set; [done|intros; by apply addDirEntry_run|]. wp_pures. by apply Hfile.
Qed.

(** A new name, for a new file without data or a new directory *)
Definition create_done (t : ftype) (s s' : fs) : Prop :=
  ∃ f, (f ∉ files s) ∧ (f ∉ dirs s) ∧ is_Some (nameToInum s' !! f) ∧
    (if decide (t = FT_dir) then files s' = files s ∧ dirs s' = dirs s ++ [f]
     else files s' = files s ++ [f] ∧ dirs s' = dirs s ∧ content s' f = Some "") ∧
    ∀ g, g ∈ files s → content s' g = content s g.
(** A step that keeps the inodes in use and their data keeps the contents. *)
Lemma content_grow s s' g : consistent s → g ∈ files s → nameToInum s' = nameToInum s →
  (∀ i n, inodes s !! i = Some n → i_ftype n = FT_file →
     ∃ n', inodes s' !! i = Some n' ∧ addr n' = addr n) →
  (∀ c x, data s !! c = Some x → b_ftype x = FT_file → data s' !! c = Some x) →
  content s' g = content s g.
Proof.
  intros Hs Hg Hn Hi Hd. destruct (nm_files _ (cs_names _ Hs) g Hg) as (i & n & Hgi & Hni & Ht).
  apply content_frame; [by rewrite Hn| |by apply file_addr].
  intros i' n' Hgi' Hni'. rewrite Hgi in Hgi'. apply (inj Some), Nat2Z.inj in Hgi' as <-.
  simplify_eq. destruct (Hi i n Hni Ht) as (n'' & Hn'' & Ha). exists n''. split; [done|]. split; [done|].
  intros c Hc. destruct (wd_addr _ _ (dk_wired _ (cs_disk _ Hs)) i n Hni) as [[? _]|(c' & x & Hc' & Hx & Hxt)];
    [by rewrite Ht|lia|].
  rewrite Hc in Hc'. apply Nat2Z.inj in Hc' as <-. rewrite Hx, (Hd c x); [done|done|congruence].
Qed.

Lemma dir_not_free s d j m : names_ok s → d ∈ dirs s → inodes s !! j = Some m →
  i_ftype m = FT_free → nameToInum s !! d ≠ Some (Z.of_nat j).
Proof.
  intros Hnames Hd Hm Hmt Heq. destruct (nm_dirs _ Hnames d Hd) as (_ & p & a & b & Hp & (n & Hn & Ht & _) & _).
  rewrite Heq in Hp. apply (inj Some), Nat2Z.inj in Hp as <-. congruence.
Qed.

Lemma wp_doCreate t s w : t ≠ FT_free → consistent s → rng_ok w →
  wp (doCreate opts t) (outcome s (create_done t s)) noexn s w.
Proof.
  intros Ht Hs Hw. unfold doCreate. wp_pures.
  assert (dirs s ≠ []) as Hdne by (intros Hd; pose proof (nm_root _ (cs_names _ Hs)) as H;
    by rewrite Hd in H; apply elem_of_nil in H).
  apply wp_rand_pick; [done..|]. intros d w1 Hd Hw1 _. wp_pures. unfold makeName.
  apply wp_rand_pick; [done..|]. intros n w2 Hn%name_pool_ok Hw2 _. wp_pures.
  destruct Hn as (Hsl & Hne & _). destruct (Hs) as [Hdisk Hnames].
  assert (∀ (isdir : bool) j s1 p a b' m', t = (if isdir then FT_dir else FT_file) →
    consistent s1 → dirs s1 = dirs s → files s1 = files s → nameToInum s1 = nameToInum s →
    dir_at s1 d p a b' → (n, Z.of_nat j) ∈ dirList b' →
    full_name d n ∉ files s → full_name d n ∉ dirs s →
    inodes s1 !! j = Some m' → i_ftype m' = t → (isdir = false → addr m' = -1) →
    (isdir = true → (∃ c x, addr m' = Z.of_nat c ∧ data s1 !! c = Some x) ∧
       ∀ d', d' ∈ dirs s → nameToInum s !! d' ≠ Some (Z.of_nat j)) →
    (∀ g, g ∈ files s → content s1 g = content s g) →
    outcome s (create_done t s) 0 (bind (full_name d n) (Z.of_nat j)
      (if isdir then s1 <| dirs ::= (.++ [full_name d n]) |> else s1 <| files ::= (.++ [full_name d n]) |>)) w2) as Hgo.
  { intros isdir j s1 p a b' m' Htd [Hdisk1 Hnames1] Hds Hfs Hns Hat Hent Hnf Hnd Hm Hmt Haddr Hdir Hcont.
    assert (∀ g, g ∈ files s → full_name d n ≠ g) as Hneq by (by intros g Hg <-).
    split; [done|]. split.
    - split.
      + apply (disk_frame s1); by destruct isdir.
      + eapply names_add; [done|by rewrite Hds|done..| | |done|done|by rewrite Hmt|];
          rewrite ?Hfs, ?Hds, ?Hns; done.
    - right. split; [done|]. exists (full_name d n). do 2 (split; [done|]).
      split; [unfold bind; simpl; rewrite lookup_insert_eq; eauto|]. split.
      + destruct isdir; rewrite Htd; simpl; rewrite ?Hfs, ?Hds; [done|]. do 2 (split; [done|]).
        erewrite content_nat; [|by simpl; rewrite lookup_insert_eq|exact Hm]. by rewrite Haddr.
      + intros g Hg. rewrite content_bind by auto. rewrite <-Hcont by done. by destruct isdir. }
  apply wp_createFile; [done..| |].
  { simpl. wp_pures. split; [done|]. auto. }
  intros j m p pn a b Hm Hmt Hat Hpn Hfresh Hlt.
  destruct (fresh_name s d n p a b) as [Hnf Hnd]; try done.
  { intros k Hin. apply Hfresh. apply list_elem_of_fmap. by exists (n, k). }
  pose proof (dir_at_block _ _ _ _ _ Hdisk Hat) as Hbd.
  destruct (Hat) as (Hp & (pn' & Hpn' & Hpt & Hpa) & Hb). simplify_eq.
  pose proof (lookup_lt_Some _ _ _ Hm) as Hjlt. pose proof (lookup_lt_Some _ _ _ Hb) as Halt.
  split; [intros ->|intros -> c x Hx Hxt]; (destruct (Z.leb_spec 0 (Z.of_nat j)); [|lia]); wp_pures.
  - assert (outcome s (create_done FT_file s) 0 (bind (full_name d n) (Z.of_nat j)
      (created_file j a b n s <| files ::= (.++ [full_name d n]) |>)) w2) as Hout.
    { apply (Hgo false j (created_file j a b n s) p a (with_entry (n, Z.of_nat j) b) (Inode FT_file (-1) 1));
        try done.
      - by eapply created_file_ok.
      - split; [done|]. split; [exists pn; simpl; by rewrite list_lookup_insert_ne by congruence|].
        simpl. by rewrite list_lookup_insert_eq.
      - simpl. apply elem_of_app. right. by constructor.
      - simpl. by rewrite list_lookup_insert_eq.
      - intros g Hg. apply content_grow; try done; simpl.
        + intros i y Hy Hyt. exists y. rewrite list_lookup_insert_ne; [done|congruence].
        + intros c x Hx Hxt. rewrite list_lookup_insert_ne; [done|congruence]. }
    destruct (printOps opts); wp_pures; exact Hout.
  - pose proof (lookup_lt_Some _ _ _ Hx) as Hclt. assert (c ≠ a) as Hca by congruence.
    assert (j ≠ p) as Hjp by congruence. pose proof (lookup_lt_Some _ _ _ Hpn) as Hplt.
    assert (outcome s (create_done FT_dir s) 0 (bind (full_name d n) (Z.of_nat j)
      (created_dir j p pn a c b x n s <| dirs ::= (.++ [full_name d n]) |>)) w2) as Hout.
    { apply (Hgo true j (created_dir j p pn a c b x n s) p a (with_entry (n, Z.of_nat j) b)
        (Inode FT_dir (Z.of_nat c) 2)); try done.
      - by eapply created_dir_ok.
      - split; [done|]. split; [exists (pn <| refCnt ::= Z.succ |>); simpl; by rewrite list_lookup_insert_eq
          by (by rewrite length_insert)|].
        simpl. by rewrite list_lookup_insert_eq by (by rewrite length_insert).
      - simpl. apply elem_of_app. right. by constructor.
      - simpl. by rewrite list_lookup_insert_ne, list_lookup_insert_eq.
      - intros _. split.
        + exists c, (new_dir j p x). split; [done|]. simpl. by rewrite list_lookup_insert_ne, list_lookup_insert_eq.
        + intros d' Hd'. by eapply dir_not_free.
      - intros g Hg. apply content_grow; try done; simpl.
        + intros i y Hy Hyt. exists y. rewrite !list_lookup_insert_ne; [done|congruence..].
        + intros e y Hy Hyt. rewrite !list_lookup_insert_ne; [done|congruence..]. }
    destruct (printOps opts); wp_pures; exact Hout.
Qed.
(** *** Unlinking *)

(** The name is gone, and every other name leads where it led. *)
Definition unlink_done (f : string) (s s' : fs) : Prop :=
  f ∈ files s ∧ (f ∉ files s') ∧ files s ≡ₚ f :: files s' ∧ dirs s' = dirs s ∧
  nameToInum s' = nameToInum s ∧ ∀ g, g ∈ files s' → content s' g = content s g.

(** What unlinking does to the inode table and the block table *)
Inductive unlinked (s : fs) (i : nat) (m : inode) : fs → Prop :=
| unlinked_dec : refCnt m ≠ 1 →
    unlinked s i m (s <| inodes := <[i := m <| refCnt ::= Z.pred |>]> (inodes s) |>)
| unlinked_empty : refCnt m = 1 → addr m = -1 →
    unlinked s i m (s <| ibitmap ::= released i |>
      <| inodes := <[i := m <| i_ftype := FT_free |> <| addr := -1 |>]> (inodes s) |>)
| unlinked_block c x : refCnt m = 1 → addr m = Z.of_nat c → data s !! c = Some x → b_ftype x = FT_file →
    unlinked s i m (s <| dbitmap ::= released c |>
      <| data := <[c := x <| b_data := "" |> <| b_ftype := FT_free |>]> (data s) |>
      <| ibitmap ::= released i |>
      <| inodes := <[i := m <| i_ftype := FT_free |> <| addr := -1 |>]> (inodes s) |>).

(** The entry [k] of block [b] at [a] removed, and the name forgotten *)
Definition forget (a k : nat) (b : block) (fl : list string) (s : fs) : fs :=
  s <| data := <[a := without_entry k b]> (data s) |> <| files := fl |>.

Lemma unlinked_disk s i m s1 a b k nm : disk_ok s → inodes s !! i = Some m → i_ftype m = FT_file →
  unlinked s i m s1 → data s !! a = Some b → b_ftype b = FT_dir →
  dirList b !! k = Some (nm, Z.of_nat i) →
  disk_ok (s1 <| data := <[a := without_entry k b]> (data s1) |>).
Proof.
  intros Hdisk Hm Hmt Hun Hb Hbd Hk.
  assert (i_ftype m ≠ FT_free) as Hu by by rewrite Hmt.
  assert ((i_ftype <$> inodes s) !! i = Some FT_file) as Hi by by rewrite list_lookup_fmap, Hm, <-Hmt.
  assert (1 ≤ refCnt m) as Hpos by by eapply dk_pos.
  destruct Hun as [Href|Href Ha|c x Href Ha Hx Hxt].
  - apply (disk_frame (s <| ibitmap := ibitmap s |> <| dbitmap := dbitmap s |>
      <| inodes := <[i := m <| refCnt ::= Z.pred |>]> (inodes s) |>
      <| data := <[a := without_entry k b]> (data s) |>)); [|done..].
    eapply (disk_remove _ i m); try done; try apply Hdisk; simpl.
    + rewrite decide_False by done. lia.
    + lia.
    + by apply bits_same; [apply Hdisk|rewrite Hmt].
    + by eapply wired_retype; [apply Hdisk|..].
  - apply (disk_frame (s <| ibitmap := released i (ibitmap s) |> <| dbitmap := dbitmap s |>
      <| inodes := <[i := m <| i_ftype := FT_free |> <| addr := -1 |>]> (inodes s) |>
      <| data := <[a := without_entry k b]> (data s) |>)); [|done..].
    eapply (disk_remove _ i m); try done; try apply Hdisk; simpl.
    + lia.
    + by eapply bits_released; [apply Hdisk|done|].
    + by eapply wired_free; [apply Hdisk|..].
  - assert (a ≠ c) as Hac by congruence.
    set (x' := x <| b_data := "" |> <| b_ftype := FT_free |>).
    apply (disk_frame (s <| ibitmap := released i (ibitmap s) |> <| dbitmap := released c (dbitmap s) |>
      <| inodes := <[i := m <| i_ftype := FT_free |> <| addr := -1 |>]> (inodes s) |>
      <| data := <[a := without_entry k b]> (<[c := x']> (data s)) |>)); [|done..].
    eapply (disk_remove _ i m); try done; try apply Hdisk; simpl.
    + lia.
    + by eapply bits_released; [apply Hdisk|done|].
    + rewrite list_fmap_insert. eapply bits_released; [apply Hdisk|by rewrite list_lookup_fmap, Hx|by rewrite Hxt].
    + by eapply wired_free_block; [apply Hdisk|..].
    + intros e d Hd. insert_cases Hd; [|by eapply dk_blocks].
      destruct (dk_blocks _ Hdisk _ _ Hx) as [? ? ? Hp]. split; try done. simpl. intros _. apply Hp. by rewrite Hxt.
    + intros e. by apply (links_same _ _ x).
    + by rewrite list_lookup_insert_ne.
Qed.
Record unlinked_frame (s : fs) (i : nat) (m : inode) (s1 : fs) : Prop := {
  uf_names : files s1 = files s ∧ dirs s1 = dirs s ∧ nameToInum s1 = nameToInum s;
  uf_others : ∀ j n, j ≠ i → inodes s !! j = Some n → inodes s1 !! j = Some n;
  uf_self : refCnt m ≠ 1 → ∃ m', inodes s1 !! i = Some m' ∧ i_ftype m' = i_ftype m ∧ addr m' = addr m;
  uf_data : ∀ e y, data s !! e = Some y →
    b_ftype y = FT_dir ∨ addr m ≠ Z.of_nat e ∨ refCnt m ≠ 1 → data s1 !! e = Some y;
}.

Lemma unlinked_framed s i m s1 : inodes s !! i = Some m → unlinked s i m s1 → unlinked_frame s i m s1.
Proof.
  intros Hm Hun. pose proof (lookup_lt_Some _ _ _ Hm). destruct Hun as [Href|Href Ha|c x Href Ha Hx Hxt].
  - split; simpl; [done|..|done].
    + intros j n Hj Hn. by rewrite list_lookup_insert_ne.
    + intros _. eexists. by rewrite list_lookup_insert_eq.
  - split; simpl; [done|..|done|done].
    intros j n Hj Hn. by rewrite list_lookup_insert_ne.
  - split; simpl; [done|..|done|].
    + intros j n Hj Hn. by rewrite list_lookup_insert_ne.
    + intros e y Hy Hor. rewrite list_lookup_insert_ne; [done|]. intros ->. simplify_eq.
      destruct Hor as [?|[?|?]]; congruence.
Qed.

(** The block of directory [d] tells which directory it is. *)
Lemma dir_at_inj s d d' p p' a b b' : consistent s → d ∈ dirs s → d' ∈ dirs s →
  dir_at s d p a b → dir_at s d' p' a b' → d = d'.
Proof.
  intros [Hdisk Hnames] Hd Hd' (Hp & (n & Hn & Ht & Ha) & Hb) (Hp' & (n' & Hn' & Ht' & Ha') & Hb').
  apply (nm_inj _ Hnames); [done..|]. rewrite Hp, Hp'. do 2 f_equal.
  eapply (wd_inj _ _ (dk_wired _ Hdisk) p p' n n'); try done; [by rewrite Ht|by rewrite Ht'|congruence|lia].
Qed.

(** Under a count of one, no other name leads to the inode. *)
Lemma last_name s f g d n p a b k i m : consistent s → g ∈ files s → f ≠ g →
  d ∈ dirs s → dir_at s d p a b → f = full_name d n → slashless n →
  dirList b !! k = Some (n, Z.of_nat i) → inodes s !! i = Some m → i_ftype m ≠ FT_free →
  refCnt m = 1 → nameToInum s !! g ≠ Some (Z.of_nat i).
Proof.
  intros Hs Hg Hne Hd Hat Hf Hsl Hk Hm Hu Href Hgi. destruct (Hs) as [Hdisk Hnames].
  destruct (nm_paths _ Hnames g) as (d' & n' & Hd' & Hsl' & _ & Hgd & k' & p' & a' & b' & Hk' & Hat' & Hin); [auto|].
  assert (k' = Z.of_nat i) as -> by congruence.
  pose proof (dk_links _ Hdisk (Z.of_nat i)) as Hl. rewrite (refs_nat _ _ m), decide_False in Hl by done.
  destruct (Hat) as (_ & _ & Hb), (Hat') as (_ & _ & Hb').
  destruct (decide (a = a')) as [<-|Haa].
  - assert (d = d') as <- by by eapply dir_at_inj. simplify_eq.
    apply list_elem_of_lookup in Hin as [k' Hk2].
    assert (2 ≤ count (dirList b) (Z.of_nat i)) as Hc.
    { eapply count_two; [exact Hk|exact Hk2|]. intros <-. congruence. }
    assert (count (dirList b) (Z.of_nat i) ≤ links (data s) (Z.of_nat i)).
    { eapply links_elem; [done|]. by eapply list_elem_of_lookup_2. }
    lia.
  - assert (2 ≤ links (data s) (Z.of_nat i)); [|lia].
    eapply (links_two _ a a' b b' n n'); try done. by eapply list_elem_of_lookup_2.
Qed.

Lemma unlinked_names s f d n p a b k i m s1 fl : consistent s → files s ≡ₚ f :: fl →
  d ∈ dirs s → dir_at s d p a b → f = full_name d n → slashless n →
  dirList b !! k = Some (n, Z.of_nat i) → nameToInum s !! f = Some (Z.of_nat i) →
  inodes s !! i = Some m → i_ftype m = FT_file → unlinked s i m s1 →
  names_ok (forget a k b fl s1).
Proof.
  intros Hs Hfl Hd Hat Hf Hsl Hk Hfi Hm Hmt Hun. destruct (Hs) as [Hdisk Hnames].
  pose proof (unlinked_framed _ _ _ _ Hm Hun) as [(Hf1 & Hd1 & Hn1) Hoth Hself Hdat].
  pose proof (nm_nodup _ Hnames) as Hnd. rewrite Hfl in Hnd. apply NoDup_cons in Hnd as [Hfno Hnd].
  assert (∀ g, g ∈ fl → g ∈ files s ∧ f ≠ g) as Hflin.
  { intros g Hg. rewrite Hfl. split; [by right|]. by intros <-. }
  assert (f ∈ files s) as Hfin by (rewrite Hfl; by left).
  apply (names_frame s); simpl; try done.
  - intros g Hg. by apply Hflin.
  - intros j y Hy Hyt. exists y. split; [|done]. apply Hoth; [|done]. intros ->. congruence.
  - intros g j y Hg Hgj Hy Hyt. destruct (Hflin g Hg) as [Hgin Hne]. destruct (decide (j = i)) as [->|].
    + destruct (decide (refCnt m = 1)) as [Href|Href].
      * exfalso. eapply (last_name s f g d n p a b k i m); try done. by rewrite Hmt.
      * destruct (Hself Href) as (m' & ? & ? & ?). exists m'. split; [done|congruence].
    + exists y. auto.
  - intros d' p' a' b' Hd' Hat'.
    assert (data s1 !! a' = Some b') as Ha'.
    { apply Hdat; [apply Hat'|]. left. by eapply dir_at_block. }
    destruct (decide (a = a')) as [<-|].
    + assert (d = d') as <- by by eapply dir_at_inj.
      assert (b = b') as <- by (destruct Hat as (_ & _ & ?), Hat' as (_ & _ & ?); congruence).
      exists (without_entry k b). rewrite list_lookup_insert_eq by (by eapply lookup_lt_Some).
      split; [done|]. intros n' k' Hin Hsl' Hor. simpl.
      rewrite (delete_perm _ _ _ Hk) in Hin. apply elem_of_cons in Hin as [[= -> ->]|?]; [|done].
      exfalso. rewrite <-Hf in Hor. destruct Hor as [?|Hor]; [done|].
      destruct (nm_dirs _ Hnames _ Hor) as (_ & q & ? & ? & Hq & (y & Hy & Hyt & _) & _).
      rewrite Hfi in Hq. apply (inj Some), Nat2Z.inj in Hq as <-. congruence.
    + exists b'. by rewrite list_lookup_insert_ne.
Qed.

Lemma wp_remove_name l f s w (Q : list string → fs → world → Prop) E :
  f ∈ l → (∀ l', l ≡ₚ f :: l' → Q l' s w) → wp (remove_name l f) Q E s w.
Proof.
  intros Hf HQ. unfold remove_name.
  destruct (list_find_elem_of (f =.) l f Hf eq_refl) as [[i y] Hi]. rewrite Hi. simpl. wp_pures.
  apply HQ. apply list_find_Some in Hi as (Hi & <- & _). by apply delete_perm.
Qed.

Lemma block_free_run b w : b_ftype b = FT_file ->
  block_free b w = Ok tt (b <| b_data := "" |> <| b_ftype := FT_free |>) w.
Proof. intros Hb. unfold block_free. run_method. rewrite Hb. done. Qed.
(** The first half of [deleteFile]: the inode *)
Lemma wp_drop_inode s i m w (Q : unit → fs → world → Prop) E : disk_ok s →
  inodes s !! i = Some m → i_ftype m = FT_file →
  (∀ s1, unlinked s i m s1 → Q tt s1 w) →
  wp (if refCnt m =? 1 then
        dblock ← on_inode (Z.of_nat i) getAddr;
        when (negb (dblock =? -1)) (dataFree dblock);;
        inodeFree (Z.of_nat i)
      else on_inode (Z.of_nat i) decRefCnt) Q E s w.
Proof.
  intros Hdisk Hm Hmt HQ. assert (i_ftype m ≠ FT_free) as Hu by by rewrite Hmt.
  assert ((i_ftype <$> inodes s) !! i = Some FT_file) as Hi by by rewrite list_lookup_fmap, Hm, <-Hmt.
  destruct (Z.eqb_spec (refCnt m) 1) as [Href|Href].
  2: { eapply (wp_inode_set _ (λ x, x <| refCnt ::= Z.pred |>)); [done|done|]. apply HQ. by constructor. }
  wp_pures. eapply wp_inode_gets; [done|]. wp_pures.
  destruct (wd_addr _ _ (dk_wired _ Hdisk) i m Hm Hu) as [[Ha _]|(c & x & Ha & Hx & Hxt)]; rewrite Ha.
  - cbn [Z.eqb Pos.eqb negb]. unfold inodeFree, on_ibitmap. wp_pures.
    eapply (wp_bitmap_free _ _ _ _ FT_file); [apply Hdisk|done|done|].
    eapply (wp_inode_set _ (λ n, n <| i_ftype := FT_free |> <| addr := -1 |>)); [exact Hm|done|].
    apply HQ. by constructor 2.
  - destruct (Z.eqb_spec (Z.of_nat c) (-1)); [lia|]. cbn [negb].
    unfold dataFree, inodeFree, on_ibitmap, on_dbitmap. wp_pures.
    eapply (wp_bitmap_free _ _ _ _ FT_file); [apply Hdisk|by rewrite list_lookup_fmap, Hx; simpl; rewrite Hxt, Hmt|done|].
    eapply wp_block_set; [exact Hx|intros; apply block_free_run; congruence|]. wp_pures.
    eapply (wp_bitmap_free _ _ _ _ FT_file); [apply Hdisk|done|done|].
    eapply (wp_inode_set _ (λ n, n <| i_ftype := FT_free |> <| addr := -1 |>)); [exact Hm|done|].
    apply (HQ _ (unlinked_block s i m c x Href Ha Hx ltac:(congruence))).
Qed.

Lemma wp_deleteFile f s w : consistent s → f ∈ files s →
  wp (deleteFile opts f) (λ r s' w', (rng_ok w → rng_ok w') ∧ consistent s' ∧ r = 0 ∧ unlink_done f s s') noexn s w.
Proof.
  intros Hs Hf. destruct (Hs) as [Hdisk Hnames].
  destruct (nm_files _ Hnames f Hf) as (i & m & Hfi & Hm & Hmt).
  destruct (nm_paths _ Hnames f) as (d & n & Hd & Hsl & Hne & Hfd & k' & p & a & b & Hk' & Hat & Hin); [auto|].
  assert (k' = Z.of_nat i) as -> by congruence.
  apply list_elem_of_lookup in Hin as [k Hk].
  destruct (nm_dirs _ Hnames d Hd) as [Habs _].
  pose proof (dir_at_block _ _ _ _ _ Hdisk Hat) as Hbd.
  destruct (Hat) as (Hp & (pn & Hpn & Hpt & Hpa) & Hb). assert (p ≠ i) as Hpi by congruence.
  unfold deleteFile. rewrite wp_bind, wp_when.
  assert (∀ w1, (rng_ok w → rng_ok w1) → wp (inum ← lookup_name f;
      ftype ← on_inode inum getType;
      r ← on_inode inum getRefCnt;
      (if r =? 1 then
         dblock ← on_inode inum getAddr;
         when (negb (dblock =? -1)) (dataFree dblock);;
         inodeFree inum
       else on_inode inum decRefCnt);;
      pinum ← lookup_name (getParent f);
      pblock ← on_inode pinum getAddr;
      when (bool_decide (ftype = FT_dir)) (on_inode pinum decRefCnt);;
      on_block pblock (delDirEntry f);;
      s ← get;
      l ← remove_name (files s) f;
      files <~ l;;
      mret 0) (λ r s' w', (rng_ok w → rng_ok w') ∧ consistent s' ∧ r = 0 ∧ unlink_done f s s') noexn s w1) as Hgo.
  2: { destruct (printOps opts); [rewrite wp_print|]; by apply Hgo. }
  intros w1 Hw1. wp_pures. eapply wp_lookup_name; [done|]. wp_pures.
  eapply wp_inode_gets; [done|]. wp_pures. eapply wp_inode_gets; [done|]. wp_pures.
  apply wp_drop_inode; [done..|]. intros s1 Hun. wp_pures.
  pose proof (unlinked_framed _ _ _ _ Hm Hun) as [(Hf1 & Hd1 & Hn1) Hoth Hself Hdat].
  rewrite Hfd, getParent_full by done. rewrite <-Hfd.
  eapply wp_lookup_name; [by rewrite Hn1|]. wp_pures.
  eapply wp_inode_gets; [by apply Hoth|]. wp_pures. rewrite Hmt, Hpa. cbn [bool_decide]. wp_pures.
  eapply wp_block_set; [apply (Hdat a b Hb); by left| |].
  { intros w2. apply (delDirEntry_run _ _ k (Z.of_nat i)); [done|by apply (dk_blocks _ Hdisk a)|].
    by rewrite Hfd, basename_full. }
  wp_pures. apply wp_remove_name; [simpl; by rewrite Hf1|]. intros fl Hfl. wp_pures.
  simpl in Hfl. rewrite Hf1 in Hfl. split; [done|].
  assert (consistent (forget a k b fl s1)) as Hs'.
  { split.
    - apply (disk_frame (s1 <| data := <[a := without_entry k b]> (data s1) |>)); [|done..].
      by eapply (unlinked_disk s i m).
    - by eapply (unlinked_names s f d n p a b k i m). }
  split; [exact Hs'|]. split; [done|].
  pose proof (nm_nodup _ Hnames) as Hnd. rewrite Hfl in Hnd. apply NoDup_cons in Hnd as [Hfno Hnd].
  split; [done|]. do 4 (split; [done|]). simpl. intros g Hg.
  assert (g ∈ files s) as Hgin by (rewrite Hfl; by right).
  assert (f ≠ g) as Hfg by by intros <-.
  destruct (nm_files _ Hnames g Hgin) as (j & y & Hgj & Hy & Hyt).
  assert (∀ y', inodes s1 !! j = Some y' → addr y' = addr y → (j ≠ i ∨ refCnt m ≠ 1) →
    content (forget a k b fl s1) g = content s g) as Hc.
  { intros y' Hy' Hya Hor. apply content_frame; [simpl; by rewrite Hn1| |by apply file_addr].
    intros j' z Hj' Hz. rewrite Hgj in Hj'. apply (inj Some), Nat2Z.inj in Hj' as <-.
    rewrite Hy in Hz. injection Hz as <-. exists y'. split; [done|]. split; [done|].
    intros c Hc. simpl.
    destruct (wd_addr _ _ (dk_wired _ Hdisk) j y Hy) as [[? _]|(c' & x & Hc' & Hx & Hxt)]; [by rewrite Hyt|lia|].
    rewrite Hc in Hc'. apply Nat2Z.inj in Hc' as <-.
    rewrite list_lookup_insert_ne by congruence. rewrite (Hdat c x), Hx; [done|done|].
    right. destruct Hor as [Hji|?]; [left|by right]. intros Hmc. apply Hji.
    eapply (wd_inj _ _ (dk_wired _ Hdisk) j i y m); try done; [by rewrite Hyt|by rewrite Hmt|congruence|lia]. }
  destruct (decide (j = i)) as [->|Hji].
  - destruct (decide (refCnt m = 1)) as [Href|Href].
    + exfalso. eapply (last_name s f g d n p a b k i m); try done. by rewrite Hmt.
    + destruct (Hself Href) as (m' & Hm' & _ & Hma). eapply Hc; [done| |by right]. congruence.
  - eapply Hc; [by apply Hoth|done|by left].
Qed.
(** *** Any request *)

Definition request_done (s s' : fs) : Prop :=
  (∃ f x, append_done f x s s') ∨ (∃ f, unlink_done f s s') ∨ link_done s s' ∨
  create_done FT_file s s' ∨ create_done FT_dir s s'.

Lemma outcome_mono s (P P' : fs → Prop) r s' w' :
  (∀ s', P s' → P' s') → outcome s P r s' w' → outcome s P' r s' w'.
Proof. intros HP (? & ? & [?|[? ?]]); split; auto. Qed.

Lemma wp_doAppend s w : consistent s → rng_ok w →
  wp (doAppend opts) (outcome s (λ s', ∃ f x, append_done f x s s')) noexn s w.
Proof.
  intros Hs Hw. unfold doAppend. wp_pures.
  destruct (Z.eqb_spec (len (files s)) 0) as [Hl|Hl]; wp_pures; [by split; auto|].
  apply wp_rand_pick; [by intros Hf; rewrite Hf in Hl|done|]. intros f w1 Hf Hw1 _. wp_pures.
  apply wp_rand_int; [lia|done|]. intros k w2 _ Hw2 _. wp_pures.
  eapply wp_conseq; [by apply wp_writeFile|]. intros r s' w' (Hr & ? & Hcase).
  split; [auto|]. split; [done|]. destruct Hcase as [?|[? ?]]; [by left|right]. eauto.
Qed.

Lemma wp_doDelete s w : consistent s → rng_ok w →
  wp (doDelete opts) (outcome s (λ s', ∃ f, unlink_done f s s')) noexn s w.
Proof.
  intros Hs Hw. unfold doDelete. wp_pures.
  destruct (Z.eqb_spec (len (files s)) 0) as [Hl|Hl]; wp_pures; [by split; auto|].
  apply wp_rand_pick; [by intros Hf; rewrite Hf in Hl|done|]. intros f w1 Hf Hw1 _.
  eapply wp_conseq; [by apply wp_deleteFile|]. intros r s' w' (Hr & ? & ? & ?).
  split; [auto|]. split; [done|]. right. eauto.
Qed.

Lemma wp_do_request s w : consistent s → rng_ok w →
  wp (do_request opts) (outcome s (request_done s)) noexn s w.
Proof.
  intros Hs Hw. unfold do_request. wp_pures. assert (rng_ok (drawn w)) as Hw' by (intros n; apply Hw).
  destruct (draw_lt 3 10 _).
  { eapply wp_conseq; [by apply wp_doAppend|]. intros r s' w'. apply outcome_mono. unfold request_done. auto. }
  destruct (draw_lt 5 10 _).
  { eapply wp_conseq; [by apply wp_doDelete|]. intros r s' w'. apply outcome_mono. unfold request_done. auto. }
  destruct (draw_lt 7 10 _).
  { eapply wp_conseq; [by apply wp_doLink|]. intros r s' w'. apply outcome_mono. unfold request_done. auto. }
  wp_pures. assert (rng_ok (drawn (drawn w))) as Hw'' by (intros n; apply Hw).
  destruct (draw_lt 75 100 _).
  - eapply wp_conseq; [by apply wp_doCreate|]. intros r s' w'. apply outcome_mono. unfold request_done. auto 6.
  - eapply wp_conseq; [by apply wp_doCreate|]. intros r s' w'. apply outcome_mono. unfold request_done. auto 6.
Qed.
End Ops.

(** ** Properties *)

(** C7: from a consistent file system, whatever the generator draws, a request
    raises no exception (no assertion of the bitmaps, blocks and inodes, no
    lookup of a name or number fails) and keeps the file system consistent:
    bitmaps and tables agree, each block has one owner, and the reference
    count of each inode is the number of directory entries that name it.  The
    request fails and changes nothing, or it is the append, unlink, link,
    creation of a file or of a directory its POSIX namesake is. *)
Theorem request_correct opts s w (Hs : consistent s) (Hw : rng_ok w) :
  ∃ r s' w', do_request opts s w = Ok r s' w' ∧ rng_ok w' ∧ consistent s' ∧
    (r = -1 ∧ s' = s ∨ r = 0 ∧ request_done s s').
Proof. exact (wp_noexn_ok _ _ _ _ (wp_do_request opts s w Hs Hw)). Qed.

(** C8: [deleteFile] removes exactly the given name: every other file keeps its
    inode and its data, also when it is another name of the same file, and the
    inode and the block are freed with the last name only, so that the file
    system stays consistent. *)
Theorem deleteFile_correct opts s w f (Hs : consistent s) (Hf : f ∈ files s) :
  ∃ s' w', deleteFile opts f s w = Ok 0 s' w' ∧ consistent s' ∧ unlink_done f s s'.
Proof.
  destruct (wp_noexn_ok _ _ _ _ (wp_deleteFile opts f s w Hs Hf)) as (r & s' & w' & Hrun & _ & ? & -> & ?).
  eauto.
Qed.

(** [writeFile] gives an empty file its one block of data, which shows
    under every name of the file and under no other; it fails, changing
    nothing, on a file that has data or when no block is free. *)
Theorem writeFile_correct opts s w f x (Hs : consistent s) (Hf : f ∈ files s) :
  ∃ r s' w', writeFile opts f x s w = Ok r s' w' ∧ consistent s' ∧
    (r = -1 ∧ s' = s ∨ r = 0 ∧ append_done f x s s').
Proof.
  destruct (wp_noexn_ok _ _ _ _ (wp_writeFile opts f x s w Hs Hf)) as (r & s' & w' & Hrun & _ & ? & ?).
  eauto 6.
Qed.
(** *** The initial file system *)

Lemma lookup_const {A} n (x : A) i y : ((λ _, x) <$> range 0 n) !! i = Some y → y = x.
Proof. intros Hi. rewrite list_lookup_fmap in Hi. destruct (range 0 n !! i); naive_solver. Qed.

Lemma fmap_const {A B} (f : A → B) n x : f <$> ((λ _, x) <$> range 0 n) = (λ _, f x) <$> range 0 n.
Proof. by rewrite <-list_fmap_compose. Qed.

Lemma bits_blank n : 0 ≤ n → bits_ok (bitmap_init n) n ((λ _, FT_free) <$> range 0 n).
Proof.
  intros Hn. split; simpl.
  - split; [done|]. unfold len. rewrite length_fmap, length_range. lia.
  - by rewrite fmap_const.
  - generalize (range 0 n). intros l. induction l; [done|]. simpl. by rewrite filter_cons, decide_False by tauto.
Qed.

Lemma entries_blank bs : (∀ b, b ∈ bs → dirList b = []) → entries bs = [].
Proof.
  induction bs as [|b bs IH]; intros Hb; [done|]. unfold entries. simpl.
  rewrite Hb by by left. simpl. apply IH. intros. apply Hb. by right.
Qed.

Definition root_block : block := with_entry ("..", ROOT) (with_entry (".", ROOT) (block_init FT_dir)).

Lemma wp_markAllocated b n ts i w (Q : unit → bitmap → world → Prop) E :
  bits_ok b n ts → ts !! i = Some FT_free → Q tt (allocated i b) w →
  wp (bitmap_markAllocated (Z.of_nat i)) Q E b w.
Proof.
  intros Hb Hi HQ. unfold bitmap_markAllocated. wp_pures.
  rewrite py_get_nat, (bits_lookup _ _ _ _ _ Hb Hi). wp_pures. rewrite bit_free. simpl.
  rewrite py_set_nat; [by wp_pures|].
  rewrite (bo_bits _ _ _ Hb), length_fmap. by eapply lookup_lt_Some.
Qed.

(** What the constructor makes *)
Definition fs_root (nInodes nData : Z) : fs :=
  let b := fs_blank nInodes nData in
  b <| ibitmap ::= allocated 0 |> <| inodes := <[0%nat := Inode FT_dir 0 2]> (inodes b) |>
    <| dbitmap ::= allocated 0 |> <| data := <[0%nat := root_block]> (data b) |>
    <| dirs := ["/"] |> <| nameToInum := {[ "/" := ROOT ]} |>.

Lemma fs_root_consistent nInodes nData : 0 < nInodes → 0 < nData → consistent (fs_root nInodes nData).
Proof.
  intros Hni Hnd.
  assert (∀ {A} n (x : A), 0 < n → ((λ _, x) <$> range 0 n) !! 0%nat = Some x) as H0.
  { intros A n x Hn. by rewrite range_cons. }
  assert (∀ {A} n (x : A), 0 < n → (0 < length ((λ _, x) <$> range 0 n))%nat) as Hlen.
  { intros A n x Hn. rewrite length_fmap, length_range. lia. }
  split; split; simpl.
  - rewrite list_fmap_insert, fmap_const. apply bits_allocated; [apply bits_blank; lia|by apply H0|done].
  - rewrite list_fmap_insert, fmap_const. apply bits_allocated; [apply bits_blank; lia|by apply H0|done].
  - split.
    + intros i n Hn Hu. insert_cases Hn; [|by apply lookup_const in Hn; subst].
      right. exists 0%nat, root_block. by rewrite list_lookup_insert_eq by auto.
    + intros a b Hb Hu. insert_cases Hb; [|by apply lookup_const in Hb; subst].
      exists 0%nat, (Inode FT_dir 0 2). by rewrite list_lookup_insert_eq by auto.
    + intros i j ni nj Hi Hj Hui Huj _ _.
      insert_cases Hi; [|by apply lookup_const in Hi; subst].
      insert_cases Hj; [done|by apply lookup_const in Hj; subst].
  - intros a b Hb. insert_cases Hb.
    + split; [done|done| |done]. repeat constructor; set_solver.
    + apply lookup_const in Hb. subst. split; [done|done|constructor|done].
  - intros k. rewrite (links_insert _ _ (block_init FT_free)) by by apply H0.
    rewrite (refs_insert _ _ inode_init) by by apply H0. simpl. unfold links.
    rewrite entries_blank by (intros b (? & ? & ?)%list_elem_of_fmap; by subst).
    assert (count [] k = 0) as -> by done. rewrite !count_cons. simpl.
    assert (count [] k = 0) as -> by done. unfold ROOT.
    assert (refs ((λ _, inode_init) <$> range 0 nInodes) k = 0) as ->.
    { unfold refs. case_match; [done|]. case_match eqn:Hk; [|done]. apply lookup_const in Hk. by subst. }
    repeat case_decide; lia.
  - intros i n Hn Hu. insert_cases Hn; [simpl; lia|by apply lookup_const in Hn; subst].
  - intros i n Hn Hu. insert_cases Hn; [done|by apply lookup_const in Hn; subst].
  - by left.
  - intros d ->%list_elem_of_singleton. split; [by exists ""|]. exists 0%nat, 0%nat, root_block.
    split; [done|]. split; [|by simpl; rewrite list_lookup_insert_eq by auto].
    exists (Inode FT_dir 0 2). simpl. by rewrite list_lookup_insert_eq by auto.
  - by intros d d' ->%list_elem_of_singleton ->%list_elem_of_singleton _.
  - by intros f ?%elem_of_nil.
  - intros f [?%elem_of_nil|[->%list_elem_of_singleton ?]]; done.
  - constructor.
Qed.

(** The constructor, on at least one inode and one block, fails no
    assertion and makes a consistent file system whose only name is the root
    directory, with the entries [.] and [..]. *)
Theorem fs_init_correct nInodes nData w (Hi : 0 < nInodes) (Hd : 0 < nData) :
  ∃ s', fs_init (fs_blank nInodes nData) w = Ok tt s' w ∧ consistent s' ∧
    files s' = [] ∧ dirs s' = ["/"] ∧ links (data s') ROOT = 2.
Proof.
  assert (wp fs_init (λ _ s' w', w' = w ∧ s' = fs_root nInodes nData) noexn (fs_blank nInodes nData) w) as Hwp.
  2: { apply wp_noexn_ok in Hwp as ([] & s' & w' & Hrun & -> & ->). exists (fs_root nInodes nData).
       split; [done|]. pose proof (fs_root_consistent nInodes nData Hi Hd) as Hc. split; [done|].
       do 2 (split; [done|]). rewrite (dk_links _ (cs_disk _ Hc)). unfold refs. simpl.
       rewrite list_lookup_insert_eq; [done|]. rewrite length_fmap, length_range. lia. }
  assert (∀ {A} n (x : A), 0 < n → ((λ _, x) <$> range 0 n) !! 0%nat = Some x) as H0.
  { intros A n x Hn. by rewrite range_cons. }
  assert (∀ {A} n (x : A), 0 < n → (0 < length ((λ _, x) <$> range 0 n))%nat) as Hlen.
  { intros A n x Hn. rewrite length_fmap, length_range. lia. }
  unfold fs_init, on_ibitmap, on_dbitmap, ROOT. wp_pures.
  eapply (wp_markAllocated _ _ _ 0%nat); [apply bits_blank; lia|by apply H0|]. wp_pures.
  eapply (wp_inode_set _ (λ _, Inode FT_dir 0 2) 0%nat); [by apply H0|done|]. wp_pures.
  eapply (wp_markAllocated _ _ _ 0%nat); [apply bits_blank; lia|by apply H0|]. wp_pures.
  eapply (wp_block_set _ _ 0%nat); [by apply H0|intros; by apply setType_run|]. wp_pures.
  eapply (wp_block_set _ _ 0%nat); [simpl; rewrite list_lookup_insert_eq by auto; done|
    intros; by apply addDirEntry_run|]. wp_pures.
  eapply (wp_block_set _ _ 0%nat); [simpl; rewrite list_insert_insert_eq, list_lookup_insert_eq by auto; done|
    intros; by apply addDirEntry_run|]. wp_pures.
  split; [done|]. simpl. by rewrite !list_insert_insert_eq.
Qed.

(** ** Witnesses *)

Definition quiet : options := Options false false false.

(** One request from state [s], with the given draws *)
Definition after (draws : list Z) (s : fs) : fs :=
  match do_request quiet s (world_of draws) with Ok _ s' _ => s' | _ => s end.

Lemma after_consistent draws s :
  Forall (λ p, 0 ≤ p ≤ 100) draws → consistent s → consistent (after draws s).
Proof.
  intros Hd Hs. pose proof (wp_do_request quiet s (world_of draws) Hs (world_of_ok _ Hd)) as Hwp.
  unfold after. unfold wp in Hwp. destruct (do_request quiet s (world_of draws)); [apply Hwp|done|done].
Qed.

(** A file, a directory, and a second name of the file in the directory *)
Definition example_fs : fs :=
  after [60; 90; 0; 0] (after [90; 90; 0; 0] (after [90; 50; 0; 10] (fs_root 8 8))).

Lemma example_consistent : consistent example_fs.
Proof.
  unfold example_fs. repeat apply after_consistent; try by (repeat constructor; lia).
  by apply fs_root_consistent.
Qed.

Lemma request_correct_witness :
  ∃ r s' w', do_request quiet example_fs (world_of [10; 0; 50]) = Ok r s' w' ∧ consistent s'.
Proof.
  destruct (request_correct quiet example_fs (world_of [10; 0; 50]) example_consistent
    ltac:(apply world_of_ok; repeat constructor; lia)) as (r & s' & w' & Hrun & _ & Hc & _).
  exists r, s', w'. split; [exact Hrun|exact Hc].
Defined.

Lemma deleteFile_correct_witness :
  files example_fs = ["/c"; "/a/a"] ∧
  ∃ s' w', deleteFile quiet "/c" example_fs (world_of []) = Ok 0 s' w' ∧ consistent s' ∧
    files s' ≡ₚ ["/a/a"].
Proof.
  assert (files example_fs = ["/c"; "/a/a"]) as Hf by (vm_compute; reflexivity).
  split; [exact Hf|].
  destruct (deleteFile_correct quiet example_fs (world_of []) "/c" example_consistent
    ltac:(rewrite Hf; by left)) as (s' & w' & Hrun & Hc & _ & _ & Hp & _).
  exists s', w'. split; [exact Hrun|]. split; [exact Hc|]. rewrite Hf in Hp. by apply (inj (cons "/c")) in Hp.
Defined.

Lemma writeFile_correct_witness :
  ∃ r s' w', writeFile quiet "/c" "x" example_fs (world_of []) = Ok r s' w' ∧ consistent s' ∧
    (r = -1 ∨ content s' "/c" = Some "x").
Proof.
  assert (files example_fs = ["/c"; "/a/a"]) as Hf by (vm_compute; reflexivity).
  destruct (writeFile_correct quiet example_fs (world_of []) "/c" "x" example_consistent
    ltac:(rewrite Hf; by left)) as (r & s' & w' & Hrun & Hc & Hcase).
  exists r, s', w'. split; [exact Hrun|]. split; [exact Hc|].
  destruct Hcase as [[? _]|(_ & Hin & _ & _ & _ & _ & Hg)]; [by left|right].
  rewrite (Hg "/c" Hin). rewrite decide_True; [reflexivity|reflexivity].
Defined.

Lemma fs_init_correct_witness :
  ∃ s', fs_init (fs_blank 8 8) (world_of []) = Ok tt s' (world_of []) ∧ consistent s'.
Proof.
  destruct (fs_init_correct 8 8 (world_of []) ltac:(lia) ltac:(lia)) as (s' & Hrun & Hc & _).
  exists s'. split; [exact Hrun|exact Hc].
Defined.
