(* ===== verification/Lfs.v ===== *)
(** * The log-structured file system: [file-lfs/lfs.py]

    Everything is a block of one log: data, directories, inodes, chunks of the
    inode map; block 0, the checkpoint region, points to the chunks. *)
From S2P Require Import Prelude PyStr PyRandom.
Open Scope Z_scope.

(** ** Blocks and state *)

Definition ADDR_CHECKPOINT_BLOCK : Z := 0.
Definition NUM_IMAP_PTRS_IN_CR : Z := 16.
Definition NUM_INODES_PER_IMAP_CHUNK : Z := 16.
Definition NUM_INODE_PTRS : Z := 8.
Definition NUM_INODES : Z := NUM_IMAP_PTRS_IN_CR * NUM_INODES_PER_IMAP_CHUNK.
Definition ROOT_INODE : Z := 0.

Inductive inode_type := INODE_DIRECTORY | INODE_REGULAR.
#[export] Instance inode_type_eq_dec : EqDecision inode_type.
Proof. solve_decision. Defined.

Record inode := Inode { type : inode_type; isize : Z; refs : Z; pointers : list Z }.

Inductive block :=
| BLOCK_TYPE_CHECKPOINT (entries : list Z)
| BLOCK_TYPE_DATA_DIRECTORY (entries : list (string * Z))
| BLOCK_TYPE_DATA_BLOCK (contents : string)
| BLOCK_TYPE_INODE (n : inode)
| BLOCK_TYPE_IMAP (entries : list Z).

Inductive policy := ALLOCATE_SEQUENTIAL | ALLOCATE_RANDOM.

Record config := Config {
  use_disk_cr : bool;
  no_force_checkpoints : bool;
  inode_policy : policy;
  solve : bool;
}.

Record lfs := Lfs {
  dump_last : Z;
  disk : list block;
  cr : list Z;
  inode_map : gmap Z Z;
  live : gmap Z bool;
  error_list : list string;
}.

#[export] Instance inode_settable : Settable inode := λ s, Inode (type s) (isize s) (refs s) (pointers s).
#[export] Instance lfs_settable : Settable lfs := λ s,
  Lfs (dump_last s) (disk s) (cr s) (inode_map s) (live s) (error_list s).

Section Lfs.
Context (cfg : config).

(** ** The log *)

Definition log (b : block) : M lfs Z :=
  s ← get;
  disk <~ (disk s ++ [b]);;
  mret (len (disk s)).

Definition make_inode (itype : inode_type) (size refs : Z) : inode :=
  Inode itype size refs [-1; -1; -1; -1; -1; -1; -1; -1].

Definition empty_entries : list (string * Z) := repeat ("-", -1) 8.
Definition make_empty_dirblock : block := BLOCK_TYPE_DATA_DIRECTORY empty_entries.
Definition make_new_dirblock (parent_inum current_inum : Z) : block :=
  BLOCK_TYPE_DATA_DIRECTORY (<[1%nat := ("..", parent_inum)]> (<[0%nat := (".", current_inum)]> empty_entries)).

Definition make_imap_chunk (cnum : Z) : M lfs block :=
  let start := cnum * NUM_INODES_PER_IMAP_CHUNK in
  s ← get;
  l ← for_acc (range start (start + NUM_INODES_PER_IMAP_CHUNK)) [] (λ l i,
    a ← dict_get (inode_map s) i; mret (l ++ [a]));
  mret (BLOCK_TYPE_IMAP l).

(** [chr(ord('a') + n)] *)
Definition letter (n : Z) : string := String (ascii_of_nat (97 + Z.to_nat n)) EmptyString.

Definition make_random_blocks {S} (num : Z) : M S (list string) :=
  for_acc (range 0 num) [] (λ contents i,
    k ← rand_int 26; mret (contents ++ [str_mul (letter k +:+ str_of_Z i) 16])).

Definition inum_to_chunk (inum : Z) : Z := int_div inum NUM_INODES_PER_IMAP_CHUNK.

(** ** Errors *)

Definition error_log (x : string) : M lfs unit := modify (λ s, s <| error_list ::= (.++ [x]) |>).
Definition error_clear : M lfs unit := error_list <~ [].
Definition error_dump : M lfs unit := s ← get; for_ (error_list s) (λ i, print ("  " +:+ i)).

(** [__init__] *)
Definition lfs_blank : lfs :=
  Lfs 1 [] (3 :: repeat (-1) 15) ∅ ∅ [].

Definition lfs_init : M lfs unit :=
  s ← get;
  passert (len (cr s) =? NUM_IMAP_PTRS_IN_CR);;
  log (BLOCK_TYPE_CHECKPOINT (cr s));;
  s ← get; passert (len (disk s) =? 1);;
  log (make_new_dirblock ROOT_INODE ROOT_INODE);;
  s ← get; passert (len (disk s) =? 2);;
  let root := make_inode INODE_DIRECTORY 1 2 in
  p ← list_set (pointers root) 0 1;
  root_inode_address ← log (BLOCK_TYPE_INODE (root <| pointers := p |>));
  s ← get; passert (len (disk s) =? 3);;
  inode_map <~ list_to_map ((λ i, (i, -1)) <$> range 0 NUM_INODES);;
  modify (λ s, s <| inode_map ::= <[ROOT_INODE := root_inode_address]> |>);;
  c ← make_imap_chunk ROOT_INODE;
  log c;;
  s ← get; passert (len (disk s) =? 4);;
  error_clear.

(** ** Printing *)

(** [inode['pointers']] of a block; other blocks lack the key. *)
Definition block_pointers (b : block) : M lfs (list Z) :=
  match b with BLOCK_TYPE_INODE n => mret (pointers n) | _ => raise KeyError end.

Definition determine_liveness : M lfs unit :=
  live <~ ∅;;
  s ← get;
  let mark i v := modify (λ s, s <| live ::= <[i := v]> |>) in
  for_ (range 0 (len (disk s))) (λ i, mark i false);;
  mark 0 true;;
  for_ (cr s) (λ ptr, when (negb (ptr =? -1)) (mark ptr true));;
  inodes ← for_acc (range 0 (Z.of_nat (size (inode_map s)))) [] (λ inodes i,
    a ← dict_get (inode_map s) i;
    if a =? -1 then mret inodes else mark a true;; mret (inodes ++ [i]));
  for_ inodes (λ i,
    a ← dict_get (inode_map s) i;
    b ← list_get (disk s) a;
    ps ← block_pointers b;
    for_ ps (λ ptr, mark ptr true)).

Definition str_of_type (t : inode_type) : string :=
  match t with INODE_DIRECTORY => "dir" | INODE_REGULAR => "reg" end.

(** An address, or two dashes *)
Definition put_ptr {S} (e : Z) : M S unit :=
  put_str (if e =? -1 then "-- " else str_of_Z e +:+ " ").

Definition dump_block (b : block) : M lfs unit :=
  match b with
  | BLOCK_TYPE_CHECKPOINT es => put_str "checkpoint: ";; for_ es put_ptr;; print ""
  | BLOCK_TYPE_DATA_DIRECTORY es =>
      for_ es (λ e, put_str (if e.2 =? -1 then "-- "
                             else "[" +:+ e.1 +:+ "," +:+ str_of_Z e.2 +:+ "] "));;
      print ""
  | BLOCK_TYPE_DATA_BLOCK c => print c
  | BLOCK_TYPE_INODE n =>
      put_str ("type:" +:+ str_of_type (type n) +:+ " size:" +:+ str_of_Z (isize n) +:+
               " refs:" +:+ str_of_Z (refs n) +:+ " ptrs: ");;
      for_ (pointers n) put_ptr;;
      print ""
  | BLOCK_TYPE_IMAP es => put_str "chunk(imap): ";; for_ es put_ptr;; print ""
  end.

Definition dump_range (start stop : Z) (show_liveness : bool) : M lfs unit :=
  determine_liveness;;
  for_ (range start stop) (λ i,
    s ← get;
    b ← list_get (disk s) i;
    put_str ("[ " +:+ fmt_d 3 i +:+ " ]");;
    (if show_liveness || solve cfg then
       l ← dict_get (live s) i; put_str (if l : bool then " live " else "      ")
     else put_str " ?    ");;
    dump_block b).

Definition dump (show_liveness : bool) : M lfs unit :=
  s ← get; dump_range 0 (len (disk s)) show_liveness.

Definition dump_partial (show_liveness show_checkpoint : bool) : M lfs unit :=
  when (show_checkpoint || negb (no_force_checkpoints cfg)) (dump_range 0 1 show_liveness);;
  when (negb (no_force_checkpoints cfg)) (print "...");;
  s ← get;
  dump_range (dump_last s) (len (disk s)) show_liveness;;
  s ← get;
  dump_last <~ len (disk s).

Definition dump_inode_map : M lfs unit :=
  s ← get;
  for_ (range 0 (Z.of_nat (size (inode_map s)))) (λ i,
    a ← dict_get (inode_map s) i;
    when (negb (a =? -1)) (print ("   " +:+ str_of_Z i +:+ " -> " +:+ str_of_Z a)));;
  print "".

(** ** Inodes *)

(** [allocate_inode]; the fuel bounds the draws of the random policy. *)
Definition allocate_inode (fuel : nat) : M lfs Z :=
  s ← get;
  let imap_len := Z.of_nat (size (inode_map s)) in
  match inode_policy cfg with
  | ALLOCATE_SEQUENTIAL =>
      r ← for_ret (range 0 imap_len) tt (λ _ i,
        s ← get;
        a ← dict_get (inode_map s) i;
        if a =? -1 then modify (λ s, s <| inode_map ::= <[i := 1]> |>);; mret (inr i)
        else mret (inl tt));
      mret (match r with inr i => i | inl _ => -1 end)
  | ALLOCATE_RANDOM =>
      r ← for_ret (range 0 imap_len) tt (λ _ i,
        a ← dict_get (inode_map s) i;
        mret (if a =? -1 then inr tt else inl tt));
      match r with
      | inl _ => mret (-1)
      | inr _ =>
          while_ fuel tt (λ _,
            index ← rand_int imap_len;
            a ← dict_get (inode_map s) index;
            if a =? -1 then modify (λ s, s <| inode_map ::= <[index := 1]> |>);; mret (inr index)
            else mret (inl tt))
      end
  end.

Definition free_inode (inum : Z) : M lfs unit :=
  s ← get;
  a ← dict_get (inode_map s) inum;
  passert (negb (a =? -1));;
  modify (λ s, s <| inode_map ::= <[inum := -1]> |>).

Definition remap (inode_number inode_address : Z) : M lfs unit :=
  modify (λ s, s <| inode_map ::= <[inode_number := inode_address]> |>).

(** [disk[ADDR_CHECKPOINT_BLOCK] = ...] *)
Definition cr_sync : M lfs Z :=
  s ← get;
  d ← list_set (disk s) ADDR_CHECKPOINT_BLOCK (BLOCK_TYPE_CHECKPOINT (cr s));
  disk <~ d;;
  mret 0.

Definition as_checkpoint (b : block) : M lfs (list Z) :=
  match b with BLOCK_TYPE_CHECKPOINT es => mret es | _ => raise AssertionError end.
Definition as_imap (b : block) : M lfs (list Z) :=
  match b with BLOCK_TYPE_IMAP es => mret es | _ => raise AssertionError end.
Definition as_inode (b : block) : M lfs inode :=
  match b with BLOCK_TYPE_INODE n => mret n | _ => raise AssertionError end.
Definition as_dirblock (b : block) : M lfs (list (string * Z)) :=
  match b with BLOCK_TYPE_DATA_DIRECTORY es => mret es | _ => raise AssertionError end.

Definition inode_address (inode_number : Z) : M lfs Z :=
  let imap_entry_index := int_div inode_number NUM_INODES_PER_IMAP_CHUNK in
  let imap_entry_offset := inode_number mod NUM_INODES_PER_IMAP_CHUNK in
  s ← get;
  if use_disk_cr cfg then
    b ← list_get (disk s) ADDR_CHECKPOINT_BLOCK;
    es ← as_checkpoint b;
    imap_block_address ← list_get es imap_entry_index;
    b ← list_get (disk s) imap_block_address;
    es ← as_imap b;
    list_get es imap_entry_offset
  else dict_get (inode_map s) inode_number.

Definition get_inode_from_inumber (inode_number : Z) : M lfs inode :=
  a ← inode_address inode_number;
  passert (negb (a =? -1));;
  s ← get;
  b ← list_get (disk s) a;
  as_inode b.

(** ** Paths *)

Definition lookup (parent_inode_number : Z) (name : string) : M lfs (Z * inode) :=
  parent_inode ← get_inode_from_inumber parent_inode_number;
  passert (bool_decide (type parent_inode = INODE_DIRECTORY));;
  s ← get;
  r ← for_ret (pointers parent_inode) tt (λ _ address,
    if address =? -1 then mret (inl tt)
    else
      b ← list_get (disk s) address;
      es ← as_dirblock b;
      for_ret es tt (λ _ e, mret (if bool_decide (e.1 = name) then inr e.2 else inl tt)));
  mret (match r with inr inum => inum | inl _ => -1 end, parent_inode).

(** A path of which the parent exists: inode number or [-1], last name,
    number and inode of the parent.  [None] is the error answer, [-1] with
    empty strings for the name and the inode. *)
Definition walk : Type := option (Z * string * Z * inode).

Definition walk_path (path : string) : M lfs walk :=
  let split_path := split_on "/" path in
  first ← list_get split_path 0;
  if bool_decide (first ≠ "") then
    error_log "path malformed: must start with /";; mret None
  else
    r ← for_ret (range 1 (len split_path - 1)) ROOT_INODE (λ parent_inode_number i,
      name ← list_get split_path i;
      p ← lookup parent_inode_number name;
      if p.1 =? -1 then
        error_log ("directory " +:+ name +:+ " not found");; mret (inr tt)
      else if bool_decide (type p.2 ≠ INODE_DIRECTORY) then
        error_log ("invalid element of path [" +:+ name +:+ "] (not a dir)");; mret (inr tt)
      else mret (inl p.1));
    match r with
    | inr _ => mret None
    | inl parent_inode_number =>
        file_name ← list_get split_path (len split_path - 1);
        p ← lookup parent_inode_number file_name;
        mret (Some (p.1, file_name, parent_inode_number, p.2))
    end.

Definition walked_inum (r : walk) : Z := match r with Some (i, _, _, _) => i | None => -1 end.

(** [self.log(self.make_imap_chunk(cnum)); self.cr[cnum] = len(self.disk) - 1] *)
Definition log_chunk (cnum : Z) : M lfs unit :=
  c ← make_imap_chunk cnum;
  log c;;
  s ← get;
  l ← list_set (cr s) cnum (len (disk s) - 1);
  cr <~ l.

Definition update_imap (inum_list : list Z) : M lfs unit :=
  _ ← for_acc inum_list [] (λ chunk_list inum,
    let cnum := inum_to_chunk inum in
    if bool_decide (cnum ∈ chunk_list) then mret chunk_list
    else
      log_chunk cnum;; mret (chunk_list ++ [cnum]));
  mret ().

(** ** Directories *)

Definition read_dirblock (n : inode) (index : Z) : M lfs block :=
  p ← list_get (pointers n) index; s ← get; list_get (disk s) p.

Definition find_matching_dir_slot (name : string) (n : inode) : M lfs (Z * Z) :=
  r ← for_ret (range 0 (isize n)) tt (λ _ inode_index,
    b ← read_dirblock n inode_index;
    es ← as_dirblock b;
    for_ret (range 0 (len es)) tt (λ _ slot_index,
      e ← list_get es slot_index;
      mret (if bool_decide (e.1 = name) then inr (inode_index, slot_index) else inl tt)));
  mret (match r with inr p => p | inl _ => (-1, -1) end).

(** The answer is the pointer to update, the new size, and the entries of the
    new block; [None] stands for [-1, -1, {}]. *)
Definition add_dir_entry (parent_inode : inode) (file_name : string) (inode_number : Z)
    : M lfs (option (Z * Z * list (string * Z))) :=
  p ← find_matching_dir_slot "-" parent_inode;
  if negb (p.1 =? -1) then
    b ← read_dirblock parent_inode p.1;
    es ← as_dirblock b;
    es ← list_set es p.2 (file_name, inode_number);
    mret (Some (p.1, isize parent_inode, es))
  else if negb (isize parent_inode =? NUM_INODE_PTRS) then
    mret (Some (isize parent_inode, isize parent_inode + 1,
                <[0%nat := (file_name, inode_number)]> empty_entries))
  else mret None.

(** ** Operations *)

Definition sync_if_forced : M lfs unit :=
  when (negb (no_force_checkpoints cfg)) (cr_sync;; mret tt).

Definition file_create_ (fuel : nat) (path : string) (is_file : bool) : M lfs Z :=
  r ← walk_path path;
  if negb (walked_inum r =? -1) then
    error_log "create failed: file already exists";; mret (-1)
  else
    match r with
    | None => error_log ("create failed: walkpath returned error [" +:+ path +:+ "]");; mret (-1)
    | Some (_, file_name, parent_inode_number, parent_inode) =>
        new_inode_number ← allocate_inode fuel;
        if new_inode_number =? -1 then
          error_log "create failed: no more inodes available";; mret (-1)
        else
          e ← add_dir_entry parent_inode file_name new_inode_number;
          match e with
          | None =>
              error_log ("error: directory is full (path " +:+ path +:+ ")");;
              free_inode new_inode_number;;
              mret (-1)
          | Some (index_to_update, parent_size, new_entries) =>
              new_directory_block_address ← log (BLOCK_TYPE_DATA_DIRECTORY new_entries);
              ptrs ← list_set (pointers parent_inode) index_to_update new_directory_block_address;
              let new_parent_inode := Inode (type parent_inode) parent_size
                (if is_file then refs parent_inode else refs parent_inode + 1) ptrs in
              new_inode ← (if is_file then mret (make_inode INODE_REGULAR 0 1)
                           else
                             log (make_new_dirblock parent_inode_number new_inode_number);;
                             s ← get;
                             let n := make_inode INODE_DIRECTORY 1 2 in
                             p ← list_set (pointers n) 0 (len (disk s) - 1);
                             mret (n <| pointers := p |>));
              new_parent_inode_address ← log (BLOCK_TYPE_INODE new_parent_inode);
              new_inode_address ← log (BLOCK_TYPE_INODE new_inode);
              remap parent_inode_number new_parent_inode_address;;
              remap new_inode_number new_inode_address;;
              update_imap [parent_inode_number; new_inode_number];;
              sync_if_forced;;
              mret 0
          end
    end.

Definition file_create (fuel : nat) (path : string) : M lfs Z :=
  error_clear;; file_create_ fuel path true.
Definition dir_create (fuel : nat) (path : string) : M lfs Z :=
  error_clear;; file_create_ fuel path false.

Definition file_link (srcpath dstpath : string) : M lfs Z :=
  error_clear;;
  src ← walk_path srcpath;
  if walked_inum src =? -1 then
    error_log ("link failed, src [" +:+ srcpath +:+ "] not found");; mret (-1)
  else
    let src_inode_number := walked_inum src in
    src_inode ← get_inode_from_inumber src_inode_number;
    if bool_decide (type src_inode ≠ INODE_REGULAR) then
      error_log ("link failed: cannot link to non-regular file [" +:+ srcpath +:+ "]");; mret (-1)
    else
      dst ← walk_path dstpath;
      if negb (walked_inum dst =? -1) then
        error_log ("link failed, dst [" +:+ dstpath +:+ "] exists");; mret (-1)
      else
        (* the error answer's inode is a string, which has no field *)
        d ← of_option TypeError dst;
        let '(_, dst_file_name, dst_parent_inode_number, dst_parent_inode) := d in
        e ← add_dir_entry dst_parent_inode dst_file_name src_inode_number;
        match e with
        | None => error_log ("error: directory is full [path " +:+ dstpath +:+ "]");; mret (-1)
        | Some (dst_index_to_update, dst_parent_size, new_entries) =>
            new_directory_block_address ← log (BLOCK_TYPE_DATA_DIRECTORY new_entries);
            ptrs ← list_set (pointers dst_parent_inode) dst_index_to_update new_directory_block_address;
            new_dst_parent_inode_address ←
              log (BLOCK_TYPE_INODE (dst_parent_inode <| isize := dst_parent_size |> <| pointers := ptrs |>));
            new_src_inode_address ← log (BLOCK_TYPE_INODE (src_inode <| refs ::= Z.succ |>));
            remap dst_parent_inode_number new_dst_parent_inode_address;;
            remap src_inode_number new_src_inode_address;;
            update_imap [dst_parent_inode_number];;
            sync_if_forced;;
            mret 0
        end.

(** The pairs of an offset in the file and the address of its new block *)
Definition plan_writes (offset num current_log_ptr : Z) : M lfs (Z * list (Z * Z)) :=
  while_ 9 (offset, current_log_ptr, []) (λ '(current_offset, current_log_ptr, potential_writes),
    if (current_offset <? NUM_INODE_PTRS) && (current_offset <? offset + num) then
      mret (inl (current_offset + 1, current_log_ptr + 1,
                 potential_writes ++ [(current_offset, current_log_ptr)]))
    else mret (inr (current_offset, potential_writes))).

Definition file_write (path : string) (offset num_blks : Z) : M lfs Z :=
  error_clear;;
  contents ← make_random_blocks num_blks;
  r ← walk_path path;
  if walked_inum r =? -1 then
    error_log ("write failed: file not found [path " +:+ path +:+ "]");; mret (-1)
  else
    let inode_number := walked_inum r in
    inode ← get_inode_from_inumber inode_number;
    if bool_decide (type inode ≠ INODE_REGULAR) then
      error_log ("write failed: cannot write to non-regular file " +:+ path);; mret (-1)
    else if (offset <? 0) || (NUM_INODE_PTRS <=? offset) then
      error_log ("write failed: bad offset " +:+ str_of_Z offset);; mret (-1)
    else
      s ← get;
      p ← plan_writes offset (len contents) (len (disk s));
      let current_offset := p.1 in
      let potential_writes := p.2 in
      for_ (range 0 (len potential_writes)) (λ i,
        c ← list_get contents i; log (BLOCK_TYPE_DATA_BLOCK c);; mret tt);;
      ptrs ← for_acc potential_writes (pointers inode) (λ ptrs w, list_set ptrs w.1 w.2);
      new_inode_address ← log (BLOCK_TYPE_INODE
        (inode <| isize := Z.max current_offset (isize inode) |> <| pointers := ptrs |>));
      remap inode_number new_inode_address;;
      log_chunk (inum_to_chunk inode_number);;
      sync_if_forced;;
      mret (current_offset - offset).

Definition file_delete (path : string) : M lfs Z :=
  error_clear;;
  r ← walk_path path;
  match r with
  | Some (inode_number, file_name, parent_inode_number, parent_inode) =>
      if inode_number =? -1 then
        error_log ("delete failed: file not found [" +:+ path +:+ "]");; mret (-1)
      else
        inode ← get_inode_from_inumber inode_number;
        if bool_decide (type inode ≠ INODE_REGULAR) then
          error_log ("delete failed: cannot delete non-regular file [" +:+ path +:+ "]");; mret (-1)
        else
          when (refs inode =? 1) (free_inode inode_number);;
          slot ← find_matching_dir_slot file_name parent_inode;
          passert (negb (slot.1 =? -1));;
          b ← read_dirblock parent_inode slot.1;
          es ← as_dirblock b;
          es ← list_set es slot.2 ("-", -1);
          dir_addr ← log (BLOCK_TYPE_DATA_DIRECTORY es);
          ptrs ← list_set (pointers parent_inode) slot.1 dir_addr;
          new_parent_inode_addr ← log (BLOCK_TYPE_INODE (parent_inode <| pointers := ptrs |>));
          remap parent_inode_number new_parent_inode_addr;;
          when (1 <? refs inode)
            (new_inode_addr ← log (BLOCK_TYPE_INODE (inode <| refs ::= Z.pred |>));
             remap inode_number new_inode_addr);;
          update_imap [inode_number; parent_inode_number];;
          sync_if_forced;;
          mret 0
  | None => error_log ("delete failed: file not found [" +:+ path +:+ "]");; mret (-1)
  end.

Definition sync : M lfs Z := error_clear;; cr_sync.
End Lfs.

(** ** The command generator *)

(** [pick_random] answers [''] on an empty list. *)
Definition pick_random {S} (l : list string) : M S string :=
  if len l =? 0 then mret "" else rand_pick l.

Definition make_random_file_name {S} (parent_dir : string) : M S string :=
  k1 ← rand_int 26;
  k2 ← rand_int 26;
  k3 ← rand_int 10;
  let n := letter k1 +:+ letter k2 +:+ str_of_Z k3 in
  mret (if bool_decide (parent_dir = "/") then "/" +:+ n else parent_dir +:+ "/" +:+ n).

(** The ranges of [random.random()], in hundredths, of the six commands *)
Definition percents : Type := gmap string (Z * Z).

Definition cmd_letters : list string := ["c"; "w"; "d"; "r"; "l"; "s"].

(** [p[0]] and [int(p[1:])] of one part *)
Definition percent_part {S} (p : string) : M S (string * Z) :=
  match p with
  | EmptyString => raise IndexError
  | String c rest => v ← py_int rest; mret (String c EmptyString, v)
  end.

Definition process_percentages {S} (percentages : string) : M S percents :=
  let tmp := split_on "," percentages in
  csum ← for_acc tmp 0 (λ csum p,
    cv ← percent_part p;
    if cv.2 <? 0 then print "percentages must be positive or zero";; raise (SystemExit 1)
    else mret (csum + cv.2));
  when (negb (csum =? 100))
    (print "percentages do not add to 100";; raise (SystemExit 1));;
  let p_array := list_to_map ((λ c, (c, (0, 0))) <$> cmd_letters) in
  r ← for_acc tmp (0, p_array) (λ '(csum, p_array) p,
    cv ← percent_part p;
    if bool_decide (cv.1 ∈ cmd_letters) then
      mret (csum + cv.2, <[cv.1 := (csum, csum + cv.2)]> p_array)
    else print ("bad command " +:+ cv.1);; raise (SystemExit 1));
  mret r.2.

(** [chances >= percents[c][0] and chances < percents[c][1]] *)
Definition in_percent {S} (ps : percents) (c : string) (chances : Z) : M S bool :=
  r ← dict_get ps c;
  mret (negb (draw_lt r.1 100 chances) && draw_lt r.2 100 chances).

Record generator := Generator {
  g_commands : Z;              (** [num_commands] *)
  command_list : string;
  existing_files : list string;
  existing_dirs : list string;
}.
#[export] Instance generator_settable : Settable generator := λ s,
  Generator (g_commands s) (command_list s) (existing_files s) (existing_dirs s).

(** One iteration: the command, or [None] on [continue] *)
Definition make_command (ps : percents) : M generator (option string) :=
  chances ← random;
  g ← get;
  c ← in_percent ps "c" chances;
  if c : bool then
    pdir ← pick_random (existing_dirs g);
    if bool_decide (pdir = "") then mret None
    else
      nfile ← make_random_file_name pdir;
      modify (λ g, g <| existing_files ::= (.++ [nfile]) |>);;
      mret (Some ("c," +:+ nfile))
  else
  w ← in_percent ps "w" chances;
  if w : bool then
    pfile ← pick_random (existing_files g);
    if bool_decide (pfile = "") then mret None
    else
      woff ← rand_int 8;
      wlen ← rand_int 8;
      mret (Some ("w," +:+ pfile +:+ "," +:+ str_of_Z woff +:+ "," +:+ str_of_Z wlen))
  else
  d ← in_percent ps "d" chances;
  if d : bool then
    pdir ← pick_random (existing_dirs g);
    if bool_decide (pdir = "") then mret None
    else
      ndir ← make_random_file_name pdir;
      modify (λ g, g <| existing_dirs ::= (.++ [ndir]) |>);;
      mret (Some ("d," +:+ ndir))
  else
  r ← in_percent ps "r" chances;
  if r : bool then
    if len (existing_files g) =? 0 then mret None
    else
      index ← rand_int (len (existing_files g));
      f ← list_get (existing_files g) index;
      l ← list_pop (existing_files g) index;
      existing_files <~ l.2;;
      mret (Some ("r," +:+ f))
  else
  l ← in_percent ps "l" chances;
  if l : bool then
    if len (existing_files g) =? 0 then mret None
    else
      index ← rand_int (len (existing_files g));
      pdir ← pick_random (existing_dirs g);
      if bool_decide (pdir = "") then mret None
      else
        nfile ← make_random_file_name pdir;
        f ← list_get (existing_files g) index;
        modify (λ g, g <| existing_files ::= (.++ [nfile]) |>);;
        mret (Some ("l," +:+ f +:+ "," +:+ nfile))
  else
  s ← in_percent ps "s" chances;
  if s : bool then mret (Some "s")
  else print "abort: internal error with percent operations";; raise (SystemExit 1).

Definition make_command_list (fuel : nat) (ps : percents) : M generator string :=
  while_ fuel tt (λ _,
    g ← get;
    if 0 <? g_commands g then
      c ← make_command ps;
      match c with
      | None => mret (inl tt)
      | Some command =>
          modify (λ g, g <| command_list ::= λ cl,
            if bool_decide (cl = "") then command else cl +:+ ":" +:+ command |>);;
          modify (λ g, g <| g_commands ::= Z.pred |>);;
          mret (inl tt)
      end
    else mret (inr (command_list g))).

(** ** The main program *)

Record shell := Shell {
  L : lfs;
  files_that_exist : list string;
  dirs_that_exist : list string;
  rc : option Z;                 (** unset before the first command *)
}.
#[export] Instance shell_settable : Settable shell := λ s,
  Shell (L s) (files_that_exist s) (dirs_that_exist s) (rc s).

Record shell_options := ShellOptions {
  print_operation : bool;
  print_intermediate : bool;
  show_return_codes : bool;
}.

Definition on_lfs {A} (m : M lfs A) : M shell A := zoom L (λ l s, s <| L := l |>) m.

(** [f] is among [files_that_exist] after a delete: forget it *)
Definition forget_file (f : string) : M shell unit :=
  s ← get;
  match list_find (f =.) (files_that_exist s) with
  | Some (i, _) => files_that_exist <~ delete i (files_that_exist s)
  | None => print ("warning: cannot find file " +:+ f)
  end.

Definition run_operation (cfg : config) (o : shell_options) (fuel : nat) (args : list string) : M shell unit :=
  let say x := when (print_operation o) (put_str x) in
  let set_rc r := rc <~ Some r in
  c ← list_get args 0;
  if bool_decide (c = "c") then
    passert (len args =? 2);; p ← list_get args 1;
    say ("create file " +:+ p +:+ " ");;
    r ← on_lfs (file_create cfg fuel p); set_rc r;;
    when (r =? 0) (modify (λ s, s <| files_that_exist ::= (.++ [p]) |>))
  else if bool_decide (c = "d") then
    passert (len args =? 2);; p ← list_get args 1;
    say ("create dir  " +:+ p +:+ " ");;
    r ← on_lfs (dir_create cfg fuel p); set_rc r;;
    when (r =? 0) (modify (λ s, s <| dirs_that_exist ::= (.++ [p]) |>))
  else if bool_decide (c = "r") then
    passert (len args =? 2);; p ← list_get args 1;
    say ("delete file " +:+ p +:+ " ");;
    r ← on_lfs (file_delete cfg p); set_rc r;;
    when (r =? 0) (forget_file p)
  else if bool_decide (c = "l") then
    passert (len args =? 3);; p ← list_get args 1; q ← list_get args 2;
    say ("link file   " +:+ p +:+ " " +:+ q +:+ " ");;
    r ← on_lfs (file_link cfg p q); set_rc r;;
    when (r =? 0) (modify (λ s, s <| files_that_exist ::= (.++ [q]) |>))
  else if bool_decide (c = "w") then
    passert (len args =? 4);;
    p ← list_get args 1; a ← list_get args 2; b ← list_get args 3;
    when (print_operation o)
      (x ← py_int a; y ← py_int b;
       put_str ("write file  " +:+ p +:+ " offset=" +:+ str_of_Z x +:+ " size=" +:+ str_of_Z y +:+ " "));;
    x ← py_int a; y ← py_int b;
    r ← on_lfs (file_write cfg p x y); set_rc r
  else if bool_decide (c = "s") then
    say "sync ";;
    r ← on_lfs sync; set_rc r
  else print ("command not understood so skipping [" +:+ c +:+ "]").

(** The body of the loop over [commands] *)
Definition run_command (cfg : config) (o : shell_options) (fuel : nat) (command : string) : M shell unit :=
  let args := split_on "," command in
  run_operation cfg o fuel args;;
  when (negb (print_operation o)) (put_str "command? ");;
  when (print_intermediate o)
    (print "";; print "";;
     c ← list_get args 0;
     on_lfs (dump_partial cfg false (bool_decide (c = "s")));;
     print "");;
  if show_return_codes o then
    s ← get;
    r ← of_option NameError (rc s);
    print ("-> " +:+ str_of_Z r);;
    on_lfs (error_dump)
  else print "".

Definition main (cfg : config) (o : shell_options) (no_final show_live_paths : bool) (fuel : nat)
    (commands : string) : M shell unit :=
  print "";;
  print "INITIAL file system contents:";;
  on_lfs (dump cfg true);;
  on_lfs (dump_last <~ 4);;
  print "";;
  when (bool_decide (commands ≠ ""))
    (for_ (split_on ":" commands) (run_command cfg o fuel));;
  if no_final : bool then print ""
  else
    print "";;
    print "FINAL file system contents:";;
    on_lfs (dump cfg false);;
    print "";;
    when show_live_paths
      (s ← get;
       let repr l := "[" +:+ join ", " ((λ x, "'" +:+ x +:+ "'") <$> l) +:+ "]" in
       print ("Live directories:  " +:+ repr (dirs_that_exist s));;
       print ("Live files:  " +:+ repr (files_that_exist s));;
       print "").

(** ** The log only grows *)

(** Every block but the checkpoint region stays as it was written. *)
Record grows (s s' : lfs) : Prop := {
  gr_len : (length (disk s) ≤ length (disk s'))%nat;
  gr_blocks : ∀ i b, i ≠ 0%nat → disk s !! i = Some b → disk s' !! i = Some b;
  gr_first : disk s' !! 0%nat = disk s !! 0%nat ∨ disk s = [] ∨
    ∃ es, disk s' !! 0%nat = Some (BLOCK_TYPE_CHECKPOINT es);
}.

#[export] Instance grows_preorder : PreOrder grows.
Proof.
  split.
  - intros s. by split; [..|left].
  - intros s1 s2 s3 [Hl Hb Hf] [Hl' Hb' Hf']. split; [lia|auto|].
    destruct Hf' as [->|[Hnil|?]]; [done| |auto].
    destruct Hf as [Hf|[?|(es & Hf)]]; [|auto|by rewrite Hnil in Hf].
    right. left. rewrite Hnil in Hl. destruct (disk s1); [done|simpl in Hl; lia].
Qed.

Lemma grows_same s s' : disk s' = disk s → grows s s'.
Proof. intros Hd. split; rewrite Hd; auto. Qed.

Lemma keeps_grows_modify f : (∀ s, disk (f s) = disk s) → keeps grows (modify f).
Proof. intros Hf. apply keeps_modify. intros s. by apply grows_same. Qed.

Lemma keeps_grows_log b : keeps grows (log b).
Proof.
  intros s w. unfold log. simpl. split; simpl.
  - rewrite length_app. lia.
  - intros i x _ Hi. by apply lookup_app_l_Some.
  - destruct (disk s); [auto|by left].
Qed.

Lemma keeps_grows_cr_sync : keeps grows cr_sync.
Proof.
  intros s w. unfold cr_sync, list_set, ADDR_CHECKPOINT_BLOCK, get, mbind, M_bind. simpl.
  destruct (disk s) as [|b d] eqn:Hd; simpl; [by apply grows_same|].
  split; simpl; rewrite Hd; simpl; [done| |by eauto].
  intros [|i] x Hi; done.
Qed.

#[export] Hint Resolve keeps_grows_log keeps_grows_cr_sync : keeps.
#[export] Hint Extern 2 (keeps grows (modify _)) => (apply keeps_grows_modify; done) : keeps.

Section Grows.
Context (cfg : config).

Ltac unfold_reads :=
  unfold get_inode_from_inumber, inode_address, as_checkpoint, as_imap, as_inode, as_dirblock,
    dict_get, list_get, list_set, list_pop, py_int, rand_int, read_dirblock, print, error_log,
    error_clear, remap, block_pointers, put_ptr.

Lemma grows_make_imap_chunk c : keeps grows (make_imap_chunk c).
Proof. unfold make_imap_chunk. unfold_reads. keeps_solve. Qed.

Lemma grows_log_chunk c : keeps grows (log_chunk c).
Proof.
  unfold log_chunk. apply keeps_bind; [exact _|apply grows_make_imap_chunk|].
  unfold_reads. keeps_solve.
Qed.
#[local] Hint Resolve grows_log_chunk : keeps.

Lemma grows_get_inode i : keeps grows (get_inode_from_inumber cfg i).
Proof. unfold_reads. keeps_solve. Qed.

Lemma grows_walk_path path : keeps grows (walk_path cfg path).
Proof. unfold walk_path, lookup. unfold_reads. keeps_solve. Qed.

Lemma grows_update_imap l : keeps grows (update_imap l).
Proof. unfold update_imap. unfold_reads. keeps_solve. Qed.

Lemma grows_find_slot name n : keeps grows (find_matching_dir_slot name n).
Proof. unfold find_matching_dir_slot. unfold_reads. keeps_solve. Qed.

Lemma grows_add_dir_entry n name i : keeps grows (add_dir_entry n name i).
Proof.
  unfold add_dir_entry. apply keeps_bind; [exact _|apply grows_find_slot|].
  unfold_reads. keeps_solve.
Qed.

Lemma grows_allocate fuel : keeps grows (allocate_inode cfg fuel).
Proof. unfold allocate_inode. unfold_reads. keeps_solve. Qed.

Lemma grows_free_inode i : keeps grows (free_inode i).
Proof. unfold free_inode. unfold_reads. keeps_solve. Qed.

Lemma grows_sync_if_forced : keeps grows (sync_if_forced cfg).
Proof. unfold sync_if_forced. keeps_solve. Qed.

Lemma grows_random_blocks n : keeps grows (make_random_blocks (S:=lfs) n).
Proof. unfold make_random_blocks. unfold_reads. keeps_solve. Qed.

Lemma grows_plan o n p : keeps grows (plan_writes o n p).
Proof. unfold plan_writes. keeps_solve. Qed.

#[local] Hint Resolve grows_make_imap_chunk grows_get_inode grows_walk_path grows_update_imap
  grows_add_dir_entry grows_find_slot grows_allocate grows_free_inode grows_sync_if_forced
  grows_random_blocks grows_plan : keeps.

Lemma grows_file_create fuel path is_file : keeps grows (file_create_ cfg fuel path is_file).
Proof. unfold file_create_, error_log, remap, list_set. keeps_solve. Qed.

Lemma grows_file_link src dst : keeps grows (file_link cfg src dst).
Proof. unfold file_link, error_log, error_clear, remap, list_set. keeps_solve. Qed.

Lemma grows_file_write path offset n : keeps grows (file_write cfg path offset n).
Proof. unfold file_write, error_log, error_clear, remap, list_set, list_get. keeps_solve. Qed.

Lemma grows_file_delete path : keeps grows (file_delete cfg path).
Proof.
  unfold file_delete, error_log, error_clear, remap, list_set, read_dirblock, list_get, as_dirblock. keeps_solve.
Qed.

Lemma grows_determine_liveness : keeps grows determine_liveness.
Proof. unfold determine_liveness. unfold_reads. keeps_solve. Qed.

Lemma grows_dump_range a b l : keeps grows (dump_range cfg a b l).
Proof.
  unfold dump_range. apply keeps_bind; [exact _|apply grows_determine_liveness|].
  unfold dump_block. unfold_reads. keeps_solve.
Qed.

#[local] Hint Resolve grows_file_create grows_file_link grows_file_write grows_file_delete
  grows_dump_range : keeps.

Lemma grows_shell {A} (m : M lfs A) : keeps grows m → keeps (λ s s', grows (L s) (L s')) (on_lfs m).
Proof. apply keeps_zoom. done. Qed.

#[local] Instance shell_preorder : PreOrder (λ s s' : shell, grows (L s) (L s')).
Proof. split; [intros s; reflexivity|intros s1 s2 s3 ??; by etrans]. Qed.

Lemma keeps_shell_modify f : (∀ s, L (f s) = L s) → keeps (λ s s', grows (L s) (L s')) (modify f).
Proof. intros Hf. apply keeps_modify. intros s. by rewrite Hf. Qed.

#[local] Hint Extern 2 (keeps _ (modify _)) => (apply keeps_shell_modify; done) : keeps.

Ltac shell_solve :=
  repeat (first [keeps_step | apply grows_shell; unfold file_create, dir_create, sync, dump, dump_partial,
    error_clear, error_dump, print]).

(** C10: the file system is log structured.  Whatever commands the simulator is
    given, and also when it stops with an exception, every block it ever wrote
    is still there, unchanged, at the same address: only block 0 is
    overwritten, and only by a checkpoint region. *)
Theorem log_is_append_only o no_final show_live_paths fuel commands s w :
  match main cfg o no_final show_live_paths fuel commands s w with
  | Ok _ s' _ | Raise _ s' _ => grows (L s) (L s')
  | OutOfFuel => True
  end.
Proof.
  assert (keeps (λ s s', grows (L s) (L s')) (main cfg o no_final show_live_paths fuel commands)) as Hk.
  2: { specialize (Hk s w). by destruct (main _ _ _ _ _ _ _ _). }
  unfold main, run_command, run_operation, forget_file, print, list_get, py_int. shell_solve.
Qed.
End Grows.

(** ** Well-formed file systems *)

(** A directory block: a named entry holds an inode number. *)
Definition entries_ok (es : list (string * Z)) : Prop :=
  length es = 8%nat ∧ ∀ e, e ∈ es → e = ("-", -1) ∨ 0 ≤ e.2 < NUM_INODES.

(** Slot [y] of block [x] of the directory with inode [n] holds entry [e]. *)
Definition entry_at (d : list block) (n : inode) (x y : nat) (e : string * Z) : Prop :=
  ∃ k es, pointers n !! x = Some (Z.of_nat k) ∧
    d !! k = Some (BLOCK_TYPE_DATA_DIRECTORY es) ∧ es !! y = Some e.

(** The directory has name [nm] for inode [i]. *)
Definition holds (d : list block) (n : inode) (nm : string) (i : Z) : Prop :=
  ∃ x y, entry_at d n x y (nm, i).

Record inode_ok (d : list block) (n : inode) : Prop := {
  io_pointers : length (pointers n) = 8%nat;
  io_size : 0 ≤ isize n ≤ NUM_INODE_PTRS;
  io_dir : type n = INODE_DIRECTORY → ∀ (x : nat) p, pointers n !! x = Some p →
    (p = -1 ∧ isize n ≤ Z.of_nat x) ∨
    (Z.of_nat x < isize n ∧
     ∃ k es, p = Z.of_nat k ∧ d !! k = Some (BLOCK_TYPE_DATA_DIRECTORY es) ∧ entries_ok es);
  io_unique : type n = INODE_DIRECTORY → ∀ nm i i' x y x' y', nm ≠ "-" →
    entry_at d n x y (nm, i) → entry_at d n x' y' (nm, i') → x = x' ∧ y = y';
}.

(** Inode [i] is [n], according to the map in memory. *)
Definition inode_at (s : lfs) (i : Z) (n : inode) : Prop :=
  ∃ k, inode_map s !! i = Some (Z.of_nat k) ∧ disk s !! k = Some (BLOCK_TYPE_INODE n).

(** What an allocated entry of the inode map points to *)
Definition good_address (d : list block) (a : Z) : Prop :=
  ∃ k n, a = Z.of_nat k ∧ d !! k = Some (BLOCK_TYPE_INODE n) ∧ inode_ok d n.

Record wf (s : lfs) : Prop := {
  wf_cr : length (cr s) = 16%nat;
  wf_cp : ∃ es, disk s !! 0%nat = Some (BLOCK_TYPE_CHECKPOINT es);
  wf_size : size (inode_map s) = 256%nat;
  wf_has : has NUM_INODES (inode_map s);
  wf_inodes : ∀ i a, inode_map s !! i = Some a → a ≠ -1 → good_address (disk s) a;
}.

(** The chunk of the inode map on disk is right about inode [i]. *)
Definition synced_at (s : lfs) (i : Z) : Prop := ∀ a, inode_map s !! i = Some a →
  (a = -1 ∧ cr s !! Z.to_nat (i / 16) = Some (-1)) ∨
  ∃ k es, cr s !! Z.to_nat (i / 16) = Some (Z.of_nat k) ∧
    disk s !! k = Some (BLOCK_TYPE_IMAP es) ∧ es !! Z.to_nat (i mod 16) = Some a.

(** Everything in memory can be found again from the disk: the inode map from
    the chunks the checkpoint region in memory points to and, when checkpoints
    are forced, that region from block 0. *)
Record recoverable (cfg : config) (s : lfs) : Prop := {
  rec_wf : wf s;
  rec_synced : ∀ i, 0 ≤ i < NUM_INODES → synced_at s i;
  rec_checkpoint : no_force_checkpoints cfg = false →
    disk s !! 0%nat = Some (BLOCK_TYPE_CHECKPOINT (cr s));
}.

(** Nothing but messages and the liveness table differs. *)
Definition same_fs (s s' : lfs) : Prop :=
  disk s' = disk s ∧ cr s' = cr s ∧ inode_map s' = inode_map s.

#[export] Instance same_fs_equiv : Equivalence same_fs.
Proof.
  split; unfold same_fs; [done|by intros s s' (-> & -> & ->)|by intros s1 s2 s3 (-> & -> & ->) (-> & -> & ->)].
Qed.

#[export] Instance inode_at_proper : Proper (same_fs ==> eq ==> eq ==> iff) inode_at.
Proof. intros s s' (Hd & _ & Hm) i _ <- n _ <-. unfold inode_at. by rewrite Hd, Hm. Qed.

#[export] Instance wf_proper : Proper (same_fs ==> iff) wf.
Proof.
  assert (∀ s s', same_fs s s' → wf s → wf s') as Hi.
  { intros s s' (Hd & Hc & Hm) []. by split; rewrite ?Hd, ?Hc, ?Hm. }
  intros s s' H. split; apply Hi; [done|by symmetry].
Qed.

#[export] Instance recoverable_proper cfg : Proper (same_fs ==> iff) (recoverable cfg).
Proof.
  assert (∀ s s', same_fs s s' → recoverable cfg s → recoverable cfg s') as Hi.
  { intros s s' H [Hw Hs Hc]. pose proof H as (Hd & Hcr & Hm). split.
    - by rewrite <-H.
    - unfold synced_at. by rewrite Hd, Hcr, Hm.
    - by rewrite Hd, Hcr. }
  intros s s' H. split; apply Hi; [done|by symmetry].
Qed.

(** A failing assertion, or a field of an inode that is not there, stops an
    operation before it has changed anything. *)
Definition unharmed (s : lfs) : exn → lfs → world → Prop := λ e s' _,
  (e = AssertionError ∨ e = TypeError) ∧ same_fs s s'.

(** *** Growing disks

    All but the checkpoint region is still there. *)
Definition extends (d d' : list block) : Prop :=
  ∀ k b, d !! k = Some b → (∀ es, b ≠ BLOCK_TYPE_CHECKPOINT es) → d' !! k = Some b.

#[export] Instance extends_preorder : PreOrder extends.
Proof. split; [by intros d k b|]. intros d1 d2 d3 H12 H23 k b Hk Hb. eauto. Qed.

Lemma extends_app d bs : extends d (d ++ bs).
Proof. intros k b Hk _. by apply lookup_app_l_Some. Qed.

Lemma extends_cp d es es' : d !! 0%nat = Some (BLOCK_TYPE_CHECKPOINT es) →
  extends d (<[0%nat := BLOCK_TYPE_CHECKPOINT es']> d).
Proof.
  intros H0 k b Hk Hb. rewrite list_lookup_insert_ne; [done|]. intros <-. simplify_eq. by destruct (Hb es).
Qed.

Section Extends.
Context (d d' : list block) (Hext : extends d d').

Lemma entry_at_ext n x y e : entry_at d n x y e → entry_at d' n x y e.
Proof. intros (k & es & ? & ? & ?). exists k, es. split; [done|]. split; [by apply Hext|done]. Qed.

(** The entries of a well-formed directory are those of its blocks, wherever
    the log has got to. *)
Lemma entry_at_ext_inv n x y e : inode_ok d n → type n = INODE_DIRECTORY →
  entry_at d' n x y e → entry_at d n x y e.
Proof.
  intros Hok Ht (k & es & Hp & Hk & Hy).
  destruct (io_dir _ _ Hok Ht _ _ Hp) as [[? _]|(_ & k' & es' & Heq & Hk' & _)]; [lia|].
  apply Nat2Z.inj in Heq as <-. pose proof (Hext _ _ Hk' ltac:(done)) as H'.
  rewrite Hk in H'. injection H' as ->. by exists k, es'.
Qed.

Lemma holds_ext n nm i : inode_ok d n → type n = INODE_DIRECTORY → holds d' n nm i ↔ holds d n nm i.
Proof.
  intros Hok Ht. split; intros (x & y & He); exists x, y; [by apply entry_at_ext_inv|by apply entry_at_ext].
Qed.

Lemma inode_ok_ext n : inode_ok d n → inode_ok d' n.
Proof.
  intros Hok. pose proof Hok as [Hp Hs Hd Hu]. split; [done..| |].
  - intros Ht x p Hx. destruct (Hd Ht x p Hx) as [?|(? & k & es & ? & ? & ?)]; [by left|].
    right. split; [done|]. exists k, es. split_and!; [done| |done]. by apply Hext.
  - intros Ht nm i i' x y x' y' Hnm H1 H2.
    eapply Hu; [done..|by apply entry_at_ext_inv|by apply entry_at_ext_inv].
Qed.

Lemma good_address_ext a : good_address d a → good_address d' a.
Proof.
  intros (k & n & ? & ? & ?). exists k, n. split_and!; [done|by apply Hext|by apply inode_ok_ext].
Qed.
End Extends.

(** Inodes that are not directories have nothing to go wrong. *)
Lemma regular_ok d n : length (pointers n) = 8%nat → 0 ≤ isize n ≤ NUM_INODE_PTRS →
  type n = INODE_REGULAR → inode_ok d n.
Proof. intros Hp Hs Ht. split; [done..| |]; intros Ht'; by rewrite Ht' in Ht. Qed.


(** ** Updating a directory

    The operations that change a directory log a new version of one of its
    blocks and an inode that points to it. *)
Section Directory.
Context (d d' : list block) (n n' : inode) (x y k : nat) (old : list (string * Z)) (e0 e1 : string * Z).
Hypotheses (Hext : extends d d') (Hok : inode_ok d n) (Hdir : type n = INODE_DIRECTORY)
  (Hold : ∀ y' e, old !! y' = Some e → entry_at d n x y' e ∨ e.1 = "-")
  (Hall : ∀ y' e, entry_at d n x y' e → old !! y' = Some e)
  (Hes : entries_ok old) (Hy : old !! y = Some e0)
  (Hx : (x < 8)%nat)
  (Hsize : (Z.of_nat x < isize n ∧ isize n' = isize n) ∨ (isize n = Z.of_nat x ∧ isize n' = isize n + 1))
  (He1 : e1 = ("-", -1) ∨ 0 ≤ e1.2 < NUM_INODES)
  (Hfree : e1.1 = "-" ∨ ∀ i, ¬ holds d n e1.1 i)
  (Hk : d' !! k = Some (BLOCK_TYPE_DATA_DIRECTORY (<[y := e1]> old)))
  (Htype : type n' = INODE_DIRECTORY)
  (Hptrs : pointers n' = <[x := Z.of_nat k]> (pointers n)).

Lemma entry_at_update x' y' e : entry_at d' n' x' y' e ↔
  (x' = x ∧ <[y := e1]> old !! y' = Some e) ∨ (x' ≠ x ∧ entry_at d n x' y' e).
Proof.
  pose proof (io_pointers _ _ Hok) as Hlen.
  destruct (decide (x' = x)) as [->|Hne].
  - split.
    + intros (k' & es & Hp & Hd & He). left. split; [done|].
      rewrite Hptrs, list_lookup_insert_eq in Hp by lia. by simplify_eq.
    + intros [[_ He]|[? _]]; [|done]. exists k, (<[y := e1]> old). split_and!; [|done..].
      rewrite Hptrs, list_lookup_insert_eq by lia. done.
  - assert (entry_at d' n' x' y' e ↔ entry_at d' n x' y' e) as ->.
    { unfold entry_at. by rewrite Hptrs, list_lookup_insert_ne by done. }
    split; [intros He; right; split; [done|by eapply entry_at_ext_inv]|].
    intros [[? _]|[_ He]]; [done|by eapply entry_at_ext].
Qed.

Lemma updated_block y' e : <[y := e1]> old !! y' = Some e →
  (y' = y ∧ e = e1) ∨ (y' ≠ y ∧ old !! y' = Some e).
Proof. intros [(<- & <- & _)|[? ?]]%list_lookup_insert_Some; [by left|by right]. Qed.

Lemma updated_ok : inode_ok d' n'.
Proof.
  pose proof (io_pointers _ _ Hok) as Hlen. pose proof (io_size _ _ Hok) as Hsz.
  destruct Hes as [Hl Hvals].
  split.
  - by rewrite Hptrs, length_insert.
  - unfold NUM_INODE_PTRS in *. lia.
  - intros _ x' p. rewrite Hptrs. intros [(<- & <- & _)|[Hne Hp]]%list_lookup_insert_Some.
    + right. split; [lia|]. exists k, (<[y := e1]> old). split_and!; [done..|]. split.
      * by rewrite length_insert.
      * intros e (y' & [[_ ->]|[_ He]]%updated_block)%list_elem_of_lookup; [done|].
        apply Hvals. by apply list_elem_of_lookup_2 in He.
    + destruct (io_dir _ _ (inode_ok_ext _ _ Hext _ Hok) Hdir _ _ Hp) as [[-> ?]|[? Hes']].
      * left. split; [done|]. lia.
      * right. split; [lia|done].
  - intros _ nm i i' xa ya xb yb Hnm Ha%entry_at_update Hb%entry_at_update.
    assert (∀ x' y' i, entry_at d n x' y' (nm, i) → (nm, i) ≠ e1 → nm ≠ e1.1) as Hnew.
    { intros x' y' j He _ ->. destruct Hfree as [?|Hno]; [done|]. apply (Hno j). by exists x', y'. }
    assert (∀ y' i, <[y := e1]> old !! y' = Some (nm, i) →
      (y' = y ∧ nm = e1.1) ∨ (nm ≠ e1.1 ∧ entry_at d n x y' (nm, i))) as Hsplit.
    { intros y' j [[-> <-]|[Hy' Ho]]%updated_block; [by left|].
      destruct (Hold _ _ Ho) as [He|?]; [|done]. right. split; [|done]. intros ->.
      destruct Hfree as [?|Hno]; [done|]. apply (Hno j). by exists x, y'. }
    assert (∀ x' y' i, entry_at d n x' y' (nm, i) → nm ≠ e1.1) as Hold1.
    { intros x' y' j He ->. destruct Hfree as [?|Hno]; [done|]. apply (Hno j). by exists x', y'. }
    destruct Ha as [[-> [[-> ?]|[? Ha]]%Hsplit]|[? Ha]], Hb as [[-> [[-> ?]|[? Hb]]%Hsplit]|[? Hb]];
      try done; first [by eapply io_unique | by exfalso; eapply Hold1].
Qed.

Lemma updated_holds nm i : nm ≠ "-" →
  holds d' n' nm i ↔ e1 = (nm, i) ∨ (e0.1 ≠ nm ∧ holds d n nm i).
Proof.
  intros Hnm. split.
  - intros (x' & y' & [[-> [[-> <-]|[Hne Ho]]%updated_block]|[Hne He]]%entry_at_update); [by left| |].
    + right. destruct (Hold _ _ Ho) as [He|?]; [|done]. split; [|by exists x, y'].
      destruct (Hold _ _ Hy) as [He0|H0]; [|by rewrite H0; congruence].
      intros <-. destruct e0 as [nm0 i0]. simpl in *.
      destruct (io_unique _ _ Hok Hdir _ _ _ _ _ _ _ Hnm He He0) as [_ ->]. done.
    + right. split; [|by exists x', y'].
      destruct (Hold _ _ Hy) as [He0|H0]; [|by rewrite H0; congruence].
      intros <-. destruct e0 as [nm0 i0]. simpl in *.
      by destruct (io_unique _ _ Hok Hdir _ _ _ _ _ _ _ Hnm He He0) as [-> _].
  - intros [Heq|[H0 (x' & y' & He)]].
    + exists x, y. apply entry_at_update. left. split; [done|]. rewrite <-Heq.
      apply list_lookup_insert_eq. by apply lookup_lt_Some in Hy.
    + exists x', y'. apply entry_at_update. destruct (decide (x' = x)) as [->|]; [left|by right].
      split; [done|]. apply Hall in He. rewrite list_lookup_insert_ne; [done|].
      intros <-. rewrite Hy in He. by simplify_eq.
Qed.
End Directory.

(** A directory as [mkdir] makes it *)
Lemma made_dir_ok d k p i n : 0 ≤ p < NUM_INODES → 0 ≤ i < NUM_INODES →
  d !! k = Some (make_new_dirblock p i) → type n = INODE_DIRECTORY → isize n = 1 →
  pointers n = [Z.of_nat k; -1; -1; -1; -1; -1; -1; -1] →
  inode_ok d n ∧ ∀ nm j, nm ≠ "-" → holds d n nm j ↔ (nm = "." ∧ j = i) ∨ (nm = ".." ∧ j = p).
Proof.
  intros Hp Hi Hk Ht Hsz Hptrs. unfold make_new_dirblock in Hk.
  set (es := <[1%nat:=_]> _) in Hk.
  assert (∀ x y e, entry_at d n x y e ↔ x = 0%nat ∧ es !! y = Some e) as Hat.
  { intros x y e. split.
    - intros (k' & es' & Hx & Hd & Hy). rewrite Hptrs in Hx.
      destruct x as [|x]; [|exfalso; do 7 (destruct x as [|x]; [injection Hx as Hx; lia|]); done].
      injection Hx as Hx. apply Nat2Z.inj in Hx as <-. rewrite Hk in Hd. by injection Hd as <-.
    - intros [-> Hy]. exists k, es. by rewrite Hptrs. }
  assert (∀ y e, es !! y = Some e → (y = 0%nat ∧ e = (".", i)) ∨ (y = 1%nat ∧ e = ("..", p)) ∨ e = ("-", -1)) as Hes.
  { intros y e. unfold es. do 2 (destruct y as [|y]; [intros [= <-]; auto|]). simpl.
    do 6 (destruct y as [|y]; [intros [= <-]; auto|]). done. }
  split; [split|].
  - by rewrite Hptrs.
  - rewrite Hsz. by unfold NUM_INODE_PTRS.
  - intros _ x q. rewrite Hptrs, Hsz. destruct x as [|x].
    + intros [= <-]. right. split; [done|]. exists k, es. split_and!; [done..|]. split; [done|].
      intros e [y [[_ ->]|[[_ ->]| ->]]%Hes]%list_elem_of_lookup; simpl; auto.
    + intros Hx. left. split; [|lia]. do 7 (destruct x as [|x]; [by injection Hx|]). done.
  - intros _ nm j j' x y x' y' Hnm [-> Ha%Hes]%Hat [-> Hb%Hes]%Hat. split; [done|].
    destruct Ha as [[-> Ha]|[[-> Ha]|Ha]], Hb as [[-> Hb]|[[-> Hb]|Hb]]; congruence.
  - intros nm j Hnm. split.
    + intros (x & y & [_ [[_ [= -> ->]]|[[_ [= -> ->]]|[= -> ->]]]%Hes]%Hat); try done; auto.
    + intros [[-> ->]|[-> ->]]; [exists 0%nat, 0%nat|exists 0%nat, 1%nat]; by apply Hat.
Qed.

(** A slot of directory [n] that an update may use: entry [e0] in block [x]
    at [y], the old contents of that block, and the size with the block. *)
Record slot (d : list block) (n : inode) (size' : Z) (x y : nat) (old : list (string * Z)) (e0 : string * Z) : Prop := {
  sl_old : ∀ y' e, old !! y' = Some e → entry_at d n x y' e ∨ e.1 = "-";
  sl_all : ∀ y' e, entry_at d n x y' e → old !! y' = Some e;
  sl_entries : entries_ok old;
  sl_entry : old !! y = Some e0;
  sl_block : (x < 8)%nat;
  sl_size : (Z.of_nat x < isize n ∧ size' = isize n) ∨ (isize n = Z.of_nat x ∧ size' = isize n + 1);
}.

Lemma slot_entry d n x y e : inode_ok d n → type n = INODE_DIRECTORY →
  entry_at d n x y e → ∃ k old, pointers n !! x = Some (Z.of_nat k) ∧
    d !! k = Some (BLOCK_TYPE_DATA_DIRECTORY old) ∧ slot d n (isize n) x y old e.
Proof.
  intros Hok Ht (k & es & Hp & Hk & Hy). exists k, es. split_and!; [done..|].
  destruct (io_dir _ _ Hok Ht _ _ Hp) as [[? _]|(? & k' & es' & Heq & Hk' & Hes)]; [lia|].
  apply Nat2Z.inj in Heq as <-. rewrite Hk in Hk'. injection Hk' as <-. split.
  - intros y' e' He. left. by exists k, es.
  - intros y' e' (k' & es' & Hp' & Hk' & He). by simplify_eq.
  - done.
  - done.
  - apply lookup_lt_Some in Hp. by rewrite (io_pointers _ _ Hok) in Hp.
  - by left.
Qed.

Lemma empty_entries_lookup y e : empty_entries !! y = Some e → e = ("-", -1).
Proof. do 8 (destruct y as [|y]; [by intros [= <-]|]). done. Qed.

Lemma slot_new d n : inode_ok d n → type n = INODE_DIRECTORY → isize n ≠ NUM_INODE_PTRS →
  slot d n (isize n + 1) (Z.to_nat (isize n)) 0 empty_entries ("-", -1).
Proof.
  intros Hok Ht Hne. pose proof (io_size _ _ Hok) as Hsz. unfold NUM_INODE_PTRS in *. split.
  - intros y' e ->%empty_entries_lookup. by right.
  - intros y' e (k & es & Hp & _).
    destruct (io_dir _ _ Hok Ht _ _ Hp) as [[? _]|(? & _)]; lia.
  - split; [done|]. intros e [y ->%empty_entries_lookup]%list_elem_of_lookup. by left.
  - done.
  - lia.
  - right. lia.
Qed.

(** *** The inode map on disk *)

Lemma wf_commit s s' : wf s → extends (disk s) (disk s') →
  (∃ es, disk s' !! 0%nat = Some (BLOCK_TYPE_CHECKPOINT es)) → length (cr s') = 16%nat →
  size (inode_map s') = 256%nat → has NUM_INODES (inode_map s') →
  (∀ i a, inode_map s' !! i = Some a → a ≠ -1 →
     inode_map s !! i = Some a ∨ good_address (disk s') a) →
  wf s'.
Proof.
  intros [] Hd Hcp Hc Hsz Hhas Hm. split; [done..|].
  intros i a Hi Ha. destruct (Hm i a Hi Ha) as [?|?]; [|done]. eapply good_address_ext; eauto.
Qed.

Lemma synced_at_ext s s' i : extends (disk s) (disk s') → cr s' = cr s → inode_map s' = inode_map s →
  synced_at s i → synced_at s' i.
Proof.
  intros Hd Hc Hm H a Ha. rewrite Hm in Ha. rewrite Hc. destruct (H a Ha) as [?|(k & es & ? & ? & ?)]; [by left|].
  right. exists k, es. split_and!; [done| |done]. by apply Hd.
Qed.

Definition chunk_at (s : lfs) (c : Z) (es : list Z) : Prop :=
  ∀ j, (j < 16)%nat → es !! j = inode_map s !! (c * 16 + Z.of_nat j).

Lemma wp_make_imap_chunk c s w (Q : block → lfs → world → Prop) E :
  has NUM_INODES (inode_map s) → 0 ≤ c < 16 →
  (∀ es, chunk_at s c es → Q (BLOCK_TYPE_IMAP es) s w) →
  wp (make_imap_chunk c) Q E s w.
Proof.
  intros Hhas Hc HQ. unfold make_imap_chunk, NUM_INODES_PER_IMAP_CHUNK. wp_pures.
  apply (wp_for_acc (λ pre l s' w', s' = s ∧ w' = w ∧ length l = length pre ∧
    ∀ j, (j < length pre)%nat → l !! j = inode_map s !! (c * 16 + Z.of_nat j))).
  - split_and!; [done..|]. simpl. lia.
  - intros pre i post l s' w' (-> & _ & Hi)%range_split (-> & -> & Hl & Hpre).
    destruct (Hhas i) as [a Ha]; [unfold NUM_INODES, NUM_IMAP_PTRS_IN_CR, NUM_INODES_PER_IMAP_CHUNK; lia|].
    wp_pures. rewrite Ha. wp_pures. split_and!; [done..|by rewrite !length_app, Hl|].
    intros j. rewrite length_app, length_range in *. simpl. intros Hj.
    destruct (decide (j < length l)%nat).
    + rewrite lookup_app_l by done. apply Hpre. lia.
    + replace j with (length l) by lia. rewrite lookup_app_r, Nat.sub_diag by done. simpl.
      rewrite <-Ha. f_equal. lia.
  - intros l s' w' (-> & -> & Hl & Hall). wp_pures. apply HQ.
    intros j Hj. apply Hall. rewrite length_range. lia.
Qed.

Lemma logged_chunk s s' c es : length (cr s) = 16%nat → 0 ≤ c < 16 → chunk_at s c es →
  disk s' = disk s ++ [BLOCK_TYPE_IMAP es] →
  cr s' = <[Z.to_nat c := Z.of_nat (length (disk s))]> (cr s) →
  inode_map s' = inode_map s →
  ∀ i, 0 ≤ i < NUM_INODES → i / 16 = c ∨ synced_at s i → synced_at s' i.
Proof.
  intros Hl Hc Hes Hd Hcr Hm i Hi H a Ha. rewrite Hm in Ha. rewrite Hcr, Hd.
  unfold NUM_INODES, NUM_IMAP_PTRS_IN_CR, NUM_INODES_PER_IMAP_CHUNK in Hi.
  destruct (decide (i / 16 = c)) as [<-|Hne].
  - right. exists (length (disk s)), es.
    split_and!; [apply list_lookup_insert_eq; lia|by rewrite lookup_app_r, Nat.sub_diag|].
    rewrite Hes by (apply Nat2Z.inj_lt; rewrite Z2Nat.id; apply Z.mod_pos_bound; lia).
    rewrite <-Ha. f_equal. pose proof (Z.mod_pos_bound i 16). rewrite Z2Nat.id by lia.
    pose proof (Z.div_mod i 16). lia.
  - destruct H as [?|H]; [done|].
    assert (0 ≤ i / 16 < 16) by (split; [apply Z.div_pos; lia|apply Z.div_lt_upper_bound; lia]).
    assert (Z.to_nat c ≠ Z.to_nat (i / 16)) by lia.
    destruct (H a Ha) as [[-> Hn]|(k & es' & Hk & Hd' & Hy)].
    + left. by rewrite list_lookup_insert_ne.
    + right. exists k, es'. rewrite list_lookup_insert_ne by done.
      split_and!; [done| |done]. by apply lookup_app_l_Some.
Qed.

Lemma inum_to_chunk_div i : 0 ≤ i → inum_to_chunk i = i / 16.
Proof. intros. unfold inum_to_chunk, int_div, NUM_INODES_PER_IMAP_CHUNK. apply Z.quot_div_nonneg; lia. Qed.

Lemma chunk_range i : 0 ≤ i < NUM_INODES → 0 ≤ i / 16 < 16.
Proof.
  unfold NUM_INODES, NUM_IMAP_PTRS_IN_CR, NUM_INODES_PER_IMAP_CHUNK. intros.
  split; [apply Z.div_pos; lia|apply Z.div_lt_upper_bound; lia].
Qed.

(** The last steps of every operation but link: some blocks logged, the chunks
    of the changed inodes logged, and the region in memory set to them *)
Lemma wp_log_chunk c s w (Q : unit → lfs → world → Prop) E :
  has NUM_INODES (inode_map s) → length (cr s) = 16%nat → 0 ≤ c < 16 →
  (∀ s' b, disk s' = disk s ++ [b] → length (cr s') = 16%nat → inode_map s' = inode_map s →
     (∀ i, 0 ≤ i < NUM_INODES → i / 16 = c ∨ synced_at s i → synced_at s' i) → Q tt s' w) →
  wp (log_chunk c) Q E s w.
Proof.
  intros Hhas Hl Hc HQ. unfold log_chunk. wp_pures. apply wp_make_imap_chunk; [done..|].
  intros es Hes. unfold log. wp_pures. rewrite <-(Z2Nat.id c) by lia. simpl.
  rewrite py_set_nat by lia. wp_pures. apply (HQ _ (BLOCK_TYPE_IMAP es)); simpl.
  - done.
  - by rewrite length_insert.
  - done.
  - apply (logged_chunk _ _ c es); [done..| |done]. simpl. f_equal. unfold len. rewrite length_app. simpl. lia.
Qed.

Lemma wp_update_imap l s w (Q : unit → lfs → world → Prop) E :
  has NUM_INODES (inode_map s) → length (cr s) = 16%nat → Forall (λ i, 0 ≤ i < NUM_INODES) l →
  (∀ s' bs, disk s' = disk s ++ bs → length (cr s') = 16%nat → inode_map s' = inode_map s →
     (∀ i, 0 ≤ i < NUM_INODES → (∃ j, j ∈ l ∧ i / 16 = j / 16) ∨ synced_at s i → synced_at s' i) → Q tt s' w) →
  wp (update_imap l) Q E s w.
Proof.
  intros Hhas Hl Hr HQ. unfold update_imap. wp_pures.
  apply (wp_for_acc (λ pre cs s' w', w' = w ∧ (∃ bs, disk s' = disk s ++ bs) ∧ length (cr s') = 16%nat ∧
    inode_map s' = inode_map s ∧ (∀ c, c ∈ cs ↔ ∃ j, j ∈ pre ∧ c = j / 16) ∧
    ∀ i, 0 ≤ i < NUM_INODES → (∃ j, j ∈ pre ∧ i / 16 = j / 16) ∨ synced_at s i → synced_at s' i)).
  - split_and!; [done|exists []; by rewrite app_nil_r|done..| |].
    + intros c. set_solver.
    + intros i Hi [(j & ? & _)|?]; [set_solver|done].
  - intros pre i post cs s' w' Hsplit (-> & (bs & Hd) & Hl' & Hm & Hcs & Hsync).
    assert (0 ≤ i < NUM_INODES) as Hi.
    { rewrite Hsplit in Hr. rewrite Forall_forall in Hr. apply Hr. set_solver. }
    rewrite inum_to_chunk_div by lia. cbv zeta. case_bool_decide as Hin.
    + wp_pures. split_and!; [done|by exists bs|done..| |].
      * intros c. rewrite Hcs. apply Hcs in Hin as (j & Hj & Heq). split; [set_solver|].
        intros (j' & [?| ->%list_elem_of_singleton]%elem_of_app & ->); [set_solver|]. exists j. by rewrite Heq.
      * intros i' Hi' H. apply Hsync; [done|]. apply Hcs in Hin as (j & Hj & Heq).
        destruct H as [(j' & [?| ->%list_elem_of_singleton]%elem_of_app & ->)|?]; [left; by eexists|left|by right].
        exists j. by rewrite Heq.
    + wp_pures. apply wp_log_chunk; [by rewrite Hm|done|by apply chunk_range|].
      intros s'' b Hd' Hl'' Hm' Hs''. wp_pures. split_and!; [done| |done|by rewrite Hm'| |].
      * exists (bs ++ [b]). by rewrite Hd', Hd, app_assoc.
      * intros c. rewrite elem_of_app, Hcs, list_elem_of_singleton. split.
        -- intros [(j & ? & ->)| ->]; [exists j|exists i]; set_solver.
        -- intros (j & [?| ->%list_elem_of_singleton]%elem_of_app & ->); [left; by eexists|by right].
      * intros i' Hi' H. apply Hs''; [done|].
        destruct H as [(j & [?| ->%list_elem_of_singleton]%elem_of_app & ?)|?];
          [right; apply Hsync; eauto|by left|right; apply Hsync; eauto].
  - intros cs s' w' (-> & (bs & Hd) & Hl' & Hm & _ & Hsync). wp_pures. by apply (HQ s' bs).
Qed.

(** ** Reading

    Every read is from the disk and the map in memory; a read that finds
    something else than it expects fails an assertion. *)
Section Operations.
Context (cfg : config) (Hmem : use_disk_cr cfg = false).
Implicit Types (s : lfs) (E : exn → lfs → world → Prop).

Lemma wp_get_inode i s w (Q : inode → lfs → world → Prop) E : wf s → 0 ≤ i < NUM_INODES →
  (∀ n, inode_at s i n → inode_ok (disk s) n → Q n s w) →
  E AssertionError s w →
  wp (get_inode_from_inumber cfg i) Q E s w.
Proof.
  intros Hs Hi HQ HE. unfold get_inode_from_inumber, inode_address. rewrite Hmem. wp_pures.
  destruct (wf_has _ Hs i Hi) as [a Ha]. rewrite Ha.
  destruct (Z.eqb_spec a (-1)) as [|Hne]; cbn [negb]; [done|].
  destruct (wf_inodes _ Hs i a Ha Hne) as (k & n & -> & Hn & Hok). wp_pures.
  rewrite py_get_nat, Hn. simpl. apply HQ; [by exists k|done].
Qed.

(** The answer of a lookup *)
Definition looked_up (d : list block) (n : inode) (nm : string) (i : Z) : Prop :=
  holds d n nm i ∨ (i = -1 ∧ ∀ i', ¬ holds d n nm i').

(** The loop over the entries of one block: leaving with the first match *)
Lemma wp_find_entry es nm s w (Q : unit + Z → lfs → world → Prop) E :
  (∀ y e, es !! y = Some e → e.1 = nm → Q (inr e.2) s w) →
  ((∀ y e, es !! y = Some e → e.1 ≠ nm) → Q (inl tt) s w) →
  wp (for_ret es tt (λ (_ : unit) (e : string * Z),
        mret (if bool_decide (e.1 = nm) then inr e.2 else inl tt))) Q E s w.
Proof.
  intros Hin Hno. apply (wp_for_ret (λ pre _ s' w', s' = s ∧ w' = w ∧ (∀ y e, pre !! y = Some e → e.1 ≠ nm))).
  - done.
  - intros pre e post [] s' w' Hes (-> & -> & Hpre). wp_pures. case_bool_decide as He.
    + apply (Hin (length pre)); [|done]. by rewrite Hes, lookup_app_r, Nat.sub_diag by done.
    + split_and!; [done..|]. intros y e' [Hy|(_ & Hy)]%lookup_app_Some; [eauto|].
      by apply list_lookup_singleton_Some in Hy as [_ <-].
  - intros [] s' w' (-> & -> & Hall). by apply Hno.
Qed.

Lemma wp_lookup p nm s w (Q : Z * inode → lfs → world → Prop) E : wf s → 0 ≤ p < NUM_INODES →
  (∀ n i, inode_at s p n → inode_ok (disk s) n → type n = INODE_DIRECTORY →
     looked_up (disk s) n nm i → Q (i, n) s w) →
  E AssertionError s w →
  wp (lookup cfg p nm) Q E s w.
Proof.
  intros Hs Hp HQ HE. unfold lookup. wp_pures. apply wp_get_inode; [done..| |done].
  intros n Hn Hok. wp_pures. case_bool_decide as Ht; [|done].
  apply (wp_for_ret (λ pre _ s' w', s' = s ∧ w' = w ∧
    ∀ x y i, (x < length pre)%nat → ¬ entry_at (disk s) n x y (nm, i))).
  - split_and!; [done..|]. simpl. lia.
  - intros pre a post [] s' w' Hsplit (-> & -> & Hpre).
    assert (pointers n !! length pre = Some a) as Ha.
    { by rewrite Hsplit, lookup_app_r, Nat.sub_diag by done. }
    assert ((∀ y i, ¬ entry_at (disk s) n (length pre) y (nm, i)) → s = s ∧ w = w ∧
      ∀ x y i, (x < length (pre ++ [a]))%nat → ¬ entry_at (disk s) n x y (nm, i)) as Hnext.
    { intros Hno. split_and!; [done..|]. intros x y i Hx. rewrite length_app in Hx. simpl in Hx.
      destruct (decide (x = length pre)) as [->|]; [apply Hno|apply Hpre; lia]. }
    destruct (Z.eqb_spec a (-1)) as [->|Hne]; wp_pures.
    { apply Hnext. intros y i (k & es & Hk & _). rewrite Ha in Hk. simplify_eq. lia. }
    destruct (io_dir _ _ Hok Ht _ _ Ha) as [[? _]|(_ & k & es & -> & Hk & Hes)]; [done|].
    rewrite py_get_nat, Hk. simpl. wp_pures. apply wp_find_entry.
    + intros y [? i] Hy Heq. simpl in *. subst. wp_pures. apply HQ; [done..|].
      left. exists (length pre), y, k, es. done.
    + intros Hno. wp_pures. apply Hnext. intros y i (k' & es' & Hk' & Hd & Hy).
      rewrite Ha in Hk'. simplify_eq. apply Hno in Hy. done.
  - intros [] s' w' (-> & -> & Hno). wp_pures. apply HQ; [done..|]. right. split; [done|].
    intros i (x & y & He). apply (Hno x y i); [|done].
    destruct He as (k & es & Hk & _). by apply lookup_lt_Some in Hk.
Qed.

Lemma holds_range d n nm i : inode_ok d n → type n = INODE_DIRECTORY → holds d n nm i →
  (nm = "-" ∧ i = -1) ∨ 0 ≤ i < NUM_INODES.
Proof.
  intros Hok Ht (x & y & k & es & Hk & Hd & Hy).
  destruct (io_dir _ _ Hok Ht _ _ Hk) as [[? _]|(_ & k' & es' & Heq & Hd' & Hes)]; [lia|].
  apply Nat2Z.inj in Heq as <-. simplify_eq. apply list_elem_of_lookup_2, Hes in Hy as [[= -> ->]|?]; auto.
Qed.

Lemma looked_up_range d n nm i : inode_ok d n → type n = INODE_DIRECTORY →
  looked_up d n nm i → i = -1 ∨ 0 ≤ i < NUM_INODES.
Proof.
  intros Hok Ht [Hh|[-> _]]; [|by left].
  destruct (holds_range _ _ _ _ Hok Ht Hh) as [[_ ->]|?]; auto.
Qed.

(** A name that is not found is free. *)
Lemma looked_up_free d n nm : inode_ok d n → type n = INODE_DIRECTORY →
  looked_up d n nm (-1) → nm = "-" ∨ ∀ i, ¬ holds d n nm i.
Proof.
  intros Hok Ht [Hh|[_ Hno]]; [|by right].
  destruct (holds_range _ _ _ _ Hok Ht Hh) as [[-> _]|?]; [by left|lia].
Qed.

(** What [walk_path] answers for a path whose parent directory exists *)
Definition walked (s : lfs) (r : walk) : Prop :=
  match r with
  | None => True
  | Some (i, nm, p, n) => 0 ≤ p < NUM_INODES ∧ inode_at s p n ∧ inode_ok (disk s) n ∧
      type n = INODE_DIRECTORY ∧ looked_up (disk s) n nm i
  end.

Lemma walked_same s s' r : same_fs s s' → walked s r → walked s' r.
Proof. intros Hsame. destruct r as [[[[i nm] p] n]|]; [|done]. simpl. unfold inode_at. destruct Hsame as (-> & _ & ->). done. Qed.

Lemma wp_error_log x s w (Q : unit → lfs → world → Prop) E :
  (∀ s', same_fs s s' → Q tt s' w) → wp (error_log x) Q E s w.
Proof. intros HQ. unfold error_log. wp_pures. by apply HQ. Qed.

Lemma wp_error_clear s w (Q : unit → lfs → world → Prop) E :
  (∀ s', same_fs s s' → Q tt s' w) → wp error_clear Q E s w.
Proof. intros HQ. unfold error_clear. wp_pures. by apply HQ. Qed.

Lemma wp_walk_path path s w : wf s →
  wp (walk_path cfg path) (λ r s' w', same_fs s s' ∧ walked s r) (unharmed s) s w.
Proof.
  intros Hs. unfold walk_path. wp_pures.
  pose proof (split_on_nonnil "/" path) as Hnil.
  set (l := split_on "/" path) in *.
  assert (0 < len l) as Hlen by (unfold len; destruct l; [done|simpl; lia]).
  assert (∀ i, 0 ≤ i < len l → ∃ x, (py_index l i ≫= λ k, l !! k) = Some x) as Hget.
  { intros i Hi. rewrite py_index_nonneg by done. apply lookup_lt_is_Some. unfold len in Hi. lia. }
  destruct (Hget 0) as [first ->]; [lia|]. case_bool_decide; wp_pures.
  { apply wp_error_log. intros s' ?. by wp_pures. }
  apply (wp_for_ret (λ _ p s' w', same_fs s s' ∧ 0 ≤ p < NUM_INODES)).
  - split; [done|]. unfold ROOT_INODE, NUM_INODES, NUM_IMAP_PTRS_IN_CR, NUM_INODES_PER_IMAP_CHUNK. lia.
  - intros pre i post p s' w' (_ & _ & Hi)%range_split (Hsame & Hp). wp_pures.
    destruct (Hget i) as [nm ->]; [lia|]. wp_pures. apply wp_lookup; [by rewrite <-Hsame|done| |].
    + intros n j Hn Hok Ht Hj. wp_pures. destruct (looked_up_range _ _ _ _ Hok Ht Hj) as [->|Hr].
      { simpl. wp_pures. apply wp_error_log. intros s'' Hsame'. wp_pures.
        split; [by etrans|done]. }
      destruct (Z.eqb_spec j (-1)); [lia|]. rewrite bool_decide_false by (rewrite Ht; tauto). by wp_pures.
    + split; [by left|done].
  - intros p s' w' (Hsame & Hp). wp_pures. destruct (Hget (len l - 1)) as [nm ->]; [lia|]. wp_pures.
    apply wp_lookup; [by rewrite <-Hsame|done| |].
    + intros n j Hn Hok Ht Hj. wp_pures. split; [done|].
      apply (walked_same s' s); [by symmetry|]. done.
    + split; [by left|done].
Qed.

(** [for slot_index in range(len(entries))] over the entries of one block *)
Lemma wp_find_in_block (x : Z) (es : list (string * Z)) nm s w (Q : unit + Z * Z → lfs → world → Prop) E :
  (∀ y i, es !! y = Some (nm, i) → Q (inr (x, Z.of_nat y)) s w) →
  ((∀ y i, es !! y ≠ Some (nm, i)) → Q (inl tt) s w) →
  wp (for_ret (range 0 (len es)) tt (λ (_ : unit) slot_index,
        e ← list_get es slot_index;
        mret (if bool_decide (e.1 = nm) then inr (x, slot_index) else inl tt))) Q E s w.
Proof.
  intros Hin Hno. apply (wp_for_ret (λ pre _ s' w', s' = s ∧ w' = w ∧
    (∀ y i, (y < length pre)%nat → es !! y ≠ Some (nm, i)))).
  - split_and!; [done..|]. simpl. lia.
  - intros pre z post [] s' w' (-> & _ & Hz)%range_split (-> & -> & Hpre). wp_pures.
    unfold len in Hz. rewrite <-(Z2Nat.id z) by lia. rewrite py_get_nat.
    destruct (lookup_lt_is_Some_2 es (Z.to_nat z)) as [[nm' i] Hy]; [lia|]. rewrite Hy. wp_pures.
    case_bool_decide as He; simpl in He.
    + subst. eauto.
    + split_and!; [done..|]. intros y j. rewrite length_app, length_range. simpl. intros Hlt.
      destruct (decide (y = Z.to_nat z)) as [->|]; [congruence|].
      apply Hpre. rewrite length_range. lia.
  - intros [] s' w' (-> & -> & Hall). apply Hno. intros y i Hy. apply (Hall y i); [|done].
    apply lookup_lt_Some in Hy. rewrite length_range. unfold len. lia.
Qed.

Lemma wp_find_slot nm n s w (Q : Z * Z → lfs → world → Prop) E :
  inode_ok (disk s) n → type n = INODE_DIRECTORY →
  (∀ (x y : nat) i, entry_at (disk s) n x y (nm, i) → Q (Z.of_nat x, Z.of_nat y) s w) →
  ((∀ i, ¬ holds (disk s) n nm i) → Q (-1, -1) s w) →
  wp (find_matching_dir_slot nm n) Q E s w.
Proof.
  intros Hok Ht Hin Hno. pose proof (io_pointers _ _ Hok) as Hlen. pose proof (io_size _ _ Hok) as Hsz.
  unfold NUM_INODE_PTRS in Hsz. unfold find_matching_dir_slot. wp_pures.
  apply (wp_for_ret (λ pre _ s' w', s' = s ∧ w' = w ∧
    ∀ x y i, (x < length pre)%nat → ¬ entry_at (disk s) n x y (nm, i))).
  - split_and!; [done..|]. simpl. lia.
  - intros pre z post [] s' w' (-> & _ & Hz)%range_split (-> & -> & Hpre). unfold read_dirblock. wp_pures.
    rewrite <-(Z2Nat.id z) by lia. set (x := Z.to_nat z). rewrite py_get_nat.
    destruct (lookup_lt_is_Some_2 (pointers n) x) as [p Hp]; [lia|]. rewrite Hp. wp_pures.
    destruct (io_dir _ _ Hok Ht _ _ Hp) as [[? ?]|(_ & k & es & -> & Hk & Hes)]; [lia|].
    rewrite py_get_nat, Hk. simpl. wp_pures. apply wp_find_in_block.
    + intros y i Hy. wp_pures. apply Hin with i. by exists k, es.
    + intros Hnone. split_and!; [done..|]. intros x' y i. rewrite length_app, length_range. simpl. intros Hlt.
      destruct (decide (x' = x)) as [->|]; [|apply Hpre; rewrite length_range; lia].
      intros (k' & es' & Hp' & Hk' & Hy). simplify_eq. by apply Hnone in Hy.
  - intros [] s' w' (-> & -> & Hall). wp_pures. apply Hno. intros i (x & y & He).
    apply (Hall x y i); [|done]. rewrite length_range.
    destruct He as (k & es & Hp & _). destruct (io_dir _ _ Hok Ht _ _ Hp) as [[? ?]|[? _]]; lia.
Qed.

(** ** The operations *)

Lemma wp_add_dir_entry n nm inum s w (Q : option (Z * Z * list (string * Z)) → lfs → world → Prop) E :
  inode_ok (disk s) n → type n = INODE_DIRECTORY →
  (∀ x y size' old i0, slot (disk s) n size' x y old ("-", i0) →
     Q (Some (Z.of_nat x, size', <[y := (nm, inum)]> old)) s w) →
  Q None s w →
  wp (add_dir_entry n nm inum) Q E s w.
Proof.
  intros Hok Ht HQ Hnone. unfold add_dir_entry. wp_pures. apply wp_find_slot; [done..| |].
  - intros x y i He. destruct (slot_entry _ _ _ _ _ Hok Ht He) as (k & old & Hp & Hk & Hslot).
    simpl. destruct (Z.eqb_spec (Z.of_nat x) (-1)); [lia|]. cbn [negb]. unfold read_dirblock. wp_pures.
    rewrite py_get_nat, Hp. wp_pures. rewrite py_get_nat, Hk. simpl. wp_pures.
    rewrite py_set_nat by (eapply lookup_lt_Some, sl_entry; done). wp_pures. by eapply HQ.
  - intros _. cbn. destruct (Z.eqb_spec (isize n) NUM_INODE_PTRS); wp_pures; [done|].
    pose proof (slot_new _ _ Hok Ht ltac:(done)) as Hslot. apply HQ in Hslot.
    pose proof (io_size _ _ Hok). rewrite Z2Nat.id in Hslot by lia. done.
Qed.

(** The last steps of an operation *)
Lemma wp_finish s w (Q : unit → lfs → world → Prop) E :
  wf s → (∀ i, 0 ≤ i < NUM_INODES → synced_at s i) →
  (∀ s', recoverable cfg s' → extends (disk s) (disk s') → inode_map s' = inode_map s → Q tt s' w) →
  wp (sync_if_forced cfg) Q E s w.
Proof.
  intros Hs Hsync HQ. unfold sync_if_forced. destruct (wf_cp _ Hs) as [es Hcp].
  destruct (no_force_checkpoints cfg) eqn:Hf; cbn [negb]; wp_pures.
  { apply HQ; [|done..]. split; [done..|by rewrite Hf]. }
  unfold cr_sync, ADDR_CHECKPOINT_BLOCK. wp_pures.
  pose proof (lookup_lt_Some _ _ _ Hcp) as Hlt.
  rewrite (py_set_nat (disk s) 0) by done. wp_pures. apply HQ; simpl; [|by eapply extends_cp|done].
  split; simpl.
  - eapply (wf_commit s); simpl; [done|by eapply extends_cp| |apply Hs|apply Hs|apply Hs|by left].
    eexists. by rewrite list_lookup_insert_eq.
  - intros i Hi. eapply (synced_at_ext s); [by eapply extends_cp|done..|by apply Hsync].
  - intros _. by rewrite list_lookup_insert_eq.
Qed.

(** [update_imap] and the checkpoint: the blocks logged and the entries changed
    by an operation become recoverable. *)
Lemma wp_commit {A} s s1 l w (K : unit → M lfs A) (Q : A → lfs → world → Prop) E :
  recoverable cfg s → (∃ bs, disk s1 = disk s ++ bs) → cr s1 = cr s →
  size (inode_map s1) = 256%nat → has NUM_INODES (inode_map s1) → Forall (λ i, 0 ≤ i < NUM_INODES) l →
  (∀ i a, inode_map s1 !! i = Some a → a ≠ -1 → inode_map s !! i = Some a ∨ good_address (disk s1) a) →
  (∀ i, i ∉ l → inode_map s1 !! i = inode_map s !! i) →
  (∀ s', recoverable cfg s' → extends (disk s1) (disk s') → inode_map s' = inode_map s1 → wp (K tt) Q E s' w) →
  wp (update_imap l) (λ _ s w, wp (sync_if_forced cfg ≫= K) Q E s w) E s1 w.
Proof.
  intros [Hs Hsync _] [bs Hd] Hc Hsz Hhas Hl Hm Hother HQ.
  assert (wf s1) as Hs1.
  { eapply (wf_commit s); [done|by rewrite Hd; apply extends_app| |by rewrite Hc; destruct Hs|done..].
    destruct (wf_cp _ Hs) as [es ?]. exists es. rewrite Hd. by apply lookup_app_l_Some. }
  apply wp_update_imap; [done|by rewrite Hc; destruct Hs|done|].
  intros s2 bs' Hd2 Hl2 Hm2 Hs2. destruct (wf_cp _ Hs1) as [es Hcp].
  assert (extends (disk s1) (disk s2)) as Hext by (rewrite Hd2; apply extends_app).
  wp_pures. apply wp_finish.
  - eapply (wf_commit s1); [done|done| |done|by rewrite Hm2|by rewrite Hm2|rewrite Hm2; by left].
    exists es. rewrite Hd2. by apply lookup_app_l_Some.
  - intros i Hi. apply Hs2; [done|]. destruct (decide (i ∈ l)) as [?|Hni]; [left; eauto|right].
    intros a Ha. rewrite Hother in Ha by done. rewrite Hc, Hd.
    destruct (Hsync i Hi a Ha) as [?|(k & es' & ? & ? & ?)]; [by left|right].
    exists k, es'. split_and!; [done|by apply lookup_app_l_Some|done].
  - intros s' Hr Hext' Hm'. apply HQ; [done|by etrans|congruence].
Qed.

(** Directory [p] has name [nm] for inode [i]. *)
Definition dir_holds (s : lfs) (p : Z) (nm : string) (i : Z) : Prop :=
  ∃ n, inode_at s p n ∧ type n = INODE_DIRECTORY ∧ holds (disk s) n nm i.

Definition no_fs_change (r : Z) (s s' : lfs) : Prop := r = -1 ∧ same_fs s s'.

(** The path names inode [i] ([-1]: nothing) in directory [p] under [nm]. *)
Definition resolves (s : lfs) (path : string) (i : Z) (nm : string) (p : Z) : Prop :=
  ∃ n s0 w s' w', same_fs s s0 ∧ walk_path cfg path s0 w = Ok (Some (i, nm, p, n)) s' w'.

(** *** create and mkdir *)

(** Creating [nm] in [p] as inode [new]: the directory gets exactly that name,
    a free inode becomes an empty file or a directory with its two names, and
    no other inode is touched. *)
Record created (s s' : lfs) (p : Z) (nm : string) (new : Z) (is_file : bool) : Prop := {
  cd_free : inode_map s !! new = Some (-1);
  cd_parent : ∀ nm' i, nm' ≠ "-" →
    dir_holds s' p nm' i ↔ (nm' = nm ∧ i = new) ∨ dir_holds s p nm' i;
  cd_new : ∃ n, inode_at s' new n ∧
    n = (if is_file then make_inode INODE_REGULAR 0 1
         else Inode INODE_DIRECTORY 1 2 (pointers n));
  cd_dots : is_file = false → ∀ nm' i, nm' ≠ "-" →
    dir_holds s' new nm' i ↔ (nm' = "." ∧ i = new) ∨ (nm' = ".." ∧ i = p);
  cd_others : ∀ i, i ≠ p → i ≠ new → inode_map s' !! i = inode_map s !! i;
}.

Lemma inode_at_fun s i n n' : inode_at s i n → inode_at s i n' → n = n'.
Proof.
  intros (k & Hk & Hn) (k' & Hk' & Hn'). rewrite Hk in Hk'. injection Hk' as ->%Nat2Z.inj.
  rewrite Hn in Hn'. by injection Hn'.
Qed.

Lemma dir_holds_at s p n nm i : inode_at s p n → type n = INODE_DIRECTORY →
  dir_holds s p nm i ↔ holds (disk s) n nm i.
Proof.
  intros Hn Ht. split; [|by exists n]. intros (n' & Hn' & _ & Hh). by rewrite (inode_at_fun _ _ _ _ Hn Hn').
Qed.

Lemma inode_at_ext d s' i k n : extends d (disk s') → inode_map s' !! i = Some (Z.of_nat k) →
  d !! k = Some (BLOCK_TYPE_INODE n) → inode_at s' i n.
Proof. intros Hext Hi Hk. exists k. split; [done|]. by apply Hext. Qed.

Lemma wp_allocate fuel s w (Q : Z → lfs → world → Prop) E :
  inode_policy cfg = ALLOCATE_SEQUENTIAL → wf s →
  (∀ i, 0 ≤ i < NUM_INODES → inode_map s !! i = Some (-1) →
     Q i (s <| inode_map := <[i := 1]> (inode_map s) |>) w) →
  Q (-1) s w →
  wp (allocate_inode cfg fuel) Q E s w.
Proof.
  intros Hseq Hs HQ Hnone. unfold allocate_inode. wp_pures. rewrite Hseq. wp_pures.
  rewrite (wf_size _ Hs). change (Z.of_nat 256) with NUM_INODES.
  apply (wp_for_ret (λ _ _ s' w', s' = s ∧ w' = w)); [done| |].
  - intros pre i post [] s' w' (_ & _ & Hi)%range_split (-> & ->). wp_pures.
    destruct (wf_has _ Hs i Hi) as [a Ha]. rewrite Ha.
    destruct (Z.eqb_spec a (-1)) as [->|]; wp_pures; [|done]. by apply HQ.
  - intros [] s' w' (-> & ->). by wp_pures.
Qed.

(** The directory's new version and the new inode are in the log: what is left
    is the inode map. *)
Lemma wp_create_commit {A} s s1 p n nm new (is_file : bool) x y size' old i0 n' kd kp kn nn w
    (K : unit → M lfs A) (Q : A → lfs → world → Prop) E :
  recoverable cfg s → 0 ≤ p < NUM_INODES → inode_at s p n → inode_ok (disk s) n → type n = INODE_DIRECTORY →
  looked_up (disk s) n nm (-1) → 0 ≤ new < NUM_INODES → inode_map s !! new = Some (-1) →
  slot (disk s) n size' x y old ("-", i0) →
  (∃ bs, disk s1 = disk s ++ bs) → cr s1 = cr s →
  inode_map s1 = <[new := Z.of_nat kn]> (<[p := Z.of_nat kp]> (<[new := 1]> (inode_map s))) →
  disk s1 !! kd = Some (BLOCK_TYPE_DATA_DIRECTORY (<[y := (nm, new)]> old)) →
  disk s1 !! kp = Some (BLOCK_TYPE_INODE n') → disk s1 !! kn = Some (BLOCK_TYPE_INODE nn) →
  type n' = INODE_DIRECTORY → isize n' = size' → pointers n' = <[x := Z.of_nat kd]> (pointers n) →
  (if is_file then nn = make_inode INODE_REGULAR 0 1
   else nn = Inode INODE_DIRECTORY 1 2 (pointers nn) ∧ ∃ kx, disk s1 !! kx = Some (make_new_dirblock p new) ∧
     pointers nn = [Z.of_nat kx; -1; -1; -1; -1; -1; -1; -1]) →
  (∀ s', recoverable cfg s' → created s s' p nm new is_file → wp (K tt) Q E s' w) →
  wp (update_imap [p; new]) (λ _ s w, wp (sync_if_forced cfg ≫= K) Q E s w) E s1 w.
Proof.
  intros Hr Hp Hn Hok Ht Hlook Hnew Hfree [Hold Hall Hes He0 Hx Hsz] [bs Hd] Hc Hm Hkd Hkp Hkn Ht' Hsz' Hptrs Hnn HQ.
  assert (extends (disk s) (disk s1)) as Hext by (rewrite Hd; apply extends_app).
  assert (new ≠ p) as Hne. { intros ->. destruct Hn as (k & Hk & _). rewrite Hfree in Hk. injection Hk. lia. }
  assert (nm = "-" ∨ ∀ i, ¬ holds (disk s) n nm i) as Hunused by by apply looked_up_free.
  rewrite <-Hsz' in Hsz.
  pose proof (updated_ok _ _ n n' x y kd old (nm, new) Hext Hok Ht Hold Hes Hx Hsz ltac:(by right)
    Hunused Hkd Hptrs) as Hok'.
  assert (∀ nm' i, nm' ≠ "-" → holds (disk s1) n' nm' i ↔ (nm' = nm ∧ i = new) ∨ holds (disk s) n nm' i) as Hholds'.
  { intros nm' i Hnm'. rewrite (updated_holds (disk s) (disk s1) n n' x y kd old ("-", i0) (nm, new)); try done; [|by right].
    simpl. split; [intros [[= -> ->]|[_ ?]]|intros [[-> ->]|?]]; auto. }
  assert ((is_file = false → ∀ nm' i, nm' ≠ "-" →
      holds (disk s1) nn nm' i ↔ (nm' = "." ∧ i = new) ∨ (nm' = ".." ∧ i = p)) ∧ inode_ok (disk s1) nn) as [Hdots Hokn].
  { destruct is_file; [subst nn; split; [done|by apply regular_ok]|].
    destruct Hnn as (Heq & kx & Hkx & Hpx).
    destruct (made_dir_ok (disk s1) kx p new nn Hp Hnew Hkx) as [? Hh]; [by rewrite Heq|by rewrite Heq|done|]. by split. }
  pose proof (rec_wf _ _ Hr) as Hs. eapply wp_commit; [done|by exists bs|done|..].
  - rewrite Hm. rewrite !map_size_insert_Some; [by apply wf_size|..]; rewrite ?lookup_insert_ne by done.
    + by rewrite Hfree.
    + destruct Hn as (k & Hk & _). by rewrite Hk.
    + by rewrite lookup_insert_eq.
  - rewrite Hm. repeat apply has_insert. apply Hs.
  - apply Forall_forall. intros i. rewrite !elem_of_cons. intros [-> |[-> |[]%elem_of_nil]]; done.
  - intros i a. rewrite Hm. intros [[<- <-]|[Hi1 [[<- <-]|[Hi2 Ha]]%lookup_insert_Some]]%lookup_insert_Some _.
    + right. by exists kn, nn.
    + right. by exists kp, n'.
    + left. by rewrite lookup_insert_ne in Ha.
  - intros i Hi. rewrite Hm, !lookup_insert_ne by set_solver. done.
  - intros s' Hr' Hext' Hm'. apply HQ; [done|].
    assert (inode_at s' p n') as Hp'.
    { eapply inode_at_ext; [done| |done]. by rewrite Hm', Hm, lookup_insert_ne, lookup_insert_eq. }
    assert (inode_at s' new nn) as Hnn'.
    { eapply inode_at_ext; [done| |done]. by rewrite Hm', Hm, lookup_insert_eq. }
    split; [done|..].
    + intros nm' i Hnm'. rewrite (dir_holds_at s'), (dir_holds_at s) by done.
      by rewrite (holds_ext _ _ Hext'), Hholds'.
    + exists nn. split; [done|]. by destruct is_file; [|destruct Hnn].
    + intros -> nm' i Hnm'. destruct Hnn as [Heq _]. rewrite (dir_holds_at s') by (done || by rewrite Heq).
      rewrite (holds_ext _ _ Hext') by (done || by rewrite Heq). by apply Hdots.
    + intros i Hi1 Hi2. by rewrite Hm', Hm, !lookup_insert_ne.
Qed.

Lemma wp_resolve path s s0 w (Q : walk → lfs → world → Prop) : recoverable cfg s → same_fs s s0 →
  (∀ s' w' i nm p n, same_fs s s' → resolves s path i nm p → walked s (Some (i, nm, p, n)) →
     Q (Some (i, nm, p, n)) s' w') →
  (∀ s' w', same_fs s s' → Q None s' w') →
  wp (walk_path cfg path) Q (unharmed s) s0 w.
Proof.
  intros [Hs _ _] H0 HQ HQn. assert (wf s0) as Hs0 by by rewrite <-H0.
  pose proof (wp_walk_path path s0 w Hs0) as Hw. unfold wp in *.
  destruct (walk_path cfg path s0 w) as [r s' w'|e s' w'|] eqn:Hrun; [|destruct Hw; by split; [|etrans]|done].
  destruct Hw as [Hsame Hr]. assert (same_fs s s') as Hs' by by etrans.
  destruct r as [[[[i nm] p] n]|]; [|by apply HQn]. apply HQ; [done| |by apply (walked_same s0); [symmetry|]].
  exists n, s0, w, s', w'. split; [done|exact Hrun].
Qed.

(** The outcome of an operation: an error answer and no change, or [Done] *)
Definition outcome (s : lfs) (Done : Z → lfs → Prop) : Z → lfs → world → Prop := λ r s' _,
  no_fs_change r s s' ∨ (0 ≤ r ∧ recoverable cfg s' ∧ Done r s').

Definition creates (s : lfs) (path : string) (is_file : bool) (r : Z) (s' : lfs) : Prop :=
  r = 0 ∧ ∃ p nm new, resolves s path (-1) nm p ∧ created s s' p nm new is_file.

Ltac fail_op := wp_pures; apply wp_error_log; intros; wp_pures; left; split; [done|by etrans].

(** Blocks just logged *)
Lemma app_at {A} (d l : list A) (i k : nat) x :
  k = (i + length d)%nat → l !! i = Some x → (d ++ l) !! k = Some x.
Proof. intros -> Hi. rewrite lookup_app_r by lia. by replace (i + length d - length d)%nat with i by lia. Qed.

Lemma len_app {A} (d l : list A) : len (d ++ l) = Z.of_nat (length l + length d).
Proof. unfold len. rewrite length_app. lia. Qed.

Ltac log_at := simpl; try done;
  match goal with
  | |- ∃ bs, _ = _ ++ bs => eexists; rewrite <-?app_assoc; reflexivity
  | _ => rewrite <-?app_assoc, ?len_app; simpl;
      first [done | eapply (app_at _ _ 0); [done|reflexivity] | eapply (app_at _ _ 1); [done|reflexivity]
        | eapply (app_at _ _ 2); [done|reflexivity] | eapply (app_at _ _ 3); [done|reflexivity] | idtac]
  end.

Lemma wp_file_create_ fuel path is_file s s0 w :
  inode_policy cfg = ALLOCATE_SEQUENTIAL → recoverable cfg s → same_fs s s0 →
  wp (file_create_ cfg fuel path is_file) (outcome s (creates s path is_file)) (unharmed s) s0 w.
Proof.
  intros Hseq Hr H0. unfold file_create_. wp_pures.
  apply wp_resolve; [done..| |]; simpl.
  2: { intros. fail_op. }
  intros s1 w1 i nm p n H1 Hres (Hp & Hn & Hok & Ht & Hlook).
  destruct (Z.eqb_spec i (-1)) as [->|]; cbn [negb]; wp_pures; [|fail_op].
  apply wp_allocate; [done|rewrite <-H1; apply Hr| |].
  2: { simpl. wp_pures. fail_op. }
  intros new Hnew Hfree. destruct (Z.eqb_spec new (-1)); [lia|]. wp_pures.
  pose proof H1 as (Hd1 & Hc1 & Hm1). rewrite Hm1 in Hfree.
  apply wp_add_dir_entry; [by simpl; rewrite Hd1|done| |].
  - intros x y size' old i0 Hslot. simpl in Hslot. rewrite Hd1 in Hslot.
    pose proof (sl_block _ _ _ _ _ _ _ Hslot) as Hx. pose proof (io_pointers _ _ Hok) as Hlen.
    unfold log. wp_pures. rewrite py_set_nat by lia. wp_pures.
    unfold remap. destruct is_file; wp_pures; simpl; rewrite ?Hd1, ?Hc1, ?Hm1; wp_pures.
    + eapply (wp_create_commit s _ p n nm new true x y size' old i0
        (Inode (type n) size' (refs n) (<[x := len (disk s)]> (pointers n)))
        (length (disk s)) (1 + length (disk s)) (2 + length (disk s))); log_at.
      intros s' Hr' Hcd. wp_pures. right. split_and!; [done..|]. split; [done|]. by exists p, nm, new.
    + eapply (wp_create_commit s _ p n nm new false x y size' old i0
        (Inode (type n) size' (refs n + 1) (<[x := len (disk s)]> (pointers n)))
        (length (disk s)) (2 + length (disk s)) (3 + length (disk s))); log_at.
      * split; [done|]. exists (1 + length (disk s))%nat. split; [log_at|].
        f_equal. lia.
      * intros s' Hr' Hcd. wp_pures. right. split_and!; [done..|]. split; [done|]. by exists p, nm, new.
  - wp_pures. apply wp_error_log. intros s2 (Hd2 & Hc2 & Hm2). unfold free_inode. wp_pures.
    simpl in *. rewrite Hm2, lookup_insert_eq. wp_pures. left. split; [done|].
    split_and!; simpl; [by rewrite Hd2|by rewrite Hc2|].
    rewrite Hm2, insert_insert_eq, Hm1. by apply insert_id.
Qed.

(** *** write *)

Lemma wp_random_blocks num s w (Q : list string → lfs → world → Prop) E :
  (∀ l w', length l = Z.to_nat num → Q l s w') → wp (make_random_blocks num) Q E s w.
Proof.
  intros HQ. unfold make_random_blocks.
  apply (wp_for_acc (λ pre l s' _, s' = s ∧ length l = length pre)); [done| |].
  - intros pre i post l s' w' _ (-> & Hl). unfold rand_int. wp_pures.
    split; [done|]. by rewrite !length_app, Hl.
  - intros l s' w' (-> & Hl). apply HQ. rewrite Hl, length_range. f_equal. lia.
Qed.

(** The plan: [k] consecutive offsets, at consecutive addresses *)
Definition planned (offset ptr k : Z) : list (Z * Z) := (λ j, (offset + j, ptr + j)) <$> range 0 k.

Lemma wp_plan offset num ptr s w (Q : Z * list (Z * Z) → lfs → world → Prop) E :
  0 ≤ offset < NUM_INODE_PTRS → 0 ≤ num →
  (let k := Z.min num (NUM_INODE_PTRS - offset) in Q (offset + k, planned offset ptr k) s w) →
  wp (plan_writes offset num ptr) Q E s w.
Proof.
  intros Hoff Hnum HQ. unfold plan_writes, NUM_INODE_PTRS in *.
  apply (wp_while (λ b s' w', s' = s ∧ w' = w ∧ ∃ k, 0 ≤ k ≤ Z.min num (8 - offset) ∧
    b = (offset + k, ptr + k, planned offset ptr k)) (λ b _ _, Z.to_nat (8 - b.1.1))).
  - split_and!; [done..|]. exists 0. split; [lia|]. by rewrite !Z.add_0_r.
  - simpl. lia.
  - intros b s' w' (-> & -> & k & Hk & ->).
    destruct (Z.ltb_spec (offset + k) 8), (Z.ltb_spec (offset + k) (offset + num)); simpl; wp_pures.
    + split; [|lia]. split_and!; [done..|]. exists (k + 1). split; [lia|].
      unfold planned. rewrite range_snoc by lia. rewrite fmap_app. simpl. by rewrite !Z.add_assoc.
    + by replace k with (Z.min num (8 - offset)) by lia.
    + by replace k with (Z.min num (8 - offset)) by lia.
    + by replace k with (Z.min num (8 - offset)) by lia.
Qed.

(** Writing the pointers one by one *)
Definition repointed (l : list Z) (offset ptr : Z) (k : Z) (l' : list Z) : Prop :=
  length l' = length l ∧
  (∀ j, 0 ≤ j < k → l' !! Z.to_nat (offset + j) = Some (ptr + j)) ∧
  (∀ x, (Z.of_nat x < offset ∨ offset + k ≤ Z.of_nat x) → l' !! x = l !! x).

Lemma wp_repoint l offset ptr k s w (Q : list Z → lfs → world → Prop) E :
  0 ≤ offset → 0 ≤ k → offset + k ≤ len l →
  (∀ l', repointed l offset ptr k l' → Q l' s w) →
  wp (for_acc (planned offset ptr k) l (λ ptrs e, list_set ptrs e.1 e.2)) Q E s w.
Proof.
  intros Hoff Hk Hlen HQ. unfold len in Hlen.
  apply (wp_for_acc (λ pre l' s' w', s' = s ∧ w' = w ∧ repointed l offset ptr (len pre) l')).
  - split_and!; [done..|]. split_and!; [done|unfold len; simpl; lia|done].
  - intros pre e post l' s' w' Hsplit (-> & -> & Hl & Hin & Hout). wp_pures.
    assert (e = (offset + len pre, ptr + len pre) ∧ len pre < k) as [-> Hlt].
    { unfold planned in Hsplit. assert (planned offset ptr k !! length pre = Some e) as He.
      { unfold planned. by rewrite Hsplit, lookup_app_r, Nat.sub_diag. }
      unfold planned in He. apply list_lookup_fmap_Some in He as (j & -> & Hj).
      apply lookup_seqZ in Hj as [-> ?]. unfold len. split; [f_equal; lia|lia]. }
    simpl. unfold len in *. rewrite <-(Z2Nat.id (offset + _)) by lia. rewrite py_set_nat by lia.
    split; [done|]. split; [done|]. split_and!; [by rewrite length_insert| |].
    + intros j Hj. rewrite length_app in Hj. simpl in Hj.
      destruct (decide (j = Z.of_nat (length pre))) as [->|].
      * rewrite list_lookup_insert_eq by lia. f_equal; lia.
      * rewrite list_lookup_insert_ne by lia. apply Hin. lia.
    + intros x Hx. rewrite length_app in Hx. simpl in Hx.
      rewrite list_lookup_insert_ne by lia. apply Hout. lia.
  - intros l' s' w' (-> & -> & Hr). apply HQ. replace k with (len (planned offset ptr k)); [done|].
    unfold len, planned. rewrite length_fmap, length_range. lia.
Qed.

Lemma wp_log_data contents (k : nat) s w (Q : unit → lfs → world → Prop) E : (k ≤ length contents)%nat →
  (∀ s', disk s' = disk s ++ (BLOCK_TYPE_DATA_BLOCK <$> take k contents) → cr s' = cr s →
     inode_map s' = inode_map s → Q tt s' w) →
  wp (for_ (range 0 (Z.of_nat k)) (λ i, c ← list_get contents i; log (BLOCK_TYPE_DATA_BLOCK c);; mret tt)) Q E s w.
Proof.
  intros Hk HQ. apply (wp_for (λ pre s' w', w' = w ∧ cr s' = cr s ∧ inode_map s' = inode_map s ∧
    disk s' = disk s ++ (BLOCK_TYPE_DATA_BLOCK <$> take (length pre) contents))).
  - split_and!; [done..|]. simpl. by rewrite app_nil_r.
  - intros pre i post s' w' (-> & _ & Hi)%range_split (-> & Hc & Hm & Hd).
    rewrite length_range in Hd. rewrite <-(Z2Nat.id i) by lia. wp_pures. rewrite py_get_nat.
    destruct (lookup_lt_is_Some_2 contents (Z.to_nat i)) as [c Hi']; [lia|]. rewrite Hi'. unfold log. wp_pures.
    split_and!; [done..|]. simpl. rewrite Hd, length_app, length_range. simpl.
    replace (Z.to_nat (Z.of_nat (Z.to_nat i) - 0) + 1)%nat with (S (Z.to_nat i)) by lia.
    rewrite (take_S_r _ _ c) by done. rewrite fmap_app, app_assoc. by rewrite Z.sub_0_r.
  - intros s' w' (-> & ? & ? & Hd). apply HQ; [|done..]. rewrite length_range in Hd. rewrite Hd.
    by replace (Z.to_nat (Z.of_nat k - 0)) with k by lia.
Qed.

(** The write reached the file: block after block from [offset] on holds the
    [r] first of the contents, everything else is as it was. *)
Record written (s s' : lfs) (i offset r : Z) (contents : list string) : Prop := {
  wn_inode : ∃ n n', inode_at s i n ∧ type n = INODE_REGULAR ∧ inode_at s' i n' ∧
    n' = Inode (type n) (Z.max (offset + r) (isize n)) (refs n) (pointers n') ∧
    length (pointers n') = 8%nat ∧
    (∀ j, 0 ≤ j < r → ∃ k c, pointers n' !! Z.to_nat (offset + j) = Some (Z.of_nat k) ∧
       contents !! Z.to_nat j = Some c ∧ disk s' !! k = Some (BLOCK_TYPE_DATA_BLOCK c)) ∧
    ∀ x, (Z.of_nat x < offset ∨ offset + r ≤ Z.of_nat x) → pointers n' !! x = pointers n !! x;
  wn_others : ∀ j, j ≠ i → inode_map s' !! j = inode_map s !! j;
}.

Definition writes (s : lfs) (path : string) (offset num r : Z) (s' : lfs) : Prop :=
  0 ≤ offset < NUM_INODE_PTRS ∧ r = Z.min (Z.max 0 num) (NUM_INODE_PTRS - offset) ∧
  ∃ i nm p contents, resolves s path i nm p ∧ length contents = Z.to_nat num ∧
    written s s' i offset r contents.

Lemma update_imap_one i s w (Q : unit → lfs → world → Prop) E :
  wp (update_imap [i]) Q E s w → wp (log_chunk (inum_to_chunk i)) Q E s w.
Proof.
  unfold update_imap. simpl. rewrite !wp_bind. intros H.
  eapply wp_conseq; [exact H|]. by intros [] s' w' H'.
Qed.

Lemma wp_file_write path offset num s w : recoverable cfg s →
  wp (file_write cfg path offset num) (outcome s (writes s path offset num)) (unharmed s) s w.
Proof.
  intros Hr. unfold file_write. wp_pures. apply wp_error_clear. intros s0 H0. wp_pures.
  apply wp_random_blocks. intros contents w0 Hlen. wp_pures.
  apply wp_resolve; [done..| |]; simpl; [|intros; fail_op].
  intros s1 w1 i nm p n H1 Hres (Hp & Hn & Hok & Ht & Hlook).
  destruct (Z.eqb_spec i (-1)) as [->|Hi]; [fail_op|]. wp_pures.
  apply wp_get_inode; [rewrite <-H1; apply Hr|by destruct (looked_up_range _ _ _ _ Hok Ht Hlook)| |].
  2: { split; [by left|done]. }
  intros f Hf Hfok. case_bool_decide as Hft; [fail_op|].
  destruct ((offset <? 0) || (NUM_INODE_PTRS <=? offset)) eqn:Hoff; [fail_op|].
  assert (0 ≤ offset < NUM_INODE_PTRS) as Hoff' by lia. clear Hoff.
  apply dec_stable in Hft || (destruct (type f) eqn:Hreg; [done|clear Hft]).
  pose proof H1 as (Hd1 & Hc1 & Hm1). rewrite Hd1 in Hfok. rewrite <-H1 in Hf.
  pose proof (io_pointers _ _ Hfok) as Hptrs. pose proof (io_size _ _ Hfok) as Hfsz.
  wp_pures. apply wp_plan; [done|unfold len; lia|]. cbv zeta. set (k := Z.min _ _).
  assert (0 ≤ k ≤ NUM_INODE_PTRS - offset ∧ k ≤ len contents) as (Hk & Hkl) by (unfold k, len; lia).
  unfold NUM_INODE_PTRS in Hk, Hoff'. wp_pures.
  assert (len (planned offset (len (disk s1)) k) = Z.of_nat (Z.to_nat k)) as ->.
  { unfold len, planned. rewrite length_fmap, length_range. lia. }
  apply wp_log_data; [unfold len in Hkl; lia|]. intros s2 Hd2 Hc2 Hm2. wp_pures.
  apply wp_repoint; [lia..|unfold len; rewrite Hptrs; lia|]. intros ptrs (Hl & Hin & Hout).
  unfold log, remap. wp_pures. apply update_imap_one. rewrite Hd1 in Hd2, Hin.
  set (f' := f <| isize := _ |> <| pointers := ptrs |>). set (bs := _ <$> _) in Hd2.
  assert (disk s2 ++ [BLOCK_TYPE_INODE f'] = disk s ++ bs ++ [BLOCK_TYPE_INODE f']) as Hd3.
  { by rewrite Hd2, app_assoc. }
  assert ((disk s2 ++ [BLOCK_TYPE_INODE f']) !! length (disk s2) = Some (BLOCK_TYPE_INODE f')) as Hf'.
  { by rewrite lookup_app_r, Nat.sub_diag by done. }
  assert (inode_ok (disk s2 ++ [BLOCK_TYPE_INODE f']) f') as Hok'.
  { apply regular_ok; [by simpl; rewrite Hl|unfold NUM_INODE_PTRS in *; simpl; lia|done]. }
  pose proof (rec_wf _ _ Hr) as Hs. destruct (looked_up_range _ _ _ _ Hok Ht Hlook) as [?|Hri]; [done|].
  apply (wp_commit s); simpl; rewrite ?Hm2, ?Hm1, ?Hc2, ?Hc1; [done|by eexists|done|..].
  - rewrite map_size_insert_Some; [apply Hs|by apply Hs].
  - apply has_insert, Hs.
  - by apply Forall_singleton.
  - intros j a [[<- <-]|[_ ?]]%lookup_insert_Some _; [right|by left]. by exists (length (disk s2)), f'.
  - intros j Hj. rewrite lookup_insert_ne by set_solver. done.
  - intros s' Hr' Hext Hm'. wp_pures. rewrite ?Hm2, ?Hm1 in Hm'. right. split; [lia|]. split; [done|].
    split; [done|]. split; [unfold k, len; rewrite Hlen; lia|].
    exists i, nm, p, contents. split_and!; [done..|]. replace (offset + k - offset) with k by lia. split.
    + exists f, f'. split_and!; [done..| |done|by simpl; rewrite Hl| |done].
      * eapply inode_at_ext; [exact Hext| |exact Hf']. simpl. rewrite Hm', lookup_insert_eq. done.
      * intros j Hj. destruct (lookup_lt_is_Some_2 contents (Z.to_nat j)) as [c Hc]; [unfold len in Hkl; lia|].
        exists (Z.to_nat j + length (disk s))%nat, c. split_and!; [|done|].
        -- simpl. rewrite Hin by lia. f_equal. unfold len. lia.
        -- apply Hext; [simpl|done]. rewrite Hd3. eapply app_at; [done|].
           apply lookup_app_l_Some. unfold bs. rewrite list_lookup_fmap, lookup_take_lt by lia. by rewrite Hc.
    + intros j Hj. by rewrite Hm', lookup_insert_ne.
Qed.

(** *** delete *)

(** The name is gone from the directory; the inode is freed with its last
    name, or counts one name less. *)
Record deleted (s s' : lfs) (p : Z) (nm : string) (i : Z) (f : inode) : Prop := {
  dl_names : ∀ nm' j, nm' ≠ "-" → dir_holds s' p nm' j ↔ nm' ≠ nm ∧ dir_holds s p nm' j;
  dl_last : refs f = 1 → inode_map s' !! i = Some (-1);
  dl_more : 1 < refs f → inode_at s' i (f <| refs ::= Z.pred |>);
  dl_others : ∀ j, j ≠ p → j ≠ i → inode_map s' !! j = inode_map s !! j;
}.

Definition deletes (s : lfs) (path : string) (r : Z) (s' : lfs) : Prop :=
  r = 0 ∧ ∃ i nm p f, resolves s path i nm p ∧ inode_at s i f ∧ type f = INODE_REGULAR ∧
    deleted s s' p nm i f.

Lemma wp_delete_commit {A} s s1 p n nm i f x y old j0 n' kd kp a w (K : unit → M lfs A)
    (Q : A → lfs → world → Prop) E :
  recoverable cfg s → 0 ≤ p < NUM_INODES → inode_at s p n → inode_ok (disk s) n → type n = INODE_DIRECTORY →
  0 ≤ i < NUM_INODES → inode_at s i f → inode_ok (disk s) f → type f = INODE_REGULAR →
  slot (disk s) n (isize n) x y old (nm, j0) →
  (∃ bs, disk s1 = disk s ++ bs) → cr s1 = cr s →
  inode_map s1 = <[i := a]> (<[p := Z.of_nat kp]> (inode_map s)) →
  disk s1 !! kd = Some (BLOCK_TYPE_DATA_DIRECTORY (<[y := ("-", -1)]> old)) →
  disk s1 !! kp = Some (BLOCK_TYPE_INODE n') →
  n' = n <| pointers := <[x := Z.of_nat kd]> (pointers n) |> →
  (refs f = 1 → a = -1) →
  (1 < refs f → ∃ k, a = Z.of_nat k ∧ disk s1 !! k = Some (BLOCK_TYPE_INODE (f <| refs ::= Z.pred |>))) →
  (refs f < 1 → inode_map s !! i = Some a) →
  (∀ s', recoverable cfg s' → deleted s s' p nm i f → wp (K tt) Q E s' w) →
  wp (update_imap [i; p]) (λ _ s w, wp (sync_if_forced cfg ≫= K) Q E s w) E s1 w.
Proof.
  intros Hr Hp Hn Hok Ht Hi Hf Hfok Hft [Hold Hall Hes He0 Hx Hsz] [bs Hd] Hc Hm Hkd Hkp Hn' Hlast Hmore Hless HQ.
  assert (extends (disk s) (disk s1)) as Hext by (rewrite Hd; apply extends_app).
  assert (i ≠ p) as Hne.
  { intros ->. rewrite (inode_at_fun _ _ _ _ Hf Hn) in Hft. congruence. }
  assert (pointers n' = <[x := Z.of_nat kd]> (pointers n)) as Hptrs by by rewrite Hn'.
  assert (type n' = INODE_DIRECTORY) as Ht' by by rewrite Hn'.
  assert (Z.of_nat x < isize n ∧ isize n' = isize n ∨ isize n = Z.of_nat x ∧ isize n' = isize n + 1) as Hsz'
    by (rewrite Hn'; simpl; tauto).
  pose proof (updated_ok _ _ n n' x y kd old ("-", -1) Hext Hok Ht Hold Hes Hx Hsz' ltac:(by left)
    ltac:(by left) Hkd Hptrs) as Hok'.
  assert (∀ nm' j, nm' ≠ "-" → holds (disk s1) n' nm' j ↔ nm' ≠ nm ∧ holds (disk s) n nm' j) as Hholds'.
  { intros nm' j Hnm'. rewrite (updated_holds (disk s) (disk s1) n n' x y kd old (nm, j0) ("-", -1)); try done; [|by left|by left].
    simpl. split; [intros [?|[? ?]]; [congruence|by split]|intros [? ?]; right; by split]. }
  pose proof (rec_wf _ _ Hr) as Hs.
  pose proof (wf_has _ Hs i Hi) as Hsi. pose proof (wf_has _ Hs p Hp) as Hsp.
  apply (wp_commit s); rewrite ?Hm; [done|by exists bs|done|..].
  - rewrite !map_size_insert_Some; [apply Hs|done|by rewrite lookup_insert_ne].
  - apply has_insert, has_insert, Hs.
  - apply Forall_forall. intros j. rewrite !elem_of_cons. intros [-> |[-> |[]%elem_of_nil]]; done.
  - intros j b [[<- <-]|[_ [[<- <-]|[_ Hb]]%lookup_insert_Some]]%lookup_insert_Some Hb1.
    + destruct (Z.lt_trichotomy (refs f) 1) as [?|[?|Hgt]]; [by left; apply Hless|by rewrite Hlast in Hb1|].
      destruct (Hmore Hgt) as (k & -> & Hk). right. exists k, (f <| refs ::= Z.pred |>). split_and!; [done..|].
      apply regular_ok; [by apply Hfok..|done].
    + right. by exists kp, n'.
    + by left.
  - intros j Hj. rewrite !lookup_insert_ne by set_solver. done.
  - intros s' Hr' Hext' Hm'. apply HQ; [done|]. split.
    + intros nm' j Hnm'. assert (inode_at s' p n') as Hp'.
      { eapply inode_at_ext; [done| |done]. by rewrite Hm', lookup_insert_ne, lookup_insert_eq. }
      rewrite (dir_holds_at s'), (dir_holds_at s) by done. by rewrite (holds_ext _ _ Hext'), Hholds'.
    + intros H1%Hlast. by rewrite Hm', lookup_insert_eq, H1.
    + intros (k & -> & Hk)%Hmore. eapply inode_at_ext; [done| |done]. by rewrite Hm', lookup_insert_eq.
    + intros j Hj1 Hj2. by rewrite Hm', !lookup_insert_ne.
Qed.

Lemma wp_file_delete path s w : recoverable cfg s →
  wp (file_delete cfg path) (outcome s (deletes s path)) (unharmed s) s w.
Proof.
  intros Hr. unfold file_delete. wp_pures. apply wp_error_clear. intros s0 H0. wp_pures.
  apply wp_resolve; [done..| |]; simpl; [|intros; fail_op].
  intros s1 w1 i nm p n H1 Hres (Hp & Hn & Hok & Ht & Hlook).
  destruct (Z.eqb_spec i (-1)) as [->|Hi]; [fail_op|]. wp_pures.
  destruct (looked_up_range _ _ _ _ Hok Ht Hlook) as [?|Hri]; [done|].
  pose proof H1 as (Hd1 & Hc1 & Hm1).
  apply wp_get_inode; [rewrite <-H1; apply Hr|done| |by split; [left|]].
  intros f Hf Hfok. rewrite Hd1 in Hfok. rewrite <-H1 in Hf. case_bool_decide as Hft; [fail_op|].
  assert (type f = INODE_REGULAR) as Hreg by (by destruct (type f); [destruct Hft|]). clear Hft.
  pose proof Hf as (kf & Hkf & _).
  set (s2 := if refs f =? 1 then s1 <| inode_map := <[i := -1]> (inode_map s1) |> else s1).
  assert (∀ (Q : unit → lfs → world → Prop) E, Q tt s2 w1 → wp (when (refs f =? 1) (free_inode i)) Q E s1 w1) as Hfree.
  { intros Q E HQ. unfold s2 in HQ. destruct (refs f =? 1); [|done]. unfold free_inode. wp_pures.
    rewrite Hm1, Hkf. destruct (Z.eqb_spec (Z.of_nat kf) (-1)); [lia|]. cbn [negb]. by wp_pures. }
  rewrite wp_bind. apply Hfree. clear Hfree. wp_pures.
  assert (disk s2 = disk s ∧ cr s2 = cr s) as [Hd2 Hc2] by (unfold s2; by destruct (refs f =? 1)).
  assert (holds (disk s) n nm i) as Hh by (destruct Hlook as [?|[? _]]; [done|lia]).
  apply wp_find_slot; [by rewrite Hd2|done| |].
  2: { intros Hno. rewrite Hd2 in Hno. by destruct (Hno i). }
  intros x y j He. rewrite Hd2 in He.
  destruct (slot_entry _ _ _ _ _ Hok Ht He) as (kb & old & Hpb & Hkb & Hslot).
  simpl. destruct (Z.eqb_spec (Z.of_nat x) (-1)); [lia|]. cbn [negb]. wp_pures. unfold read_dirblock. wp_pures.
  rewrite py_get_nat, Hpb. wp_pures. rewrite Hd2, py_get_nat, Hkb. simpl. wp_pures.
  rewrite py_set_nat by (eapply lookup_lt_Some, sl_entry; done). unfold log, remap. wp_pures.
  rewrite py_set_nat by (by eapply lookup_lt_Some). wp_pures. simpl. rewrite ?Hd2, ?Hc2. subst s2.
  assert (i ≠ p) as Hne.
  { intros ->. rewrite (inode_at_fun _ _ _ _ Hf Hn) in Hreg. congruence. }
  assert (∀ s', recoverable cfg s' → deleted s s' p nm i f →
    wp (mret 0) (outcome s (deletes s path)) (unharmed s) s' w1) as Hdone.
  { intros s' Hr' Hdl. rewrite wp_ret. right. split_and!; [done..|]. split; [done|]. by exists i, nm, p, f. }
  set (a := if 1 <? refs f then Z.of_nat (2 + length (disk s)) else if refs f =? 1 then -1 else Z.of_nat kf).
  destruct (Z.ltb_spec 1 (refs f)); wp_pures; simpl;
    (eapply (wp_delete_commit s _ p n nm i f x y old j
       (n <| pointers := <[x := len (disk s)]> (pointers n) |>) (length (disk s)) (1 + length (disk s)) a); log_at).
  - destruct (Z.eqb_spec (refs f) 1); [lia|]. simpl. by rewrite Hm1.
  - lia.
  - intros _. exists (2 + length (disk s))%nat. split; [done|log_at].
  - lia.
  - unfold a. rewrite Hm1. destruct (Z.eqb_spec (refs f) 1); simpl; rewrite ?Hm1; [by rewrite insert_insert_ne|].
    symmetry. apply insert_id. rewrite lookup_insert_ne by done. exact Hkf.
  - unfold a. by intros ->.
  - lia.
  - intros Hlt. unfold a. destruct (Z.eqb_spec (refs f) 1); [lia|done].
Qed.

(** *** Every command but link *)

Lemma outcome_recoverable {A} (m : M lfs A) (f : A → Z) s s0 Done w : recoverable cfg s →
  wp m (λ r s' w', outcome s Done (f r) s' w') (unharmed s) s0 w →
  wp m (λ _ s' _, recoverable cfg s') (λ _ s' _, recoverable cfg s') s0 w.
Proof.
  intros Hr Hm. eapply wp_mono; [exact Hm|..].
  - intros r s' w' [[_ Hsame]|(_ & ? & _)]; [by rewrite <-Hsame|done].
  - intros e s' w' [_ Hsame]. by rewrite <-Hsame.
Qed.

Lemma preserves_same_fs f : (∀ s, same_fs s (f s)) → preserves (recoverable cfg) (modify f).
Proof. intros Hf. apply preserves_modify. intros s Hs. by rewrite <-(Hf s). Qed.

#[local] Hint Extern 2 (preserves (recoverable cfg) (modify _)) => (apply preserves_same_fs; done) : preserves.

Lemma preserves_create fuel path is_file : inode_policy cfg = ALLOCATE_SEQUENTIAL →
  preserves (recoverable cfg) (file_create_ cfg fuel path is_file).
Proof. intros Hseq s w Hr. by eapply (outcome_recoverable _ id), wp_file_create_. Qed.

Lemma preserves_error_clear : preserves (recoverable cfg) error_clear.
Proof. by apply preserves_same_fs. Qed.

Lemma preserves_write path offset num : preserves (recoverable cfg) (file_write cfg path offset num).
Proof. intros s w Hr. by eapply (outcome_recoverable _ id), wp_file_write. Qed.

Lemma preserves_delete path : preserves (recoverable cfg) (file_delete cfg path).
Proof. intros s w Hr. by eapply (outcome_recoverable _ id), wp_file_delete. Qed.

Lemma wp_cr_sync s w (Q : Z → lfs → world → Prop) E : recoverable cfg s →
  (∀ s', recoverable cfg s' → extends (disk s) (disk s') → inode_map s' = inode_map s →
     disk s' !! 0%nat = Some (BLOCK_TYPE_CHECKPOINT (cr s')) → Q 0 s' w) →
  wp cr_sync Q E s w.
Proof.
  intros [Hs Hsync _] HQ. unfold cr_sync, ADDR_CHECKPOINT_BLOCK. wp_pures. destruct (wf_cp _ Hs) as [es Hcp].
  pose proof (lookup_lt_Some _ _ _ Hcp) as Hlt. rewrite (py_set_nat (disk s) 0) by done. wp_pures.
  apply HQ; simpl; [|by eapply extends_cp|done|by rewrite list_lookup_insert_eq]. split; simpl.
  - eapply (wf_commit s); simpl; [done|by eapply extends_cp| |apply Hs|apply Hs|apply Hs|by left].
    eexists. by rewrite list_lookup_insert_eq.
  - intros i Hi. eapply (synced_at_ext s); [by eapply extends_cp|done..|by apply Hsync].
  - intros _. by rewrite list_lookup_insert_eq.
Qed.

Lemma preserves_sync : preserves (recoverable cfg) sync.
Proof.
  intros s w Hr. unfold sync. wp_pures. apply wp_error_clear. intros s0 H0. rewrite H0 in Hr.
  by apply wp_cr_sync.
Qed.

Lemma preserves_determine_liveness : preserves (recoverable cfg) determine_liveness.
Proof. unfold determine_liveness, dict_get, list_get, block_pointers. preserves_solve. Qed.

Lemma preserves_dump_range a b l : preserves (recoverable cfg) (dump_range cfg a b l).
Proof.
  unfold dump_range. apply preserves_bind; [apply preserves_determine_liveness|].
  unfold list_get, dict_get, dump_block, put_ptr, print. preserves_solve.
Qed.

#[local] Hint Resolve preserves_error_clear preserves_create preserves_write preserves_delete preserves_sync preserves_dump_range : preserves.

(** On the state of the shell *)
Definition shell_recoverable (s : shell) : Prop := recoverable cfg (L s).

Lemma preserves_on_lfs {A} (m : M lfs A) :
  preserves (recoverable cfg) m → preserves shell_recoverable (on_lfs m).
Proof. by apply (preserves_zoom (recoverable cfg) L). Qed.

Lemma preserves_shell f : (∀ s : shell, L (f s) = L s) → preserves shell_recoverable (modify f).
Proof. intros Hf. apply preserves_modify. intros s. unfold shell_recoverable. by rewrite Hf. Qed.

#[local] Hint Extern 2 (preserves shell_recoverable (modify _)) => (apply preserves_shell; done) : preserves.

Ltac shell_preserves :=
  repeat (first [preserves_step | apply preserves_on_lfs;
    unfold file_create, dir_create, dump, dump_partial, error_dump, print]).

(** The command, before the first comma, is not [l]. *)
Definition not_link (command : string) : bool :=
  match split_on "," command with c :: _ => negb (bool_decide (c = "l")) | [] => true end.

Lemma preserves_run_command o fuel command : inode_policy cfg = ALLOCATE_SEQUENTIAL → not_link command = true →
  preserves shell_recoverable (run_command cfg o fuel command).
Proof.
  intros Hseq Hl. unfold not_link in Hl. unfold run_command.
  pose proof (split_on_nonnil "," command) as Hnil. destruct (split_on "," command) as [|c args]; [done|].
  apply preserves_bind; [|unfold list_get, print; shell_preserves].
  unfold run_operation. change (list_get (c :: args) 0) with (mret (M:=M shell) c).
  match goal with |- preserves _ (mret c ≫= ?f) => change (preserves shell_recoverable (f c)) end.
  cbv beta. assert (bool_decide (c = "l") = false) as -> by (by destruct (bool_decide _)).
  unfold list_get, py_int, forget_file, print. shell_preserves.
Qed.

Lemma preserves_main o no_final show_live_paths fuel commands : inode_policy cfg = ALLOCATE_SEQUENTIAL →
  forallb not_link (split_on ":" commands) = true →
  preserves shell_recoverable (main cfg o no_final show_live_paths fuel commands).
Proof.
  intros Hseq Hl. assert (∀ c, c ∈ split_on ":" commands → not_link c = true) as Hcmd.
  { intros c Hc. rewrite forallb_forall in Hl. apply Hl. by apply list_elem_of_In. }
  unfold main, print. shell_preserves. by apply preserves_run_command, Hcmd.
Qed.
End Operations.

(** ** The file system as [__init__] leaves it *)

Definition initial_imap : gmap Z Z := <[0:=2]> (list_to_map ((λ i, (i, -1)) <$> range 0 NUM_INODES)).

Lemma initial_map i a : initial_imap !! i = Some a →
  (i = 0 ∧ a = 2) ∨ (i ≠ 0 ∧ a = -1).
Proof.
  unfold initial_imap. intros [[<- <-]|[Hne Hi]]%lookup_insert_Some; [by left|right; split; [done|]].
  apply elem_of_list_to_map_2, list_elem_of_fmap in Hi as (j & [= -> ->] & _). done.
Qed.

Lemma minus_ones x i : 0 < i < 16 → (x :: repeat (-1) 15) !! Z.to_nat i = Some (-1).
Proof.
  intros Hi. destruct (Z.to_nat i) as [|k] eqn:Hk; [lia|]. assert (k < 15)%nat by lia. simpl.
  do 15 (destruct k as [|k]; [done|]). lia.
Qed.

Lemma lfs_init_recoverable cfg s w (Q : unit → lfs → world → Prop) E :
  s = lfs_blank → (∀ s', recoverable cfg s' → Q tt s' w) → wp lfs_init Q E s w.
Proof.
  intros -> HQ.
  assert (∃ s', lfs_init lfs_blank w = Ok tt s' w ∧ disk s' = [BLOCK_TYPE_CHECKPOINT (3 :: repeat (-1) 15);
    make_new_dirblock 0 0; BLOCK_TYPE_INODE (Inode INODE_DIRECTORY 1 2 [1; -1; -1; -1; -1; -1; -1; -1]);
    BLOCK_TYPE_IMAP (2 :: repeat (-1) 15)] ∧ cr s' = 3 :: repeat (-1) 15 ∧
    inode_map s' = initial_imap) as (s' & Hrun & Hd & Hc & Hm).
  { eexists. split; [vm_compute; reflexivity|]. split_and!; [reflexivity..|vm_compute; reflexivity]. }
  unfold wp. rewrite Hrun. apply HQ. split.
  - split; [by rewrite Hc|by rewrite Hd; eexists|by rewrite Hm; vm_compute| |].
    + rewrite Hm. unfold initial_imap. apply has_insert. intros i Hi. exists (-1). apply elem_of_list_to_map_1.
      * rewrite <-list_fmap_compose. change (NoDup (id <$> range 0 NUM_INODES)).
        rewrite list_fmap_id. apply NoDup_range.
      * apply list_elem_of_fmap. exists i. split; [done|]. by apply elem_of_range.
    + intros i a Hi Ha. rewrite Hm in Hi. clear Hrun Hm. pose proof (initial_map _ _ Hi) as Hia. destruct Hia as [[_ Hia]|[_ Hia]]; rewrite Hia in Ha |- *; [|done].
      exists 2%nat, (Inode INODE_DIRECTORY 1 2 [1; -1; -1; -1; -1; -1; -1; -1]). rewrite Hd. split_and!; [done..|].
      match goal with |- inode_ok ?d ?n =>
        assert (d !! 1%nat = Some (make_new_dirblock 0 0)) as Hd1 by reflexivity;
        assert (0 ≤ 0 < NUM_INODES) as H0 by (unfold NUM_INODES, NUM_IMAP_PTRS_IN_CR, NUM_INODES_PER_IMAP_CHUNK; lia);
        apply (proj1 (made_dir_ok d 1%nat 0 0 n H0 H0 Hd1 eq_refl eq_refl eq_refl)) end.
  - intros i Hi a Ha. rewrite Hc, Hd. rewrite Hm in Ha. pose proof (chunk_range i Hi) as Hch.
    clear Hrun Hm. pose proof (initial_map _ _ Ha) as Hia. clear Ha.
    destruct (decide (i / 16 = 0)) as [Hz|Hz].
    + right. exists 3%nat, (2 :: repeat (-1) 15). rewrite Hz. split_and!; [done..|].
      assert (0 ≤ i < 16) by (apply Z.div_small_iff in Hz; lia). rewrite Z.mod_small by done.
      destruct Hia as [[-> ->]|[? ->]]; [done|]. apply minus_ones. lia.
    + left. destruct Hia as [[-> _]|[_ ->]]; [done|]. split; [done|]. apply minus_ones. lia.
  - intros _. by rewrite Hd, Hc.
Qed.

(** ** What the commands do *)

(** The configuration with the file system read through the checkpoint region *)
Definition through_disk (cfg : config) : config :=
  Config true (no_force_checkpoints cfg) (inode_policy cfg) (solve cfg).

(** Reading through the disk finds every allocated inode where the map in
    memory has it. *)
Definition reads_back (cfg : config) (s : lfs) : Prop :=
  ∀ i a w, 0 ≤ i < NUM_INODES → inode_map s !! i = Some a → a ≠ -1 →
    inode_address (through_disk cfg) i s w = Ok a s w.

Lemma recoverable_reads_back cfg s : recoverable cfg s →
  disk s !! 0%nat = Some (BLOCK_TYPE_CHECKPOINT (cr s)) → reads_back cfg s.
Proof.
  intros [Hs Hsync _] Hcp i a w Hi Ha Hne.
  destruct (Hsync i Hi a Ha) as [[? _]|(k & es & Hk & Hd & Hy)]; [done|].
  assert (wp (inode_address (through_disk cfg) i) (λ b s' w', b = a ∧ s' = s ∧ w' = w) noexn s w) as Hwp.
  { unfold inode_address, ADDR_CHECKPOINT_BLOCK. wp_pures. simpl use_disk_cr. cbv iota. wp_pures.
    change (py_index (disk s) 0) with (py_index (disk s) (Z.of_nat 0)).
    rewrite py_get_nat, Hcp. simpl. wp_pures.
    unfold int_div, NUM_INODES_PER_IMAP_CHUNK. rewrite Z.quot_div_nonneg by lia.
    pose proof (chunk_range i Hi). rewrite <-(Z2Nat.id (i / 16)) by lia. rewrite py_get_nat, Hk. wp_pures.
    rewrite py_get_nat, Hd. simpl. wp_pures.
    rewrite <-(Z2Nat.id (i mod 16)) by (by apply Z.mod_pos_bound). by rewrite py_get_nat, Hy. }
  apply wp_noexn_ok in Hwp as (b & s' & w' & Hrun & -> & -> & ->). exact Hrun.
Qed.

(** C11: creating a file or a directory.  The call answers [-1] and leaves the
    disk and both maps alone, or answers 0 and then the last name of the path
    is added to the directory the rest of the path leads to, for an inode that
    was free and is now an empty file or a directory holding just itself and
    its parent; all other names and inodes are as before, and the disk is again
    enough to find everything.  A failing assertion changes nothing. *)
Theorem create_correct cfg fuel path is_file s w :
  use_disk_cr cfg = false → inode_policy cfg = ALLOCATE_SEQUENTIAL → recoverable cfg s →
  wp (if is_file : bool then file_create cfg fuel path else dir_create cfg fuel path)
    (outcome cfg s (creates cfg s path is_file)) (unharmed s) s w.
Proof.
  intros Hmem Hseq Hr.
  assert (wp (error_clear;; file_create_ cfg fuel path is_file)
    (outcome cfg s (creates cfg s path is_file)) (unharmed s) s w) as Hwp; [|by destruct is_file].
  wp_pures. apply wp_error_clear. intros s0 H0. by apply wp_file_create_.
Qed.

(** C12: writing to a file.  The call answers [-1] and changes nothing on the
    disk, or answers the number of blocks written, which is cut off at the end
    of the inode; then those offsets hold the new contents, the size covers
    them, every other block of the file is the old one, and no other inode has
    moved. *)
Theorem write_correct cfg path offset num s w : use_disk_cr cfg = false → recoverable cfg s →
  wp (file_write cfg path offset num) (outcome cfg s (writes cfg s path offset num)) (unharmed s) s w.
Proof. intros. by apply wp_file_write. Qed.

(** C13: deleting a file.  The call answers [-1] and changes nothing on the
    disk, or answers 0 and then the name, and no other, is gone from its
    directory, and the inode is free if that was its last name and counts one
    name less otherwise. *)
Theorem delete_correct cfg path s w : use_disk_cr cfg = false → recoverable cfg s →
  wp (file_delete cfg path) (outcome cfg s (deletes cfg s path)) (unharmed s) s w.
Proof. intros. by apply wp_file_delete. Qed.

(** C9: crash recovery.  Whatever commands other than links the simulator is
    given, and however it stops, with forced checkpoints the disk alone gives
    the address of every allocated inode, and without them it does after one
    more checkpoint. *)
Theorem crash_recovery cfg o no_final show_live_paths fuel commands s w :
  use_disk_cr cfg = false → inode_policy cfg = ALLOCATE_SEQUENTIAL →
  forallb not_link (split_on ":" commands) = true → L s = lfs_blank →
  let recovers (s' : shell) (w' : world) :=
    (no_force_checkpoints cfg = false → reads_back cfg (L s')) ∧
    wp cr_sync (λ _ s'' _, reads_back cfg s'' ∧ inode_map s'' = inode_map (L s')) noexn (L s') w' in
  wp (on_lfs lfs_init;; main cfg o no_final show_live_paths fuel commands)
    (λ _ s' w', recovers s' w') (λ _ s' w', recovers s' w') s w.
Proof.
  intros Hmem Hseq Hl Hs recovers.
  assert (∀ s' w', recoverable cfg (L s') → recovers s' w') as Hrec.
  { intros s' w' Hr. split; [intros Hf; apply recoverable_reads_back; [done|by apply Hr]|].
    apply (wp_cr_sync cfg); [done|]. intros s'' Hr'' _ Hm Hcp.
    split; [by apply recoverable_reads_back|done]. }
  wp_pures. unfold on_lfs. wp_pures. eapply lfs_init_recoverable; [done|]. intros l Hr.
  eapply wp_mono; [by apply (preserves_main cfg Hmem)|..]; intros; by apply Hrec.
Qed.

(** ** Witnesses *)

Definition demo_cfg : config := Config false false ALLOCATE_SEQUENTIAL true.
Definition demo_world : world := World [] (λ _, 0) 0.

(** Running commands from the start *)
Definition after (ms : list (M lfs Z)) : option lfs :=
  match (lfs_init;; for_ ms (λ m, m;; mret tt)) lfs_blank demo_world with Ok _ s _ => Some s | _ => None end.

Lemma after_recoverable ms s :
  Forall (preserves (recoverable demo_cfg)) ms → after ms = Some s → recoverable demo_cfg s.
Proof.
  intros Hms. unfold after.
  assert (wp (lfs_init;; for_ ms (λ m, m;; mret tt)) (λ _ s' _, recoverable demo_cfg s')
    (λ _ s' _, recoverable demo_cfg s') lfs_blank demo_world) as Hwp.
  { wp_pures. eapply lfs_init_recoverable; [done|]. intros l Hl.
    assert (preserves (recoverable demo_cfg) (for_ ms (λ m, m;; mret tt))) as Hp; [|by apply Hp].
    apply preserves_for. intros m Hm. rewrite Forall_forall in Hms.
    apply preserves_bind; [by apply Hms|]. intros _. apply preserves_ret. }
  unfold wp in Hwp. destruct ((lfs_init ≫= _) lfs_blank demo_world); [|done..]. by intros [= <-].
Qed.

(** [m] answers [r] after [ms]. *)
Definition answers (ms : list (M lfs Z)) (m : M lfs Z) (r : Z) : bool :=
  match after ms with
  | Some s => match m s demo_world with Ok r' _ _ => r' =? r | _ => false end
  | None => false
  end.

Lemma answers_run ms m r : answers ms m r = true →
  ∃ s s' w', after ms = Some s ∧ m s demo_world = Ok r s' w'.
Proof.
  unfold answers. destruct (after ms) as [s|]; [|done].
  destruct (m s demo_world) as [r' s' w'| |] eqn:Hm; [|done..].
  intros ->%Z.eqb_eq. by exists s, s', w'.
Qed.

Lemma preserves_file_create path : preserves (recoverable demo_cfg) (file_create demo_cfg 0 path).
Proof. apply preserves_bind; [by apply preserves_error_clear|]. intros _. by apply preserves_create. Qed.

Lemma create_correct_witness : ∃ s s' w',
  after [] = Some s ∧ recoverable demo_cfg s ∧
  dir_create demo_cfg 0 "/a" s demo_world = Ok 0 s' w' ∧ creates demo_cfg s "/a" false 0 s'.
Proof.
  destruct (answers_run [] (dir_create demo_cfg 0 "/a") 0) as (s & s' & w' & Hs & Hrun); [vm_compute; reflexivity|].
  pose proof (after_recoverable _ _ (Forall_nil_2 _) Hs) as Hr.
  pose proof (create_correct demo_cfg 0 "/a" false s demo_world eq_refl eq_refl Hr) as Hwp.
  exists s, s', w'. unfold wp in Hwp. cbv iota in Hwp. rewrite Hrun in Hwp.
  destruct Hwp as [[? _]|(_ & _ & ?)]; [lia|].
  split; [exact Hs|]. split; [exact Hr|]. split; [exact Hrun|assumption].
Defined.

Lemma write_correct_witness : ∃ s s' w',
  after [file_create demo_cfg 0 "/f"] = Some s ∧
  file_write demo_cfg "/f" 6 5 s demo_world = Ok 2 s' w' ∧ writes demo_cfg s "/f" 6 5 2 s'.
Proof.
  destruct (answers_run [file_create demo_cfg 0 "/f"] (file_write demo_cfg "/f" 6 5) 2)
    as (s & s' & w' & Hs & Hrun); [vm_compute; reflexivity|].
  pose proof (after_recoverable _ _ (proj2 (Forall_singleton _ _) (preserves_file_create "/f")) Hs) as Hr.
  pose proof (write_correct demo_cfg "/f" 6 5 s demo_world eq_refl Hr) as Hwp.
  exists s, s', w'. unfold wp in Hwp. rewrite Hrun in Hwp. destruct Hwp as [[? _]|(_ & _ & ?)]; [lia|].
  split; [exact Hs|]. split; [exact Hrun|assumption].
Defined.

Lemma delete_correct_witness : ∃ s s' w',
  after [file_create demo_cfg 0 "/f"] = Some s ∧
  file_delete demo_cfg "/f" s demo_world = Ok 0 s' w' ∧ deletes demo_cfg s "/f" 0 s'.
Proof.
  destruct (answers_run [file_create demo_cfg 0 "/f"] (file_delete demo_cfg "/f") 0)
    as (s & s' & w' & Hs & Hrun); [vm_compute; reflexivity|].
  pose proof (after_recoverable _ _ (proj2 (Forall_singleton _ _) (preserves_file_create "/f")) Hs) as Hr.
  pose proof (delete_correct demo_cfg "/f" s demo_world eq_refl Hr) as Hwp.
  exists s, s', w'. unfold wp in Hwp. rewrite Hrun in Hwp. destruct Hwp as [[? _]|(_ & _ & ?)]; [lia|].
  split; [exact Hs|]. split; [exact Hrun|assumption].
Defined.

Lemma crash_recovery_witness : ∃ s' w',
  (on_lfs lfs_init;; main demo_cfg (ShellOptions true true true) false true 0 "c,/f:w,/f,0,2:s")
    (Shell lfs_blank [] [] None) demo_world = Ok tt s' w' ∧ reads_back demo_cfg (L s').
Proof.
  pose proof (crash_recovery demo_cfg (ShellOptions true true true) false true 0 "c,/f:w,/f,0,2:s"
    (Shell lfs_blank [] [] None) demo_world eq_refl eq_refl eq_refl eq_refl) as Hwp.
  cbv zeta in Hwp.
  assert (∃ s' w', (on_lfs lfs_init;; main demo_cfg (ShellOptions true true true) false true 0 "c,/f:w,/f,0,2:s")
    (Shell lfs_blank [] [] None) demo_world = Ok tt s' w') as (s' & w' & Hrun).
  { eexists _, _. vm_compute. reflexivity. }
  exists s', w'. unfold wp at 1 in Hwp. rewrite Hrun in Hwp. split; [exact Hrun|]. by apply Hwp.
Defined.

(** A link to a file whose inode is in another chunk of the map than the
    directory's: the chunk on disk still has the old inode of the file, with
    one name.  Here inode 16 gets a second name; its address through the
    checkpoint region is the one it had before. *)
Definition link_far : option (Z * Z) :=
  let files := (λ i, file_create demo_cfg 0 ("/f" +:+ str_of_Z i)) <$> range 1 17 in
  match after (files ++ [file_link demo_cfg "/f16" "/g"]) with
  | Some s => a ← inode_map s !! 16;
      match inode_address (through_disk demo_cfg) 16 s demo_world with
      | Ok b _ _ => Some (a, b)
      | _ => None
      end
  | None => None
  end.

(** The map in memory and the disk disagree. *)
Lemma link_leaves_stale_chunk : ∃ a b, link_far = Some (a, b) ∧ b < a.
Proof. eexists _, _. split; [vm_compute; reflexivity|lia]. Qed.
