(* ===== verification/Raid.v ===== *)
(** * The RAID simulator: [file-raid/raid.py]

    Disks that count and time their requests, the block maps of RAID levels 0,
    1, 4 and 5, and the parity updates of levels 4 and 5. *)
From S2P Require Import Prelude PyStr PyRandom PyFloat.
Open Scope Z_scope.

Definition BLOCKSIZE : Z := 4096.

(** The last character, and what is before it *)
Fixpoint split_last (s : string) : option (string * ascii) :=
  match s with
  | EmptyString => None
  | String c s => match split_last s with
                  | None => Some (EmptyString, c)
                  | Some (t, d) => Some (String c t, d)
                  end
  end.

Definition convert {S} (size : string) : M S Z :=
  l ← of_option IndexError (split_last size);
  let '(front, lastchar) := l in
  if bool_decide (lastchar ∈ ["k"; "K"]%char) then n ← py_int front; mret (n * 1024)
  else if bool_decide (lastchar ∈ ["m"; "M"]%char) then n ← py_int front; mret (n * (1024 * 1024))
  else if bool_decide (lastchar ∈ ["g"; "G"]%char) then n ← py_int front; mret (n * (1024 * 1024 * 1024))
  else py_int size.

(** ** [class disk] *)

Record disk := Disk {
  currAddr : Z;
  countIO : Z;
  countSeq : Z;
  countNseq : Z;
  countRand : Z;
  utilTime : float;
}.
#[export] Instance disk_settable : Settable disk := λ s,
  Disk (currAddr s) (countIO s) (countSeq s) (countNseq s) (countRand s) (utilTime s).

Definition seekTime : float := f_of_Z 10.
Definition xferTime : float := f_ratio 1 10.
Definition numTracks : Z := 100.
Definition blocksPerTrack : Z := 100.
Definition blocksPerDisk : Z := numTracks * blocksPerTrack.

Definition disk_init : disk := Disk (-10000) 0 0 0 0 f_zero.

Definition disk_enqueue (addr : Z) : M disk unit :=
  passert (addr <? blocksPerDisk);;
  modify (λ d, d <| countIO ::= Z.succ |>);;
  d ← get;
  let currTrack := int_div (currAddr d) numTracks in
  let newTrack := int_div addr numTracks in
  let diff := addr - currAddr d in
  let diff := if diff <? 0 then - diff else diff in
  (if (currTrack =? newTrack) || (diff <? blocksPerTrack) then
     (if diff =? 1 then modify (λ d, d <| countSeq ::= Z.succ |>)
      else modify (λ d, d <| countNseq ::= Z.succ |>));;
     modify (λ d, d <| utilTime ::= λ t, f_add t (f_mul (f_of_Z diff) xferTime) |>)
   else
     modify (λ d, d <| countRand ::= Z.succ |>);;
     modify (λ d, d <| utilTime ::= λ t, f_add t (f_add seekTime xferTime) |>));;
  currAddr <~ addr.

(** ** [class raid] *)

Record config := Config {
  chunkSize : Z;          (** in blocks *)
  numDisks : Z;
  raidLevel : Z;
  timing : bool;
  reverse : bool;
  solve : bool;
  raid5type : string;
}.

Record raid := Raid { printPhysical : bool; disks : list disk }.
#[export] Instance raid_settable : Settable raid := λ s, Raid (printPhysical s) (disks s).

(** [__init__]: the chunk size in blocks, and the disks *)
Definition raid_init (chunk_size : string) (n level : Z) : M raid Z :=
  bytes ← convert chunk_size;
  let blocks := int_div bytes BLOCKSIZE in
  when (negb (bytes mod BLOCKSIZE =? 0))
    (print ("chunksize (" +:+ str_of_Z bytes +:+ ") must be multiple of blocksize (" +:+ str_of_Z BLOCKSIZE +:+
            "): " +:+ str_of_Z (blocks mod BLOCKSIZE));; raise (SystemExit 1));;
  when ((level =? 1) && negb (n mod 2 =? 0))
    (print ("raid1: disks (" +:+ str_of_Z n +:+ ") must be a multiple of two");; raise (SystemExit 1));;
  disks <~ ((λ _, disk_init) <$> range 0 n);;
  mret blocks.

(** [int(a / b)] *)
Definition py_int_div {S} (a b : Z) : M S Z :=
  if b =? 0 then raise ZeroDivisionError else mret (int_div a b).

Section Raid.
Context (cfg : config).

Definition blocksInStripe : Z := (numDisks cfg - 1) * chunkSize cfg.
Definition pdisk : Z := if raidLevel cfg =? 4 then numDisks cfg - 1 else -1.

Definition stats (totalTime : float) : M raid unit :=
  for_ (range 0 (numDisks cfg)) (λ d,
    s ← get;
    x ← list_get (disks s) d;
    util ← (if f_lt f_zero totalTime then f_div (f_mul (f_of_Z 100) (utilTime x)) totalTime else mret f_zero);
    let pad := if f_eq (utilTime x) totalTime then " " else if f_eq (utilTime x) f_zero then "   " else "  " in
    print ("disk:" +:+ str_of_Z d +:+ "  busy:" +:+ pad +:+ fmt_f 2 util +:+ "  I/Os: " +:+ fmt_d 5 (countIO x) +:+
           " (sequential:" +:+ str_of_Z (countSeq x) +:+ " nearly:" +:+ str_of_Z (countNseq x) +:+
           " random:" +:+ str_of_Z (countRand x) +:+ ")")).

(** Completion time of all disks *)
Definition go : M raid float :=
  for_acc (range 0 (numDisks cfg)) f_zero (λ tmax d,
    s ← get;
    x ← list_get (disks s) d;
    mret (if f_lt tmax (utilTime x) then utilTime x else tmax)).

Definition access (what : string) (disk off : Z) (doNewline : bool) : M raid unit :=
  s ← get;
  when (printPhysical s)
    (put_str ("  " +:+ what +:+ " [disk " +:+ str_of_Z disk +:+ ", offset " +:+ str_of_Z off +:+ "]  ");;
     when doNewline (print ""));;
  zoom_at disks (λ l s, s <| disks := l |>) disk (disk_enqueue off).
Definition doSingleRead : Z → Z → bool → M raid unit := access "read ".
Definition doSingleWrite : Z → Z → bool → M raid unit := access "write".

Definition end_of_request : M raid unit :=
  s ← get; when (negb (timing cfg) && printPhysical s) (print "").

(** *** Level 0 *)

Definition bmap0 (bnum : Z) : M raid (Z * Z) :=
  cnum ← py_int_div bnum (chunkSize cfg);
  coff ← py_mod bnum (chunkSize cfg);
  disk ← py_mod cnum (numDisks cfg);
  row ← py_int_div cnum (numDisks cfg);
  mret (disk, row * chunkSize cfg + coff).

Definition enqueue0 (addr size : Z) (isWrite : bool) : M raid unit :=
  for_ (range addr (addr + size)) (λ b,
    p ← bmap0 b;
    if isWrite then doSingleWrite p.1 p.2 true else doSingleRead p.1 p.2 true);;
  end_of_request.

(** *** Level 1 *)

Definition bmap1 (bnum : Z) : M raid (Z * Z * Z) :=
  cnum ← py_int_div bnum (chunkSize cfg);
  coff ← py_mod bnum (chunkSize cfg);
  col ← py_mod cnum (int_div (numDisks cfg) 2);
  let disk := 2 * col in
  row ← py_int_div cnum (int_div (numDisks cfg) 2);
  mret (disk, disk + 1, row * chunkSize cfg + coff).

Definition enqueue1 (addr size : Z) (isWrite : bool) : M raid unit :=
  for_ (range addr (addr + size)) (λ b,
    p ← bmap1 b;
    let '(disk1, disk2, off) := p in
    if isWrite then doSingleWrite disk1 off false;; doSingleWrite disk2 off true
    else if off mod 2 =? 0 then doSingleRead disk1 off true else doSingleRead disk2 off true);;
  end_of_request.

(** *** Level 4 *)

Definition bmap4 (bnum : Z) : M raid (Z * Z) :=
  cnum ← py_int_div bnum (chunkSize cfg);
  coff ← py_mod bnum (chunkSize cfg);
  disk ← py_mod cnum (numDisks cfg - 1);
  row ← py_int_div cnum (numDisks cfg - 1);
  mret (disk, row * chunkSize cfg + coff).

Definition pmap4 (snum : Z) : M raid Z := mret pdisk.

(** *** Level 5 *)

Definition bmap5_ (bnum : Z) : M raid (Z * Z * Z) :=
  cnum ← py_int_div bnum (chunkSize cfg);
  coff ← py_mod bnum (chunkSize cfg);
  ddsk ← py_int_div cnum (numDisks cfg - 1);
  let doff := ddsk * chunkSize cfg + coff in
  disk ← py_mod cnum (numDisks cfg - 1);
  col ← py_mod ddsk (numDisks cfg);
  let pdisk := (numDisks cfg - 1) - col in
  disk ← (if bool_decide (raid5type cfg = "LA") then mret (if pdisk <=? disk then disk + 1 else disk)
          else if bool_decide (raid5type cfg = "LS") then py_mod (disk - col) (numDisks cfg)
          else print "error: no such RAID scheme";; raise (SystemExit 1));
  passert (negb (disk =? pdisk));;
  mret (disk, pdisk, doff).

Definition bmap5 (bnum : Z) : M raid (Z * Z) :=
  p ← bmap5_ bnum; let '(disk, pdisk, off) := p in mret (disk, off).
Definition pmap5 (snum : Z) : M raid Z :=
  p ← bmap5_ (snum * blocksInStripe); let '(disk, pdisk, off) := p in mret pdisk.

(** *** Requests of levels 4 and 5 *)

Definition doPartialWrite (stripe from upto : Z) (bmap : Z → M raid (Z * Z)) (pmap : Z → M raid Z) : M raid unit :=
  let numWrites := upto - from in
  pdisk ← pmap stripe;
  (* the accesses [op] to the blocks [range(from, upto)] and the distinct offsets *)
  let each (op : Z → Z → bool → M raid unit) :=
    for_acc (range from upto) [] (λ offList voff,
      p ← bmap voff;
      op p.1 p.2 false;;
      mret (if bool_decide (p.2 ∈ offList) then offList else offList ++ [p.2])) in
  let parity (op : Z → Z → bool → M raid unit) (offList : list Z) :=
    for_ (range 0 (len offList)) (λ i, off ← list_get offList i; op pdisk off (i =? len offList - 1)) in
  (if numWrites + 1 <=? blocksInStripe - numWrites then
     offList ← each doSingleRead;
     parity doSingleRead offList
   else
     let stripeBegin := stripe * blocksInStripe in
     let stripeEnd := stripeBegin + blocksInStripe in
     for_ (range stripeBegin from) (λ voff,
       p ← bmap voff; doSingleRead p.1 p.2 ((voff =? from - 1) && (upto =? stripeEnd)));;
     for_ (range upto stripeEnd) (λ voff,
       p ← bmap voff; doSingleRead p.1 p.2 (voff =? stripeEnd - 1)));;
  offList ← each doSingleWrite;
  parity doSingleWrite offList.

Definition enqueue45 (addr size : Z) (isWrite : bool) : M raid unit :=
  let bmap := if raidLevel cfg =? 4 then bmap4 else bmap5 in
  let pmap := if raidLevel cfg =? 4 then pmap4 else pmap5 in
  (if negb isWrite then
     for_ (range addr (addr + size)) (λ b, p ← bmap b; doSingleRead p.1 p.2 false)
   else
     initStripe ← py_int_div addr blocksInStripe;
     finalStripe ← py_int_div (addr + size - 1) blocksInStripe;
     _ ← for_acc (range initStripe (finalStripe + 1)) (size, addr) (λ '(remaining, begin) stripe,
       let endOfStripe := stripe * blocksInStripe + blocksInStripe in
       let upto := if blocksInStripe <=? remaining then begin + blocksInStripe else begin + remaining in
       let upto := if endOfStripe <=? upto then endOfStripe else upto in
       doPartialWrite stripe begin upto bmap pmap;;
       mret (remaining - (upto - begin), upto));
     mret tt);;
  end_of_request.

Definition enqueue (addr size : Z) (isWrite : bool) : M raid unit :=
  when (negb (timing cfg))
    (if solve cfg || negb (reverse cfg) then
       print ((if isWrite then "LOGICAL WRITE to  addr:" else "LOGICAL READ from addr:") +:+ str_of_Z addr +:+
              " size:" +:+ str_of_Z (size * BLOCKSIZE));;
       when (negb (solve cfg)) (print ("  Physical reads/writes?" +:+ nl))
     else print "LOGICAL OPERATION is ?");;
  printPhysical <~ (negb (timing cfg) && (solve cfg || reverse cfg));;
  if raidLevel cfg =? 0 then enqueue0 addr size isWrite
  else if raidLevel cfg =? 1 then enqueue1 addr size isWrite
  else if (raidLevel cfg =? 4) || (raidLevel cfg =? 5) then enqueue45 addr size isWrite
  else mret tt.
End Raid.

(** ** The main program *)

Record options := Options {
  o_numDisks : Z; o_chunkSize : string; numRequests : Z; reqSize : string; workload : string;
  writeFrac : Z; randRange : Z; level : Z; o_raid5 : string; o_reverse : bool; o_timing : bool; o_solve : bool;
}.

(** The loop over the requests *)
Definition requests (o : options) (cfg : config) (size : Z) (workloadIsSequential : bool) : M raid unit :=
  _ ← for_acc (range 0 (numRequests o)) 0 (λ off i,
    blk ← (if workloadIsSequential then mret off else rand_int (randRange o));
    let off := if workloadIsSequential then off + size else off in
    isWrite ← rand_lt (writeFrac o) 100;
    print (str_of_Z blk +:+ " " +:+ str_of_Z size);;
    enqueue cfg blk size isWrite;;
    mret off);
  mret tt.

Definition main (o : options) : M raid unit :=
  passert ((0 <=? writeFrac o) && (writeFrac o <=? 100));;
  size ← convert (reqSize o);
  when (negb (size mod BLOCKSIZE =? 0))
    (print ("error: request size (" +:+ str_of_Z size +:+ ") must be a multiple of BLOCKSIZE (" +:+
            str_of_Z BLOCKSIZE +:+ ")");; raise (SystemExit 1));;
  let size := int_div size BLOCKSIZE in
  workloadIsSequential ←
    (if bool_decide (workload o ∈ ["seq"; "s"; "sequential"]) then mret true
     else if bool_decide (workload o ∈ ["rand"; "r"; "random"]) then mret false
     else print "error: workload must be either r/rand/random or s/seq/sequential";; raise (SystemExit 1));
  passert (bool_decide (level o ∈ [0; 1; 4; 5]));;
  when (negb (level o =? 0) && (o_numDisks o <? 2))
    (print "RAID-4 and RAID-5 need more than 1 disk";; raise (SystemExit 1));;
  when ((level o =? 5) && negb (bool_decide (o_raid5 o ∈ ["LA"; "LS"])))
    (print ("Only two types of RAID-5 supported: left-asymmetric (LA) and left-symmetric (LS) (" +:+
            o_raid5 o +:+ " is not)");; raise (SystemExit 1));;
  chunk ← raid_init (o_chunkSize o) (o_numDisks o) (level o);
  let cfg := Config chunk (o_numDisks o) (level o) (o_timing o) (o_reverse o) (o_solve o) (o_raid5 o) in
  requests o cfg size workloadIsSequential;;
  t ← go cfg;
  when (negb (o_timing o)) (print "";; raise (SystemExit 0));;
  if o_solve o then
    print "";; stats cfg t;; print "";;
    (* [tmax] starts as the integer 0 *)
    print ("STAT totalTime " +:+ (if f_eq t f_zero then "0" else f_repr t));; print ""
  else
    print "";;
    print "Estimate how long the workload should take to complete.";;
    print "- Roughly how many requests should each disk receive?";;
    print "- How many requests are random, how many sequential?";;
    print "".

(** ** Block maps

    Where the blocks of a stripe go: the chunk in column [d] of row [row] is
    on disk [place row d], the parity of the row on disk [par row]. *)
Record placing (n : Z) (place : Z → Z → Z) (par : Z → Z) : Prop := {
  pl_par : ∀ row, 0 ≤ par row < n;
  pl_data : ∀ row d, 0 ≤ d < n - 1 → 0 ≤ place row d < n ∧ place row d ≠ par row;
  pl_inj : ∀ row d d', 0 ≤ d < n - 1 → 0 ≤ d' < n - 1 → place row d = place row d' → d = d';
  pl_surj : ∀ row k, 0 ≤ k < n → k ≠ par row → ∃ d, 0 ≤ d < n - 1 ∧ place row d = k;
}.

Definition place4 (row d : Z) : Z := d.
Definition par4 (n row : Z) : Z := n - 1.
Definition par5 (n row : Z) : Z := n - 1 - row mod n.
Definition place5_LA (n row d : Z) : Z := if par5 n row <=? d then d + 1 else d.
Definition place5_LS (n row d : Z) : Z := (d - row mod n) mod n.

Lemma placing4 n : 2 ≤ n → placing n place4 (par4 n).
Proof.
  intros Hn. unfold place4, par4. split; [lia|lia|done|]. intros row k Hk Hne. exists k. lia.
Qed.

Lemma placing5_LA n : 2 ≤ n → placing n (place5_LA n) (par5 n).
Proof.
  intros Hn. unfold place5_LA, par5. split.
  - intros row. pose proof (Z.mod_pos_bound row n). lia.
  - intros row d Hd. pose proof (Z.mod_pos_bound row n).
    destruct (Z.leb_spec (n - 1 - row mod n) d); lia.
  - intros row d d' Hd Hd'.
    destruct (Z.leb_spec (n - 1 - row mod n) d), (Z.leb_spec (n - 1 - row mod n) d'); lia.
  - intros row k Hk Hne. pose proof (Z.mod_pos_bound row n).
    destruct (decide (k < n - 1 - row mod n)).
    + exists k. destruct (Z.leb_spec (n - 1 - row mod n) k); lia.
    + exists (k - 1). destruct (Z.leb_spec (n - 1 - row mod n) (k - 1)); lia.
Qed.

(** Modulo [n], for numbers within [n] of the range *)
Lemma mod_wrap n a : 0 < n → - n ≤ a < n → a mod n = if a <? 0 then a + n else a.
Proof.
  intros Hn Ha. destruct (Z.ltb_spec a 0); [|apply Z.mod_small; lia].
  symmetry. apply (Z.mod_unique_pos _ _ (-1)); lia.
Qed.

Lemma placing5_LS n : 2 ≤ n → placing n (place5_LS n) (par5 n).
Proof.
  intros Hn. unfold place5_LS, par5.
  assert (∀ row d, 0 ≤ d < n → (d - row mod n) mod n = if d <? row mod n then d - row mod n + n else d - row mod n) as Hw.
  { intros row d Hd. pose proof (Z.mod_pos_bound row n). rewrite mod_wrap by lia.
    destruct (Z.ltb_spec (d - row mod n) 0), (Z.ltb_spec d (row mod n)); lia. }
  split.
  - intros row. pose proof (Z.mod_pos_bound row n). lia.
  - intros row d Hd. pose proof (Z.mod_pos_bound row n). rewrite Hw by lia.
    destruct (Z.ltb_spec d (row mod n)); lia.
  - intros row d d' Hd Hd'. pose proof (Z.mod_pos_bound row n). rewrite !Hw by lia.
    destruct (Z.ltb_spec d (row mod n)), (Z.ltb_spec d' (row mod n)); lia.
  - intros row k Hk Hne. pose proof (Z.mod_pos_bound row n).
    exists (if k + row mod n <? n then k + row mod n else k + row mod n - n).
    destruct (Z.ltb_spec (k + row mod n) n); rewrite Hw by lia; [destruct (Z.ltb_spec (k + row mod n) (row mod n))
      |destruct (Z.ltb_spec (k + row mod n - n) (row mod n))]; lia.
Qed.

(** A block number is a row, a column and an offset in the chunk. *)
Section Decompose.
Context (n c : Z) (Hn : 1 < n) (Hc : 0 < c).

Definition row_of (b : Z) : Z := b / c / (n - 1).
Definition col_of (b : Z) : Z := (b / c) mod (n - 1).
Definition block_of (row col o : Z) : Z := (row * (n - 1) + col) * c + o.

Lemma block_of_parts b : block_of (row_of b) (col_of b) (b mod c) = b.
Proof.
  unfold block_of, row_of, col_of. rewrite (Z.mul_comm (_ / _) (n - 1)), <-Z.div_mod by lia.
  rewrite (Z.mul_comm _ c), <-Z.div_mod by lia. done.
Qed.

Lemma parts_of_block row col o : 0 ≤ col < n - 1 → 0 ≤ o < c →
  row_of (block_of row col o) = row ∧ col_of (block_of row col o) = col ∧ block_of row col o mod c = o.
Proof.
  intros Hcol Ho. unfold row_of, col_of, block_of.
  assert (((row * (n - 1) + col) * c + o) / c = row * (n - 1) + col) as ->.
  { symmetry. apply (Z.div_unique_pos _ _ _ o); lia. }
  split_and!.
  - symmetry. apply (Z.div_unique_pos _ _ _ col); lia.
  - symmetry. apply (Z.mod_unique_pos _ _ row); lia.
  - symmetry. apply (Z.mod_unique_pos _ _ (row * (n - 1) + col)); lia.
Qed.

Lemma row_of_stripe b : row_of b = b / ((n - 1) * c).
Proof. unfold row_of. rewrite Z.div_div by lia. f_equal. lia. Qed.

Lemma parts_range b : 0 ≤ b → 0 ≤ row_of b ∧ 0 ≤ col_of b < n - 1 ∧ 0 ≤ b mod c < c.
Proof.
  intros Hb. unfold row_of, col_of. split_and!.
  - apply Z.div_pos; [apply Z.div_pos; lia|lia].
  - apply Z.mod_pos_bound. lia.
  - apply Z.mod_pos_bound. lia.
  - apply Z.mod_pos_bound. lia.
  - apply Z.mod_pos_bound. lia.
Qed.
End Decompose.

(** A layout of data and parity over [n] disks: data blocks and the parity of
    the rows share out all places, each holding one thing. *)
Record layout_ok (n c : Z) (data : Z → Z * Z) (par : Z → Z) : Prop := {
  lo_data : ∀ b, 0 ≤ b → 0 ≤ (data b).1 < n ∧ 0 ≤ (data b).2;
  lo_par : ∀ row, 0 ≤ par row < n;
  lo_row : ∀ b, 0 ≤ b → (data b).2 / c = b / ((n - 1) * c);
  lo_apart : ∀ b, 0 ≤ b → (data b).1 ≠ par ((data b).2 / c);
  lo_inj : ∀ b b', 0 ≤ b → 0 ≤ b' → data b = data b' → b = b';
  lo_surj : ∀ k off, 0 ≤ k < n → 0 ≤ off → k ≠ par (off / c) → ∃ b, 0 ≤ b ∧ data b = (k, off);
}.

Definition data_of (n c : Z) (place : Z → Z → Z) (b : Z) : Z * Z :=
  (place (row_of n c b) (col_of n c b), row_of n c b * c + b mod c).

Lemma placing_layout n c place par : 2 ≤ n → 0 < c → placing n place par →
  layout_ok n c (data_of n c place) par.
Proof.
  intros Hn Hc [Hpar Hdata Hinj Hsurj].
  assert (∀ b, 0 ≤ b → (row_of n c b * c + b mod c) / c = row_of n c b) as Hrow.
  { intros b Hb. symmetry. apply (Z.div_unique_pos _ _ _ (b mod c)); [|lia]. apply Z.mod_pos_bound. lia. }
  split; simpl.
  - intros b Hb. destruct (parts_range n c ltac:(lia) Hc b Hb) as (? & ? & ?). split; [by apply Hdata|nia].
  - done.
  - intros b Hb. rewrite Hrow by done. apply row_of_stripe; lia.
  - intros b Hb. rewrite Hrow by done. apply Hdata. by apply (parts_range n c ltac:(lia) Hc).
  - intros b b' Hb Hb'. unfold data_of. intros [= H1 H2].
    destruct (parts_range n c ltac:(lia) Hc b Hb) as (? & ? & ?).
    destruct (parts_range n c ltac:(lia) Hc b' Hb') as (? & ? & ?).
    assert (row_of n c b = row_of n c b') as Heq.
    { rewrite <-(Hrow b Hb), H2. by apply Hrow. }
    rewrite Heq in H1, H2. apply Hinj in H1; [|done..].
    rewrite <-(block_of_parts n c ltac:(lia) Hc b), <-(block_of_parts n c ltac:(lia) Hc b').
    rewrite Heq, H1. f_equal. lia.
  - intros k off Hk Hoff Hne. destruct (Hsurj (off / c) k Hk Hne) as (d & Hd & Hp).
    pose proof (Z.mod_pos_bound off c Hc) as Ho. pose proof (Z.div_pos off c Hoff Hc).
    exists (block_of n c (off / c) d (off mod c)).
    destruct (parts_of_block n c (off / c) d (off mod c) Hd Ho) as (Hr & Hcol & Hm).
    assert (0 ≤ off / c * (n - 1)) by (apply Z.mul_nonneg_nonneg; lia).
    split; [unfold block_of; apply Z.add_nonneg_nonneg; [apply Z.mul_nonneg_nonneg|]; lia|]. unfold data_of. rewrite Hr, Hcol, Hm, Hp. f_equal.
    rewrite (Z.mul_comm _ c). symmetry. apply Z.div_mod. lia.
Qed.

(** ** Accesses

    An access updates the counters of one disk and, in mapping mode, prints a
    line; a request is a sequence of accesses. *)
Record io := Io { io_write : bool; io_disk : Z; io_off : Z; io_nl : bool }.

Definition io_loc (x : io) : Z * Z := (io_disk x, io_off x).

(** The state of a disk after an access: same or near track, or a seek *)
Definition disk_after (addr : Z) (d : disk) : disk :=
  let diff := Z.abs (addr - currAddr d) in
  let near := (int_div (currAddr d) numTracks =? int_div addr numTracks) || (diff <? blocksPerTrack) in
  Disk addr (countIO d + 1)
    (if near && (diff =? 1) then countSeq d + 1 else countSeq d)
    (if near && negb (diff =? 1) then countNseq d + 1 else countNseq d)
    (if near then countRand d else countRand d + 1)
    (f_add (utilTime d) (if near then f_mul (f_of_Z diff) xferTime else f_add seekTime xferTime)).

Definition io_text (x : io) : list string :=
  ("  " +:+ (if io_write x then "write" else "read ") +:+ " [disk " +:+ str_of_Z (io_disk x) +:+ ", offset " +:+
   str_of_Z (io_off x) +:+ "]  ") :: (if io_nl x then ["" +:+ nl] else []).

Definition perform (sw : raid * world) (x : io) : raid * world :=
  let '(s, w) := sw in
  (s <| disks ::= alter (disk_after (io_off x)) (Z.to_nat (io_disk x)) |>,
   if printPhysical s then foldl (flip emit) w (io_text x) else w).

Definition valid_io (n : Z) (x : io) : Prop := 0 ≤ io_disk x < n ∧ io_off x < blocksPerDisk.

Lemma wp_disk_enqueue addr d w (Q : unit → disk → world → Prop) E : addr < blocksPerDisk →
  Q tt (disk_after addr d) w → wp (disk_enqueue addr) Q E d w.
Proof.
  intros Ha HQ. unfold disk_enqueue. wp_pures. destruct (Z.ltb_spec addr blocksPerDisk); [|lia]. wp_pures. simpl.
  assert ((if addr - currAddr d <? 0 then - (addr - currAddr d) else addr - currAddr d) = Z.abs (addr - currAddr d)) as ->.
  { destruct (Z.ltb_spec (addr - currAddr d) 0); lia. }
  unfold disk_after in HQ. destruct (_ || _); simpl in HQ; [destruct (_ =? 1)|]; wp_pures; exact HQ.
Qed.

(** Code that performs a list of accesses *)
Definition performs {A} (m : M raid A) (Q : A → list io → Prop) (n : Z) : Prop := ∀ s w,
  len (disks s) = n →
  wp m (λ a s' w', ∃ l, Q a l ∧ Forall (valid_io n) l ∧ (s', w') = foldl perform (s, w) l) noexn s w.

Section Performs.
Context (n : Z).

Lemma perform_disks l s w : len (disks (foldl perform (s, w) l).1) = len (disks s).
Proof.
  revert s w. induction l as [|x l IH]; intros s w; [done|]. simpl. rewrite IH. unfold len. simpl.
  by rewrite length_alter.
Qed.

Lemma performs_conseq {A} (m : M raid A) (Q Q' : A → list io → Prop) :
  performs m Q n → (∀ a l, Q a l → Q' a l) → performs m Q' n.
Proof.
  intros Hm HQ s w Hs. eapply wp_conseq; [by apply Hm|]. intros a s' w' (l & ? & ? & ?). exists l. eauto.
Qed.

Lemma performs_ret {A} (a : A) (Q : A → list io → Prop) : Q a [] → performs (mret a) Q n.
Proof. intros HQ s w _. rewrite wp_ret. by exists []. Qed.

Lemma performs_bind {A B} (m : M raid A) (f : A → M raid B) Q R :
  performs m Q n → (∀ a l, Q a l → performs (f a) (λ b l', R b (l ++ l')) n) → performs (m ≫= f) R n.
Proof.
  intros Hm Hf s w Hs. rewrite wp_bind. eapply wp_conseq; [by apply Hm|].
  intros a s' w' (l & HQ & Hv & Heq). simpl.
  assert (len (disks s') = n) as Hs'. { rewrite <-Hs, <-(perform_disks l s w), <-Heq. done. }
  eapply wp_conseq; [by eapply Hf|]. intros b s'' w'' (l' & HR & Hv' & Heq').
  exists (l ++ l'). split_and!; [done|by apply Forall_app|]. by rewrite foldl_app, <-Heq.
Qed.

(** Code that only computes *)
Lemma performs_pure {A B} (m : M raid A) (v : A) (f : A → M raid B) R :
  (∀ s w, m s w = Ok v s w) → performs (f v) R n → performs (m ≫= f) R n.
Proof.
  intros Hm Hf. apply (performs_bind _ _ (λ a l, a = v ∧ l = [])); [|by intros a l [-> ->]].
  intros s w Hs. unfold wp. rewrite Hm. by exists [].
Qed.

Lemma performs_for {A} (I : list A → list io → Prop) (l : list A) body :
  I [] [] →
  (∀ pre x post k, l = pre ++ x :: post → I pre k → performs (body x) (λ _ k', I (pre ++ [x]) (k ++ k')) n) →
  performs (for_ l body) (λ _ k, I l k) n.
Proof.
  intros HI Hb.
  assert (∀ post pre k, l = pre ++ post → I pre k → performs (for_ post body) (λ _ k', I l (k ++ k')) n) as Hgen.
  { induction post as [|x post IH]; intros pre k Hl Hpre; simpl.
    - apply performs_ret. rewrite app_nil_r in *. by subst.
    - eapply performs_bind; [by eapply Hb|]. intros [] k' Hk'. cbn beta in Hk'.
      eapply performs_conseq; [eapply (IH (pre ++ [x])); [by rewrite <-app_assoc|done]|].
      intros ? k''. by rewrite app_assoc. }
  eapply performs_conseq; [by apply (Hgen l [] [])|done].
Qed.

Lemma performs_for_acc {A B} (I : list A → B → list io → Prop) (l : list A) b body :
  I [] b [] →
  (∀ pre x post b k, l = pre ++ x :: post → I pre b k →
     performs (body b x) (λ b' k', I (pre ++ [x]) b' (k ++ k')) n) →
  performs (for_acc l b body) (λ b k, I l b k) n.
Proof.
  intros HI Hb.
  assert (∀ post pre b k, l = pre ++ post → I pre b k →
    performs (for_acc post b body) (λ b k', I l b (k ++ k')) n) as Hgen.
  { induction post as [|x post IH]; intros pre b' k Hl Hpre; simpl.
    - apply performs_ret. rewrite app_nil_r in *. by subst.
    - eapply performs_bind; [by eapply Hb|]. intros b'' k' Hk'. cbn beta in Hk'.
      eapply performs_conseq; [eapply (IH (pre ++ [x])); [by rewrite <-app_assoc|done]|].
      intros b3 k''. by rewrite app_assoc. }
  eapply performs_conseq; [by apply (Hgen l [] b [])|done].
Qed.

Lemma performs_access (write : bool) disk off nl (Q : unit → list io → Prop) :
  0 ≤ disk < n → off < blocksPerDisk → Q tt [Io write disk off nl] →
  performs ((if write then doSingleWrite else doSingleRead) disk off nl) Q n.
Proof.
  intros Hd Ho HQ s w Hs.
  assert (∀ what, what = (if write then "write" else "read ") → wp (access what disk off nl)
    (λ a s' w', ∃ l, Q a l ∧ Forall (valid_io n) l ∧ (s', w') = foldl perform (s, w) l) noexn s w) as Hw.
  2: { destruct write; by apply Hw. }
  intros what ->. unfold access. wp_pures. rewrite <-(Z2Nat.id disk) by lia.
  assert (∃ x, disks s !! Z.to_nat disk = Some x) as [x Hx].
  { apply lookup_lt_is_Some. unfold len in Hs. lia. }
  assert (∀ w1, w1 = (perform (s, w) (Io write disk off nl)).2 → wp (zoom_at disks (λ l s, s <| disks := l |>)
    (Z.of_nat (Z.to_nat disk)) (disk_enqueue off)) (λ a s' w', ∃ l, Q a l ∧ Forall (valid_io n) l ∧
      (s', w') = foldl perform (s, w) l) noexn s w1) as Hz.
  { intros w1 ->. eapply wp_zoom_at; [done|]. apply wp_disk_enqueue; [done|].
    exists [Io write disk off nl]. split_and!; [done|by apply Forall_singleton|].
    simpl. f_equal. destruct s. unfold update. simpl in *. f_equal.
    rewrite list_insert_alter. apply list_alter_ext; [|done]. intros y Hy. by simplify_eq. }
  destruct (printPhysical s) eqn:Hp; wp_pures; [destruct nl; wp_pures|]; unfold print; wp_pures;
    apply Hz; simpl; rewrite Hp, ?Z2Nat.id by lia; done.
Qed.
End Performs.

(** ** The interface of levels 4 and 5

    What [enqueue45] needs of the block map and the parity map it is given *)
Class ParityLayout (cfg : config) (bmap : Z → M raid (Z * Z)) (pmap : Z → M raid Z) := {
  lay_data : Z → Z * Z;
  lay_par : Z → Z;
  lay_disks : 2 ≤ numDisks cfg;
  lay_chunk : 0 < chunkSize cfg;
  lay_ok : layout_ok (numDisks cfg) (chunkSize cfg) lay_data lay_par;
  lay_bmap : ∀ b s w, 0 ≤ b → bmap b s w = Ok (lay_data b) s w;
  lay_pmap : ∀ stripe s w, 0 ≤ stripe → pmap stripe s w = Ok (lay_par stripe) s w;
}.

Lemma py_int_div_pos {S} a b : 0 ≤ a → 0 < b → py_int_div (S:=S) a b = mret (a / b).
Proof.
  intros Ha Hb. unfold py_int_div, int_div. destruct (Z.eqb_spec b 0); [lia|]. by rewrite Z.quot_div_nonneg.
Qed.

Lemma py_mod_pos {S} a b : 0 < b → py_mod (S:=S) a b = mret (a mod b).
Proof. intros Hb. unfold py_mod. destruct (Z.eqb_spec b 0); [lia|done]. Qed.

Lemma bind_ret {S A B} (a : A) (f : A → M S B) s w : (mret a ≫= f) s w = f a s w.
Proof. done. Qed.

Lemma passert_ne {S} a b : a ≠ b → passert (St:=S) (negb (a =? b)) = mret tt.
Proof. intros Hab. by destruct (Z.eqb_spec a b). Qed.

Section Instances.
Context (cfg : config) (Hn : 2 ≤ numDisks cfg) (Hc : 0 < chunkSize cfg).

Lemma bmap4_run b s w : 0 ≤ b → bmap4 cfg b s w = Ok (data_of (numDisks cfg) (chunkSize cfg) place4 b) s w.
Proof.
  intros Hb. unfold bmap4. rewrite py_int_div_pos, py_mod_pos by lia. rewrite !bind_ret.
  assert (0 ≤ b / chunkSize cfg) by (apply Z.div_pos; lia).
  by rewrite py_int_div_pos, py_mod_pos, !bind_ret by lia.
Qed.

Lemma layout4 : raidLevel cfg = 4 → ParityLayout cfg (bmap4 cfg) (pmap4 cfg).
Proof.
  intros Hl. refine {| lay_data := data_of (numDisks cfg) (chunkSize cfg) place4; lay_par := par4 (numDisks cfg) |}.
  - done.
  - done.
  - apply placing_layout; [done..|by apply placing4].
  - apply bmap4_run.
  - intros stripe s w _. unfold pmap4, pdisk. by rewrite Hl.
Defined.

Definition place5 : Z → Z → Z :=
  if bool_decide (raid5type cfg = "LA") then place5_LA (numDisks cfg) else place5_LS (numDisks cfg).

Context (Htype : raid5type cfg = "LA" ∨ raid5type cfg = "LS").

Lemma placing5 : placing (numDisks cfg) place5 (par5 (numDisks cfg)).
Proof. unfold place5. case_bool_decide; [by apply placing5_LA|by apply placing5_LS]. Qed.

Lemma bmap5_run_ b s w : 0 ≤ b →
  let '(disk, off) := data_of (numDisks cfg) (chunkSize cfg) place5 b in
  bmap5_ cfg b s w = Ok (disk, par5 (numDisks cfg) (row_of (numDisks cfg) (chunkSize cfg) b), off) s w.
Proof.
  intros Hb. unfold data_of. destruct (parts_range (numDisks cfg) (chunkSize cfg) ltac:(lia) Hc b Hb) as (Hr & Hcol & Ho).
  pose proof (pl_data _ _ _ placing5 (row_of (numDisks cfg) (chunkSize cfg) b) _ Hcol) as [_ Hne].
  unfold bmap5_. rewrite py_int_div_pos, py_mod_pos by lia. rewrite !bind_ret.
  assert (0 ≤ b / chunkSize cfg) by (apply Z.div_pos; lia).
  rewrite py_int_div_pos, !py_mod_pos, !bind_ret by lia. unfold place5, place5_LA, place5_LS, par5, row_of, col_of in *.
  destruct Htype as [Ht|Ht]; rewrite Ht in *; cbn [bool_decide decide] in *; simpl in *; rewrite ?bind_ret.
  - rewrite py_mod_pos, !bind_ret by lia. by rewrite passert_ne by exact Hne.
  - rewrite !py_mod_pos, !bind_ret by lia. rewrite py_mod_pos, bind_ret by lia. by rewrite passert_ne by exact Hne.
Qed.

Lemma layout5 : ParityLayout cfg (bmap5 cfg) (pmap5 cfg).
Proof.
  refine {| lay_data := data_of (numDisks cfg) (chunkSize cfg) place5; lay_par := par5 (numDisks cfg) |}.
  - done.
  - done.
  - apply placing_layout; [done..|apply placing5].
  - intros b s w Hb. unfold bmap5, mbind, M_bind. pose proof (bmap5_run_ b s w Hb) as Hrun.
    destruct (data_of _ _ _ b) as [disk off]. by rewrite Hrun.
  - intros stripe s w Hs. unfold pmap5, mbind, M_bind, blocksInStripe.
    assert (0 ≤ stripe * ((numDisks cfg - 1) * chunkSize cfg)) as Hb by nia.
    pose proof (bmap5_run_ _ s w Hb) as Hrun. destruct (data_of _ _ _ _) as [disk off]. rewrite Hrun.
    rewrite row_of_stripe by lia. by rewrite Z.div_mul by nia.
Defined.
End Instances.

(** ** Write requests *)

(** What an access does, without its newline *)
Definition key (x : io) : bool * (Z * Z) := (io_write x, io_loc x).

Section Requests.
Context (cfg : config) {bmap : Z → M raid (Z * Z)} {pmap : Z → M raid Z} `{Hlay : !ParityLayout cfg bmap pmap}.
Abbreviation n := (numDisks cfg).
Abbreviation c := (chunkSize cfg).
Abbreviation bis := (blocksInStripe cfg).
Abbreviation data := lay_data.
Abbreviation par := lay_par.

(** The place holds parity. *)
Definition is_parity (p : Z * Z) : Prop := p.1 = par (p.2 / c).
#[local] Instance is_parity_dec p : Decision (is_parity p).
Proof. unfold is_parity. apply _. Defined.

Definition data_writes (l : list io) : list (Z * Z) := (filter (λ k, k.1 = true ∧ ¬ is_parity k.2) (key <$> l)).*2.
Definition parity_writes (l : list io) : list (Z * Z) := (filter (λ k, k.1 = true ∧ is_parity k.2) (key <$> l)).*2.
Definition read_from (l : list io) (p : Z * Z) : Prop := (false, p) ∈ key <$> l.

(** Blocks [from] to [upto], all in one stripe, are written with their parity:
    each block once, the parity of each of their rows once, and before that
    enough is read to compute the parity, either the old contents of these
    blocks and of the parity, or all the other blocks of the stripe. *)
Record stripe_written (stripe from upto : Z) (l : list io) : Prop := {
  sw_data : data_writes l = data <$> range from upto;
  sw_par : ∀ p, p ∈ parity_writes l ↔ ∃ b, from ≤ b < upto ∧ p = (par (b / bis), (data b).2);
  sw_once : NoDup (parity_writes l);
  sw_reads :
    (∀ b, from ≤ b < upto → read_from l (data b) ∧ read_from l (par (b / bis), (data b).2)) ∨
    (∀ b, 0 ≤ b → b / bis = stripe → ¬ from ≤ b < upto → read_from l (data b));
}.

Lemma bis_pos : 0 < bis.
Proof. unfold blocksInStripe. pose proof lay_disks. pose proof lay_chunk. nia. Qed.

Lemma data_not_parity b : 0 ≤ b → ¬ is_parity (data b).
Proof. apply (lo_apart _ _ _ _ lay_ok). Qed.

Lemma stripe_row b : 0 ≤ b → (data b).2 / c = b / bis.
Proof. apply (lo_row _ _ _ _ lay_ok). Qed.

(** Accesses to the data blocks [bs], all reads or all writes *)
Lemma performs_data (op : bool) bs nl (Q : unit → list io → Prop) :
  (∀ b, b ∈ bs → 0 ≤ b ∧ (data b).2 < blocksPerDisk) →
  (∀ l, key <$> l = (λ b, (op, data b)) <$> bs → Q tt l) →
  performs (for_ bs (λ b, p ← bmap b; (if op then doSingleWrite else doSingleRead) p.1 p.2 (nl b))) Q n.
Proof.
  intros Hbs HQ.
  eapply performs_conseq; [apply (performs_for n (λ pre l, key <$> l = (λ b, (op, data b)) <$> pre) bs)|]; [done| |].
  - intros pre b post k -> Hk. destruct (Hbs b) as [Hb Hoff]; [set_solver|].
    eapply performs_pure; [intros; by apply lay_bmap|].
    apply performs_access; [by apply (lo_data _ _ _ _ lay_ok)|done|].
    rewrite !fmap_app, Hk. simpl. unfold key, io_loc. simpl. by destruct (data b).
  - intros [] l Hl. by apply HQ.
Qed.

(** The same, collecting the distinct offsets *)
Lemma performs_each (op : bool) bs (Q : list Z → list io → Prop) :
  (∀ b, b ∈ bs → 0 ≤ b ∧ (data b).2 < blocksPerDisk) →
  (∀ offs l, key <$> l = (λ b, (op, data b)) <$> bs → NoDup offs →
     (∀ off, off ∈ offs ↔ ∃ b, b ∈ bs ∧ off = (data b).2) → Q offs l) →
  performs (for_acc bs [] (λ offList b, p ← bmap b; (if op then doSingleWrite else doSingleRead) p.1 p.2 false;;
    mret (if bool_decide (p.2 ∈ offList) then offList else offList ++ [p.2]))) Q n.
Proof.
  intros Hbs HQ.
  eapply performs_conseq; [apply (performs_for_acc n (λ pre offs l, key <$> l = (λ b, (op, data b)) <$> pre ∧
    NoDup offs ∧ ∀ off, off ∈ offs ↔ ∃ b, b ∈ pre ∧ off = (data b).2) bs)|].
  - split_and!; [done|apply NoDup_nil_2|set_solver].
  - intros pre b post offs k -> (Hk & Hnd & Hoffs). destruct (Hbs b) as [Hb Hoff]; [set_solver|].
    eapply performs_pure; [intros; by apply lay_bmap|].
    eapply (performs_bind _ _ _ (λ _ l, key <$> l = [(op, data b)])).
    { apply performs_access; [by apply (lo_data _ _ _ _ lay_ok)|done|]. unfold key, io_loc. simpl.
      by destruct (data b). }
    intros _ l Hl. apply performs_ret. rewrite app_nil_r, !fmap_app, Hk, Hl. split; [done|].
    case_bool_decide as Hin.
    + split; [done|]. intros off. rewrite Hoffs. split; [intros (b' & ? & ->); exists b'; set_solver|].
      intros (b' & [?| ->%list_elem_of_singleton]%elem_of_app & ->); [by eexists|]. by apply Hoffs.
    + split.
      * apply NoDup_app. split_and!; [done| |apply NoDup_singleton]. intros off Ho ->%list_elem_of_singleton. done.
      * intros off. rewrite elem_of_app, Hoffs, list_elem_of_singleton. split.
        -- intros [(b' & ? & ->)| ->]; [exists b'|exists b]; set_solver.
        -- intros (b' & [?| ->%list_elem_of_singleton]%elem_of_app & ->); [left; by eexists|by right].
  - intros offs l (? & ? & ?). by apply HQ.
Qed.

(** Accesses to the parity disk at [offs] *)
Lemma performs_parity (op : bool) pd offs (Q : unit → list io → Prop) :
  0 ≤ pd < n → Forall (λ off, off < blocksPerDisk) offs →
  (∀ l, key <$> l = (λ off, (op, (pd, off))) <$> offs → Q tt l) →
  performs (for_ (range 0 (len offs)) (λ i, off ← list_get offs i;
    (if op then doSingleWrite else doSingleRead) pd off (i =? len offs - 1))) Q n.
Proof.
  intros Hpd Hoffs HQ.
  eapply performs_conseq; [apply (performs_for n (λ pre l, key <$> l =
    (λ off, (op, (pd, off))) <$> take (length pre) offs))|]; [done| |].
  - intros pre i post k (-> & _ & Hi)%range_split Hk. rewrite length_range in Hk. unfold len in Hi.
    destruct (lookup_lt_is_Some_2 offs (Z.to_nat i)) as [off Hoff]; [lia|].
    eapply (performs_pure _ _ off).
    { intros s w. rewrite <-(Z2Nat.id i) by lia. by rewrite (list_get_nat _ _ _ Hoff). }
    apply performs_access; [done|by eapply (proj1 (Forall_lookup _ _) Hoffs)|].
    rewrite fmap_app, Hk, length_app, length_range. simpl.
    replace (Z.to_nat (i - 0) + 1)%nat with (S (Z.to_nat i)) by lia.
    rewrite (take_S_r _ _ off) by done. rewrite fmap_app. by replace (i - 0) with i by lia.
  - intros [] l Hl. apply HQ. rewrite Hl, length_range. unfold len. by rewrite take_ge by lia.
Qed.

Lemma writes_data op bs l : (∀ b, b ∈ bs → 0 ≤ b) → key <$> l = (λ b, (op, data b)) <$> bs →
  data_writes l = (if op : bool then data <$> bs else []) ∧ parity_writes l = [].
Proof.
  intros Hbs Hl. unfold data_writes, parity_writes. rewrite Hl. clear Hl l.
  induction bs as [|b bs IH]; csimpl; [by destruct op|].
  destruct IH as [IHd IHp]; [intros b' ?; apply Hbs; set_solver|].
  assert (¬ is_parity (data b)) as Hb by (apply data_not_parity, Hbs; set_solver).
  destruct op.
  - rewrite !filter_cons. rewrite decide_True by done. rewrite decide_False by (intros [_ ?]; done).
    rewrite fmap_cons, IHd. split; [done|exact IHp].
  - rewrite !filter_cons. rewrite !decide_False by (intros [? _]; done). by split.
Qed.

Lemma writes_parity op pd offs l : (∀ off, off ∈ offs → pd = par (off / c)) →
  key <$> l = (λ off, (op, (pd, off))) <$> offs →
  data_writes l = [] ∧ parity_writes l = (if op : bool then (pd,.) <$> offs else []).
Proof.
  intros Hoffs Hl. unfold data_writes, parity_writes. rewrite Hl. clear Hl l.
  induction offs as [|off offs IH]; csimpl; [by destruct op|].
  destruct IH as [IHd IHp]; [intros b' ?; apply Hoffs; set_solver|].
  assert (is_parity (pd, off)) as Hb by (apply Hoffs; set_solver).
  destruct op.
  - rewrite !filter_cons. rewrite decide_False by (intros [_ ?]; done). rewrite decide_True by done.
    rewrite fmap_cons, IHp. split; [exact IHd|done].
  - rewrite !filter_cons. rewrite !decide_False by (intros [? _]; done). by split.
Qed.

Lemma data_writes_app l l' : data_writes (l ++ l') = data_writes l ++ data_writes l'.
Proof. unfold data_writes. by rewrite fmap_app, filter_app, fmap_app. Qed.
Lemma parity_writes_app l l' : parity_writes (l ++ l') = parity_writes l ++ parity_writes l'.
Proof. unfold parity_writes. by rewrite fmap_app, filter_app, fmap_app. Qed.

(** The data writes and the parity writes, after reads that suffice *)
Lemma write_stripe stripe from upto offs rs ds ps :
  0 ≤ from → from < upto → (∀ b, from ≤ b < upto → b / bis = stripe) →
  data_writes rs = [] → parity_writes rs = [] →
  key <$> ds = (λ b, (true, data b)) <$> range from upto →
  key <$> ps = (λ off, (true, (par stripe, off))) <$> offs →
  NoDup offs → (∀ off, off ∈ offs ↔ ∃ b, b ∈ range from upto ∧ off = (data b).2) →
  (∀ l, ((∀ b, from ≤ b < upto → read_from (rs ++ l) (data b) ∧ read_from (rs ++ l) (par (b / bis), (data b).2)) ∨
    (∀ b, 0 ≤ b → b / bis = stripe → ¬ from ≤ b < upto → read_from (rs ++ l) (data b)))) →
  stripe_written stripe from upto (rs ++ ds ++ ps).
Proof.
  intros Hf Hlt Hst Hrd Hrp Hds Hps Hnd Hoffs Hreads.
  assert (∀ b, b ∈ range from upto → 0 ≤ b) as Hpos by (intros b ?%elem_of_range; lia).
  destruct (writes_data _ _ _ Hpos Hds) as [Hdd Hdp].
  assert (∀ off, off ∈ offs → par stripe = par (off / c)) as Hpar.
  { intros off (b & Hb & ->)%Hoffs. rewrite stripe_row by (by apply Hpos). apply elem_of_range in Hb.
    by rewrite Hst. }
  destruct (writes_parity _ _ _ _ Hpar Hps) as [Hpd Hpp].
  assert (parity_writes (rs ++ ds ++ ps) = (par stripe,.) <$> offs) as Hpw
    by by rewrite !parity_writes_app, Hrp, Hdp, Hpp.
  split.
  - by rewrite !data_writes_app, Hrd, Hdd, Hpd, app_nil_r.
  - intros p. rewrite Hpw, list_elem_of_fmap. split.
    + intros (off & -> & (b & Hb%elem_of_range & ->)%Hoffs). exists b. by rewrite Hst.
    + intros (b & Hb & ->). exists (data b).2. rewrite Hst by done. split; [done|]. apply Hoffs.
      exists b. by rewrite elem_of_range.
  - rewrite Hpw. apply NoDup_fmap_2; [|done]. by intros ?? [= ->].
  - apply Hreads.
Qed.

Lemma range_from_stripe b stripe : stripe * bis ≤ b < stripe * bis + bis ↔ b / bis = stripe.
Proof.
  pose proof bis_pos. split.
  - intros Hb. symmetry. apply (Z.div_unique_pos _ _ _ (b - stripe * bis)); lia.
  - intros <-. pose proof (Z.mod_pos_bound b bis). pose proof (Z.div_mod b bis). lia.
Qed.

(** One stripe of a write *)
Section Stripe.
Context (stripe from upto : Z) (Hs : 0 ≤ stripe) (Hfrom : stripe * bis ≤ from) (Hlt : from < upto)
  (Hupto : upto ≤ stripe * bis + bis) (Hfit : ∀ b, b / bis = stripe → (data b).2 < blocksPerDisk).

Lemma stripe_blocks x y b : stripe * bis ≤ x → y ≤ stripe * bis + bis → b ∈ range x y →
  0 ≤ b ∧ (data b).2 < blocksPerDisk.
Proof.
  pose proof bis_pos. assert (0 ≤ stripe * bis) by nia. intros Hx Hy ?%elem_of_range.
  split; [lia|]. apply Hfit, range_from_stripe. lia.
Qed.

Lemma written_blocks b : b ∈ range from upto → 0 ≤ b ∧ (data b).2 < blocksPerDisk.
Proof. by apply stripe_blocks. Qed.

Lemma written_stripe b : b ∈ range from upto → b / bis = stripe.
Proof. intros ?%elem_of_range. apply range_from_stripe. lia. Qed.

Definition offsets_of (offs : list Z) : Prop := ∀ off, off ∈ offs ↔ ∃ b, b ∈ range from upto ∧ off = (data b).2.

Lemma offsets_fit offs : offsets_of offs → Forall (λ off, off < blocksPerDisk) offs.
Proof. intros Ho. apply Forall_forall. intros off (b & Hb & ->)%Ho. by apply written_blocks. Qed.

Lemma offsets_parity offs off : offsets_of offs → off ∈ offs → par stripe = par (off / c).
Proof.
  intros Ho (b & Hb & ->)%Ho. rewrite stripe_row by (by apply written_blocks). by rewrite written_stripe.
Qed.

Lemma stripe_parity_disk : 0 ≤ par stripe < n.
Proof. apply (lo_par _ _ _ _ lay_ok). Qed.

Lemma performs_subtractive :
  performs (offList ← for_acc (range from upto) [] (λ offList b, p ← bmap b; doSingleRead p.1 p.2 false;;
      mret (if bool_decide (p.2 ∈ offList) then offList else offList ++ [p.2]));
    for_ (range 0 (len offList)) (λ i, off ← list_get offList i; doSingleRead (par stripe) off (i =? len offList - 1)))
    (λ _ rs, data_writes rs = [] ∧ parity_writes rs = [] ∧
      ∀ b, b ∈ range from upto → read_from rs (data b) ∧ read_from rs (par stripe, (data b).2)) n.
Proof.
  eapply performs_bind; [eapply (performs_each false (range from upto) (λ offs l, key <$> l =
    (λ b, (false, data b)) <$> range from upto ∧ offsets_of offs)); [apply written_blocks|done]|].
  intros offs ds (Hds & Ho). apply (performs_parity false); [apply stripe_parity_disk|by apply offsets_fit|].
  intros ps Hps. destruct (writes_data false _ _ (λ b Hb, proj1 (written_blocks b Hb)) Hds) as [Hd1 Hd2].
  destruct (writes_parity false _ _ _ (λ off, offsets_parity _ off Ho) Hps) as [Hp1 Hp2].
  rewrite data_writes_app, parity_writes_app, Hd1, Hd2, Hp1, Hp2. split_and!; [done..|].
  intros b Hb. unfold read_from. rewrite fmap_app, Hds, Hps, !elem_of_app. split; [left|right].
  - by apply (list_elem_of_fmap_2 (λ b, (false, data b))).
  - apply (list_elem_of_fmap_2 (λ off, (false, (par stripe, off)))). apply Ho. by exists b.
Qed.

Lemma performs_additive nl1 nl2 :
  performs (for_ (range (stripe * bis) from) (λ b, p ← bmap b; doSingleRead p.1 p.2 (nl1 b));;
      for_ (range upto (stripe * bis + bis)) (λ b, p ← bmap b; doSingleRead p.1 p.2 (nl2 b)))
    (λ _ rs, data_writes rs = [] ∧ parity_writes rs = [] ∧
      ∀ b, b ∈ range (stripe * bis) from ∨ b ∈ range upto (stripe * bis + bis) → read_from rs (data b)) n.
Proof.
  assert (∀ b, b ∈ range (stripe * bis) from → 0 ≤ b ∧ (data b).2 < blocksPerDisk) as H1
    by (intros b; apply stripe_blocks; lia).
  assert (∀ b, b ∈ range upto (stripe * bis + bis) → 0 ≤ b ∧ (data b).2 < blocksPerDisk) as H2
    by (intros b; apply stripe_blocks; lia).
  eapply performs_bind.
  { by apply (performs_data false _ _ (λ _ l, key <$> l = (λ b, (false, data b)) <$> range (stripe * bis) from)). }
  intros [] rs1 Hrs1. apply (performs_data false); [done|]. intros rs2 Hrs2.
  destruct (writes_data false _ _ (λ b Hb, proj1 (H1 b Hb)) Hrs1) as [Hd1 Hp1].
  destruct (writes_data false _ _ (λ b Hb, proj1 (H2 b Hb)) Hrs2) as [Hd2 Hp2].
  rewrite data_writes_app, parity_writes_app, Hd1, Hd2, Hp1, Hp2. split_and!; [done..|].
  intros b Hb. unfold read_from. rewrite fmap_app, Hrs1, Hrs2, elem_of_app.
  destruct Hb; [left|right]; by apply (list_elem_of_fmap_2 (λ b, (false, data b))).
Qed.

Lemma performs_writes rs : data_writes rs = [] → parity_writes rs = [] →
  (∀ l, (∀ b, from ≤ b < upto → read_from (rs ++ l) (data b) ∧ read_from (rs ++ l) (par (b / bis), (data b).2)) ∨
    (∀ b, 0 ≤ b → b / bis = stripe → ¬ from ≤ b < upto → read_from (rs ++ l) (data b))) →
  performs (offList ← for_acc (range from upto) [] (λ offList b, p ← bmap b; doSingleWrite p.1 p.2 false;;
      mret (if bool_decide (p.2 ∈ offList) then offList else offList ++ [p.2]));
    for_ (range 0 (len offList)) (λ i, off ← list_get offList i; doSingleWrite (par stripe) off (i =? len offList - 1)))
    (λ _ l, stripe_written stripe from upto (rs ++ l)) n.
Proof.
  intros Hrd Hrp Hreads. pose proof bis_pos. assert (0 ≤ stripe * bis) by nia.
  eapply performs_bind; [eapply (performs_each true (range from upto) (λ offs l, key <$> l =
    (λ b, (true, data b)) <$> range from upto ∧ NoDup offs ∧ offsets_of offs)); [apply written_blocks|done]|].
  intros offs ds (Hds & Hnd & Ho). apply (performs_parity true); [apply stripe_parity_disk|by apply offsets_fit|].
  intros ps Hps. apply (write_stripe _ _ _ offs); try done; [lia|].
  intros b Hb. by apply written_stripe, elem_of_range.
Qed.

Lemma performs_stripe :
  performs (doPartialWrite cfg stripe from upto bmap pmap) (λ _ l, stripe_written stripe from upto l) n.
Proof.
  unfold doPartialWrite. eapply performs_pure; [intros; by apply lay_pmap|]. cbv zeta. destruct (_ <=? _).
  - eapply performs_bind; [apply performs_subtractive|]. intros _ rs (Hd & Hp & Hr).
    apply performs_writes; [done..|]. intros l. left. intros b Hb%elem_of_range. rewrite written_stripe by done.
    unfold read_from in *. rewrite fmap_app, !elem_of_app. destruct (Hr b Hb). auto.
  - eapply performs_bind; [apply performs_additive|]. intros _ rs (Hd & Hp & Hr).
    apply performs_writes; [done..|]. intros l. right. intros b Hb Hsb Hnot.
    unfold read_from in *. rewrite fmap_app, !elem_of_app. left. apply Hr. rewrite !elem_of_range.
    apply range_from_stripe in Hsb. lia.
Qed.
End Stripe.

(** *** All stripes of a request *)

(** The accesses of a request: the stripes it touches, one after the other *)
Inductive request_written (addr : Z) : Z → list io → Prop :=
| rw_none : request_written addr addr []
| rw_stripe upto stripe upto' l l' : request_written addr upto l → upto < upto' → upto / bis = stripe →
    stripe_written stripe upto upto' l' → request_written addr upto' (l ++ l').

Lemma performs_enqueue45 addr size :
  bmap = (if raidLevel cfg =? 4 then bmap4 cfg else bmap5 cfg) →
  pmap = (if raidLevel cfg =? 4 then pmap4 cfg else pmap5 cfg) →
  0 ≤ addr → 0 < size → (∀ b, 0 ≤ b → b / bis ≤ (addr + size - 1) / bis → (data b).2 < blocksPerDisk) →
  ∀ s w, len (disks s) = n →
  wp (enqueue45 cfg addr size true)
    (λ _ s' w', ∃ l, request_written addr (addr + size) l ∧ s' = (foldl perform (s, w) l).1 ∧
       stdout w' = (if negb (timing cfg) && printPhysical s then [nl] else []) ++ stdout (foldl perform (s, w) l).2)
    noexn s w.
Proof.
  intros Hb Hp Ha Hsz Hfit s w Hs. pose proof bis_pos as Hbis. unfold enqueue45. rewrite <-Hb, <-Hp. cbn [negb].
  rewrite !py_int_div_pos by lia. wp_pures.
  assert (0 ≤ addr / bis ∧ addr / bis ≤ (addr + size - 1) / bis) as [Hi Hif]
    by (split; [by apply Z.div_pos|apply Z.div_le_mono; lia]).
  set (i := addr / bis) in *. set (f := (addr + size - 1) / bis) in *.
  pose proof (Z.mod_pos_bound addr bis Hbis). pose proof (Z.div_mod addr bis) as Hdi. fold i in Hdi.
  pose proof (Z.mod_pos_bound (addr + size - 1) bis Hbis). pose proof (Z.div_mod (addr + size - 1) bis) as Hdf. fold f in Hdf.
  match goal with |- wp ?m _ _ _ _ =>
    assert (performs m (λ _ l, request_written addr (addr + size) l) n) as Hloop end.
  { eapply performs_conseq; [apply (performs_for_acc n (λ pre b l, request_written addr b.2 l ∧
      b.2 + b.1 = addr + size ∧ b.2 = Z.max addr (Z.min (addr + size) ((i + len pre) * bis))))|].
    - split_and!; [constructor|done|]. unfold len. simpl. nia.
    - intros pre x post [remaining begin] l (-> & _ & Hx)%range_split (Hl & Hrem & Hbegin). simpl in *.
      assert (len (range i x) = x - i) as Hpre by (unfold len; rewrite length_range; lia).
      rewrite Hpre in Hbegin. replace (i + (x - i)) with x in Hbegin by lia.
      assert (x * bis ≤ f * bis) by (apply Z.mul_le_mono_nonneg_r; lia).
      assert (i * bis ≤ x * bis) by (apply Z.mul_le_mono_nonneg_r; lia).
      set (upto := if _ <=? _ then _ else _).
      assert (upto = Z.min (addr + size) (x * bis + bis)) as Hupto.
      { unfold upto. destruct (Z.leb_spec bis remaining);
          [destruct (Z.leb_spec (x * bis + bis) (begin + bis))|destruct (Z.leb_spec (x * bis + bis) (begin + remaining))]; lia. }
      assert (begin < upto ∧ x * bis ≤ begin) as [Hlt Hge].
      { destruct (decide (x = i)) as [->|]; [lia|]. assert ((i + 1) * bis ≤ x * bis) by (apply Z.mul_le_mono_nonneg_r; lia). lia. }
      eapply performs_bind; [apply (performs_stripe x begin upto); [lia..|]|].
      { intros b Hxb. apply Hfit; [apply range_from_stripe in Hxb; nia|lia]. }
      intros [] l' Hl'. apply performs_ret. rewrite app_nil_r. simpl. split_and!; [|lia|].
      + apply rw_stripe with begin x; [done..| |done]. apply range_from_stripe. lia.
      + unfold len in *. rewrite length_app. simpl.
        replace (i + Z.of_nat (length (range i x) + 1)) with (x + 1) by lia. lia.
    - intros [remaining begin] l (Hl & _ & Hbegin). simpl in *.
      assert (begin = addr + size) as ->; [|done].
      unfold len in Hbegin. rewrite length_range in Hbegin.
      replace (i + Z.of_nat (Z.to_nat (f + 1 - i))) with (f + 1) in Hbegin by lia. lia. }
  eapply wp_conseq; [by apply Hloop|]. intros _ s' w' (l & Hl & _ & Heq). wp_pures.
  unfold end_of_request. wp_pures.
  assert (printPhysical s' = printPhysical s) as ->.
  { clear Hl. revert s w Hs Heq. induction l as [|x l IH]; intros s w Hs Heq; [by injection Heq as -> ->|].
    simpl in Heq. erewrite IH; [..|exact Heq]; [done|]. unfold len in *. simpl. by rewrite length_alter. }
  destruct (negb (timing cfg) && printPhysical s); unfold print; wp_pures; exists l; rewrite <-Heq; done.
Qed.
End Requests.

(** ** The levels *)

(** The configuration is one the main program accepts for levels 4 and 5. *)
Definition parity_level (cfg : config) : Prop :=
  2 ≤ numDisks cfg ∧ 0 < chunkSize cfg ∧
  (raidLevel cfg = 4 ∨ (raidLevel cfg = 5 ∧ (raid5type cfg = "LA" ∨ raid5type cfg = "LS"))).

Definition level_bmap (cfg : config) : Z → M raid (Z * Z) := if raidLevel cfg =? 4 then bmap4 cfg else bmap5 cfg.
Definition level_pmap (cfg : config) : Z → M raid Z := if raidLevel cfg =? 4 then pmap4 cfg else pmap5 cfg.

Definition level_layout (cfg : config) (H : parity_level cfg) : ParityLayout cfg (level_bmap cfg) (level_pmap cfg).
Proof.
  unfold level_bmap, level_pmap. destruct H as (Hn & Hc & Hl).
  destruct (Z.eqb_spec (raidLevel cfg) 4); [by apply layout4|]. apply layout5; [done..|]. by destruct Hl as [?|[_ ?]].
Defined.

(** C15: the block maps of RAID 4 and of both kinds of RAID 5 are a layout: a
    logical block is computed without failing, no two blocks share a place, no
    block is on the parity disk of its stripe, and every place that is not
    parity holds a block. *)
Theorem parity_layout cfg : parity_level cfg →
  ∃ data par, layout_ok (numDisks cfg) (chunkSize cfg) data par ∧
    (∀ b s w, 0 ≤ b → level_bmap cfg b s w = Ok (data b) s w) ∧
    (∀ stripe s w, 0 ≤ stripe → level_pmap cfg stripe s w = Ok (par stripe) s w).
Proof.
  intros H. pose proof (level_layout cfg H) as Hlay. exists lay_data, lay_par.
  split; [apply lay_ok|]. split; [apply lay_bmap|apply lay_pmap].
Qed.

(** C14: a write of any size and alignment on RAID 4 or 5 that fits the disks
    fails no assertion.  Stripe after stripe it writes every block of the
    request once and no other data, updates the parity of exactly the rows it
    touches, and has read what that parity needs: the old data and parity, or
    the rest of the stripe. *)
Theorem write_keeps_parity cfg addr size s w (H : parity_level cfg) :
  0 ≤ addr → 0 < size →
  ((addr + size - 1) / blocksInStripe cfg + 1) * chunkSize cfg ≤ blocksPerDisk → len (disks s) = numDisks cfg →
  let _ := level_layout cfg H in
  wp (enqueue45 cfg addr size true)
    (λ _ s' w', ∃ l, request_written cfg addr (addr + size) l ∧ s' = (foldl perform (s, w) l).1 ∧
       stdout w' = (if negb (timing cfg) && printPhysical s then [nl] else []) ++ stdout (foldl perform (s, w) l).2)
    noexn s w.
Proof.
  intros Ha Hsz Hfit Hs lay. apply (performs_enqueue45 cfg addr size); [done..| |done].
  intros b Hb Hle. pose proof (lo_row _ _ _ _ lay_ok b Hb) as Hrow.
  pose proof (lo_data _ _ _ _ lay_ok b Hb) as [_ Hoff]. pose proof H as (Hn & Hc & _).
  change (b / blocksInStripe cfg) with (b / ((numDisks cfg - 1) * chunkSize cfg)) in Hle. rewrite <-Hrow in Hle.
  pose proof (Z.mod_pos_bound (lay_data b).2 (chunkSize cfg) Hc). pose proof (Z.div_mod (lay_data b).2 (chunkSize cfg)).
  nia.
Qed.

(** *** Level 1 *)

(** The first of the two disks of a block, and its offset *)
Definition mirror_of (cfg : config) (b : Z) : Z * Z :=
  let cnum := b / chunkSize cfg in
  (2 * (cnum mod (numDisks cfg / 2)), cnum / (numDisks cfg / 2) * chunkSize cfg + b mod chunkSize cfg).

Arguments mirror_of : simpl never.

Lemma bmap1_run cfg b s w : 2 ≤ numDisks cfg → 0 < chunkSize cfg → 0 ≤ b →
  bmap1 cfg b s w = Ok ((mirror_of cfg b).1, (mirror_of cfg b).1 + 1, (mirror_of cfg b).2) s w.
Proof.
  intros Hn Hc Hb. unfold bmap1, mirror_of, int_div. simpl.
  assert (0 < numDisks cfg / 2) by (apply Z.div_str_pos; lia). rewrite Z.quot_div_nonneg by lia.
  rewrite py_int_div_pos, py_mod_pos, !bind_ret by lia.
  assert (0 ≤ b / chunkSize cfg) by (apply Z.div_pos; lia).
  by rewrite py_mod_pos, bind_ret, py_int_div_pos, bind_ret by lia.
Qed.

Lemma mirror_inj cfg b b' : 2 ≤ numDisks cfg → 0 < chunkSize cfg → 0 ≤ b → 0 ≤ b' →
  mirror_of cfg b = mirror_of cfg b' → b = b'.
Proof.
  intros Hn Hc Hb Hb' [= H1 H2]. set (h := numDisks cfg / 2) in *. set (c := chunkSize cfg) in *.
  assert (0 < h) by (apply Z.div_str_pos; lia).
  pose proof (Z.mod_pos_bound b c Hc). pose proof (Z.mod_pos_bound b' c Hc).
  assert (b / c / h = b' / c / h) as Hrow.
  { rewrite (Z.div_unique_pos (b / c / h * c + b mod c) c (b / c / h) (b mod c)) by lia.
    rewrite H2. symmetry. apply (Z.div_unique_pos _ _ _ (b' mod c)); lia. }
  pose proof (Z.div_mod (b / c) h). pose proof (Z.div_mod (b' / c) h).
  assert (b / c = b' / c) as Hch by (rewrite Hrow in *; lia).
  pose proof (Z.div_mod b c). pose proof (Z.div_mod b' c). rewrite Hrow in H2. lia.
Qed.

(** C16: RAID 1 writes every block of a request to both disks of its pair, at
    one offset, and reads it from one of the two; different blocks have
    different places. *)
Theorem mirrored_request cfg addr size isWrite s w :
  2 ≤ numDisks cfg → numDisks cfg mod 2 = 0 → 0 < chunkSize cfg → 0 ≤ addr →
  (∀ b, addr ≤ b < addr + size → (mirror_of cfg b).2 < blocksPerDisk) → len (disks s) = numDisks cfg →
  let both b := [(mirror_of cfg b).1; (mirror_of cfg b).1 + 1] in
  (∀ b b', 0 ≤ b → 0 ≤ b' → mirror_of cfg b = mirror_of cfg b' → b = b') ∧
  wp (enqueue1 cfg addr size isWrite)
    (λ _ s' _, ∃ l, s' = (foldl perform (s, w) l).1 ∧
       if isWrite then key <$> l = b ← range addr (addr + size); (λ d, (true, (d, (mirror_of cfg b).2))) <$> both b
       else ∃ side : Z → Z, key <$> l = (λ b, (false, (side b, (mirror_of cfg b).2))) <$> range addr (addr + size) ∧
         ∀ b, side b ∈ both b)
    noexn s w.
Proof.
  intros Hn Heven Hc Ha Hfit Hs both. split; [intros; by eapply mirror_inj|].
  assert (∀ b, 0 ≤ b → 0 ≤ (mirror_of cfg b).1 ∧ (mirror_of cfg b).1 + 1 < numDisks cfg) as Hd.
  { intros b Hb. unfold mirror_of. simpl. assert (0 < numDisks cfg / 2) by (apply Z.div_str_pos; lia).
    pose proof (Z.mod_pos_bound (b / chunkSize cfg) (numDisks cfg / 2)). pose proof (Z.div_mod (numDisks cfg) 2). lia. }
  unfold enqueue1. wp_pures.
  set (side b := if (mirror_of cfg b).2 mod 2 =? 0 then (mirror_of cfg b).1 else (mirror_of cfg b).1 + 1).
  match goal with |- wp ?m _ _ _ _ =>
    assert (performs m (λ _ l, key <$> l = if isWrite
      then b ← range addr (addr + size); (λ d, (true, (d, (mirror_of cfg b).2))) <$> both b
      else (λ b, (false, (side b, (mirror_of cfg b).2))) <$> range addr (addr + size)) (numDisks cfg)) as Hloop end.
  { apply (performs_for _ (λ pre l, key <$> l = if isWrite
      then b ← pre; (λ d, (true, (d, (mirror_of cfg b).2))) <$> both b
      else (λ b, (false, (side b, (mirror_of cfg b).2))) <$> pre)); [by destruct isWrite|].
    intros pre b post k (-> & _ & Hb)%range_split Hk. destruct (Hd b) as [Hd1 Hd2]; [lia|].
    eapply performs_pure; [intros; apply bmap1_run; lia|]. cbn beta iota. specialize (Hfit b Hb).
    destruct isWrite.
    - eapply (performs_bind _ _ _ (λ _ l, l = [Io true (mirror_of cfg b).1 (mirror_of cfg b).2 false])).
      { by apply (performs_access _ true); [lia|..]. }
      intros _ l ->. apply (performs_access _ true); [lia|done|].
      rewrite fmap_app, Hk, bind_app. done.
    - set (off := (mirror_of cfg b).2) in *. set (d := (mirror_of cfg b).1) in *.
      assert (side b = if off mod 2 =? 0 then d else d + 1) as Hside by done.
      destruct (off mod 2 =? 0); (apply (performs_access _ false); [lia|done|]);
        rewrite !fmap_app, Hk; simpl; by rewrite Hside. }
  eapply wp_conseq; [by apply Hloop|]. intros _ s' w' (l & Hl & _ & Heq). unfold end_of_request. wp_pures.
  destruct (negb (timing cfg) && printPhysical s'); unfold print; wp_pures; (exists l; rewrite <-Heq; split; [done|]).
  - destruct isWrite; [done|]. exists side. split; [done|]. intros b. unfold side, both. case_match; set_solver.
  - destruct isWrite; [done|]. exists side. split; [done|]. intros b. unfold side, both. case_match; set_solver.
Qed.

(** ** Witnesses *)

Definition demo_cfg (level : Z) : config := Config 2 5 level false false true "LS".
Definition demo_raid (n : nat) : raid := Raid true (replicate n disk_init).
Definition demo_world : world := World [] (λ _, 0) 0.

Lemma demo_parity_level : parity_level (demo_cfg 5).
Proof. unfold parity_level. simpl. split_and!; [lia..|]. right. auto. Defined.

Lemma parity_layout_witness : parity_level (demo_cfg 5) ∧ ∃ data par, layout_ok 5 2 data par ∧ data 9 = (4, 3).
Proof.
  destruct (parity_layout (demo_cfg 5) demo_parity_level) as (data & par & Hok & Hrun & _).
  split; [exact demo_parity_level|]. exists data, par. split; [exact Hok|].
  specialize (Hrun 9 (demo_raid 5) demo_world ltac:(lia)). vm_compute in Hrun. by injection Hrun.
Defined.

Lemma write_keeps_parity_witness : ∃ s' w' l,
  enqueue45 (demo_cfg 5) 3 7 true (demo_raid 5) demo_world = Ok tt s' w' ∧
  (let lay := level_layout (demo_cfg 5) demo_parity_level in request_written (demo_cfg 5) 3 10 l).
Proof.
  pose proof (write_keeps_parity (demo_cfg 5) 3 7 (demo_raid 5) demo_world demo_parity_level
    ltac:(lia) ltac:(lia) ltac:(vm_compute; discriminate) eq_refl) as Hwp.
  cbv zeta in Hwp. apply wp_noexn_ok in Hwp as ([] & s' & w' & Hrun & l & Hl & _).
  exists s', w', l. split; [exact Hrun|exact Hl].
Defined.

Lemma mirrored_request_witness : ∃ s' w' l,
  enqueue1 (Config 2 4 1 false false true "LS") 3 1 true (demo_raid 4) demo_world = Ok tt s' w' ∧
  key <$> l = [(true, (2, 1)); (true, (3, 1))].
Proof.
  assert (∀ b, 3 ≤ b < 3 + 1 → (mirror_of (Config 2 4 1 false false true "LS") b).2 < blocksPerDisk) as Hfit.
  { intros b Hb. assert (b = 3) as -> by lia. vm_compute. reflexivity. }
  destruct (mirrored_request (Config 2 4 1 false false true "LS") 3 1 true (demo_raid 4) demo_world
    ltac:(simpl; lia) eq_refl ltac:(simpl; lia) ltac:(lia) Hfit eq_refl) as [_ Hwp].
  apply wp_noexn_ok in Hwp as ([] & s' & w' & Hrun & l & _ & Hl).
  exists s', w', l. split; [exact Hrun|]. rewrite Hl. vm_compute. reflexivity.
Defined.
