(* ===== verification/Mlfq.v ===== *)
(** * The multi-level feedback queue: [cpu-sched-mlfq/mlfq.py]

    Priority queues of jobs, time slices and allotments per level, I/O, and
    the periodic boost of all jobs. *)
From S2P Require Import Prelude PyStr PyRandom PyFloat.
Open Scope Z_scope.

(** ** State *)

Inductive event := JOB_BEGINS | IO_DONE.
#[export] Instance event_eq_dec : EqDecision event.
Proof. solve_decision. Defined.

Record job := Job {
  currPri : Z;
  ticksLeft : Z;
  allotLeft : Z;
  startTime : Z;
  runTime : Z;
  timeLeft : Z;
  ioFreq : Z;
  doingIO : bool;
  firstRun : Z;
  endTime : option Z;
}.

Record config := Config {
  numQueues : Z;
  quantum : gmap Z Z;
  allotment : gmap Z Z;
  ioTime : Z;
  boost : Z;
  stay : bool;
  iobump : bool;
}.

Record mlfq := Mlfq {
  jobs : gmap Z job;
  queue : gmap Z (list Z);
  ioDone : gmap Z (list (Z * event));
  currTime : Z;
  finishedJobs : Z;
}.

#[export] Instance job_settable : Settable job := λ s,
  Job (currPri s) (ticksLeft s) (allotLeft s) (startTime s) (runTime s) (timeLeft s) (ioFreq s) (doingIO s)
    (firstRun s) (endTime s).
#[export] Instance mlfq_settable : Settable mlfq := λ s,
  Mlfq (jobs s) (queue s) (ioDone s) (currTime s) (finishedJobs s).

(** ** Setting up *)

(** [x1,x2,...], the highest queue first, as a dict from queue to number *)
Definition parse_lengths {S} (check : Z → Z → M S unit) (lengths : list string) (n : Z) : M S (gmap Z Z) :=
  r ← for_acc (range 0 n) (∅ : gmap Z Z, n - 1) (λ '(d, qc) i,
    x ← list_get lengths i;
    v ← py_int x;
    check qc v;;
    mret (<[qc := v]> d, qc - 1));
  mret r.1.

Definition parse_quantum {S} (quantumList : string) (n q : Z) : M S (Z * gmap Z Z) :=
  if bool_decide (quantumList ≠ "") then
    let lengths := split_on "," quantumList in
    d ← parse_lengths (λ _ _, mret tt) lengths (len lengths);
    mret (len lengths, d)
  else mret (n, list_to_map ((λ i, (i, q)) <$> range 0 n)).

Definition parse_allotment {S} (allotmentList : string) (n a : Z) : M S (gmap Z Z) :=
  if bool_decide (allotmentList ≠ "") then
    let lengths := split_on "," allotmentList in
    when (negb (n =? len lengths))
      (print "number of allotments specified must match number of quantums";; raise (SystemExit 1));;
    parse_lengths (λ qc v, when (negb (qc =? 0) && (v <=? 0))
      (print "allotment must be positive integer";; raise (SystemExit 1))) lengths n
  else mret (list_to_map ((λ i, (i, a)) <$> range 0 n)).

Section Mlfq.
Context (cfg : config).

Definition hiQueue : Z := numQueues cfg - 1.

(** [ioDone[t].append(e)], making the list first when there is none *)
Definition post (t : Z) (e : Z * event) : M mlfq unit :=
  modify (λ s, s <| ioDone ::= λ d, <[t := (default [] (d !! t)) ++ [e]]> d |>).

Definition add_job (jobCnt start run freq : Z) : M mlfq unit :=
  q ← dict_get (quantum cfg) hiQueue;
  a ← dict_get (allotment cfg) hiQueue;
  modify (λ s, s <| jobs ::= <[jobCnt := Job hiQueue q a start run run freq false (-1) None]> |>);;
  post start (jobCnt, JOB_BEGINS).

Definition add_listed (jobCnt : Z) (j : string) : M mlfq Z :=
  let jobInfo := split_on "," j in
  when (negb (len jobInfo =? 3))
    (print "Badly formatted job string. Should be x1,y1,z1:x2,y2,z2:...";;
     print "where x is the startTime, y is the runTime, and z is the I/O frequency.";;
     raise (SystemExit 1));;
  x ← list_get jobInfo 0; start ← py_int x;
  y ← list_get jobInfo 1; run ← py_int y;
  z ← list_get jobInfo 2; freq ← py_int z;
  add_job jobCnt start run freq;;
  mret (jobCnt + 1).

Definition add_random (maxlen maxio jobCnt i : Z) : M mlfq Z :=
  k ← random;
  k' ← random;
  add_job jobCnt 0 (int_affine (maxlen - 1) 1 k) (int_affine (maxio - 1) 1 k');;
  mret (jobCnt + 1).

Definition make_jobs (jlist : string) (num maxlen maxio : Z) : M mlfq Z :=
  if bool_decide (jlist ≠ "") then for_acc (split_on ":" jlist) 0 add_listed
  else for_acc (range 0 num) 0 (add_random maxlen maxio).

(** ** The scheduler *)

Definition Abort {A} : M mlfq A := raise (SystemExit 1).

(** [job[j]], and an update of its fields *)
Definition get_job (j : Z) : M mlfq job := s ← get; dict_get (jobs s) j.
Definition set_job (j : Z) (f : job → job) : M mlfq unit :=
  x ← get_job j; modify (λ s, s <| jobs ::= <[j := f x]> |>).
Definition get_queue (q : Z) : M mlfq (list Z) := s ← get; dict_get (queue s) q.
Definition set_queue (q : Z) (f : list Z → list Z) : M mlfq unit :=
  l ← get_queue q; modify (λ s, s <| queue ::= <[q := f l]> |>).
(** [queue[q].pop(0)] *)
Definition pop_queue (q : Z) : M mlfq Z :=
  l ← get_queue q;
  x ← list_pop l 0;
  modify (λ s, s <| queue ::= <[q := x.2]> |>);;
  mret x.1.

(** The highest queue that is not empty, or [-1] *)
Definition FindQueue : M mlfq Z :=
  r ← for_ret (rev (range 1 (hiQueue + 1))) tt (λ _ q,
    l ← get_queue q;
    mret (if 0 <? len l then inr q else inl tt));
  match r with
  | inr q => mret q
  | inl _ => l ← get_queue 0; mret (if 0 <? len l then 0 else -1)
  end.

Definition say (t : Z) (x : string) : M mlfq unit := print ("[ time " +:+ str_of_Z t +:+ " ] " +:+ x).

Definition do_boost : M mlfq unit :=
  s ← get;
  say (currTime s) ("BOOST ( every " +:+ str_of_Z (boost cfg) +:+ " )");;
  for_ (range 0 (numQueues cfg - 1)) (λ q,
    l ← get_queue q;
    for_ l (λ j,
      x ← get_job j;
      when (negb (doingIO x)) (set_queue hiQueue (.++ [j])));;
    modify (λ s, s <| queue ::= <[q := []]> |>));;
  for_ (range 0 (Z.of_nat (size (jobs s)))) (λ j,
    x ← get_job j;
    when (0 <? timeLeft x)
      (set_job j (λ x, x <| currPri := hiQueue |>);;
       a ← dict_get (allotment cfg) hiQueue;
       set_job j (λ x, x <| ticksLeft := a |>))).

Definition check_boost : M mlfq unit :=
  s ← get;
  when ((0 <? boost cfg) && negb (currTime s =? 0)) (when (currTime s mod boost cfg =? 0) do_boost).

Definition str_of_event (e : event) : string := match e with JOB_BEGINS => "JOB BEGINS" | IO_DONE => "IO_DONE" end.

Definition check_io : M mlfq unit :=
  s ← get;
  match ioDone s !! currTime s with
  | None => mret tt
  | Some l => for_ l (λ '(j, type),
      x ← get_job j;
      let q := currPri x in
      set_job j (λ x, x <| doingIO := false |>);;
      say (currTime s) (str_of_event type +:+ " by JOB " +:+ str_of_Z j);;
      if negb (iobump cfg) || bool_decide (type = JOB_BEGINS) then set_queue q (.++ [j])
      else set_queue q (j ::.))
  end.

(** The job leaves its queue and waits for its I/O. *)
Definition issue_io (currJob currQueue : Z) : M mlfq unit :=
  s ← get;
  say (currTime s) ("IO_START by JOB " +:+ str_of_Z currJob);;
  desched ← pop_queue currQueue;
  passert (desched =? currJob);;
  set_job currJob (λ x, x <| doingIO := true |>);;
  when (stay cfg)
    (q ← dict_get (quantum cfg) currQueue;
     a ← dict_get (allotment cfg) currQueue;
     set_job currJob (λ x, x <| ticksLeft := q |> <| allotLeft := a |>));;
  print "IO DONE";;
  post (currTime s + ioTime cfg) (currJob, IO_DONE).

(** The time slice is over: the job goes to the end of its queue or, with its
    allotment used up, of the next lower one. *)
Definition end_slice (currJob currQueue : Z) (issuedIO : bool) : M mlfq unit :=
  when (negb issuedIO) (desched ← pop_queue currQueue; passert (desched =? currJob));;
  set_job currJob (λ x, x <| allotLeft ::= Z.pred |>);;
  x ← get_job currJob;
  let requeue q := when (negb issuedIO) (set_queue q (.++ [currJob])) in
  if allotLeft x =? 0 then
    let q' := if 0 <? currQueue then currQueue - 1 else currQueue in
    set_job currJob (λ x, x <| currPri := if 0 <? currQueue then currQueue - 1 else currPri x |>);;
    q ← dict_get (quantum cfg) q';
    a ← dict_get (allotment cfg) q';
    set_job currJob (λ x, x <| ticksLeft := q |> <| allotLeft := a |>);;
    requeue q'
  else
    q ← dict_get (quantum cfg) currQueue;
    set_job currJob (λ x, x <| ticksLeft := q |>);;
    requeue currQueue.

(** One tick of the job at the head of the queue *)
Definition run_job (currQueue : Z) : M mlfq unit :=
  l ← get_queue currQueue;
  currJob ← list_get l 0;
  x ← get_job currJob;
  when (negb (currPri x =? currQueue)) Abort;;
  set_job currJob (λ x, x <| timeLeft ::= Z.pred |> <| ticksLeft ::= Z.pred |>);;
  s ← get;
  set_job currJob (λ x, if firstRun x =? -1 then x <| firstRun := currTime s |> else x);;
  x ← get_job currJob;
  say (currTime s) ("Run JOB " +:+ str_of_Z currJob +:+ " at PRIORITY " +:+ str_of_Z currQueue +:+ " [ TICKS " +:+
    str_of_Z (ticksLeft x) +:+ " ALLOT " +:+ str_of_Z (allotLeft x) +:+ " TIME " +:+ str_of_Z (timeLeft x) +:+
    " (of " +:+ str_of_Z (runTime x) +:+ ") ]");;
  when (timeLeft x <? 0) Abort;;
  currTime <~ (currTime s + 1);;
  s ← get;
  if timeLeft x =? 0 then
    say (currTime s) ("FINISHED JOB " +:+ str_of_Z currJob);;
    modify (λ s, s <| finishedJobs ::= Z.succ |>);;
    set_job currJob (λ x, x <| endTime := Some (currTime s) |>);;
    done ← pop_queue currQueue;
    passert (done =? currJob)
  else
    let issuedIO := (0 <? ioFreq x) && ((runTime x - timeLeft x) mod ioFreq x =? 0) in
    when issuedIO (issue_io currJob currQueue);;
    when (ticksLeft x =? 0) (end_slice currJob currQueue issuedIO).

(** The body of the main loop *)
Definition tick : M mlfq unit :=
  check_boost;;
  check_io;;
  currQueue ← FindQueue;
  s ← get;
  if currQueue =? -1 then
    say (currTime s) "IDLE";;
    modify (λ s, s <| currTime ::= Z.succ |>)
  else run_job currQueue.

Definition simulate (fuel : nat) : M mlfq unit :=
  s ← get;
  let totalJobs := Z.of_nat (size (jobs s)) in
  while_ fuel tt (λ _,
    s ← get;
    if finishedJobs s <? totalJobs then tick;; mret (inl tt) else mret (inr tt)).

(** The sums of the response and turnaround times *)
Definition statistics : M mlfq unit :=
  print "";; print "Final statistics:";;
  s ← get;
  let numJobs := Z.of_nat (size (jobs s)) in
  r ← for_acc (range 0 numJobs) (0, 0) (λ '(responseSum, turnaroundSum) i,
    x ← get_job i;
    e ← of_option KeyError (endTime x);
    let response := firstRun x - startTime x in
    let turnaround := e - startTime x in
    print ("  Job " +:+ fmt_d 2 i +:+ ": startTime " +:+ fmt_d 3 (startTime x) +:+ " - response " +:+ fmt_d 3 response +:+
           " - turnaround " +:+ fmt_d 3 turnaround);;
    mret (responseSum + response, turnaroundSum + turnaround));
  a ← f_div (f_of_Z r.1) (f_of_Z numJobs);
  b ← f_div (f_of_Z r.2) (f_of_Z numJobs);
  print (nl +:+ "  Avg " +:+ fmt_d 2 (numJobs - 1) +:+ ": startTime n/a - response " +:+ fmt_f 2 a +:+ " - turnaround " +:+ fmt_f 2 b);;
  print nl.

Definition print_inputs (numJobs : Z) : M mlfq unit :=
  print "Here is the list of inputs:";;
  print ("OPTIONS jobs " +:+ str_of_Z numJobs);;
  print ("OPTIONS queues " +:+ str_of_Z (numQueues cfg));;
  for_ (rev (range 0 (Z.of_nat (size (quantum cfg))))) (λ i,
    a ← dict_get (allotment cfg) i;
    print ("OPTIONS allotments for queue " +:+ fmt_d 2 i +:+ " is " +:+ fmt_d 3 a);;
    q ← dict_get (quantum cfg) i;
    print ("OPTIONS quantum length for queue " +:+ fmt_d 2 i +:+ " is " +:+ fmt_d 3 q));;
  print ("OPTIONS boost " +:+ str_of_Z (boost cfg));;
  print ("OPTIONS ioTime " +:+ str_of_Z (ioTime cfg));;
  print ("OPTIONS stayAfterIO " +:+ str_of_bool (stay cfg));;
  print ("OPTIONS iobump " +:+ str_of_bool (iobump cfg));;
  print nl;;
  print "For each job, three defining characteristics are given:";;
  print "  startTime : at what time does the job enter the system";;
  print "  runTime   : the total CPU time needed by the job to finish";;
  print "  ioFreq    : every ioFreq time units, the job issues an I/O";;
  print ("              (the I/O takes ioTime units to complete)" +:+ nl);;
  print "Job List:";;
  for_ (range 0 numJobs) (λ i,
    x ← get_job i;
    print ("  Job " +:+ fmt_d 2 i +:+ ": startTime " +:+ fmt_d 3 (startTime x) +:+ " - runTime " +:+ fmt_d 3 (runTime x) +:+
           " - ioFreq " +:+ fmt_d 3 (ioFreq x)));;
  print "".

(** The program from the job list on *)
Definition main (jlist : string) (num maxlen maxio : Z) (solve : bool) (fuel : nat) : M mlfq unit :=
  make_jobs jlist num maxlen maxio;;
  s ← get;
  print_inputs (Z.of_nat (size (jobs s)));;
  if negb solve then
    print "Compute the execution trace for the given workloads.";;
    print "If you would like, also compute the response and turnaround";;
    print "times for each of the jobs.";;
    print "";;
    print ("Use the -c flag to get the exact results when you are finished." +:+ nl);;
    raise (SystemExit 0)
  else
    queue <~ list_to_map ((λ q, (q, [])) <$> range 0 (numQueues cfg));;
    print (nl +:+ "Execution Trace:" +:+ nl);;
    simulate fuel;;
    statistics.
End Mlfq.

Definition mlfq_blank : mlfq := Mlfq ∅ ∅ ∅ 0 0.

(** ** Rules *)

Section Rules.
Implicit Types (s : mlfq) (E : exn → mlfq → world → Prop).

Lemma wp_get_job j x s w (Q : job → mlfq → world → Prop) E :
  jobs s !! j = Some x → Q x s w → wp (get_job j) Q E s w.
Proof. intros Hj HQ. unfold get_job. wp_pures. by rewrite Hj. Qed.

Lemma wp_set_job j f x s w (Q : unit → mlfq → world → Prop) E :
  jobs s !! j = Some x → Q tt (s <| jobs ::= <[j := f x]> |>) w → wp (set_job j f) Q E s w.
Proof. intros Hj HQ. unfold set_job. wp_pures. eapply wp_get_job; [done|]. by wp_pures. Qed.

Lemma wp_get_queue q l s w (Q : list Z → mlfq → world → Prop) E :
  queue s !! q = Some l → Q l s w → wp (get_queue q) Q E s w.
Proof. intros Hj HQ. unfold get_queue. wp_pures. by rewrite Hj. Qed.

Lemma wp_set_queue q f l s w (Q : unit → mlfq → world → Prop) E :
  queue s !! q = Some l → Q tt (s <| queue ::= <[q := f l]> |>) w → wp (set_queue q f) Q E s w.
Proof. intros Hj HQ. unfold set_queue. wp_pures. eapply wp_get_queue; [done|]. by wp_pures. Qed.

Lemma wp_pop_queue q j l s w (Q : Z → mlfq → world → Prop) E :
  queue s !! q = Some (j :: l) → Q j (s <| queue ::= <[q := l]> |>) w → wp (pop_queue q) Q E s w.
Proof. intros Hj HQ. unfold pop_queue. wp_pures. eapply wp_get_queue; [done|]. by wp_pures. Qed.

Lemma wp_say t x s w (Q : unit → mlfq → world → Prop) E : (∀ w', Q tt s w') → wp (say t x) Q E s w.
Proof. intros HQ. unfold say, print. by wp_pures. Qed.
End Rules.

(** ** Jobs are never lost *)

Definition in_queue (s : mlfq) (q j : Z) : Prop := ∃ l, queue s !! q = Some l ∧ j ∈ l.

(** Job [j] waits for an event at time [t], which is [T] or later. *)
Definition pending (s : mlfq) (T t j : Z) : Prop := T ≤ t ∧ ∃ l e, ioDone s !! t = Some l ∧ (j, e) ∈ l.

Definition finished (s : mlfq) (j : Z) : Z := from_option (λ x, if timeLeft x =? 0 then 1 else 0) 0 (jobs s !! j).
Definition work (s : mlfq) (j : Z) : Z := from_option timeLeft 0 (jobs s !! j).

(** A job is finished and nowhere, or ready in the queue of its priority and
    nowhere else, or it waits for exactly one event. *)
Inductive placed (s : mlfq) (T j : Z) (x : job) : Prop :=
| placed_done : timeLeft x = 0 → is_Some (endTime x) → (∀ q, ¬ in_queue s q j) → (∀ t, ¬ pending s T t j) →
    placed s T j x
| placed_ready : 0 < timeLeft x → doingIO x = false → (∀ q, in_queue s q j ↔ q = currPri x) →
    (∀ t, ¬ pending s T t j) → placed s T j x
| placed_waiting t0 : 0 < timeLeft x → (∀ q, ¬ in_queue s q j) → (∀ t, pending s T t j ↔ t = t0) →
    placed s T j x.

(** No queue and no list of events names a job twice; the counter counts the
    finished jobs. *)
Record inv (cfg : config) (n T : Z) (s : mlfq) : Prop := {
  i_jobs : ∀ j, is_Some (jobs s !! j) ↔ 0 ≤ j < n;
  i_pri : ∀ j x, jobs s !! j = Some x → 0 ≤ currPri x < numQueues cfg;
  i_queues : ∀ q, is_Some (queue s !! q) ↔ 0 ≤ q < numQueues cfg;
  i_once : ∀ q l, queue s !! q = Some l → NoDup l;
  i_events : ∀ t l, T ≤ t → ioDone s !! t = Some l → NoDup l.*1;
  i_placed : ∀ j x, jobs s !! j = Some x → placed s T j x;
  i_known : ∀ j, (∃ q, in_queue s q j) ∨ (∃ t, pending s T t j) → 0 ≤ j < n;
  i_finished : finishedJobs s = sum_of (finished s) (range 0 n);
}.

Lemma lookup_in_queue s q l j : queue s !! q = Some l → in_queue s q j ↔ j ∈ l.
Proof. intros Hl. unfold in_queue. rewrite Hl. naive_solver. Qed.

Lemma inv_ready cfg n T s q j : inv cfg n T s → in_queue s q j → ∃ x, jobs s !! j = Some x ∧ currPri x = q ∧
  doingIO x = false ∧ 0 < timeLeft x ∧ (∀ q', in_queue s q' j ↔ q' = q) ∧ ∀ t, ¬ pending s T t j.
Proof.
  intros Hi Hj. destruct (proj2 (i_jobs _ _ _ _ Hi j)) as [x Hx]; [eapply i_known; [done|]; eauto|].
  exists x. split; [done|]. destruct (i_placed _ _ _ _ Hi j x Hx) as [? ? Hno|Hl Hd Hqs Hp|t0 ? Hno]; [by destruct (Hno q)| |by destruct (Hno q)].
  assert (q = currPri x) as -> by by apply Hqs. done.
Qed.

(** One job changes and moves; everything else stays as it was. *)
Lemma inv_step cfg n T T' s s' j x x' : inv cfg n T s → jobs s !! j = Some x → 0 < timeLeft x →
  jobs s' = <[j := x']> (jobs s) → 0 ≤ currPri x' < numQueues cfg → placed s' T' j x' →
  (∀ q, is_Some (queue s' !! q) ↔ is_Some (queue s !! q)) →
  (∀ q l, queue s' !! q = Some l → NoDup l) →
  (∀ q k, k ≠ j → in_queue s' q k ↔ in_queue s q k) →
  (∀ t l, T' ≤ t → ioDone s' !! t = Some l → NoDup l.*1) →
  (∀ t k, k ≠ j → pending s' T' t k ↔ pending s T t k) →
  finishedJobs s' = finishedJobs s + (if timeLeft x' =? 0 then 1 else 0) →
  inv cfg n T' s'.
Proof.
  intros Hi Hx Hl Hj Hpri Hpl Hqs Hnd Hin Hev Hpe Hf.
  assert (0 ≤ j < n) as Hjn by (apply (i_jobs _ _ _ _ Hi); by eexists).
  split; [| | |done|done| | |].
  - intros k. rewrite <-(i_jobs _ _ _ _ Hi), Hj, lookup_insert_is_Some'.
    split; [intros [->|]; [by eexists|done]|auto].
  - intros k y. rewrite Hj. intros [[<- <-]|[? Hk]]%lookup_insert_Some; [done|]. by eapply i_pri.
  - intros q. by rewrite Hqs, (i_queues _ _ _ _ Hi).
  - intros k y. rewrite Hj. intros [[<- <-]|[Hne Hk]]%lookup_insert_Some; [done|].
    assert (k ≠ j) as Hkj by congruence.
    destruct (i_placed _ _ _ _ Hi k y Hk) as [? ? Hno Hp|? ? Hq Hp|t0 ? Hno Hp].
    + apply placed_done; [done|done|intros q; by rewrite Hin|intros t; by rewrite Hpe].
    + apply placed_ready; [done|done|intros q; by rewrite Hin|intros t; by rewrite Hpe].
    + eapply placed_waiting; [done|intros q; by rewrite Hin|intros t; by rewrite Hpe].
  - intros k Hk. destruct (decide (k = j)) as [->|Hne]; [done|]. eapply i_known; [done|].
    destruct Hk as [[q Hk]|[t Hk]]; [left; exists q; by rewrite <-Hin|right; exists t; by rewrite <-Hpe].
  - rewrite Hf, (i_finished _ _ _ _ Hi). rewrite (sum_of_update (finished s) (finished s') (range 0 n) j).
    + unfold finished. rewrite Hj, lookup_insert_eq, Hx. simpl. destruct (Z.eqb_spec (timeLeft x) 0); lia.
    + apply NoDup_range.
    + by apply elem_of_range.
    + intros k Hk. unfold finished. by rewrite Hj, lookup_insert_ne by done.
Qed.

(** The invariant depends on the events only through what is pending. *)
Lemma inv_pending cfg n T T' s s' : inv cfg n T s → jobs s' = jobs s → queue s' = queue s →
  finishedJobs s' = finishedJobs s → (∀ t j, pending s' T' t j ↔ pending s T t j) →
  (∀ t l, T' ≤ t → ioDone s' !! t = Some l → NoDup l.*1) → inv cfg n T' s'.
Proof.
  intros [H1 H2 H3 H4 H5 H6 H7 H8] Hj Hq Hf Hp Hev.
  assert (∀ q j, in_queue s' q j ↔ in_queue s q j) as Hin by (intros; unfold in_queue; by rewrite Hq).
  split; rewrite ?Hj, ?Hq, ?Hf; [done..| | |].
  - intros j x Hx. destruct (H6 j x Hx) as [? ? Hno Hp'|? ? Hqs Hp'|t0 ? Hno Hp'].
    + apply placed_done; [done..|intros q; by rewrite Hin|intros t; by rewrite Hp].
    + apply placed_ready; [done..|intros q; by rewrite Hin|intros t; by rewrite Hp].
    + eapply placed_waiting; [done|intros q; by rewrite Hin|intros t; by rewrite Hp].
  - intros j [[q Hk]|[t Hk]]; apply H7; [left; exists q; by apply Hin|right; exists t; by apply Hp].
  - rewrite H8. apply sum_of_ext. intros j _. unfold finished. by rewrite Hj.
Qed.

(** Time passes an instant without events. *)
Lemma inv_later cfg n T s s' : inv cfg n T s → (∀ l, ioDone s !! T = Some l → l = []) →
  jobs s' = jobs s → queue s' = queue s → finishedJobs s' = finishedJobs s →
  (∀ t, T < t → ioDone s' !! t = ioDone s !! t) → inv cfg n (T + 1) s'.
Proof.
  intros Hi Hl Hj Hq Hf Hio. eapply inv_pending; [done..| |].
  - intros t j. unfold pending. split.
    + intros [? Hk]. rewrite Hio in Hk by lia. split; [lia|done].
    + intros [? (l & e & Ht & Hin)]. destruct (decide (t = T)) as [->|].
      { rewrite (Hl l Ht) in Hin. by apply elem_of_nil in Hin. }
      split; [lia|]. rewrite Hio by lia. eauto.
  - intros t l Ht. rewrite Hio by lia. apply (i_events _ _ _ _ Hi). lia.
Qed.

(** *** The boost *)

(** Everything the boost does to the queues: the lower ones are moved behind
    the highest, from the lowest up. *)
Definition lower (s : mlfq) (hi : Z) : list Z := range 0 hi ≫= λ q, default [] (queue s !! q).

Definition boosted_job (hi a : Z) (x : job) : job :=
  if 0 <? timeLeft x then x <| currPri := hi |> <| ticksLeft := a |> else x.

Section Boost.
Context (cfg : config) (Hn : 0 < numQueues cfg) (Ha : has (numQueues cfg) (allotment cfg)).
Implicit Types (s : mlfq) (E : exn → mlfq → world → Prop).
Abbreviation hi := (hiQueue cfg).

(** Moving the jobs of one queue *)
Lemma wp_move_queue l lh s w (Q : unit → mlfq → world → Prop) E :
  queue s !! hi = Some lh → (∀ j, j ∈ l → ∃ x, jobs s !! j = Some x ∧ doingIO x = false) →
  (∀ s', s' = s <| queue := <[hi := lh ++ l]> (queue s) |> → Q tt s' w) →
  wp (for_ l (λ j, x ← get_job j; when (negb (doingIO x)) (set_queue hi (.++ [j])))) Q E s w.
Proof.
  intros Hh Hl HQ. apply (wp_for (λ pre s' w', w' = w ∧ s' = s <| queue := <[hi := lh ++ pre]> (queue s) |>)).
  - split; [done|]. rewrite app_nil_r, insert_id by done. by destruct s.
  - intros pre j post s' w' -> (-> & ->). destruct (Hl j) as (x & Hx & Hdo); [set_solver|]. wp_pures.
    eapply wp_get_job; [done|]. rewrite Hdo. wp_pures.
    eapply wp_set_queue; [by simpl; rewrite lookup_insert_eq|]. split; [done|].
    unfold update. simpl. by rewrite insert_insert_eq, app_assoc.
  - intros s' w' (-> & ->). by apply HQ.
Qed.

Lemma wp_boost_queues n T s w (Q : unit → mlfq → world → Prop) E : inv cfg n T s →
  (∀ s' lh, queue s !! hi = Some lh → s' = s <| queue := queue s' |> →
     (∀ q, queue s' !! q = if decide (0 ≤ q < hi) then Some [] else if decide (q = hi) then Some (lh ++ lower s hi)
                           else queue s !! q) → Q tt s' w) →
  wp (for_ (range 0 (numQueues cfg - 1)) (λ q,
    l ← get_queue q;
    for_ l (λ j, x ← get_job j; when (negb (doingIO x)) (set_queue hi (.++ [j])));;
    modify (λ s, s <| queue ::= <[q := []]> |>))) Q E s w.
Proof.
  intros Hi HQ. destruct (proj2 (i_queues _ _ _ _ Hi hi)) as [lh Hlh]; [unfold hiQueue; lia|].
  apply (wp_for (λ pre s' w', w' = w ∧ s' = s <| queue := queue s' |> ∧ ∀ q, queue s' !! q =
    if decide (0 ≤ q < len pre) then Some [] else if decide (q = hi) then Some (lh ++ lower s (len pre)) else queue s !! q)).
  - split; [done|]. split; [by destruct s|]. intros q. unfold len, lower. simpl.
    rewrite decide_False by lia. rewrite app_nil_r. by case_decide; [subst|].
  - intros pre q post s' w' (-> & _ & Hqr)%range_split (-> & Hs' & Hq').
    unfold len in Hq'. rewrite length_range in Hq'. replace (Z.of_nat (Z.to_nat (q - 0))) with q in Hq' by lia.
    destruct (proj2 (i_queues _ _ _ _ Hi q)) as [l Hl]; [lia|].
    assert (queue s' !! q = Some l) as Hl'.
    { rewrite Hq'. rewrite decide_False by lia. rewrite decide_False by (unfold hiQueue; lia). done. }
    wp_pures. eapply wp_get_queue; [done|]. wp_pures.
    eapply (wp_move_queue l (lh ++ lower s q)).
    + rewrite Hq'. rewrite decide_False by (unfold hiQueue; lia). by rewrite decide_True.
    + intros j Hj. rewrite Hs'. simpl. destruct (inv_ready _ _ _ _ q j Hi) as (x & ? & _ & ? & _); [by exists l|eauto].
    + intros s'' ->. wp_pures. split; [done|]. split; [rewrite Hs'; by destruct s|].
      intros q'. unfold len. rewrite length_app, length_range. simpl.
      replace (Z.of_nat (Z.to_nat (q - 0) + 1)) with (q + 1) by lia.
      destruct (decide (q' = q)) as [->|Hne].
      { rewrite lookup_insert_eq. by rewrite decide_True by lia. }
      rewrite lookup_insert_ne by done. destruct (decide (q' = hi)) as [->|Hhi].
      { rewrite lookup_insert_eq. rewrite decide_False by (unfold hiQueue; lia). f_equal.
        unfold lower. rewrite range_snoc by lia. rewrite bind_app. simpl. rewrite Hl. simpl.
        by rewrite app_nil_r, app_assoc. }
      rewrite lookup_insert_ne by done. rewrite Hq'. rewrite (decide_False (P := q' = hi)) by done.
      destruct (decide (0 ≤ q' < q)), (decide (0 ≤ q' < q + 1)); try done; lia.
  - intros s' w' (-> & Hs' & Hq'). apply (HQ s' lh Hlh Hs').
    intros q. rewrite Hq'. unfold len. rewrite length_range.
    replace (Z.of_nat (Z.to_nat (numQueues cfg - 1 - 0))) with hi by (unfold hiQueue; lia). done.
Qed.

Lemma elem_of_lower s j h : j ∈ lower s h ↔ ∃ q, 0 ≤ q < h ∧ in_queue s q j.
Proof.
  unfold lower. rewrite list_elem_of_bind. split.
  - intros (q & Hj & Hqr%elem_of_range). exists q. split; [done|]. unfold in_queue.
    destruct (queue s !! q) as [l|]; [by eexists|]. by apply elem_of_nil in Hj.
  - intros (q & Hqr & l & Hl & Hj). exists q. rewrite Hl. split; [done|]. by apply elem_of_range.
Qed.

Lemma NoDup_lower n T s lh : inv cfg n T s → queue s !! hi = Some lh → NoDup (lh ++ lower s hi).
Proof.
  intros Hi Hlh. apply NoDup_app. split; [by eapply i_once|]. split.
  - intros j Hj (q & Hqr & Hqj)%elem_of_lower.
    destruct (inv_ready _ _ _ _ _ _ Hi Hqj) as (x & _ & _ & _ & _ & Honly & _).
    assert (hi = q) by (apply Honly; by exists lh). lia.
  - unfold lower. apply NoDup_bind; [| |apply NoDup_range].
    + intros q q' j _ _ Hj Hj'. assert (∀ q, j ∈ default [] (queue s !! q) → in_queue s q j) as Hin.
      { intros q0 H0. unfold in_queue. destruct (queue s !! q0) as [l|]; [by eexists|by apply elem_of_nil in H0]. }
      destruct (inv_ready _ _ _ _ q' j Hi) as (x & _ & _ & _ & _ & Honly & _); [by apply Hin|]. apply Honly. by apply Hin.
    + intros q _. destruct (queue s !! q) as [l|] eqn:Hl; [by eapply i_once|constructor].
Qed.

Lemma wp_boost_jobs n a s w (Q : unit → mlfq → world → Prop) E :
  0 ≤ n → (∀ j, is_Some (jobs s !! j) ↔ 0 ≤ j < n) → allotment cfg !! hi = Some a →
  (∀ s', s' = s <| jobs := jobs s' |> → (∀ j, jobs s' !! j = boosted_job hi a <$> jobs s !! j) → Q tt s' w) →
  wp (for_ (range 0 (Z.of_nat (size (jobs s)))) (λ j,
    x ← get_job j;
    when (0 <? timeLeft x)
      (set_job j (λ x, x <| currPri := hi |>);;
       a ← dict_get (allotment cfg) hi;
       set_job j (λ x, x <| ticksLeft := a |>)))) Q E s w.
Proof.
  intros Hn0 Hdom Hal HQ. rewrite (size_dict _ _ Hn0 Hdom).
  apply (wp_for (λ pre s' w', w' = w ∧ s' = s <| jobs := jobs s' |> ∧ ∀ j, jobs s' !! j =
    if decide (0 ≤ j < len pre) then boosted_job hi a <$> jobs s !! j else jobs s !! j)).
  - split; [done|]. split; [by destruct s|]. intros j. unfold len. simpl. by rewrite decide_False by lia.
  - intros pre j post s' w' (-> & _ & Hj)%range_split (-> & Hs' & Hj').
    unfold len in Hj'. rewrite length_range in Hj'. replace (Z.of_nat (Z.to_nat (j - 0))) with j in Hj' by lia.
    destruct (proj2 (Hdom j) ltac:(lia)) as [x Hx].
    assert (jobs s' !! j = Some x) as Hx' by (rewrite Hj'; by rewrite decide_False by lia).
    assert (∀ s'', s'' = s <| jobs := <[j := boosted_job hi a x]> (jobs s') |> →
      w = w ∧ s'' = s <| jobs := jobs s'' |> ∧ ∀ k, jobs s'' !! k =
      if decide (0 ≤ k < len (range 0 j ++ [j])) then boosted_job hi a <$> jobs s !! k else jobs s !! k) as Hnext.
    { intros s'' ->. split; [done|]. split; [by destruct s|]. simpl. intros k. unfold len.
      rewrite length_app, length_range. simpl. destruct (decide (k = j)) as [->|].
      - rewrite lookup_insert_eq, decide_True by lia. by rewrite Hx.
      - rewrite lookup_insert_ne by done. rewrite Hj'.
        destruct (decide (0 ≤ k < j)), (decide (0 ≤ k < Z.of_nat (Z.to_nat (j - 0) + 1))); try done; lia. }
    wp_pures. eapply wp_get_job; [done|]. destruct (0 <? timeLeft x) eqn:Ht; wp_pures.
    + eapply wp_set_job; [done|]. wp_pures. rewrite Hal. eapply wp_set_job; [by simpl; rewrite lookup_insert_eq|].
      apply Hnext. unfold boosted_job. rewrite Ht, Hs'. unfold update. simpl. by rewrite insert_insert_eq.
    + apply Hnext. unfold boosted_job. rewrite Ht. rewrite insert_id by done. done.
  - intros s' w' (-> & Hs' & Hj'). apply (HQ s' Hs').
    intros j. rewrite Hj'. unfold len. rewrite length_range. case_decide as Hr; [done|].
    destruct (jobs s !! j) as [x|] eqn:Hx; [|done]. exfalso. apply Hr. destruct (Hdom j) as [Hd _].
    destruct (Hd ltac:(by eexists)). lia.
Qed.

(** What a boost leaves behind *)
Lemma inv_boosted n T s s' lh a : inv cfg n T s → queue s !! hi = Some lh →
  ioDone s' = ioDone s → finishedJobs s' = finishedJobs s →
  (∀ q, queue s' !! q = if decide (0 ≤ q < hi) then Some [] else if decide (q = hi) then Some (lh ++ lower s hi)
                        else queue s !! q) →
  (∀ j, jobs s' !! j = boosted_job hi a <$> jobs s !! j) →
  inv cfg n T s' ∧ ∀ j, (∃ q, in_queue s' q j) ↔ ∃ q, in_queue s q j.
Proof.
  intros Hi Hlh Hio Hfin Hqs Hjs.
  assert (∀ q j, in_queue s' q j ↔ q = hi ∧ ∃ q', in_queue s q' j) as Hin.
  { intros q j. unfold in_queue at 1. rewrite Hqs. destruct (decide (0 ≤ q < hi)).
    { split; [intros (l & [= <-] & []%elem_of_nil)|intros [-> _]; lia]. }
    destruct (decide (q = hi)) as [->|].
    - transitivity (j ∈ lh ++ lower s hi); [naive_solver|]. rewrite elem_of_app, elem_of_lower. split.
      + intros [?|(q' & _ & ?)]; (split; [done|]); [by exists hi, lh|eauto].
      + intros [_ [q' Hq']]. destruct (decide (q' = hi)) as [->|]; [left; by eapply lookup_in_queue|].
        right. exists q'. split; [|done]. assert (0 ≤ q' < numQueues cfg); [|unfold hiQueue in *; lia].
        apply (i_queues _ _ _ _ Hi). destruct Hq' as (l & ? & _). by eexists.
    - split; [|naive_solver]. intros (l & Hl & Hj).
      assert (0 ≤ q < numQueues cfg); [apply (i_queues _ _ _ _ Hi); by eexists|unfold hiQueue in *; lia]. }
  assert (∀ t j, pending s' T t j ↔ pending s T t j) as Hp by (intros; unfold pending; by rewrite Hio).
  split; [|intros j; split; [intros [q [_ ?]%Hin]; done|intros ?; exists hi; by apply Hin]].
  split.
  - intros j. rewrite Hjs, fmap_is_Some. apply (i_jobs _ _ _ _ Hi).
  - intros j x. rewrite Hjs. intros (y & Hy & ->)%fmap_Some. unfold boosted_job.
    case_match; simpl; [unfold hiQueue; lia|by eapply i_pri].
  - intros q. rewrite Hqs, <-(i_queues _ _ _ _ Hi). repeat case_decide; [|subst; rewrite Hlh; naive_solver|done].
    rewrite (i_queues _ _ _ _ Hi). unfold hiQueue in *. split; [lia|by eexists].
  - intros q l. rewrite Hqs. repeat case_decide; intros; simplify_eq; [constructor|by eapply NoDup_lower|by eapply i_once].
  - rewrite Hio. apply (i_events _ _ _ _ Hi).
  - intros j x. rewrite Hjs. intros (y & Hy & ->)%fmap_Some.
    assert (timeLeft (boosted_job hi a y) = timeLeft y) as Htl by (unfold boosted_job; by case_match).
    destruct (i_placed _ _ _ _ Hi j y Hy) as [Hz ? Hno Hnp|? ? Hqy Hnp|t0 ? Hno Hnp].
    + apply placed_done; [by rewrite Htl|unfold boosted_job; by case_match| |intros t; by rewrite Hp].
      intros q [_ [q' ?]]%Hin. by eapply Hno.
    + apply placed_ready; [by rewrite Htl|unfold boosted_job; by case_match| |intros t; by rewrite Hp].
      intros q. rewrite Hin. unfold boosted_job. destruct (Z.ltb_spec 0 (timeLeft y)); [|lia]. simpl.
      split; [tauto|]. intros ->. split; [done|]. exists (currPri y). by apply Hqy.
    + eapply placed_waiting; [by rewrite Htl| |intros t; by rewrite Hp].
      intros q [_ [q' ?]]%Hin. by eapply Hno.
  - intros j [[q [_ ?]%Hin]|[t ?%Hp]]; (eapply i_known; [done|]); eauto.
  - rewrite Hfin, (i_finished _ _ _ _ Hi). apply sum_of_ext. intros j _. unfold finished. rewrite Hjs.
    destruct (jobs s !! j) as [x|]; [|done]. simpl. unfold boosted_job. by destruct (0 <? timeLeft x).
Qed.

(** The result of a boost: the jobs that are not finished *)
Record boosted (s s' : mlfq) : Prop := {
  b_jobs : ∀ j, jobs s' !! j = boosted_job hi (default 0 (allotment cfg !! hi)) <$> jobs s !! j;
  b_lower : ∀ q, 0 ≤ q < hi → queue s' !! q = Some [];
  b_high : queue s' !! hi = (λ lh, lh ++ lower s hi) <$> queue s !! hi;
  b_rest : ioDone s' = ioDone s ∧ currTime s' = currTime s ∧ finishedJobs s' = finishedJobs s;
}.

Lemma wp_do_boost n T s w (Q : unit → mlfq → world → Prop) E : 0 ≤ n → inv cfg n T s →
  (∀ s' w', boosted s s' → inv cfg n T s' → (∀ j, (∃ q, in_queue s' q j) ↔ ∃ q, in_queue s q j) → Q tt s' w') →
  wp (do_boost cfg) Q E s w.
Proof.
  intros Hn0 Hi HQ. unfold do_boost. wp_pures. apply wp_say. intros w'. rewrite wp_bind.
  eapply wp_boost_queues; [done|]. intros s1 lh Hlh Hs1 Hq1.
  destruct (has_lookup _ _ hi Ha) as [a Hal]; [unfold hiQueue; lia|].
  assert (jobs s1 = jobs s) as Hj1 by by rewrite Hs1. rewrite <-Hj1.
  eapply (wp_boost_jobs n a); [done|rewrite Hj1; by apply (i_jobs _ _ _ _ Hi)|done|].
  intros s2 Hs2 Hj2. rewrite Hj1 in Hj2.
  assert (ioDone s2 = ioDone s ∧ currTime s2 = currTime s ∧ finishedJobs s2 = finishedJobs s) as Hrest.
  { rewrite Hs2. simpl. rewrite Hs1. done. }
  assert (queue s2 = queue s1) as Hq2 by (rewrite Hs2; done). rewrite <-Hq2 in Hq1.
  destruct (inv_boosted n T s s2 lh a) as [Hi2 Hin2]; [done|done|naive_solver..|].
  apply HQ; [|done..]. split; [by rewrite Hal| | |done].
  - intros q Hqr. rewrite Hq1. by rewrite decide_True.
  - rewrite Hq1, Hlh. rewrite decide_False by lia. by rewrite decide_True.
Qed.

(** Is this an instant at which the priorities are boosted? *)
Definition boosting (s : mlfq) : bool := (0 <? boost cfg) && negb (currTime s =? 0) && (currTime s mod boost cfg =? 0).

Lemma wp_check_boost n T s w (Q : unit → mlfq → world → Prop) E : 0 ≤ n → inv cfg n T s →
  (∀ s' w', (if boosting s then boosted s s' else s' = s) → inv cfg n T s' →
     (∀ j, (∃ q, in_queue s' q j) ↔ ∃ q, in_queue s q j) → Q tt s' w') →
  wp (check_boost cfg) Q E s w.
Proof.
  intros Hn0 Hi HQ. unfold check_boost. wp_pures. unfold boosting in HQ.
  destruct ((0 <? boost cfg) && negb (currTime s =? 0)); wp_pures; [|by apply HQ].
  destruct (currTime s mod boost cfg =? 0); wp_pures; [|by apply HQ]. simpl in HQ. by eapply wp_do_boost.
Qed.
End Boost.

(** *** Arrivals *)

Definition prio (s : mlfq) (j : Z) : Z := from_option currPri (-1) (jobs s !! j).

Section Arrivals.
Context (cfg : config).
Implicit Types (s : mlfq) (E : exn → mlfq → world → Prop).

Lemma in_queue_insert s s' q l j k : queue s' = <[q := l]> (queue s) →
  in_queue s' k j ↔ if decide (k = q) then j ∈ l else in_queue s k j.
Proof.
  intros Hq. unfold in_queue. rewrite Hq. case_decide.
  - subst. rewrite lookup_insert_eq. naive_solver.
  - by rewrite lookup_insert_ne by done.
Qed.

(** The job whose event is due joins the queue of its priority. *)
Lemma inv_wake n T s s' j e post x lq lq' : inv cfg n T s →
  ioDone s !! T = Some ((j, e) :: post) → jobs s !! j = Some x → queue s !! currPri x = Some lq →
  lq' ≡ₚ j :: lq → jobs s' = <[j := x <| doingIO := false |>]> (jobs s) →
  queue s' = <[currPri x := lq']> (queue s) → ioDone s' = <[T := post]> (ioDone s) →
  finishedJobs s' = finishedJobs s → inv cfg n T s'.
Proof.
  intros Hi Hio Hx Hlq Hperm Hj' Hq' Hio' Hf.
  assert (pending s T T j) as Hpj by (split; [lia|]; exists ((j, e) :: post), e; split; [done|by left]).
  destruct (i_placed _ _ _ _ Hi j x Hx) as [? ? ? Hno|? ? ? Hno|t0 Hl Hno Hp]; [by destruct (Hno T)..|].
  assert (t0 = T) as -> by (symmetry; by apply Hp).
  pose proof (i_events _ _ _ _ Hi T _ ltac:(lia) Hio) as Hnd. apply NoDup_cons in Hnd as [Hjp Hnd]. simpl in Hjp, Hnd.
  assert (∀ q k, in_queue s' q k ↔ in_queue s q k ∨ (q = currPri x ∧ k = j)) as Hin.
  { intros q k. rewrite (in_queue_insert s s' _ _ _ _ Hq'). case_decide; [|naive_solver]. subst.
    rewrite Hperm, elem_of_cons, (lookup_in_queue _ _ _ k Hlq). naive_solver. }
  assert (∀ t k, pending s' T t k ↔ pending s T t k ∧ k ≠ j) as Hpe.
  { intros t k. unfold pending. rewrite Hio'. destruct (decide (t = T)) as [->|].
    - rewrite lookup_insert_eq, Hio. split.
      + intros (? & l & e' & [= <-] & Hk). split; [split; [done|]; exists ((j, e) :: post), e'; split; [done|by right]|].
        intros ->. apply Hjp. by apply (list_elem_of_fmap_2 fst _ (j, e')).
      + intros ((? & l & e' & [= <-] & Hk) & Hne). split; [done|]. exists post, e'. split; [done|].
        apply elem_of_cons in Hk as [[=]|]; done.
    - rewrite lookup_insert_ne by done. split; [|tauto]. intros Hk. split; [done|]. intros ->. by apply Hp in Hk. }
  eapply (inv_step cfg n T T s s' j x); [done..| | | | | | | |].
  - simpl. by eapply i_pri.
  - apply placed_ready; [done..| |].
    + intros q. rewrite Hin. simpl. split; [intros [?|[? _]]; [by destruct (Hno q)|done]|tauto].
    + intros t [_ ?]%Hpe. done.
  - intros q. rewrite Hq', lookup_insert_is_Some'. split; [intros [<-|]; [by eexists|done]|auto].
  - intros q l. rewrite Hq'. intros [[<- <-]|[_ Hl']]%lookup_insert_Some; [|by eapply i_once].
    rewrite Hperm. constructor; [|by eapply i_once]. intros Hjq. apply (Hno (currPri x)). by exists lq.
  - intros q k Hk. rewrite Hin. naive_solver.
  - intros t l Ht. rewrite Hio'. intros [[<- <-]|[_ Hl']]%lookup_insert_Some; [done|by eapply i_events].
  - intros t k Hk. rewrite Hpe. naive_solver.
  - simpl. destruct (Z.eqb_spec (timeLeft x) 0); lia.
Qed.

Lemma wp_check_io n s w (Q : unit → mlfq → world → Prop) E : inv cfg n (currTime s) s →
  (∀ s' w', inv cfg n (currTime s + 1) s' → currTime s' = currTime s → ioDone s' = ioDone s →
     (∀ j, prio s' j = prio s j ∧ work s' j = work s j) →
     (∀ j, (∃ q, in_queue s' q j) ↔ (∃ q, in_queue s q j) ∨ pending s (currTime s) (currTime s) j) → Q tt s' w') →
  wp (check_io cfg) Q E s w.
Proof.
  intros Hi HQ. unfold check_io. wp_pures. destruct (ioDone s !! currTime s) as [l|] eqn:Hl; wp_pures.
  2: { apply HQ; [eapply inv_later; [done|naive_solver|done..]|done..|]. intros j. split; [tauto|].
       intros [?|(_ & l & e & Hl' & _)]; [done|congruence]. }
  apply (wp_for (λ pre s' w', (∀ post, l = pre ++ post → inv cfg n (currTime s) (s' <| ioDone := <[currTime s := post]> (ioDone s) |>)) ∧
    currTime s' = currTime s ∧ ioDone s' = ioDone s ∧ (∀ j, prio s' j = prio s j ∧ work s' j = work s j) ∧
    ∀ j, (∃ q, in_queue s' q j) ↔ (∃ q, in_queue s q j) ∨ j ∈ pre.*1)).
  - split; [|split_and!; [done..|]; intros j; split; [tauto|intros [?|?%elem_of_nil]; done]].
    intros post Hpost. simpl in Hpost. rewrite <-Hpost, insert_id by done. by destruct s.
  - intros pre [j e] post s1 w1 Hl1 (Hi1 & Ht1 & Hio1 & Hj1 & Hin1). specialize (Hi1 _ Hl1).
    set (g := s1 <| ioDone := <[currTime s := (j, e) :: post]> (ioDone s) |>) in Hi1.
    assert (pending g (currTime s) (currTime s) j) as Hpg.
    { split; [lia|]. exists ((j, e) :: post), e. split; [apply lookup_insert_eq|by left]. }
    destruct (proj2 (i_jobs _ _ _ _ Hi1 j)) as [x Hx]; [eapply i_known; [done|]; eauto|].
    destruct (proj2 (i_queues _ _ _ _ Hi1 (currPri x))) as [lq Hlq]; [by eapply i_pri|]. simpl in Hx, Hlq.
    assert (∀ lq' w', lq' ≡ₚ j :: lq → (λ s' (w' : world), (∀ post, l = (pre ++ [(j, e)]) ++ post → inv cfg n (currTime s) (s' <| ioDone := <[currTime s := post]> (ioDone s) |>)) ∧
      currTime s' = currTime s ∧ ioDone s' = ioDone s ∧ (∀ j, prio s' j = prio s j ∧ work s' j = work s j) ∧
      ∀ k, (∃ q, in_queue s' q k) ↔ (∃ q, in_queue s q k) ∨ k ∈ (pre ++ [(j, e)]).*1)
      (s1 <| jobs ::= <[j := x <| doingIO := false |>]> |> <| queue ::= <[currPri x := lq']> |>) w') as Hnext.
    { intros lq' w' Hperm. split_and!; [|done..| |].
      - intros post' Hpost'. rewrite <-app_assoc in Hpost'. simpl in Hpost'. rewrite Hl1 in Hpost'.
        apply app_inv_head in Hpost' as [= <-].
        eapply (inv_wake n (currTime s) g _ j e post x lq lq'); [done|apply lookup_insert_eq|done..| |done].
        simpl. by rewrite insert_insert_eq.
      - intros k. destruct (Hj1 k) as [<- <-]. unfold prio, work. simpl. destruct (decide (k = j)) as [->|].
        + by rewrite lookup_insert_eq, Hx.
        + by rewrite lookup_insert_ne.
      - intros k. rewrite fmap_app, elem_of_app. simpl. rewrite list_elem_of_singleton.
        transitivity ((∃ q, in_queue s1 q k) ∨ k = j); [|rewrite Hin1; tauto]. split.
        + intros [q Hk]. rewrite (in_queue_insert s1 _ (currPri x) lq') in Hk by done. case_decide; [|eauto].
          rewrite Hperm in Hk. subst. apply elem_of_cons in Hk as [?|?]; [auto|]. left. eexists. by eexists.
        + intros [[q Hk]| ->]; [exists q|exists (currPri x)]; (rewrite (in_queue_insert s1 _ (currPri x) lq') by done).
          * case_decide; [|done]. subst. rewrite Hperm. right. by eapply lookup_in_queue.
          * rewrite decide_True by done. rewrite Hperm. by left. }
    wp_pures. eapply wp_get_job; [done|]. wp_pures. eapply wp_set_job; [done|]. wp_pures. apply wp_say. intros w2.
    destruct (_ || _); (eapply wp_set_queue; [done|]); apply Hnext; first [apply (Permutation_app_comm lq [j])|done].
  - intros s' w' (Hi' & Ht' & Hio' & Hj' & Hin'). specialize (Hi' [] ltac:(by rewrite app_nil_r)).
    apply HQ; [|done..|].
    + eapply inv_later; [done| |done..|].
      * simpl. rewrite lookup_insert_eq. by intros l' [= <-].
      * intros t Ht. simpl. rewrite lookup_insert_ne by lia. by rewrite Hio'.
    + intros j. rewrite Hin'. apply or_iff_compat_l. rewrite list_elem_of_fmap. split.
      * intros ([? e] & -> & ?). split; [lia|]. eauto.
      * intros (_ & l' & e & ? & ?). simplify_eq. by exists (j, e).
Qed.
End Arrivals.

(** *** Dispatch *)

Section Dispatch.
Context (cfg : config) (Hn : 0 < numQueues cfg) (Hq : has (numQueues cfg) (quantum cfg))
  (Ha : has (numQueues cfg) (allotment cfg)).
Implicit Types (s : mlfq) (E : exn → mlfq → world → Prop).

Lemma wp_FindQueue s w (Q : Z → mlfq → world → Prop) E :
  (∀ q, is_Some (queue s !! q) ↔ 0 ≤ q < numQueues cfg) →
  (∀ q j l, queue s !! q = Some (j :: l) → (∀ q' j', in_queue s q' j' → q' ≤ q) → Q q s w) →
  ((∀ q j, ¬ in_queue s q j) → Q (-1) s w) → wp (FindQueue cfg) Q E s w.
Proof.
  intros Hqs HQ HQ'. unfold FindQueue. wp_pures.
  apply (wp_for_ret (λ pre _ s' w', (s' = s ∧ w' = w) ∧ ∀ q, q ∈ pre → queue s !! q = Some [])).
  - split; [done|]. by intros q []%elem_of_nil.
  - intros pre q post [] s' w' Hr [[-> ->] Hpre].
    apply (f_equal (@rev Z)) in Hr. rewrite rev_involutive, rev_app_distr in Hr. simpl in Hr. rewrite <-app_assoc in Hr.
    apply range_split in Hr as (_ & Hr & Hrange). unfold hiQueue in *.
    destruct (proj2 (Hqs q) ltac:(lia)) as [l Hl]. wp_pures. eapply wp_get_queue; [done|]. wp_pures.
    destruct l as [|j l]; simpl.
    + split; [done|]. intros q' [?|Hq']%elem_of_app; [auto|]. apply list_elem_of_singleton in Hq'. by subst.
    + wp_pures. eapply HQ; [done|]. intros q' j' (l' & Hl' & Hj'). apply Z.nlt_ge. intros Hlt.
      rewrite Hpre in Hl'; [simplify_eq; by apply elem_of_nil in Hj'|].
      rewrite list_elem_of_In, <-(rev_involutive pre), <-in_rev, Hr, <-list_elem_of_In. apply elem_of_range.
      assert (0 ≤ q' < numQueues cfg) by (apply Hqs; by eexists). lia.
  - intros [] s' w' [[-> ->] Hall]. wp_pures. destruct (proj2 (Hqs 0) ltac:(lia)) as [l Hl].
    assert (∀ q j, in_queue s q j → q = 0) as Hrest.
    { intros q j (l' & Hl' & Hj). assert (0 ≤ q < numQueues cfg) by (apply Hqs; by eexists).
      destruct (decide (q = 0)); [done|]. rewrite Hall in Hl'; [simplify_eq; by apply elem_of_nil in Hj|].
      rewrite list_elem_of_In, <-in_rev, <-list_elem_of_In. apply elem_of_range. unfold hiQueue. lia. }
    eapply wp_get_queue; [done|]. wp_pures. destruct l as [|j l]; simpl.
    + apply HQ'. intros q j Hj. pose proof (Hrest _ _ Hj). subst. rewrite (lookup_in_queue _ _ _ _ Hl) in Hj.
      by apply elem_of_nil in Hj.
    + eapply HQ; [done|]. intros q' j' ?%Hrest. lia.
Qed.

(** *** The job leaves the head of its queue *)

Lemma in_queue_popped n T s s' q j l q' k : inv cfg n T s → queue s !! q = Some (j :: l) →
  queue s' = <[q := l]> (queue s) → in_queue s' q' k ↔ in_queue s q' k ∧ k ≠ j.
Proof.
  intros Hi Hql Hq'. pose proof (i_once _ _ _ _ Hi _ _ Hql) as [Hjl _]%NoDup_cons.
  assert (in_queue s q j) as Hj by (eexists; split; [done|by left]).
  destruct (inv_ready _ _ _ _ _ _ Hi Hj) as (x & _ & _ & _ & _ & Honly & _).
  rewrite (in_queue_insert s s' _ _ _ _ Hq'). case_decide as Hqq.
  - subst. rewrite (lookup_in_queue _ _ _ k Hql), elem_of_cons. split; [|naive_solver].
    intros Hk. split; [by right|by intros ->].
  - split; [|tauto]. intros Hk. split; [done|]. intros ->. by apply Honly in Hk.
Qed.

Lemma inv_finish n T s s' q j l x x' : inv cfg n T s → queue s !! q = Some (j :: l) → jobs s !! j = Some x →
  jobs s' = <[j := x']> (jobs s) → queue s' = <[q := l]> (queue s) → ioDone s' = ioDone s →
  finishedJobs s' = finishedJobs s + 1 → timeLeft x' = 0 → is_Some (endTime x') → currPri x' = currPri x →
  inv cfg n T s'.
Proof.
  intros Hi Hql Hx Hj' Hq' Hio Hf Ht He Hp.
  assert (in_queue s q j) as Hj by (eexists; split; [done|by left]).
  destruct (inv_ready _ _ _ _ _ _ Hi Hj) as (x0 & Hx0 & _ & _ & Hpos & Honly & Hno). simplify_eq.
  pose proof (λ q' k, in_queue_popped n T s s' q j l q' k Hi Hql Hq') as Hin.
  assert (∀ t k, pending s' T t k ↔ pending s T t k) as Hpe by (intros; unfold pending; by rewrite Hio).
  eapply (inv_step cfg n T T s s' j); [done..| | | | | | | |].
  - rewrite Hp. by eapply i_pri.
  - apply placed_done; [done..|intros q' [_ ?]%Hin; done|intros t ?%Hpe; by eapply Hno].
  - intros q'. rewrite Hq', lookup_insert_is_Some'. split; [intros [<-|]; [by eexists|done]|auto].
  - intros q' l'. rewrite Hq'. intros [[<- <-]|[_ Hl']]%lookup_insert_Some; [|by eapply i_once].
    by pose proof (i_once _ _ _ _ Hi _ _ Hql) as [_ ?]%NoDup_cons.
  - intros q' k Hk. rewrite Hin. tauto.
  - rewrite Hio. apply (i_events _ _ _ _ Hi).
  - intros. apply Hpe.
  - rewrite Ht, Hf. done.
Qed.

Lemma inv_wait n T s s' q j l x x' t : inv cfg n T s → queue s !! q = Some (j :: l) → jobs s !! j = Some x →
  jobs s' = <[j := x']> (jobs s) → queue s' = <[q := l]> (queue s) →
  ioDone s' = <[t := default [] (ioDone s !! t) ++ [(j, IO_DONE)]]> (ioDone s) → T ≤ t →
  finishedJobs s' = finishedJobs s → 0 < timeLeft x' → 0 ≤ currPri x' < numQueues cfg →
  inv cfg n T s'.
Proof.
  intros Hi Hql Hx Hj' Hq' Hio Ht Hf Hpos' Hp.
  assert (in_queue s q j) as Hj by (eexists; split; [done|by left]).
  destruct (inv_ready _ _ _ _ _ _ Hi Hj) as (x0 & Hx0 & _ & _ & Hpos & Honly & Hno). simplify_eq.
  pose proof (λ q' k, in_queue_popped n T s s' q j l q' k Hi Hql Hq') as Hin.
  assert (∀ t' k, pending s' T t' k ↔ pending s T t' k ∨ (t' = t ∧ k = j)) as Hpe.
  { intros t' k. unfold pending. rewrite Hio. destruct (decide (t' = t)) as [->|].
    - rewrite lookup_insert_eq. split.
      + intros (_ & l' & e & [= <-] & [Hk|[= -> ->]%list_elem_of_singleton]%elem_of_app); [left|by right].
        destruct (ioDone s !! t) as [lt|]; [eauto|by apply elem_of_nil in Hk].
      + intros [(_ & l' & e & Hl' & Hk)|[_ ->]]; (split; [done|]).
        * rewrite Hl'. exists (l' ++ [(j, IO_DONE)]), e. split; [done|]. apply elem_of_app. by left.
        * eexists _, IO_DONE. split; [done|]. apply elem_of_app. right. by left.
    - rewrite lookup_insert_ne by done. naive_solver. }
  eapply (inv_step cfg n T T s s' j); [done..| | | | | | |].
  - eapply (placed_waiting _ _ _ _ t); [done|intros q' [_ ?]%Hin; done|].
    intros t'. rewrite Hpe. split; [intros [?|[? _]]; [by edestruct Hno|done]|auto].
  - intros q'. rewrite Hq', lookup_insert_is_Some'. split; [intros [<-|]; [by eexists|done]|auto].
  - intros q' l'. rewrite Hq'. intros [[<- <-]|[_ Hl']]%lookup_insert_Some; [|by eapply i_once].
    by pose proof (i_once _ _ _ _ Hi _ _ Hql) as [_ ?]%NoDup_cons.
  - intros q' k Hk. rewrite Hin. tauto.
  - intros t' l' Ht'. rewrite Hio. intros [[<- <-]|[_ Hl']]%lookup_insert_Some; [|by eapply i_events].
    rewrite fmap_app. simpl. destruct (ioDone s !! t) as [lt|] eqn:Hlt; simpl; [|apply NoDup_singleton].
    apply NoDup_app. split; [by eapply i_events|]. split; [|apply NoDup_singleton].
    intros k ([? e] & -> & ?)%list_elem_of_fmap Hk. simpl in Hk. apply list_elem_of_singleton in Hk. subst.
    apply (Hno t). split; [done|eauto].
  - intros t' k Hk. rewrite Hpe. naive_solver.
  - rewrite Hf. destruct (Z.eqb_spec (timeLeft x') 0); lia.
Qed.

Lemma inv_requeue n T s s' q j l x x' l' : inv cfg n T s → queue s !! q = Some (j :: l) → jobs s !! j = Some x →
  jobs s' = <[j := x']> (jobs s) → <[q := l]> (queue s) !! currPri x' = Some l' →
  (queue s' = queue s ∧ currPri x' = q ∨ queue s' = <[currPri x' := l' ++ [j]]> (<[q := l]> (queue s))) → ioDone s' = ioDone s →
  finishedJobs s' = finishedJobs s → 0 < timeLeft x' → doingIO x' = false →
  inv cfg n T s'.
Proof.
  intros Hi Hql Hx Hj' Hl' Hq' Hio Hf Hpos' Hdo.
  assert (in_queue s q j) as Hj by (eexists; split; [done|by left]).
  destruct (inv_ready _ _ _ _ _ _ Hi Hj) as (x0 & Hx0 & _ & _ & Hpos & Honly & Hno). simplify_eq.
  assert (∀ t k, pending s' T t k ↔ pending s T t k) as Hpe by (intros; unfold pending; by rewrite Hio).
  assert (∀ q', is_Some (<[q := l]> (queue s) !! q') ↔ is_Some (queue s !! q')) as Hpop.
  { intros q'. rewrite lookup_insert_is_Some'. split; [intros [<-|]; [by eexists|done]|auto]. }
  assert (0 ≤ currPri x' < numQueues cfg) as Hp.
  { apply (i_queues _ _ _ _ Hi). apply Hpop. by eexists. }
  assert (∀ q' k, in_queue s' q' k ↔ (in_queue s q' k ∧ k ≠ j) ∨ (q' = currPri x' ∧ k = j)) as Hin.
  { intros q' k. destruct Hq' as [[Hq' Hpq]|Hq'].
    - unfold in_queue at 1. rewrite Hq', Hpq. fold (in_queue s q' k). destruct (decide (k = j)) as [->|]; [|tauto].
      rewrite Honly. tauto.
    - set (s1 := s <| queue := <[q := l]> (queue s) |>).
      rewrite <-(in_queue_popped n T s s1 q j l q' k) by done.
      rewrite (in_queue_insert s1 s' (currPri x') (l' ++ [j])) by done. case_decide; [|tauto].
      subst q'. rewrite (lookup_in_queue s1 _ l') by done. rewrite elem_of_app, list_elem_of_singleton. tauto. }
  eapply (inv_step cfg n T T s s' j); [done..| | | | | | |].
  - apply placed_ready; [done..| |intros t ?%Hpe; by eapply Hno]. intros q'. rewrite Hin. tauto.
  - intros q'. destruct Hq' as [[-> _]| ->]; [done|].
    rewrite lookup_insert_is_Some', Hpop. split; [intros [<-|]; [|done]|auto]. apply Hpop. by eexists.
  - intros q' l0 Hl0. destruct Hq' as [[Hq' _]|Hq']; [rewrite Hq' in Hl0; by eapply i_once|].
    pose proof (i_once _ _ _ _ Hi _ _ Hql) as [Hjl Hnl]%NoDup_cons.
    assert (∀ q1 l1, <[q := l]> (queue s) !! q1 = Some l1 → NoDup l1 ∧ j ∉ l1) as Hpopped.
    { intros q1 l1 [[<- <-]|[Hne Hl1]]%lookup_insert_Some; [done|]. split; [by eapply i_once|].
      intros Hj1. apply Hne. symmetry. apply Honly. by exists l1. }
    rewrite Hq' in Hl0. apply lookup_insert_Some in Hl0 as [[<- <-]|[_ Hl0]]; [|by eapply Hpopped].
    destruct (Hpopped _ _ Hl') as [Hnd' Hj1]. apply NoDup_app. split; [done|]. split; [|apply NoDup_singleton].
    intros k Hk Hkj. apply list_elem_of_singleton in Hkj. by subst.
  - intros q' k Hk. rewrite Hin. naive_solver.
  - rewrite Hio. apply (i_events _ _ _ _ Hi).
  - intros. apply Hpe.
  - rewrite Hf. destruct (Z.eqb_spec (timeLeft x') 0); lia.
Qed.

(** *** The rules of the three operations *)

(** A job after a slice or an I/O: only the accounting has changed. *)
Definition accounted (x x' : job) : Prop :=
  timeLeft x' = timeLeft x ∧ runTime x' = runTime x ∧ startTime x' = startTime x ∧ ioFreq x' = ioFreq x ∧
  firstRun x' = firstRun x ∧ endTime x' = endTime x.

Lemma wp_issue_io s w q j l x (Q : unit → mlfq → world → Prop) E : 0 ≤ q < numQueues cfg →
  queue s !! q = Some (j :: l) → jobs s !! j = Some x → currPri x = q →
  (∀ s' w' x', accounted x x' → currPri x' = q → jobs s' = <[j := x']> (jobs s) → queue s' = <[q := l]> (queue s) →
     ioDone s' = <[currTime s + ioTime cfg := default [] (ioDone s !! (currTime s + ioTime cfg)) ++ [(j, IO_DONE)]]> (ioDone s) →
     currTime s' = currTime s → finishedJobs s' = finishedJobs s → Q tt s' w') →
  wp (issue_io cfg j q) Q E s w.
Proof.
  intros Hqr Hql Hx Hxq HQ. unfold issue_io. wp_pures. apply wp_say. intros w1. wp_pures.
  eapply wp_pop_queue; [done|]. wp_pures. rewrite Z.eqb_refl. wp_pures.
  eapply wp_set_job; [done|]. wp_pures. destruct (stay cfg); wp_pures.
  - destruct (has_lookup _ _ q Hq Hqr) as [vq -> ]. wp_pures. destruct (has_lookup _ _ q Ha Hqr) as [va -> ]. wp_pures.
    eapply wp_set_job; [by simpl; rewrite lookup_insert_eq|]. unfold print. wp_pures. unfold post. wp_pures.
    apply (HQ _ _ (x <| doingIO := true |> <| ticksLeft := vq |> <| allotLeft := va |>)); try done.
    simpl. by rewrite insert_insert_eq.
  - unfold print, post. wp_pures. by apply (HQ _ _ (x <| doingIO := true |>)).
Qed.

Lemma wp_end_slice s w q j l x issuedIO (Q : unit → mlfq → world → Prop) E : 0 ≤ q < numQueues cfg →
  (∀ q, is_Some (queue s !! q) ↔ 0 ≤ q < numQueues cfg) →
  (issuedIO = false → queue s !! q = Some (j :: l)) → jobs s !! j = Some x → currPri x = q →
  (∀ s' w' x', accounted x x' → doingIO x' = doingIO x → 0 ≤ currPri x' < numQueues cfg →
     jobs s' = <[j := x']> (jobs s) → ioDone s' = ioDone s → currTime s' = currTime s → finishedJobs s' = finishedJobs s →
     (if issuedIO then queue s' = queue s else
      ∃ l', <[q := l]> (queue s) !! currPri x' = Some l' ∧ queue s' = <[currPri x' := l' ++ [j]]> (<[q := l]> (queue s))) →
     Q tt s' w') →
  wp (end_slice cfg j q issuedIO) Q E s w.
Proof.
  intros Hqr Hqs Hql Hx Hxq HQ. unfold end_slice.
  set (m := if issuedIO then queue s else <[q := l]> (queue s)).
  assert (∀ k, 0 ≤ k < numQueues cfg → ∃ l', m !! k = Some l') as Hm.
  { intros k Hk. unfold m. destruct issuedIO; [by apply Hqs|].
    destruct (decide (k = q)) as [->|]; [rewrite lookup_insert_eq; by eexists|].
    rewrite lookup_insert_ne by done. by apply Hqs. }
  assert (∀ k s1 x' w1, s1 = s <| queue := m |> <| jobs := <[j := x']> (jobs s) |> →
    accounted x x' → doingIO x' = doingIO x → currPri x' = k → 0 ≤ k < numQueues cfg →
    wp (when (negb issuedIO) (set_queue k (.++ [j]))) Q E s1 w1) as Hre.
  { intros k s1 x' w1 -> Hacc Hdo Hk Hkr. destruct (Hm k Hkr) as [l' Hl']. unfold m in *.
    destruct issuedIO; wp_pures; [by eapply (HQ _ _ x'); subst k|].
    eapply wp_set_queue; [exact Hl'|]. apply (HQ _ _ x'); try done; [by rewrite Hk|].
    exists l'. by rewrite Hk. }
  rewrite wp_bind. eapply (wp_conseq _ (λ _ s1 _, s1 = s <| queue := m |>)).
  { unfold m. destruct issuedIO; wp_pures; [by destruct s|]. eapply wp_pop_queue; [by apply Hql|]. wp_pures.
    rewrite Z.eqb_refl. done. }
  intros [] s1 w1 ->. wp_pures. eapply wp_set_job; [done|]. wp_pures.
  eapply wp_get_job; [simpl; by rewrite lookup_insert_eq|]. wp_pures. destruct (_ =? 0); wp_pures.
  - eapply wp_set_job; [simpl; by rewrite lookup_insert_eq|].
    assert (0 ≤ (if 0 <? q then q - 1 else q) < numQueues cfg) as Hqr' by (destruct (Z.ltb_spec 0 q); lia). wp_pures.
    destruct (has_lookup _ _ _ Hq Hqr') as [vq -> ]. wp_pures. destruct (has_lookup _ _ _ Ha Hqr') as [va -> ]. wp_pures.
    eapply wp_set_job; [simpl; by rewrite lookup_insert_eq|]. eapply Hre.
    + unfold update. simpl. rewrite !insert_insert_eq. done.
    + done.
    + done.
    + simpl. by destruct (0 <? q).
    + done.
  - destruct (has_lookup _ _ q Hq Hqr) as [vq -> ]. wp_pures.
    eapply wp_set_job; [simpl; by rewrite lookup_insert_eq|]. eapply Hre.
    + unfold update. simpl. rewrite !insert_insert_eq. done.
    + done.
    + done.
    + done.
    + done.
Qed.

(** One tick on the CPU *)
Definition ran (s s' : mlfq) (j : Z) : Prop :=
  currTime s' = currTime s + 1 ∧ (∀ k, work s' k = work s k - (if decide (k = j) then 1 else 0)) ∧
  ∀ t, is_Some (ioDone s' !! t) → is_Some (ioDone s !! t) ∨ t ≤ currTime s' + ioTime cfg.

Lemma ran_intro s s' j x x' : jobs s !! j = Some x → jobs s' = <[j := x']> (jobs s) → timeLeft x' = timeLeft x - 1 →
  currTime s' = currTime s + 1 →
  (∀ t, is_Some (ioDone s' !! t) → is_Some (ioDone s !! t) ∨ t ≤ currTime s' + ioTime cfg) → ran s s' j.
Proof.
  intros Hx Hj Ht Hc Hio. split; [done|]. split; [|done]. intros k. unfold work. rewrite Hj. case_decide.
  - subst. by rewrite lookup_insert_eq, Hx.
  - rewrite lookup_insert_ne by done. lia.
Qed.

Lemma wp_run_job n s w q j l (Q : unit → mlfq → world → Prop) E : 0 ≤ ioTime cfg → inv cfg n (currTime s + 1) s →
  queue s !! q = Some (j :: l) → (∀ s' w', inv cfg n (currTime s') s' → ran s s' j → Q tt s' w') →
  wp (run_job cfg q) Q E s w.
Proof.
  intros Hio0 Hi Hql HQ. assert (in_queue s q j) as Hj by (eexists; split; [done|by left]).
  destruct (inv_ready _ _ _ _ _ _ Hi Hj) as (x & Hx & Hxq & Hdo & Hpos & Honly & Hno).
  assert (0 ≤ q < numQueues cfg) as Hqr by (rewrite <-Hxq; by eapply i_pri).
  unfold run_job. wp_pures. eapply wp_get_queue; [done|]. wp_pures. cbn [py_index]. unfold py_index. simpl.
  wp_pures. eapply wp_get_job; [done|]. wp_pures. rewrite Hxq, Z.eqb_refl. wp_pures.
  eapply wp_set_job; [done|]. wp_pures. eapply wp_set_job; [simpl; by rewrite lookup_insert_eq|]. wp_pures.
  eapply wp_get_job; [simpl; by rewrite lookup_insert_eq|]. wp_pures. apply wp_say. intros w1.
  set (y := if firstRun _ =? -1 then _ else _).
  assert (timeLeft y = timeLeft x - 1 ∧ currPri y = q ∧ doingIO y = false) as (Hy & Hyq & Hyd)
    by (unfold y; by case_match).
  wp_pures. destruct (Z.ltb_spec (timeLeft y) 0); [lia|]. wp_pures.
  set (s1 := _ <| currTime := _ |>).
  assert (s1 = s <| jobs := <[j := y]> (jobs s) |> <| currTime := currTime s + 1 |>) as Hs1.
  { unfold s1, update. simpl. by rewrite insert_insert_eq. }
  clearbody s1 y. subst s1. destruct (Z.eqb_spec (timeLeft y) 0) as [Hy0|Hy0]; wp_pures.
  - apply wp_say. intros w2. wp_pures. eapply wp_set_job; [simpl; by rewrite lookup_insert_eq|]. wp_pures.
    eapply wp_pop_queue; [done|]. wp_pures. rewrite Z.eqb_refl. apply HQ.
    + simpl. eapply (inv_finish n _ s _ q j l x (y <| endTime := Some (currTime s + 1) |>)); try done.
      * simpl. by rewrite insert_insert_eq.
      * simpl. congruence.
    + eapply (ran_intro _ _ _ x (y <| endTime := Some (currTime s + 1) |>)); try done; [|auto].
      simpl. by rewrite insert_insert_eq.
  - destruct ((0 <? ioFreq y) && ((runTime y - timeLeft y) mod ioFreq y =? 0)); wp_pures.
    + eapply wp_issue_io; [done..|simpl; by rewrite lookup_insert_eq|done|].
      intros s2 w2 z Hz Hzq Hj2 Hq2 Hio2 Ht2 Hf2. simpl in Hj2, Hq2, Hio2, Ht2, Hf2. rewrite insert_insert_eq in Hj2.
      assert (∀ s' w' z', accounted y z' → 0 ≤ currPri z' < numQueues cfg → jobs s' = <[j := z']> (jobs s) →
        queue s' = queue s2 → ioDone s' = ioDone s2 → currTime s' = currTime s2 → finishedJobs s' = finishedJobs s2 → Q tt s' w') as Hend.
      { intros s' w' z' [Htl _] Hp Hj' Hq' Hio' Ht' Hf'. apply HQ.
        - rewrite Ht', Ht2. eapply (inv_wait n _ s s' q j l x z'); [done..|by rewrite Hq'|by rewrite Hio'|lia|by rewrite Hf'|lia|done].
        - eapply (ran_intro _ _ _ x z'); [done..|lia|lia|]. intros t. rewrite Hio', Hio2, Ht', Ht2, lookup_insert_is_Some'.
          intros [<-|?]; [right; lia|by left]. }
      destruct (ticksLeft y =? 0); wp_pures; [|by apply (Hend _ _ z); rewrite ?Hzq].
      eapply (wp_end_slice _ _ q j l z); [done| |done|rewrite Hj2; by rewrite lookup_insert_eq|done|].
      { intros q'. rewrite Hq2, lookup_insert_is_Some', <-(i_queues _ _ _ _ Hi).
        split; [intros [<-|]; [by eexists|done]|auto]. }
      intros s3 w3 z3 Hz3 _ Hp3 Hj3 Hio3 Ht3 Hf3 Hq3. rewrite Hj2, insert_insert_eq in Hj3.
      apply (Hend _ _ z3); try done. unfold accounted in *. intuition congruence.
    + assert (∀ s' w' z', accounted y z' → doingIO z' = doingIO y → jobs s' = <[j := z']> (jobs s) →
        (queue s' = queue s ∧ currPri z' = q ∨ ∃ l', <[q := l]> (queue s) !! currPri z' = Some l' ∧
           queue s' = <[currPri z' := l' ++ [j]]> (<[q := l]> (queue s))) →
        ioDone s' = ioDone s → currTime s' = currTime s + 1 → finishedJobs s' = finishedJobs s → Q tt s' w') as Hend.
      { intros s' w' z' [Htl _] Hd Hj' Hq' Hio' Ht' Hf'. apply HQ.
        - rewrite Ht'. destruct Hq' as [[Hq' Hzq]|(l' & Hl' & Hq')].
          + eapply (inv_requeue n _ s s' q j l x z' l); [done..|rewrite Hzq; by rewrite lookup_insert_eq|by left|done|done|lia|congruence].
          + eapply (inv_requeue n _ s s' q j l x z' l'); [done..|by right|done|done|lia|congruence].
        - eapply (ran_intro _ _ _ x z'); [done..|lia|lia|]. intros t. rewrite Hio'. auto. }
      destruct (ticksLeft y =? 0); wp_pures; [|apply (Hend _ _ y); auto; done].
      eapply (wp_end_slice _ _ q j l y); [done|exact (i_queues _ _ _ _ Hi)|done|simpl; by rewrite lookup_insert_eq|done|].
      intros s3 w3 z3 Hz3 Hd3 Hp3 Hj3 Hio3 Ht3 Hf3 Hq3. simpl in Hj3. rewrite insert_insert_eq in Hj3.
      apply (Hend _ _ z3); auto; done.
Qed.
End Dispatch.

(** ** The main loop *)

Section MainLoop.
Context (cfg : config) (Hn : 0 < numQueues cfg) (Hq : has (numQueues cfg) (quantum cfg))
  (Ha : has (numQueues cfg) (allotment cfg)) (Hio0 : 0 ≤ ioTime cfg).
Implicit Types (s : mlfq) (E : exn → mlfq → world → Prop).

(** Job [j] can run at this instant: it is in a queue or joins one now. *)
Definition ready_at (s : mlfq) (j : Z) : Prop := (∃ q, in_queue s q j) ∨ pending s (currTime s) (currTime s) j.

(** The priority of a job at this instant *)
Definition level (s : mlfq) (j : Z) : Z := if boosting cfg s then hiQueue cfg else prio s j.

Definition idled (s s' : mlfq) : Prop :=
  currTime s' = currTime s + 1 ∧ (∀ k, work s' k = work s k) ∧ ioDone s' = ioDone s ∧ ∀ q j, ¬ in_queue s' q j.

Lemma boost_keeps n T s s1 : inv cfg n T s → (if boosting cfg s then boosted cfg s s1 else s1 = s) →
  currTime s1 = currTime s ∧ ioDone s1 = ioDone s ∧
  ∀ j, work s1 j = work s j ∧ (0 < work s j → prio s1 j = level s j).
Proof.
  intros Hi Hs1. unfold level. destruct (boosting cfg s); [|by subst].
  destruct Hs1 as [Hj _ _ (Hio & Ht & _)]. do 2 (split; [done|]). intros j. unfold work, prio. rewrite Hj.
  destruct (jobs s !! j) as [x|]; simpl; [|by split; [|lia]]. unfold boosted_job.
  destruct (Z.ltb_spec 0 (timeLeft x)); simpl; split; done || lia.
Qed.

Lemma ready_unfinished n s j : inv cfg n (currTime s) s → ready_at s j → 0 < work s j.
Proof.
  intros Hi Hr. destruct (proj2 (i_jobs _ _ _ _ Hi j)) as [x Hx].
  { eapply i_known; [done|]. destruct Hr; eauto. }
  unfold work. rewrite Hx. simpl. destruct (i_placed _ _ _ _ Hi j x Hx) as [? ? Hno Hnp|?|? ?]; [|done..].
  destruct Hr as [[q ?]|?]; [by destruct (Hno q)|by destruct (Hnp (currTime s))].
Qed.

Lemma wp_tick n s w (Q : unit → mlfq → world → Prop) E : 0 ≤ n → inv cfg n (currTime s) s →
  (∀ s' w', inv cfg n (currTime s') s' →
    (∃ j, ran cfg s s' j ∧ ready_at s j ∧ ∀ k, ready_at s k → level s k ≤ level s j) ∨
    (idled s s' ∧ ∀ k, ¬ ready_at s k) → Q tt s' w') →
  wp (tick cfg) Q E s w.
Proof.
  intros Hn0 Hi HQ. unfold tick. wp_pures. eapply wp_check_boost; [done..|]. intros s1 w1 Hs1 Hi1 Hin1.
  destruct (boost_keeps _ _ _ _ Hi Hs1) as (Ht1 & Hio1 & Hj1).
  wp_pures. eapply wp_check_io; [by rewrite Ht1|]. rewrite Ht1. intros s2 w2 Hi2 Ht2 Hio2 Hj2 Hin2.
  assert (∀ j, (∃ q, in_queue s2 q j) ↔ ready_at s j) as Hready.
  { intros j. rewrite Hin2, Hin1. unfold ready_at, pending. by rewrite Hio1. }
  assert (∀ j q, in_queue s2 q j → q = level s j) as Hlevel.
  { intros j q Hj. destruct (inv_ready _ _ _ _ _ _ Hi2 Hj) as (x & Hx & Hxq & _ & Hpos & _).
    destruct (Hj1 j) as [Hw1 Hp1], (Hj2 j) as [Hp2 Hw2]. rewrite <-Hp1, <-Hp2; [unfold prio; by rewrite Hx|].
    rewrite <-Hw1, <-Hw2. unfold work. by rewrite Hx. }
  wp_pures. eapply (wp_FindQueue cfg Hn); [apply (i_queues _ _ _ _ Hi2)| |].
  - intros q j l Hql Hmax. wp_pures. assert (in_queue s2 q j) as Hj by (eexists; split; [done|by left]).
    assert (q ≠ -1). { intros ->. assert (0 ≤ -1 < numQueues cfg); [|lia]. apply (i_queues _ _ _ _ Hi2). by eexists. }
    destruct (Z.eqb_spec q (-1)); [done|]. eapply (wp_run_job cfg Hq Ha n); [done|by rewrite Ht2|done|].
    intros s' w' Hi' (Ht' & Hw' & Hio'). apply HQ; [done|]. left. exists j. split_and!.
    + split_and!; [lia| |].
      * intros k. rewrite Hw'. destruct (Hj1 k) as [<- _], (Hj2 k) as [_ <-]. done.
      * intros t. rewrite <-Hio1, <-Hio2. apply Hio'.
    + apply Hready. eauto.
    + intros k [q' Hk]%Hready. rewrite <-(Hlevel _ _ Hk), <-(Hlevel _ _ Hj). eauto.
  - intros Hnone. wp_pures. simpl. wp_pures. apply wp_say. intros w3. wp_pures. apply HQ.
    + simpl. rewrite Ht2. eapply inv_pending; [done..|]. apply (i_events _ _ _ _ Hi2).
    + right. split; [|intros k [q Hk]%Hready; by eapply Hnone]. split_and!; simpl.
      * lia.
      * intros k. destruct (Hj1 k) as [<- _], (Hj2 k) as [_ <-]. done.
      * congruence.
      * done.
Qed.

(** C18: in every state that satisfies the scheduler's invariant (each
    unfinished job is in the queue of its priority or waits for exactly one
    event), one iteration of the main loop raises no exception, re-establishes
    the invariant one time unit later, and gives the tick to a job that is
    ready (queued, or arriving at this instant) and that no ready job exceeds
    in priority, priorities being those after the boost that falls on this
    instant; that job's remaining time drops by one and no other's changes;
    when no job is ready nothing runs. *)
Theorem tick_correct n s w : 0 ≤ n → inv cfg n (currTime s) s →
  wp (tick cfg) (λ _ s' _, inv cfg n (currTime s') s' ∧ currTime s' = currTime s + 1 ∧
    ((∃ j, ready_at s j ∧ (∀ k, ready_at s k → level s k ≤ level s j) ∧
       ∀ k, work s' k = work s k - (if decide (k = j) then 1 else 0)) ∨
     (∀ k, ¬ ready_at s k) ∧ ∀ k, work s' k = work s k)) noexn s w.
Proof.
  intros Hn0 Hi. eapply wp_tick; [done..|]. intros s' w' Hi' [(j & (Ht & Hw & _) & Hr & Hmax)|[(Ht & Hw & _) Hno]].
  - split_and!; [done..|]. left. exists j. done.
  - split_and!; [done..|]. by right.
Qed.

(** *** Termination *)

(** The latest instant at which an event is posted *)
Definition horizon (s : mlfq) : Z := foldr Z.max 0 (map_to_list (ioDone s)).*1.

Lemma horizon_le s b : horizon s ≤ b ↔ 0 ≤ b ∧ ∀ t, is_Some (ioDone s !! t) → t ≤ b.
Proof.
  assert (∀ l b, foldr Z.max 0 l ≤ b ↔ 0 ≤ b ∧ ∀ t : Z, t ∈ l → t ≤ b) as Hl.
  { clear. induction l as [|x l IH]; intros b; simpl.
    - split; [intros; split; [done|by intros t ?%elem_of_nil]|by intros [? _]].
    - rewrite Z.max_lub_iff, IH. setoid_rewrite elem_of_cons. naive_solver. }
  unfold horizon. rewrite Hl. apply and_iff_compat_l. split.
  - intros H t [l Ht]. apply H. apply list_elem_of_fmap. exists (t, l). split; [done|]. by apply elem_of_map_to_list.
  - intros H t ([t' l] & -> & ?%elem_of_map_to_list)%list_elem_of_fmap. apply H. by eexists.
Qed.

(** The work left, each unit of which may add an I/O, and the time to the
    last posted event *)
Definition measure (n : Z) (s : mlfq) : Z :=
  sum_of (work s) (range 0 n) * (ioTime cfg + 2) + Z.max 0 (horizon s - currTime s).

Lemma work_nonneg n T s j : inv cfg n T s → 0 ≤ work s j.
Proof.
  intros Hi. unfold work. destruct (jobs s !! j) as [x|] eqn:Hx; simpl; [|done].
  destruct (i_placed _ _ _ _ Hi j x Hx); lia.
Qed.

Lemma finished_le s j : 0 ≤ finished s j ≤ 1.
Proof. unfold finished. destruct (jobs s !! j); simpl; [case_match|]; lia. Qed.

Lemma measure_ran n s s' j : inv cfg n (currTime s) s → 0 ≤ j < n → ran cfg s s' j → 0 ≤ currTime s →
  0 ≤ measure n s' → measure n s' < measure n s.
Proof.
  intros Hi Hj (Ht & Hw & Hio) Hc _. unfold measure.
  rewrite (sum_of_update (work s) (work s') (range 0 n) j); [|apply NoDup_range|by apply elem_of_range|].
  2: { intros k Hk. rewrite Hw, decide_False by done. lia. }
  rewrite Hw, decide_True by done.
  assert (horizon s' ≤ Z.max (horizon s) (currTime s' + ioTime cfg)) as Hh.
  { apply horizon_le. destruct (proj1 (horizon_le s (horizon s)) ltac:(lia)) as [H1 H2].
    split; [lia|]. intros t [Hs|?]%Hio; [apply H2 in Hs|]; lia. }
  nia.
Qed.

Lemma finished_work n T s j : inv cfg n T s → 0 ≤ j < n → finished s j = if work s j =? 0 then 1 else 0.
Proof. intros Hi [x Hx]%(i_jobs _ _ _ _ Hi). unfold finished, work. by rewrite Hx. Qed.

Lemma measure_idled n T s s' : inv cfg n T s → inv cfg n (currTime s') s' → 0 ≤ n → finishedJobs s < n → idled s s' →
  measure n s' < measure n s.
Proof.
  intros Hi0 Hi Hn0 Hf (Ht & Hw & Hio & Hno). unfold measure. rewrite (sum_of_ext (work s') (work s)) by (intros; apply Hw).
  assert (horizon s' = horizon s) as Hh by (unfold horizon; by rewrite Hio). rewrite Hh.
  destruct (decide (currTime s' ≤ horizon s')) as [|Hlate]; [lia|]. exfalso.
  assert (∀ j, j ∈ range 0 n → finished s' j = 1) as Hall.
  { intros j Hj%elem_of_range. apply (i_jobs _ _ _ _ Hi) in Hj as [x Hx]. unfold finished. rewrite Hx. simpl.
    destruct (i_placed _ _ _ _ Hi j x Hx) as [->|? ? Hin|t0 ? ? Hp]; [done|by edestruct Hno; apply Hin|].
    destruct (proj2 (Hp t0) eq_refl) as [? (l & e & Hl & _)].
    destruct (proj1 (horizon_le s' (horizon s')) ltac:(lia)) as [_ H2]. specialize (H2 t0 ltac:(by eexists)). lia. }
  rewrite (i_finished _ _ _ _ Hi0), (sum_of_ext _ (λ _, 1)) in Hf.
  2: { intros j Hj. rewrite <-(Hall j Hj). apply elem_of_range in Hj.
       by rewrite (finished_work _ _ _ _ Hi0), (finished_work _ _ _ _ Hi), Hw. }
  rewrite sum_of_ones in Hf by done. lia.
Qed.

Lemma all_finished n T s : inv cfg n T s → n ≤ finishedJobs s → ∀ j x, jobs s !! j = Some x →
  timeLeft x = 0 ∧ is_Some (endTime x).
Proof.
  intros Hi Hf j x Hx. assert (0 ≤ j < n) as Hj by (apply (i_jobs _ _ _ _ Hi); by eexists).
  assert (finished s j ≠ 0) as Hfin.
  { intros H0. pose proof (sum_of_update (finished s) (λ k, if decide (k = j) then 1 else finished s k) (range 0 n) j) as Hsum.
    specialize (Hsum (NoDup_range _ _) (proj2 (elem_of_range _ _ _) Hj) ltac:(intros; cbv beta; by rewrite decide_False)).
    cbv beta in Hsum. rewrite decide_True in Hsum by done. rewrite (i_finished _ _ _ _ Hi) in Hf.
    pose proof (sum_of_le (λ k, if decide (k = j) then 1 else finished s k) (λ _, 1) (range 0 n)) as Hle.
    rewrite Hsum, sum_of_ones in Hle by lia. enough (sum_of (finished s) (range 0 n) - finished s j + 1 ≤ n - 0) by lia.
    apply Hle. intros k _. case_decide; [done|]. apply finished_le. }
  unfold finished in Hfin. rewrite Hx in Hfin. simpl in Hfin.
  destruct (i_placed _ _ _ _ Hi j x Hx) as [? ?|Hpos _ _ _|? Hpos _ _]; [done|..];
    (destruct (Z.eqb_spec (timeLeft x) 0); [lia|done]).
Qed.

(** From every state that satisfies the invariant the main loop ends within
    [measure] iterations, raises no exception, and leaves every job with no
    time left and its end time recorded. *)
Lemma simulate_completes n s w fuel : 0 ≤ n → 0 ≤ currTime s → inv cfg n (currTime s) s → measure n s < Z.of_nat fuel →
  wp (simulate cfg fuel) (λ _ s' _, inv cfg n (currTime s') s' ∧ finishedJobs s' = n ∧
    ∀ j, 0 ≤ j < n → ∃ x, jobs s' !! j = Some x ∧ timeLeft x = 0 ∧ is_Some (endTime x)) noexn s w.
Proof.
  intros Hn0 Hc Hi Hfuel. unfold simulate. wp_pures. rewrite (size_dict _ _ Hn0 (i_jobs _ _ _ _ Hi)).
  assert (∀ s, inv cfg n (currTime s) s → 0 ≤ measure n s) as Hmeasure.
  { intros s' Hi'. unfold measure. pose proof (sum_of_nonneg (work s') (range 0 n) (λ j _, work_nonneg _ _ _ j Hi')). nia. }
  eapply (wp_while (λ _ s _, 0 ≤ currTime s ∧ inv cfg n (currTime s) s) (λ _ s _, Z.to_nat (measure n s))).
  - done.
  - specialize (Hmeasure _ Hi). lia.
  - intros [] s1 w1 (Hc1 & Hi1). wp_pures. destruct (Z.ltb_spec (finishedJobs s1) n) as [Hlt|Hge]; wp_pures.
    + eapply wp_tick; [exact Hn0|exact Hi1|]. intros s2 w2 Hi2 Hstep. wp_pures.
      pose proof (Hmeasure _ Hi1). pose proof (Hmeasure _ Hi2).
      destruct Hstep as [(j & Hran & Hr & _)|[Hidle _]].
      * assert (0 ≤ j < n) as Hj.
        { eapply i_known; [exact Hi1|]. destruct Hr; eauto. }
        pose proof (measure_ran n s1 s2 j Hi1 Hj Hran Hc1 ltac:(done)). destruct Hran as [? _]. split; [split; [lia|done]|lia].
      * pose proof (measure_idled n _ s1 s2 Hi1 Hi2 Hn0 Hlt Hidle). destruct Hidle as [? _]. split; [split; [lia|done]|lia].
    + split; [done|]. assert (finishedJobs s1 ≤ n) as Hle.
      { rewrite (i_finished _ _ _ _ Hi1). transitivity (sum_of (λ _ : Z, 1) (range 0 n)); [|rewrite sum_of_ones; lia].
        apply sum_of_le. intros. apply finished_le. }
      split; [lia|]. intros j Hj%(i_jobs _ _ _ _ Hi1). destruct Hj as [x Hx]. exists x. split; [done|].
      by eapply all_finished.
Qed.
End MainLoop.

(** ** From the job list to the end *)

Section Setup.
Context (cfg : config).

(** The jobs before the scheduler starts: each waits for its start time. *)
Record fresh (n : Z) (s : mlfq) : Prop := {
  f_jobs : ∀ j, is_Some (jobs s !! j) ↔ 0 ≤ j < n;
  f_job : ∀ j x, jobs s !! j = Some x → currPri x = hiQueue cfg ∧ timeLeft x = runTime x;
  f_events : ∀ t l, ioDone s !! t = Some l → NoDup l.*1;
  f_due : ∀ t j, (∃ l e, ioDone s !! t = Some l ∧ (j, e) ∈ l) ↔ ∃ x, jobs s !! j = Some x ∧ startTime x = t;
  f_rest : finishedJobs s = 0 ∧ currTime s = 0;
}.

Lemma wp_add_job n start run freq s w (Q : unit → mlfq → world → Prop) E : 0 ≤ n → fresh n s →
  (∀ s' w', fresh (n + 1) s' → Q tt s' w') → (∀ e, E e s w) → wp (add_job cfg n start run freq) Q E s w.
Proof.
  intros Hn0 [H1 H2 H3 H4 H5] HQ HE. unfold add_job. wp_pures.
  destruct (quantum cfg !! hiQueue cfg) as [vq|]; wp_pures; [|done].
  destruct (allotment cfg !! hiQueue cfg) as [va|]; wp_pures; [|done]. unfold post. wp_pures. apply HQ.
  assert (∀ x, jobs s !! n ≠ Some x) as Hnew by (intros x Hx; assert (0 ≤ n < n) by (apply H1; by eexists); lia).
  split; simpl.
  - intros j. rewrite lookup_insert_is_Some', H1. lia.
  - intros j x. intros [[<- <-]|[_ Hx]]%lookup_insert_Some; [done|by eapply H2].
  - intros t l. intros [[<- <-]|[_ Hl]]%lookup_insert_Some; [|by eapply H3]. rewrite fmap_app. simpl.
    destruct (ioDone s !! start) as [ls|] eqn:Hls; simpl; [|apply NoDup_singleton].
    apply NoDup_app. split; [by eapply H3|]. split; [|apply NoDup_singleton].
    intros k ([? e] & -> & ?)%list_elem_of_fmap Hk. simpl in Hk. apply list_elem_of_singleton in Hk. subst.
    destruct (proj1 (H4 start n) ltac:(eauto)) as (x & Hx & _). by apply Hnew in Hx.
  - intros t j. transitivity ((∃ l e, ioDone s !! t = Some l ∧ (j, e) ∈ l) ∨ (t = start ∧ j = n)).
    + destruct (decide (t = start)) as [->|].
      * rewrite lookup_insert_eq. split.
        -- intros (l & e & [= <-] & [Hin|[= -> ->]%list_elem_of_singleton]%elem_of_app); [left|by right].
           destruct (ioDone s !! start); [eauto|by apply elem_of_nil in Hin].
        -- intros [(l & e & -> & ?)|[_ ->]]; eexists _, _; (split; [done|]); apply elem_of_app; [by left|right; by left].
      * rewrite lookup_insert_ne by done. naive_solver.
    + rewrite H4. destruct (decide (j = n)) as [->|].
      * rewrite lookup_insert_eq. split.
        -- intros [(x & Hx & _)|[-> _]]; [by apply Hnew in Hx|eauto].
        -- intros (x & [= <-] & <-). by right.
      * rewrite lookup_insert_ne by done. naive_solver.
  - done.
Qed.

Lemma wp_make_jobs jlist num maxlen maxio s w : fresh 0 s →
  wp (make_jobs cfg jlist num maxlen maxio) (λ n s' _, 0 ≤ n ∧ fresh n s') (λ _ _ _, True) s w.
Proof.
  intros Hs. unfold make_jobs. case_bool_decide.
  - apply (wp_for_acc (λ _ n s' _, 0 ≤ n ∧ fresh n s')); [done| |done].
    intros pre x post n s' w' _ [Hn0 Hs']. unfold add_listed, when.
    case_match; wp_pures; [done|].
    repeat (case_match; wp_pures; [|done]). unfold py_int.
    repeat (wp_pures; case_match; [|done]). wp_pures. eapply wp_add_job; [done..| |done].
    intros sn wn Hsn. wp_pures. split; [lia|done].
  - apply (wp_for_acc (λ _ n s' _, 0 ≤ n ∧ fresh n s')); [done| |done].
    intros pre x post n s' w' _ [Hn0 Hs']. unfold add_random. wp_pures. eapply wp_add_job; [done..| |done].
    intros sn wn Hsn. wp_pures. split; [lia|done].
Qed.

Definition empty_queues : gmap Z (list Z) := list_to_map ((λ q, (q, [])) <$> range 0 (numQueues cfg)).

Lemma fresh_inv n s : 0 < numQueues cfg → fresh n s →
  (∀ j x, jobs s !! j = Some x → 0 ≤ startTime x ∧ 0 < runTime x) → inv cfg n 0 (s <| queue := empty_queues |>).
Proof.
  intros Hnq [H1 H2 H3 H4 [H5 H6]] Hpos.
  assert (∀ q j, ¬ in_queue (s <| queue := empty_queues |>) q j) as Hno.
  { intros q j (l & Hl & Hj). simpl in Hl. unfold empty_queues in Hl.
    rewrite (lookup_range_dict (λ _, [])) in Hl. case_decide; simplify_eq. by apply elem_of_nil in Hj. }
  assert (∀ t j, pending (s <| queue := empty_queues |>) 0 t j ↔ ∃ x, jobs s !! j = Some x ∧ startTime x = t) as Hp.
  { intros t j. unfold pending. simpl. rewrite H4. split; [tauto|]. intros (x & Hx & <-).
    split; [|eauto]. by destruct (Hpos _ _ Hx). }
  split; simpl.
  - done.
  - intros j x Hx. destruct (H2 _ _ Hx) as [-> _]. unfold hiQueue. lia.
  - intros q. unfold empty_queues. rewrite (lookup_range_dict (λ _, [])). case_decide; [by split; [|eexists]|].
    split; [by intros [? ?]|done].
  - intros q l. unfold empty_queues. rewrite (lookup_range_dict (λ _, [])). case_decide; [|done].
    intros [= <-]. constructor.
  - intros t l _. apply H3.
  - intros j x Hx. destruct (Hpos _ _ Hx) as [Hs Hr], (H2 _ _ Hx) as [_ Ht].
    apply (placed_waiting _ _ _ _ (startTime x)); [lia|intros q; apply Hno|].
    intros t. rewrite Hp. split; [intros (y & Hy & <-); by simplify_eq|intros ->; eauto].
  - intros j [[q Hq]|[t Ht]]; [by apply Hno in Hq|]. apply Hp in Ht as (x & Hx & _). apply H1. by eexists.
  - rewrite H5. symmetry. rewrite (sum_of_ext _ (λ _, 0)).
    + apply sum_of_zero.
    + intros j [x Hx]%elem_of_range%H1. unfold finished. simpl. rewrite Hx. simpl.
      destruct (Hpos _ _ Hx), (H2 _ _ Hx) as [_ Ht]. destruct (Z.eqb_spec (timeLeft x) 0); [lia|done].
Qed.

Lemma fresh_blank : fresh 0 mlfq_blank.
Proof.
  split; simpl; try done.
  - intros j. rewrite lookup_empty. split; [by intros [? ?]|lia].
  - intros t j. split; [|naive_solver]. intros (l & e & Hl & _). by rewrite lookup_empty in Hl.
Qed.

(** C17: whatever jobs the options describe (listed or random), if none starts
    before time zero and each has some work, the scheduler started on them
    terminates: within an explicit number of iterations of the main loop, under
    any priority, I/O and boost parameters, no exception is raised and every
    job has finished. *)
Theorem schedule_completes jlist num maxlen maxio n s w w' fuel : 0 < numQueues cfg → 0 ≤ ioTime cfg →
  has (numQueues cfg) (quantum cfg) → has (numQueues cfg) (allotment cfg) →
  make_jobs cfg jlist num maxlen maxio mlfq_blank w = Ok n s w' →
  (∀ j x, jobs s !! j = Some x → 0 ≤ startTime x ∧ 0 < runTime x) → measure cfg n s < Z.of_nat fuel →
  wp (queue <~ empty_queues;; simulate cfg fuel)
    (λ _ s' _, finishedJobs s' = n ∧ ∀ j, 0 ≤ j < n → ∃ x, jobs s' !! j = Some x ∧ timeLeft x = 0 ∧ is_Some (endTime x))
    noexn s w'.
Proof.
  intros Hnq Hio Hq Ha Hmake Hpos Hfuel.
  pose proof (wp_make_jobs jlist num maxlen maxio mlfq_blank w fresh_blank) as Hwp. unfold wp in Hwp. rewrite Hmake in Hwp.
  destruct Hwp as [Hn0 Hfresh]. pose proof (fresh_inv n s Hnq Hfresh Hpos) as Hi.
  destruct (f_rest _ _ Hfresh) as [_ Ht]. wp_pures. eapply wp_conseq.
  - apply (simulate_completes cfg Hnq Hq Ha Hio n); [done|simpl; lia|by simpl; rewrite Ht|done].
  - by intros [] s1 w1 (_ & Hf & Hall).
Qed.

(** A boost raises no exception and keeps the invariant; it empties the
    lower queues behind the highest one, the lowest first and each in its
    order, and gives every unfinished job the highest priority. Its time
    slice becomes the highest queue's allotment, a number of slices, instead of
    the quantum, and its allotment stays as it was. *)
Theorem boost_correct n T s w a : 0 < numQueues cfg → has (numQueues cfg) (allotment cfg) →
  0 ≤ n → inv cfg n T s → allotment cfg !! hiQueue cfg = Some a →
  wp (do_boost cfg) (λ _ s' _, inv cfg n T s' ∧
    (∀ q, 0 ≤ q < hiQueue cfg → queue s' !! q = Some []) ∧
    queue s' !! hiQueue cfg = (λ l, l ++ lower s (hiQueue cfg)) <$> queue s !! hiQueue cfg ∧
    ∀ j x, jobs s !! j = Some x → 0 < timeLeft x →
      jobs s' !! j = Some (x <| currPri := hiQueue cfg |> <| ticksLeft := a |>)) noexn s w.
Proof.
  intros Hnq Ha Hn0 Hi Hal. eapply (wp_do_boost cfg Hnq Ha n T); [done|exact Hi|]. intros s' w' [Hj Hlow Hhigh _] Hi' _. split_and!; [done..|].
  intros j x Hx Hpos. rewrite Hj, Hx, Hal. simpl. unfold boosted_job. by destruct (Z.ltb_spec 0 (timeLeft x)); [|lia].
Qed.
End Setup.

(** ** Witnesses *)

Definition demo_config : config := Config 2 {[0 := 4; 1 := 2]} {[0 := 1; 1 := 1]} 3 5 false true.
Definition demo_rng : world := World [] (λ i, Z.of_nat (i * i) * 2 ^ 50) 0.
Definition demo_jobs : mlfq := match make_jobs demo_config "0,3,2:1,4,0" 0 0 0 mlfq_blank demo_rng with Ok _ s _ => s | _ => mlfq_blank end.
Definition demo_start : mlfq := demo_jobs <| queue := empty_queues demo_config |>.

Lemma demo_has : has (numQueues demo_config) (quantum demo_config) ∧ has (numQueues demo_config) (allotment demo_config).
Proof. split; intros i Hi; assert (i = 0 ∨ i = 1) as [->| ->] by (simpl in Hi; lia); by eexists. Qed.

Lemma demo_pos j x : jobs demo_jobs !! j = Some x → 0 ≤ startTime x ∧ 0 < runTime x.
Proof.
  intros Hx. assert (map_Forall (λ _ x, 0 ≤ startTime x ∧ 0 < runTime x) (jobs demo_jobs)) as Hall.
  { apply (bool_decide_unpack _). vm_compute. done. }
  by apply Hall in Hx.
Qed.

Lemma demo_inv : inv demo_config 2 0 demo_start.
Proof.
  apply fresh_inv; [done| |apply demo_pos].
  destruct (wp_noexn_ok (make_jobs demo_config "0,3,2:1,4,0" 0 0 0) (λ n s _, n = 2 ∧ s = demo_jobs) mlfq_blank demo_rng)
    as (n & s & w & Hrun & -> & ->); [by vm_compute|].
  pose proof (wp_make_jobs demo_config "0,3,2:1,4,0" 0 0 0 mlfq_blank demo_rng (fresh_blank _)) as Hwp.
  unfold wp in Hwp. rewrite Hrun in Hwp. apply Hwp.
Qed.

Lemma tick_correct_witness : ∃ s w, tick demo_config demo_start demo_rng = Ok tt s w ∧ inv demo_config 2 1 s ∧ work s 0 = 2.
Proof.
  pose proof (tick_correct demo_config ltac:(done) (proj1 demo_has) (proj2 demo_has) ltac:(done) 2 demo_start demo_rng
    ltac:(done) demo_inv) as Hwp.
  destruct (wp_noexn_ok _ _ _ _ Hwp) as ([] & s & w & Hrun & Hi & Ht & _). exists s, w. split; [done|].
  split; [by rewrite Ht in Hi|].
  assert (match tick demo_config demo_start demo_rng with Ok _ s _ => work s 0 = 2 | _ => False end) as H by (vm_compute; done).
  by rewrite Hrun in H.
Defined.

Lemma schedule_completes_witness : ∃ w s w', make_jobs demo_config "0,3,2:1,4,0" 0 0 0 mlfq_blank demo_rng = Ok 2 demo_jobs w ∧
  (queue <~ empty_queues demo_config;; simulate demo_config 60) demo_jobs w = Ok tt s w' ∧
  finishedJobs s = 2.
Proof.
  assert (∃ w, make_jobs demo_config "0,3,2:1,4,0" 0 0 0 mlfq_blank demo_rng = Ok 2 demo_jobs w) as [w Hmake]
    by (eexists; vm_compute; reflexivity).
  pose proof (schedule_completes demo_config "0,3,2:1,4,0" 0 0 0 2 demo_jobs demo_rng w 60 ltac:(done) ltac:(done)
    (proj1 demo_has) (proj2 demo_has) Hmake demo_pos ltac:(vm_compute; done)) as Hwp.
  destruct (wp_noexn_ok _ _ _ _ Hwp) as ([] & s & w' & Hrun & Hf & _).
  exists w, s, w'. split; [exact Hmake|]. split; [exact Hrun|exact Hf].
Defined.

Lemma boost_correct_witness : ∃ s w, do_boost demo_config demo_start demo_rng = Ok tt s w ∧
  (ticksLeft <$> jobs s !! 0) = Some 1 ∧ quantum demo_config !! 1 = Some 2.
Proof.
  pose proof (boost_correct demo_config 2 0 demo_start demo_rng 1 ltac:(done) (proj2 demo_has) ltac:(done) demo_inv
    ltac:(done)) as Hwp.
  destruct (wp_noexn_ok _ _ _ _ Hwp) as ([] & s & w & Hrun & _ & _ & _ & Hj). exists s, w. split; [exact Hrun|].
  split; [|done]. destruct (jobs demo_start !! 0) as [x|] eqn:Hx; [|vm_compute in Hx; done].
  rewrite (Hj 0 x Hx); [done|]. revert Hx. vm_compute. by intros [= <-].
Defined.
