(* ===== verification/Lottery.v ===== *)
(** * The lottery scheduler: [cpu-sched-lottery/lottery.py]

    Jobs hold tickets; each quantum goes to the job that holds a ticket drawn
    at random. *)
From S2P Require Import Prelude PyStr PyRandom.
Open Scope Z_scope.

(** ** The program *)

Record lottery := Lottery {
  tickTotal : Z;
  runTotal : Z;
  joblist : list (Z * Z * Z);
}.

#[export] Instance lottery_settable : Settable lottery := λ s, Lottery (tickTotal s) (runTotal s) (joblist s).

Definition lottery_blank : lottery := Lottery 0 0 [].

(** [while x == 0: x = int(n * random.random())] *)
Definition draw_nonzero {S} (fuel : nat) (n : Z) : M S Z :=
  while_ fuel 0 (λ x, if x =? 0 then x ← rand_int n; mret (inl x) else mret (inr x)).

Definition add_job (jobnum runtime tickets : Z) : M lottery unit :=
  modify (λ s, s <| joblist ::= (.++ [(jobnum, runtime, tickets)]) |> <| runTotal ::= λ n, n + runtime |> <| tickTotal ::= λ n, n + tickets |>).

Definition job_line (j : Z * Z * Z) : string :=
  "  Job " +:+ str_of_Z j.1.1 +:+ " ( length = " +:+ str_of_Z j.1.2 +:+ ", tickets = " +:+ str_of_Z j.2 +:+ " )".

Definition random_job (fuel : nat) (maxlen maxticket jobnum : Z) : M lottery unit :=
  runtime ← draw_nonzero fuel maxlen;
  tickets ← draw_nonzero fuel maxticket;
  add_job jobnum runtime tickets;;
  print (job_line (jobnum, runtime, tickets)).

Definition listed_job (jobnum : Z) (entry : string) : M lottery Z :=
  match split_on ":" entry with
  | [x; y] => runtime ← py_int x; tickets ← py_int y; add_job jobnum runtime tickets;; mret (jobnum + 1)
  | _ => raise ValueError
  end.

Definition make_jobs (fuel : nat) (jlist : string) (jobs maxlen maxticket : Z) : M lottery unit :=
  (if bool_decide (jlist = "") then for_ (range 0 jobs) (random_job fuel maxlen maxticket)
   else for_acc (split_on "," jlist) 0 listed_job;;
        s ← get; for_ (joblist s) (λ j, print (job_line j)));;
  print nl.

(** The random numbers of the run, for the exercise without solution *)
Definition print_randoms : M lottery unit :=
  s ← get;
  for_ (range 0 (runTotal s)) (λ _, r ← rand_int 1000001; print ("Random " +:+ str_of_Z r)).

(** The job that holds the winning ticket, with [current] tickets before the
    list; without one, [won] stays. *)
Fixpoint find_winner (winner current : Z) (won : option (Z * Z * Z)) (l : list (Z * Z * Z)) : option (Z * Z * Z) :=
  match l with
  | [] => won
  | (job, runtime, tickets) :: l =>
      if winner <? current + tickets then Some (job, runtime, tickets)
      else find_winner winner (current + tickets) won l
  end.

Definition print_jobs (wjob : Z) : M lottery unit :=
  print "  Jobs:";;
  s ← get;
  for_ (joblist s) (λ (j : Z * Z * Z),
    let '(job, runtime, tickets) := j in
    put_str (" (" +:+ (if wjob =? job then "*" else " ") +:+ " job:" +:+ str_of_Z job +:+ " timeleft:" +:+ str_of_Z runtime +:+
             " tix:" +:+ (if 0 <? runtime then str_of_Z tickets else "---") +:+ " ) "));;
  print "".

(** One quantum: the draw, the winner and the accounting.  The locals are the
    number of unfinished jobs, the clock and the last winner's data. *)
Definition quantum_step (quantum : Z) (loc : Z * Z * option (Z * Z * Z)) (i : Z) :
    M lottery (Z * Z * option (Z * Z * Z) + unit) :=
  let '(jobs, clock, won) := loc in
  r ← rand_int 1000001;
  s ← get;
  winner ← py_mod r (tickTotal s);
  w ← of_option NameError (find_winner winner 0 won (joblist s));
  let '(wjob, wrun, wtix) := w in
  print ("Random " +:+ str_of_Z r +:+ " -> Winning ticket " +:+ str_of_Z winner +:+ " (of " +:+ str_of_Z (tickTotal s) +:+
         ") -> Run " +:+ str_of_Z wjob);;
  print_jobs wjob;;
  let wrun := if quantum <=? wrun then wrun - quantum else 0 in
  let clock := clock + quantum in
  when (wrun =? 0)
    (print ("--> JOB " +:+ str_of_Z wjob +:+ " DONE at time " +:+ str_of_Z clock);; modify (λ s, s <| tickTotal ::= λ n, n - wtix |>));;
  let '(wtix, jobs) := if wrun =? 0 then (0, jobs - 1) else (wtix, jobs) in
  l ← list_set (joblist s) wjob (wjob, wrun, wtix);
  joblist <~ l;;
  if jobs =? 0 then print "";; mret (inr tt) else mret (inl (jobs, clock, Some (wjob, wrun, wtix))).

Definition solve (quantum : Z) : M lottery unit :=
  print ("** Solutions **" +:+ nl);;
  s ← get;
  for_ret (range 0 (runTotal s)) (len (joblist s), 0, None) (quantum_step quantum);;
  mret tt.

Definition main (fuel : nat) (jlist : string) (jobs maxlen maxticket quantum : Z) (solution : bool) : M lottery unit :=
  print "Here is the job list, with the run time of each job: ";;
  make_jobs fuel jlist jobs maxlen maxticket;;
  if solution then solve quantum else print_randoms.

(** ** Well-formed job lists *)

Definition runtime_of (j : Z * Z * Z) : Z := j.1.2.
Definition tickets_of (j : Z * Z * Z) : Z := j.2.
Definition alive (j : Z * Z * Z) : Z := if runtime_of j =? 0 then 0 else 1.

Lemma alive_eq k r x : alive (k, r, x) = if r =? 0 then 0 else 1.
Proof. done. Qed.

(** A job has tickets while it has work left. *)
Definition job_ok (j : Z * Z * Z) : Prop :=
  0 < runtime_of j ∧ 0 < tickets_of j ∨ runtime_of j = 0 ∧ tickets_of j = 0.

(** Job numbers are positions, and the total is the number of tickets held. *)
Record inv (s : lottery) : Prop := {
  i_numbers : ∀ (i : nat) j, joblist s !! i = Some j → j.1.1 = Z.of_nat i;
  i_jobs : Forall job_ok (joblist s);
  i_total : tickTotal s = sum_of tickets_of (joblist s);
}.

(** The tickets before position [i] *)
Definition before (l : list (Z * Z * Z)) (i : nat) : Z := sum_of tickets_of (take i l).

Lemma find_winner_in l won c t : Forall job_ok l → c ≤ t < c + sum_of tickets_of l →
  ∃ (i : nat) j, l !! i = Some j ∧ find_winner t c won l = Some j ∧ c + before l i ≤ t < c + before l i + tickets_of j.
Proof.
  intros Hl. revert c. induction Hl as [|[[k r] x] l Hj Hl IH]; intros c Hc; [simpl in Hc; lia|].
  change (sum_of tickets_of ((k, r, x) :: l)) with (x + sum_of tickets_of l) in Hc. simpl. destruct (Z.ltb_spec t (c + x)).
  - exists 0%nat, (k, r, x). unfold before. simpl. split_and!; [done..|lia|unfold tickets_of; simpl; lia].
  - destruct (IH (c + x)) as (i & j & Hi & Hgo & Hb); [lia|]. exists (S i), j.
    assert (before ((k, r, x) :: l) (S i) = x + before l i) as -> by done. split_and!; [done..|lia|lia].
Qed.

Lemma before_mono l i j x : Forall job_ok l → (i < j)%nat → l !! i = Some x → before l i + tickets_of x ≤ before l j.
Proof.
  intros Hl Hij Hx. assert (before l (S i) = before l i + tickets_of x) as <-.
  { unfold before. rewrite (take_S_r _ _ _ Hx), sum_of_app. simpl. lia. }
  unfold before. replace (take j l) with (take (S i) l ++ drop (S i) (take j l)).
  2: { rewrite <-(take_drop (S i) (take j l)) at 2. by rewrite take_take, Nat.min_l by lia. }
  rewrite sum_of_app. enough (0 ≤ sum_of tickets_of (drop (S i) (take j l))) by lia. apply sum_of_nonneg. intros y Hy.
  rewrite Forall_forall in Hl. assert (y ∈ l) as [[??]|[??]]%Hl; [|lia..].
  apply list_elem_of_lookup in Hy as [k Hk]. rewrite lookup_drop in Hk. apply lookup_take_Some in Hk as [Hk _].
  by eapply list_elem_of_lookup_2.
Qed.

(** C19: the draw is fair: the tickets [0 ... total - 1] are divided among the
    jobs, each unfinished job winning on an interval as long as the tickets it
    holds, and every ticket is won by an unfinished job. *)
Theorem draw_is_fair s won (i : nat) j t : inv s → joblist s !! i = Some j → 0 ≤ t < tickTotal s →
  (find_winner t 0 won (joblist s) = Some j ↔ before (joblist s) i ≤ t < before (joblist s) i + tickets_of j) ∧
  ∃ j', find_winner t 0 won (joblist s) = Some j' ∧ 0 < runtime_of j'.
Proof.
  intros [Hnum Hok Htot] Hj Ht. rewrite Htot in Ht.
  destruct (find_winner_in _ won 0 t Hok Ht) as (k & x & Hx & -> & Hb).
  assert (job_ok x) as Hxok by (by eapply Forall_lookup_1 in Hok). split.
  - split; [intros [= ->]|intros Hbi].
    + assert (k = i) as -> by (apply Hnum in Hj, Hx; lia). lia.
    + destruct (decide (k = i)) as [->|]; [congruence|]. exfalso.
      destruct (decide (k < i)%nat); [pose proof (before_mono _ _ _ _ Hok ltac:(done) Hx)|
        pose proof (before_mono _ i k _ Hok ltac:(lia) Hj)]; lia.
  - exists x. split; [done|]. destruct Hxok as [[? _]|[_ ?]]; lia.
Qed.

(** ** A run of the scheduler *)

Lemma alive_pos l : Forall job_ok l → 0 < sum_of alive l → 0 < sum_of tickets_of l.
Proof.
  induction 1 as [|j l Hj Hl IH]; [done|]. rewrite !sum_of_cons. intros Ha.
  assert (0 ≤ sum_of tickets_of l).
  { apply sum_of_nonneg. intros x Hx. rewrite Forall_forall in Hl. destruct (Hl x Hx) as [[??]|[??]]; lia. }
  destruct Hj as [[? ?]|[Hr ?]]; [lia|]. unfold alive at 1 in Ha. rewrite Hr in Ha. simpl in Ha. lia.
Qed.

Section Run.
Context (quantum : Z) (Hquantum : 1 ≤ quantum).
Implicit Types (s : lottery) (E : exn → lottery → world → Prop).

(** What a quantum does: one unfinished job has run. *)
Record stepped s s' : Prop := {
  st_inv : inv s';
  st_alive : sum_of alive (joblist s') ≤ sum_of alive (joblist s);
  st_work : sum_of runtime_of (joblist s') < sum_of runtime_of (joblist s);
  st_rest : length (joblist s') = length (joblist s) ∧ runTotal s' = runTotal s;
}.

Lemma wp_print_jobs wjob s w (Q : unit → lottery → world → Prop) E : rng_ok w →
  (∀ w', rng_ok w' → Q tt s w') → wp (print_jobs wjob) Q E s w.
Proof.
  intros Hw HQ. unfold print_jobs. wp_pures. apply (wp_for (λ _ s' w', s' = s ∧ rng_ok w')).
  - by split.
  - intros pre [[j r] x] post s' w' _ [-> ?]. by wp_pures.
  - intros s' w' [-> ?]. wp_pures. by apply HQ.
Qed.

Lemma run_job_inv s (i : nat) wrun wtix : inv s → joblist s !! i = Some (Z.of_nat i, wrun, wtix) → 0 < wrun →
  let wrun' := if quantum <=? wrun then wrun - quantum else 0 in
  let wtix' := if wrun' =? 0 then 0 else wtix in
  ∀ s', joblist s' = <[i := (Z.of_nat i, wrun', wtix')]> (joblist s) → tickTotal s' = tickTotal s - wtix + wtix' →
  runTotal s' = runTotal s →
  stepped s s' ∧ sum_of alive (joblist s') = sum_of alive (joblist s) - (if wrun' =? 0 then 1 else 0).
Proof.
  intros [Hnum Hok Htot] Hi Hrun wrun' wtix' s' Hs' Ht' Hr'.
  assert (0 ≤ wrun' < wrun) as Hrun' by (unfold wrun'; destruct (Z.leb_spec quantum wrun); lia).
  assert (job_ok (Z.of_nat i, wrun, wtix)) as Hj by (by eapply Forall_lookup_1 in Hok).
  assert (0 < wtix) as Hx by (destruct Hj as [[? ?]|[? ?]]; unfold runtime_of, tickets_of in *; simpl in *; lia).
  assert (sum_of alive (joblist s') = sum_of alive (joblist s) - (if wrun' =? 0 then 1 else 0)) as Ha.
  { rewrite Hs', (sum_of_list_update _ _ _ _ _ Hi), !alive_eq.
    destruct (Z.eqb_spec wrun 0), (Z.eqb_spec wrun' 0); lia. }
  split; [|done]. split; [split| | |].
  - rewrite Hs'. intros k j. rewrite list_lookup_insert_Some. intros [(-> & <- & _)|[_ ?]]; [done|by apply Hnum].
  - rewrite Hs'. apply Forall_insert; [done|]. unfold job_ok, runtime_of, tickets_of, wtix'. simpl.
    destruct (Z.eqb_spec wrun' 0); [by right|left; lia].
  - rewrite Ht', Hs', (sum_of_list_update _ _ _ _ _ Hi), Htot. done.
  - rewrite Ha. case_match; lia.
  - rewrite Hs', (sum_of_list_update _ _ _ _ _ Hi).
    change (runtime_of (Z.of_nat i, wrun, wtix)) with wrun. change (runtime_of (Z.of_nat i, wrun', wtix')) with wrun'. lia.
  - by rewrite Hs', length_insert.
Qed.

Lemma wp_quantum_step s w clock won i (Q : Z * Z * option (Z * Z * Z) + unit → lottery → world → Prop) E :
  inv s → rng_ok w → 0 < sum_of alive (joblist s) →
  (∀ c o s' w', stepped s s' → rng_ok w' →
     Q (if sum_of alive (joblist s') =? 0 then inr tt else inl (sum_of alive (joblist s'), c, o)) s' w') →
  wp (quantum_step quantum (sum_of alive (joblist s), clock, won) i) Q E s w.
Proof.
  intros Hi Hw Ha HQ. pose proof (alive_pos _ (i_jobs _ Hi) Ha) as Htot. rewrite <-(i_total _ Hi) in Htot.
  unfold quantum_step. wp_pures. apply wp_rand_int; [lia|done|]. intros r w1 _ Hw1 _. wp_pures.
  unfold py_mod. destruct (Z.eqb_spec (tickTotal s) 0); [lia|]. wp_pures.
  assert (0 ≤ r mod tickTotal s < 0 + sum_of tickets_of (joblist s)) as Hmod.
  { rewrite <-(i_total _ Hi). by apply Z.mod_pos_bound. }
  destruct (find_winner_in _ won 0 _ (i_jobs _ Hi) Hmod) as (k & [[wj wrun] wtix] & Hk & -> & Hb). wp_pures.
  assert (wj = Z.of_nat k) as -> by by apply (i_numbers _ Hi) in Hk.
  assert (0 < wrun) as Hrun.
  { assert (job_ok (Z.of_nat k, wrun, wtix)) as [[? _]|[_ Hx]] by (by eapply Forall_lookup_1 in Hk; [|apply Hi]);
      [done|]. rewrite Hx in Hb. lia. }
  wp_pures. apply wp_print_jobs; [done|]. intros w2 Hw2.
  pose proof (run_job_inv s k wrun wtix Hi Hk Hrun) as Hstep. cbv zeta in Hstep.
  set (wrun' := if quantum <=? wrun then wrun - quantum else 0) in *.
  assert (k < length (joblist s))%nat as Hlt by by eapply lookup_lt_Some.
  wp_pures. destruct (Z.eqb_spec wrun' 0) as [H0|H0]; wp_pures; rewrite py_set_nat by done; wp_pures.
  - destruct (Hstep (s <| tickTotal ::= λ n, n - wtix |> <| joblist := <[k := (Z.of_nat k, wrun', 0)]> (joblist s) |>))
      as [Hst Hal]; [done|simpl; lia|done|]. rewrite <-Hal. pose proof (λ w, HQ (clock + quantum) (Some (Z.of_nat k, wrun', 0)) _ w Hst) as Hnext.
    case_match; wp_pures; by apply Hnext.
  - destruct (Hstep (s <| joblist := <[k := (Z.of_nat k, wrun', wtix)]> (joblist s) |>)) as [Hst Hal]; [done|simpl; lia|done|].
    rewrite Z.sub_0_r in Hal. rewrite <-Hal. pose proof (λ w, HQ (clock + quantum) (Some (Z.of_nat k, wrun', wtix)) _ w Hst) as Hnext.
    case_match; wp_pures; by apply Hnext.
Qed.

Lemma sum_alive_0 l : Forall job_ok l → sum_of alive l = 0 → Forall (λ j, runtime_of j = 0) l.
Proof.
  induction 1 as [|j l Hj Hl IH]; intros Ha; [constructor|]. rewrite sum_of_cons in Ha.
  assert (0 ≤ sum_of alive l) by (apply sum_of_nonneg; intros x _; unfold alive; case_match; lia).
  unfold alive at 1 in Ha. destruct (Z.eqb_spec (runtime_of j) 0); [|lia]. constructor; [done|]. apply IH. lia.
Qed.

Lemma alive_le_runtime l : Forall job_ok l → sum_of alive l ≤ sum_of runtime_of l.
Proof.
  intros Hl. apply sum_of_le. intros j Hj. rewrite Forall_forall in Hl. unfold alive.
  destruct (Hl j Hj) as [[? _]|[-> _]]; [case_match|]; simpl; lia.
Qed.

Lemma alive_all l : Forall (λ j, 0 < runtime_of j) l → sum_of alive l = len l.
Proof.
  unfold len. induction 1 as [|j l Hj Hl IH]; [done|]. rewrite sum_of_cons, IH. simpl. unfold alive.
  destruct (Z.eqb_spec (runtime_of j) 0); lia.
Qed.

Lemma wp_solve s w : inv s → rng_ok w → Forall (λ j, 0 < runtime_of j) (joblist s) →
  runTotal s = sum_of runtime_of (joblist s) →
  wp (solve quantum) (λ _ s' _, inv s' ∧ length (joblist s') = length (joblist s) ∧
    Forall (λ j, runtime_of j = 0) (joblist s')) noexn s w.
Proof.
  intros Hi Hw Hpos Hrt. unfold solve. wp_pures. rewrite <-(alive_all _ Hpos).
  destruct (joblist s) as [|j0 l0] eqn:Hl0.
  { rewrite Hrt. simpl. wp_pures. rewrite Hl0. done. }
  rewrite <-Hl0 in *. set (N := runTotal s) in *.
  apply (wp_for_ret (λ pre (loc : Z * Z * option (Z * Z * Z)) s' w', loc.1.1 = sum_of alive (joblist s') ∧ inv s' ∧ rng_ok w' ∧
    length (joblist s') = length (joblist s) ∧ 0 < sum_of alive (joblist s') ∧
    sum_of runtime_of (joblist s') + len pre ≤ N)).
  - split_and!; [done..| |].
    + rewrite alive_all by done. rewrite Hl0. unfold len. simpl. lia.
    + unfold len. simpl. lia.
  - intros pre i post [[jobs clock] won] s' w' _ (Hjobs & Hi' & Hw' & Hlen & Ha & Hwork). simpl in Hjobs. subst jobs.
    apply wp_quantum_step; [done..|]. intros c o s2 w2 [Hi2 Ha2 Hw2 [Hl2 _]] Hrng2.
    assert (0 ≤ sum_of alive (joblist s2)) by (apply sum_of_nonneg; intros x _; unfold alive; case_match; lia).
    destruct (Z.eqb_spec (sum_of alive (joblist s2)) 0) as [H0|H0]; wp_pures.
    + split_and!; [done|congruence|]. by apply sum_alive_0; [apply i_jobs|].
    + simpl. split_and!; [done..|congruence|lia|]. unfold len in *. rewrite length_app. simpl. lia.
  - intros [[jobs clock] won] s' w' (_ & Hi' & _ & _ & Ha & Hwork). exfalso.
    pose proof (alive_le_runtime _ (i_jobs _ Hi')). unfold len in Hwork. rewrite length_range in Hwork. lia.
Qed.
End Run.

(** ** From the job list on *)

(** The job list as it is built *)
Record built (n : Z) (s : lottery) : Prop := {
  b_len : len (joblist s) = n;
  b_numbers : ∀ (i : nat) j, joblist s !! i = Some j → j.1.1 = Z.of_nat i;
  b_tickets : tickTotal s = sum_of tickets_of (joblist s);
  b_runtimes : runTotal s = sum_of runtime_of (joblist s);
}.

Lemma add_job_built n runtime tickets s w s' w' : built n s →
  add_job n runtime tickets s w = Ok tt s' w' → built (n + 1) s'.
Proof.
  intros [H1 H2 H3 H4] [= <- <-]. split; unfold update; simpl.
  - unfold len in *. rewrite length_app. simpl. lia.
  - intros i j [?|[? Hj]]%lookup_app_Some; [by apply H2|]. apply list_lookup_singleton_Some in Hj as [Hi <-].
    simpl. unfold len in H1. lia.
  - rewrite sum_of_app, H3, sum_of_cons. change (tickets_of (n, runtime, tickets)) with tickets. simpl. lia.
  - rewrite sum_of_app, H4, sum_of_cons. change (runtime_of (n, runtime, tickets)) with runtime. simpl. lia.
Qed.

Lemma listed_built l n s w n' s' w' : built n s → for_acc l n listed_job s w = Ok n' s' w' → built n' s'.
Proof.
  revert n s w. induction l as [|e l IH]; intros n s w Hb Hrun; [by injection Hrun as <- <- <-|]. simpl in Hrun.
  apply bind_Ok in Hrun as (n1 & s1 & w1 & Hjob & Hrun). eapply IH; [|done]. unfold listed_job in Hjob.
  destruct (split_on ":" e) as [|x [|y [|]]]; [discriminate..| |discriminate].
  apply bind_Ok in Hjob as (r & s2 & w2 & Hr & Hjob). apply bind_Ok in Hjob as (k & s3 & w3 & Hk & Hjob).
  apply bind_Ok in Hjob as ([] & s4 & w4 & Hadd & [= <- <- <-]). eapply add_job_built; [|done].
  assert (∀ x r (s : lottery) w s' w', py_int x s w = Ok r s' w' → s' = s ∧ w' = w) as Hint.
  { clear. intros x r s w s' w'. unfold py_int. destruct (int_of_str x); [|discriminate]. by intros [= _ <- <-]. }
  apply Hint in Hr as [-> ->], Hk as [-> ->]. exact Hb.
Qed.

#[local] Instance eq_preorder {S} : PreOrder (@eq S).
Proof. split; repeat intro; congruence. Qed.

Lemma random_built l n fuel maxlen maxticket s w s' w' : built n s → l = range n (n + len l) →
  for_ l (random_job fuel maxlen maxticket) s w = Ok tt s' w' → built (n + len l) s'.
Proof.
  revert n s w. induction l as [|e l IH]; intros n s w Hb Hl Hrun.
  { injection Hrun as <- <-. unfold len. simpl. by rewrite Z.add_0_r. }
  assert (len (e :: l) = len l + 1) as Hlen by (unfold len; simpl; lia). rewrite Hlen in *.
  assert (0 ≤ len l) by (unfold len; lia).
  rewrite range_cons in Hl by lia. injection Hl as -> Hl. simpl in Hrun.
  apply bind_Ok in Hrun as ([] & s1 & w1 & Hjob & Hrun).
  replace (n + (len l + 1)) with (n + 1 + len l) in * by lia. eapply IH; [|done|done].
  assert (∀ m, keeps (=@{lottery}) (draw_nonzero fuel m)) as Hdraw by (intros m; unfold draw_nonzero, rand_int; keeps_solve).
  unfold random_job in Hjob. apply bind_Ok in Hjob as (r & s2 & w2 & Hr & Hjob).
  apply bind_Ok in Hjob as (k & s3 & w3 & Hk & Hjob). apply bind_Ok in Hjob as ([] & s4 & w4 & Hadd & [= <- <-]).
  pose proof (Hdraw maxlen s w) as H1. rewrite Hr in H1. pose proof (Hdraw maxticket s2 w2) as H2. rewrite Hk in H2.
  subst. by eapply add_job_built.
Qed.

Lemma make_jobs_built fuel jlist jobs maxlen maxticket w s w' :
  make_jobs fuel jlist jobs maxlen maxticket lottery_blank w = Ok tt s w' → built (len (joblist s)) s.
Proof.
  intros Hrun. assert (built 0 lottery_blank) as H0 by by split.
  enough (∃ n, built n s) as [n Hb] by (by rewrite (b_len _ _ Hb)).
  unfold make_jobs in Hrun. apply bind_Ok in Hrun as ([] & s1 & w1 & Hrun & [= <- <-]). case_bool_decide.
  - eexists. eapply random_built; [done| |done]. unfold len. rewrite length_range.
    destruct (decide (0 ≤ jobs)); [f_equal; lia|]. by rewrite !range_nil by lia.
  - apply bind_Ok in Hrun as (n & s2 & w2 & Hl & Hrun). exists n. apply bind_Ok in Hrun as (s3 & s4 & w3 & [= <- <- <-] & Hrun).
    assert (keeps (=@{lottery}) (for_ (joblist s2) (λ j, print (job_line j)))) as Hk by (unfold print; keeps_solve).
    specialize (Hk s2 w2). rewrite Hrun in Hk. subst. by eapply listed_built.
Qed.

(** A finished job holds no tickets. *)
Lemma finished_tickets s : inv s → Forall (λ j, runtime_of j = 0) (joblist s) → Forall (λ j, runtime_of j = 0 ∧ tickets_of j = 0) (joblist s).
Proof.
  intros Hi. rewrite !Forall_forall. intros Hall j Hj. pose proof (i_jobs _ Hi) as Hok. rewrite Forall_forall in Hok.
  specialize (Hall _ Hj). destruct (Hok _ Hj); lia.
Qed.

Lemma finished_total l : Forall job_ok l → Forall (λ j, runtime_of j = 0) l → sum_of tickets_of l = 0.
Proof.
  intros Hok. induction Hok as [|j l Hj Hok IH]; intros Hall; [done|]. apply Forall_cons in Hall as [H0 Hall].
  rewrite sum_of_cons, IH by done. destruct Hj; lia.
Qed.

(** C20: the lottery ends: for any listed or random jobs, each with work to do
    and tickets, any quantum and any draws, the program raises no exception
    and within as many quanta as it draws numbers for, every job has used up
    its run time and given up its tickets, and no ticket is left in the total. *)
Theorem lottery_completes fuel jlist jobs maxlen maxticket quantum w s w' : 1 ≤ quantum →
  make_jobs fuel jlist jobs maxlen maxticket lottery_blank w = Ok tt s w' → rng_ok w' →
  Forall (λ j, 0 < runtime_of j ∧ 0 < tickets_of j) (joblist s) →
  wp (solve quantum) (λ _ s' _, length (joblist s') = length (joblist s) ∧
    Forall (λ j, runtime_of j = 0 ∧ tickets_of j = 0) (joblist s') ∧ tickTotal s' = 0) noexn s w'.
Proof.
  intros Hq Hmake Hw Hpos. destruct (make_jobs_built _ _ _ _ _ _ _ _ Hmake) as [_ H2 H3 H4].
  eapply wp_conseq.
  - apply wp_solve; [done| |done| |done].
    + split; [done| |done]. eapply Forall_impl; [done|]. intros j ?. by left.
    + eapply Forall_impl; [done|]. by intros j [? _].
  - intros [] s1 w1 (Hi & Hl & Hall). split_and!; [done|by apply finished_tickets|].
    rewrite (i_total _ Hi). by apply finished_total; [apply i_jobs|].
Qed.

(** ** Witnesses *)

Definition demo_jobs : lottery :=
  match make_jobs 0 "2:10,3:5" 0 0 0 lottery_blank (world_of [70; 10; 90; 20; 50]) with Ok _ s _ => s | _ => lottery_blank end.

Lemma lottery_completes_witness : ∃ w s w', make_jobs 0 "2:10,3:5" 0 0 0 lottery_blank (world_of [70; 10; 90; 20; 50]) = Ok tt demo_jobs w ∧
  solve 1 demo_jobs w = Ok tt s w' ∧ Forall (λ j, runtime_of j = 0 ∧ tickets_of j = 0) (joblist s).
Proof.
  assert (∃ w, make_jobs 0 "2:10,3:5" 0 0 0 lottery_blank (world_of [70; 10; 90; 20; 50]) = Ok tt demo_jobs w ∧
    rng w = rng (world_of [70; 10; 90; 20; 50])) as (w & Hmake & Hrng) by (eexists; split; [vm_compute; reflexivity|reflexivity]).
  assert (rng_ok w) as Hw.
  { intros n. rewrite Hrng. apply world_of_ok. apply (bool_decide_unpack _). vm_compute. done. }
  assert (Forall (λ j, 0 < runtime_of j ∧ 0 < tickets_of j) (joblist demo_jobs)) as Hpos
    by (apply (bool_decide_unpack _); vm_compute; done).
  pose proof (lottery_completes 0 "2:10,3:5" 0 0 0 1 _ _ _ ltac:(lia) Hmake Hw Hpos) as Hwp.
  destruct (wp_noexn_ok _ _ _ _ Hwp) as ([] & s & w' & Hrun & _ & Hall & _).
  exists w, s, w'. split; [exact Hmake|]. split; [exact Hrun|exact Hall].
Defined.

Lemma draw_is_fair_witness : ∃ j, find_winner 12 0 None (joblist demo_jobs) = Some j ∧ 0 < runtime_of j ∧ j.1.1 = 1.
Proof.
  assert (inv demo_jobs) as Hi.
  { split; [|by repeat (constructor; [left; vm_compute; done|])|done].
    intros [|[|i]] j; vm_compute; [by intros [= <-]..|done]. }
  destruct (draw_is_fair demo_jobs None 1 (1, 3, 5) 12 Hi eq_refl ltac:(vm_compute; split; congruence)) as [[_ H] _].
  exists (1, 3, 5). split; [|done]. apply H. vm_compute. split; congruence.
Defined.
