(* ===== verification/Multi.v ===== *)
(** * Multiprocessor scheduling: [cpu-sched-multi/multi.py]

    CPUs with caches take jobs from one queue or from a queue each, with time
    slices, affinities, and stealing between the queues. *)
From stdpp Require Import functions.
From S2P Require Import Prelude PyStr PyRandom PyFloat.
Open Scope Z_scope.

(** ** The data *)

(** [time_left] is a list so that the named tuple need not change. *)
Record job := Job {
  name : string;
  run_time : Z;
  working_set_size : Z;
  affinity : list Z;
  time_left : list Z;
}.

#[export] Instance job_settable : Settable job := λ j, Job (name j) (run_time j) (working_set_size j) (affinity j) (time_left j).

(** The options; [job_list] is the option [-L]. *)
Record config := Config {
  job_list : string;
  affinity_spec : string;
  per_cpu_queues : bool;
  peek_interval : Z;
  job_num : Z;
  max_run : Z;
  max_wset : Z;
  num_cpus : Z;
  time_slice : Z;
  random_order : bool;
  cache_size : Z;
  cache_rate_warm : Z;
  cache_warmup_time : Z;
  solve : bool;
  opt_trace : bool;
  trace_time_left : bool;
  trace_cache : bool;
  trace_sched : bool;
}.

Definition cache_rate_cold : Z := 1.

Section Multi.
Context (cfg : config).

Definition trace : bool := opt_trace cfg || trace_time_left cfg || trace_cache cfg || trace_sched cfg.

(** ** The cache

    Its methods read the scheduler's dict of jobs, passed as [jobs]. *)

Record cache := Cache {
  cache_contents : list string;
  cache_warming : list string;
  cache_warming_counter : gmap string Z;
}.

#[export] Instance cache_settable : Settable cache := λ c, Cache (cache_contents c) (cache_warming c) (cache_warming_counter c).

Definition total_working_set (jobs : gmap string job) : M cache Z :=
  s ← get;
  for_acc (cache_contents s) 0 (λ cache_sum job_name, j ← dict_get jobs job_name; mret (cache_sum + working_set_size j)).

Definition adjust_size (jobs : gmap string job) : M cache unit :=
  working_set_total ← total_working_set jobs;
  s ← get;
  while_ (S (length (cache_contents s))) working_set_total (λ working_set_total,
    if cache_size cfg <? working_set_total then
      s ← get;
      let last_entry := len (cache_contents s) - 1 in
      '(job_gone, l) ← list_pop (cache_contents s) last_entry;
      cache_contents <~ l;;
      cache_warming <~ (cache_warming s ++ [job_gone]);;
      cache_warming_counter <~ <[job_gone := cache_warmup_time cfg]> (cache_warming_counter s);;
      j ← dict_get jobs job_gone;
      mret (inl (working_set_total - working_set_size j))
    else mret (inr tt)).

Definition new_job (jobs : gmap string job) (job_name : string) : M cache unit :=
  s ← get;
  when (negb (bool_decide (job_name ∈ cache_contents s)) && negb (bool_decide (job_name ∈ cache_warming s)))
    (if cache_warmup_time cfg =? 0 then
       cache_contents <~ (job_name :: cache_contents s);;
       adjust_size jobs
     else
       cache_warming <~ (cache_warming s ++ [job_name]);;
       cache_warming_counter <~ <[job_name := cache_warmup_time cfg]> (cache_warming_counter s)).

Definition get_cache_state (job_name : string) : M cache string :=
  s ← get; mret (if bool_decide (job_name ∈ cache_contents s) then "w" else " ").

Definition get_rate (job_name : string) : M cache Z :=
  s ← get; mret (if bool_decide (job_name ∈ cache_contents s) then cache_rate_warm cfg else cache_rate_cold).

Definition update_warming (jobs : gmap string job) (job_name : string) : M cache unit :=
  s ← get;
  when (bool_decide (job_name ∈ cache_warming s))
    (counter ← dict_add (cache_warming_counter s) job_name (-1);
     cache_warming_counter <~ counter;;
     n ← dict_get counter job_name;
     when (n <=? 0)
       (l ← py_remove job_name (cache_warming s);
        cache_warming <~ l;;
        cache_contents <~ (job_name :: cache_contents s);;
        adjust_size jobs)).

(** ** The scheduler

    The run queues are list objects: [queues] holds them by number, and
    [per_cpu_sched_queue] says which one a CPU uses.  All CPUs share object 0,
    [single_sched_queue], unless there are queues per CPU. *)

Definition STATE_IDLE : Z := 1.
Definition STATE_RUNNING : Z := 2.

Record scheduler := Scheduler {
  job_name_list : list string;
  jobs : gmap string job;
  queues : gmap Z (list string);
  per_cpu_sched_queue : gmap Z Z;
  sched_state : gmap Z Z;
  sched_current : gmap Z string;
  stats_ran : gmap Z Z;
  stats_ran_warm : gmap Z Z;
  caches : gmap Z cache;
  system_time : Z;
  jobs_finished : Z;
}.

#[export] Instance scheduler_settable : Settable scheduler := λ s,
  Scheduler (job_name_list s) (jobs s) (queues s) (per_cpu_sched_queue s) (sched_state s) (sched_current s)
    (stats_ran s) (stats_ran_warm s) (caches s) (system_time s) (jobs_finished s).

Definition scheduler_blank : scheduler := Scheduler [] ∅ ∅ ∅ ∅ ∅ ∅ ∅ ∅ 0 0.

Definition single_sched_queue : Z := 0.
Definition num_jobs (s : scheduler) : Z := len (job_name_list s).

(** [self.per_cpu_sched_queue[cpu]], read and changed *)
Definition get_queue (cpu : Z) : M scheduler (list string) :=
  s ← get; q ← dict_get (per_cpu_sched_queue s) cpu; dict_get (queues s) q.
Definition set_queue (cpu : Z) (l : list string) : M scheduler unit :=
  s ← get; q ← dict_get (per_cpu_sched_queue s) cpu; queues <~ <[q := l]> (queues s).
Definition queue_append (cpu : Z) (job_name : string) : M scheduler unit :=
  l ← get_queue cpu; set_queue cpu (l ++ [job_name]).

(** A method of [self.caches[cpu]] *)
Definition on_cache {A} (cpu : Z) (m : gmap string job → M cache A) : M scheduler A :=
  s ← get; c ← dict_get (caches s) cpu;
  zoom (λ _, c) (λ c s, s <| caches ::= <[cpu := c]> |>) (m (jobs s)).

(** An empty affinity means any CPU. *)
Definition allowed (cpu : Z) (j : job) : bool := (len (affinity j) =? 0) || bool_decide (cpu ∈ affinity j).

(** *** The constructor *)

(** [int((random.random() * n) / 10.0) * 10] *)
Definition draw_ten (n : Z) : M scheduler Z :=
  k ← random;
  q ← f_div (f_mul (SpecFloat.binary_normalize 53 1024 k (-53) false) (f_of_Z n)) (f_of_Z 10);
  mret (f_trunc q * 10).

Definition random_jobs : M scheduler string :=
  for_acc (range 0 (job_num cfg)) "" (λ job_list j,
    run_time ← draw_ten (max_run cfg);
    working_set ← draw_ten (max_wset cfg);
    let entry := str_of_Z j +:+ ":" +:+ str_of_Z run_time +:+ ":" +:+ str_of_Z working_set in
    mret (if bool_decide (job_list = "") then entry else job_list +:+ "," +:+ entry)).

Definition parse_job (entry : string) : M scheduler unit :=
  match split_on ":" entry with
  | [job_name; t1; t2] =>
      run_time ← py_int t1;
      working_set_size ← py_int t2;
      s ← get;
      jobs <~ <[job_name := Job job_name run_time working_set_size [] [run_time]]> (jobs s);;
      print ("Job name:" +:+ job_name +:+ " run_time:" +:+ str_of_Z run_time +:+ " working_set_size:" +:+ str_of_Z working_set_size);;
      when (bool_decide (job_name ∈ job_name_list s)) (print ("repeated job name " +:+ job_name);; raise (SystemExit 1));;
      job_name_list <~ (job_name_list s ++ [job_name])
  | _ =>
      print ("bad job description [" +:+ entry +:+ "]: needs triple of name:runtime:working_set_size");;
      raise (SystemExit 1)
  end.

Definition parse_affinity (entry : string) : M scheduler unit :=
  match split_on ":" entry with
  | [job_name; cpus] =>
      s ← get;
      when (negb (bool_decide (job_name ∈ job_name_list s)))
        (print ("job name " +:+ job_name +:+ " in affinity list does not exist");; raise (SystemExit 1));;
      for_ (split_on "." cpus) (λ cpu,
        s ← get;
        j ← dict_get (jobs s) job_name;
        n ← py_int cpu;
        jobs <~ <[job_name := j <| affinity ::= (.++ [n]) |>]> (jobs s);;
        when ((n <? 0) || (num_cpus cfg <=? n))
          (print ("bad cpu " +:+ str_of_Z n +:+ " specified in affinity " +:+ affinity_spec cfg);; raise (SystemExit 1)))
  | _ => print ("bad affinity spec " +:+ affinity_spec cfg);; raise (SystemExit 1)
  end.

(** One pass over the CPUs, each of which takes the first job it may run *)
Definition deal_one (jobs_not_assigned : list string) (cpu : Z) : M scheduler (list string) :=
  r ← for_ret jobs_not_assigned tt (λ _ job_name,
    s ← get;
    j ← dict_get (jobs s) job_name;
    if allowed cpu j then
      queue_append cpu job_name;;
      l ← py_remove job_name jobs_not_assigned;
      mret (inr l)
    else mret (inl tt));
  mret (match r with inl _ => jobs_not_assigned | inr l => l end).

Definition deal_jobs (jobs_not_assigned : list string) : M scheduler unit :=
  while_ (S (length jobs_not_assigned)) jobs_not_assigned (λ l,
    if 0 <? len l then l ← for_acc (range 0 (num_cpus cfg)) l deal_one; mret (inl l)
    else mret (inr tt)).

(** [str] of a queue *)
Definition queue_str (l : list string) : string := list_str ((λ x, "'" +:+ x +:+ "'") <$> l).

Definition make_queues : M scheduler unit :=
  if per_cpu_queues cfg then
    for_ (range 0 (num_cpus cfg)) (λ cpu,
      modify (λ s, s <| queues ::= <[cpu := []]> |> <| per_cpu_sched_queue ::= <[cpu := cpu]> |>));;
    s ← get;
    deal_jobs (job_name_list s);;
    for_ (range 0 (num_cpus cfg)) (λ cpu,
      l ← get_queue cpu; print ("Scheduler CPU " +:+ str_of_Z cpu +:+ " queue: " +:+ queue_str l));;
    print ""
  else
    modify (λ s, s <| queues ::= <[single_sched_queue := []]> |>);;
    s ← get;
    for_ (job_name_list s) (λ job_name,
      s ← get; l ← dict_get (queues s) single_sched_queue;
      queues <~ <[single_sched_queue := l ++ [job_name]]> (queues s));;
    for_ (range 0 (num_cpus cfg)) (λ cpu,
      modify (λ s, s <| per_cpu_sched_queue ::= <[cpu := single_sched_queue]> |>));;
    s ← get; l ← dict_get (queues s) single_sched_queue;
    print ("Scheduler central queue: " +:+ queue_str l +:+ nl).

Definition parse_lists (job_list : string) : M scheduler unit :=
  for_ (split_on "," job_list) parse_job;;
  print "";;
  when (negb (bool_decide (affinity_spec cfg = ""))) (for_ (split_on "," (affinity_spec cfg)) parse_affinity).

Definition make_cpus : M scheduler unit :=
  for_ (range 0 (num_cpus cfg)) (λ cpu,
    modify (λ s, s <| sched_state ::= <[cpu := STATE_IDLE]> |> <| sched_current ::= <[cpu := ""]> |>
      <| stats_ran ::= <[cpu := 0]> |> <| stats_ran_warm ::= <[cpu := 0]> |> <| caches ::= <[cpu := Cache [] [] ∅]> |>)).

Definition scheduler_init : M scheduler unit :=
  job_list ← (if bool_decide (job_list cfg = "") then random_jobs else mret (job_list cfg));
  parse_lists job_list;;
  make_queues;;
  make_cpus.

(** *** A tick *)

Definition handle_one_interrupt (interrupt : bool) (cpu : Z) : M scheduler unit :=
  s ← get;
  st ← dict_get (sched_state s) cpu;
  when (interrupt && (st =? STATE_RUNNING))
    (sched_state <~ <[cpu := STATE_IDLE]> (sched_state s);;
     job_name ← dict_get (sched_current s) cpu;
     sched_current <~ <[cpu := ""]> (sched_current s);;
     queue_append cpu job_name).

Definition handle_interrupts : M scheduler unit :=
  s ← get;
  r ← py_mod (system_time s) (time_slice cfg);
  let interrupt := (r =? 0) && (0 <? system_time s) in
  when (interrupt && trace)
    (print (str_mul "-" (8 + 7 * num_cpus cfg - 5 + (if trace_time_left cfg then 6 * num_cpus cfg else 0) +
       (if trace_cache cfg then 8 * num_cpus cfg + num_jobs s * num_cpus cfg else 0))));;
  when trace (put_str (" " +:+ fmt_d 3 (system_time s) +:+ "   "));;
  for_ (range 0 (num_cpus cfg)) (handle_one_interrupt interrupt).

Definition get_job (cpu : Z) : M scheduler unit :=
  sched_queue ← get_queue cpu;
  for_ret (range 0 (len sched_queue)) tt (λ _ job_index,
    job_name ← list_get sched_queue job_index;
    s ← get;
    j ← dict_get (jobs s) job_name;
    if allowed cpu j then
      '(_, l) ← list_pop sched_queue job_index;
      set_queue cpu l;;
      modify (λ s, s <| sched_state ::= <[cpu := STATE_RUNNING]> |> <| sched_current ::= <[cpu := job_name]> |>);;
      on_cache cpu (λ jobs, new_job jobs job_name);;
      mret (inr tt)
    else mret (inl tt));;
  mret tt.

Definition assign_jobs : M scheduler unit :=
  cpu_list ← (if random_order cfg then shuffle (range 0 (num_cpus cfg)) else mret (range 0 (num_cpus cfg)));
  for_ cpu_list (λ cpu,
    s ← get;
    st ← dict_get (sched_state s) cpu;
    when (st =? STATE_IDLE) (get_job cpu)).

Definition print_sched_queues : M scheduler unit :=
  when (trace_sched cfg)
    (if per_cpu_queues cfg then
       for_ (range 0 (num_cpus cfg)) (λ cpu,
         put_str ("Q" +:+ str_of_Z cpu +:+ ": ");;
         l ← get_queue cpu;
         for_ l (λ job_name, put_str (job_name +:+ " "));;
         put_str "  ");;
       put_str "    "
     else
       put_str "Q: ";;
       s ← get; l ← dict_get (queues s) single_sched_queue;
       for_ l (λ job_name, put_str (job_name +:+ " "));;
       put_str "    ").

(** [cpu in self.jobs[job_name]]: whether a field of the tuple is the number;
    the name and the two lists never are *)
Definition int_in_job (cpu : Z) (j : job) : bool := (run_time j =? cpu) || (working_set_size j =? cpu).

Definition steal_one (cpu : Z) : M scheduler unit :=
  own ← get_queue cpu;
  when (len own =? 0)
    (other_cpu_list ← py_remove cpu (range 0 (num_cpus cfg));
     other_cpu ← rand_pick other_cpu_list;
     other ← get_queue other_cpu;
     for_ret other tt (λ _ job_name,
       s ← get;
       j ← dict_get (jobs s) job_name;
       if (len (affinity j) =? 0) || int_in_job cpu j then
         l ← py_remove job_name other;
         set_queue other_cpu l;;
         queue_append cpu job_name;;
         mret (inr tt)
       else mret (inl tt));;
     mret tt).

Definition steal_jobs : M scheduler unit :=
  when (per_cpu_queues cfg && (0 <? peek_interval cfg))
    (s ← get;
     when ((0 <? system_time s) && (system_time s mod peek_interval cfg =? 0))
       (for_ (range 0 (num_cpus cfg)) steal_one)).

Definition run_one_tick (cpu : Z) : M scheduler unit :=
  s ← get;
  job_name ← dict_get (sched_current s) cpu;
  job ← dict_get (jobs s) job_name;
  current_rate ← on_cache cpu (λ _, get_rate job_name);
  ran ← dict_add (stats_ran s) cpu 1;
  stats_ran <~ ran;;
  when (1 <? current_rate) (warm ← dict_add (stats_ran_warm s) cpu 1; stats_ran_warm <~ warm);;
  '(t, l) ← list_pop (time_left job) (-1);
  let new_left := Z.max 0 (t - current_rate) in
  jobs <~ <[job_name := job <| time_left := l ++ [new_left] |>]> (jobs s);;
  when trace
    (put_str (name job +:+ " ");;
     when (trace_time_left cfg) (t ← list_get (l ++ [new_left]) 0; put_str ("[" +:+ fmt_d 3 t +:+ "] ")));;
  on_cache cpu (λ jobs, update_warming jobs job_name);;
  when (new_left <=? 0)
    (modify (λ s, s <| sched_state ::= <[cpu := STATE_IDLE]> |> <| sched_current ::= <[cpu := ""]> |> <| jobs_finished ::= Z.succ |>)).

Definition run_cpu (cpu : Z) : M scheduler unit :=
  s ← get;
  st ← dict_get (sched_state s) cpu;
  (if st =? STATE_RUNNING then run_one_tick cpu
   else when trace (put_str "- ";; when (trace_time_left cfg) (put_str "[   ] ")));;
  s ← get;
  cache_string ← for_acc (job_name_list s) "" (λ x job_name,
    c ← on_cache cpu (λ _, get_cache_state job_name); mret (x +:+ c));
  when trace (when (trace_cache cfg) (put_str ("cache[" +:+ cache_string +:+ "]"));; put_str "     ").

Definition run_jobs : M scheduler unit := for_ (range 0 (num_cpus cfg)) run_cpu.

Definition tick : M scheduler unit :=
  handle_interrupts;;
  steal_jobs;;
  assign_jobs;;
  run_jobs;;
  print_sched_queues;;
  when trace (print "");;
  modify (λ s, s <| system_time ::= Z.succ |>).

(** *** The run *)

(** [100.0 * float(a) / float(b)] *)
Definition percent {S} (a b : Z) : M S float := f_div (f_mul (f_of_Z 100) (f_of_Z a)) (f_of_Z b).

Definition print_stats : M scheduler unit :=
  s ← get;
  print (nl +:+ "Finished time " +:+ str_of_Z (system_time s) +:+ nl);;
  print "Per-CPU stats";;
  for_ (range 0 (num_cpus cfg)) (λ cpu,
    ran ← dict_get (stats_ran s) cpu;
    u ← percent ran (system_time s);
    warm ← dict_get (stats_ran_warm s) cpu;
    v ← percent warm (system_time s);
    print ("  CPU " +:+ str_of_Z cpu +:+ "  utilization " +:+ rjust 3 (fmt_f 2 u) +:+ " [ warm " +:+ rjust 3 (fmt_f 2 v) +:+ " ]"));;
  print "".

Definition run (fuel : nat) : M scheduler unit :=
  modify (λ s, s <| system_time := 0 |> <| jobs_finished := 0 |>);;
  while_ fuel tt (λ _,
    s ← get;
    if jobs_finished s <? num_jobs s then tick;; mret (inl tt) else mret (inr tt));;
  when (solve cfg) print_stats.

Definition main (fuel : nat) : M scheduler unit := scheduler_init;; run fuel.
End Multi.

(** ** The cache *)

Definition wss (jobs : gmap string job) (x : string) : Z := default 0 (working_set_size <$> jobs !! x).

Lemma wss_lookup jobs x j : jobs !! x = Some j → wss jobs x = working_set_size j.
Proof. unfold wss. by intros ->. Qed.

(** Every job the cache knows is either warm or warming, with a counter. *)
Record cache_wf (jobs : gmap string job) (c : cache) : Prop := {
  c_nodup : NoDup (cache_contents c ++ cache_warming c);
  c_known : ∀ x, x ∈ cache_contents c ++ cache_warming c → is_Some (jobs !! x);
  c_counter : ∀ x, x ∈ cache_warming c → is_Some (cache_warming_counter c !! x);
}.

Section Cache.
Context (cfg : config) (Hsize : 0 ≤ cache_size cfg).
Implicit Types (jobs : gmap string job) (c : cache) (w : world).

(** Moreover, the working sets of the warm jobs fit. *)
Definition cache_ok jobs c : Prop := cache_wf jobs c ∧ sum_of (wss jobs) (cache_contents c) ≤ cache_size cfg.

Lemma wp_total_working_set jobs c w (Q : Z → cache → world → Prop) E :
  cache_wf jobs c → Q (sum_of (wss jobs) (cache_contents c)) c w → wp (total_working_set jobs) Q E c w.
Proof.
  intros Hc HQ. unfold total_working_set. wp_pures.
  apply (wp_for_acc (λ pre n c' w', n = sum_of (wss jobs) pre ∧ c' = c ∧ w' = w)); [done| |].
  - intros pre x post n c' w' Hl (-> & -> & ->). wp_pures.
    destruct (c_known _ _ Hc x) as [j Hj]; [rewrite Hl; set_solver|]. rewrite Hj. wp_pures.
    rewrite sum_of_app, sum_of_cons, (wss_lookup _ _ _ Hj). simpl. split; [lia|done].
  - by intros n c' w' (-> & -> & ->).
Qed.

(** A job leaves the contents at the end and starts to warm up again. *)
Lemma evict_wf jobs c x l :
  cache_wf jobs c → cache_contents c = l ++ [x] →
  cache_wf jobs (Cache l (cache_warming c ++ [x]) (<[x := cache_warmup_time cfg]> (cache_warming_counter c))).
Proof.
  intros [H1 H2 H3] Hl. rewrite Hl in *.
  assert (l ++ cache_warming c ++ [x] ≡ₚ (l ++ [x]) ++ cache_warming c) as Hp.
  { rewrite (comm (++) (cache_warming c)). by rewrite (assoc (++)). }
  split; simpl.
  - by rewrite Hp.
  - intros y. rewrite Hp. apply H2.
  - intros y. rewrite elem_of_app, list_elem_of_singleton. intros [?| ->]; [|by rewrite lookup_insert_eq].
    destruct (decide (x = y)) as [->|]; [by rewrite lookup_insert_eq|rewrite lookup_insert_ne by done; by apply H3].
Qed.

(** What [adjust_size] does: as many jobs leave at the end as must, and join
    those that warm up. *)
Definition shrunk jobs c c' : Prop := ∃ gone,
  cache_contents c = cache_contents c' ++ gone ∧ cache_warming c' = cache_warming c ++ reverse gone ∧
  ∀ y rest, gone = y :: rest → cache_size cfg < sum_of (wss jobs) (cache_contents c' ++ [y]).

Lemma wp_adjust_size jobs c w (Q : unit → cache → world → Prop) E :
  cache_wf jobs c → (∀ c', cache_ok jobs c' → shrunk jobs c c' → Q tt c' w) → wp (adjust_size cfg jobs) Q E c w.
Proof.
  intros Hc HQ. unfold adjust_size. wp_pures. apply wp_total_working_set; [done|]. wp_pures.
  apply (wp_while (λ n c' w', n = sum_of (wss jobs) (cache_contents c') ∧ cache_wf jobs c' ∧ w' = w ∧ shrunk jobs c c')
    (λ _ c' _, length (cache_contents c'))); [split_and!; [done..|]|lia|].
  { exists []. by rewrite !app_nil_r. }
  intros n c' w' (-> & Hc' & -> & gone & Hg1 & Hg2 & Hg3).
  destruct (Z.ltb_spec (cache_size cfg) (sum_of (wss jobs) (cache_contents c'))); wp_pures.
  2: { apply HQ; [split; [done|lia]|by exists gone]. }
  destruct (@List.exists_last _ (cache_contents c')) as (l & x & Hcont); [by intros Hnil; rewrite Hnil in *; simpl in *; lia|].
  rewrite Hcont in *.
  assert (len (l ++ [x]) - 1 = Z.of_nat (length l)) as -> by (unfold len; rewrite length_app; simpl; lia).
  rewrite py_index_nat, decide_True by (rewrite length_app; simpl; lia). simpl.
  rewrite lookup_app_r, Nat.sub_diag by done. simpl. rewrite delete_middle, app_nil_r. wp_pures.
  destruct (c_known _ _ Hc' x) as [j Hj]; [rewrite Hcont; set_solver|]. rewrite Hj. wp_pures. split; [split_and!|].
  - rewrite sum_of_app, sum_of_cons, (wss_lookup _ _ _ Hj). simpl. lia.
  - by apply (evict_wf _ c').
  - done.
  - exists (x :: gone). simpl. split_and!; [by rewrite Hg1, <-(assoc (++))|by rewrite reverse_cons, (assoc (++)), Hg2|].
    intros y rest [= <- _]. done.
  - rewrite length_app. simpl. lia.
Qed.

(** A job new to the cache starts to warm up, or is warm at once. *)
Definition admitted jobs x c c' : Prop :=
  if bool_decide (x ∈ cache_contents c ++ cache_warming c) then c' = c
  else if cache_warmup_time cfg =? 0 then shrunk jobs (c <| cache_contents ::= cons x |>) c'
  else c' = c <| cache_warming ::= (.++ [x]) |> <| cache_warming_counter ::= <[x := cache_warmup_time cfg]> |>.

Lemma wp_new_job jobs x c w (Q : unit → cache → world → Prop) E :
  cache_ok jobs c → is_Some (jobs !! x) → (∀ c', cache_ok jobs c' → admitted jobs x c c' → Q tt c' w) → wp (new_job cfg jobs x) Q E c w.
Proof.
  intros [[H1 H2 H3] Hs] Hx HQ. unfold new_job. wp_pures. unfold admitted in HQ.
  assert (negb (bool_decide (x ∈ cache_contents c)) && negb (bool_decide (x ∈ cache_warming c)) =
    negb (bool_decide (x ∈ cache_contents c ++ cache_warming c))) as ->.
  { rewrite <-negb_orb, <-bool_decide_or. f_equal. apply bool_decide_ext. by rewrite elem_of_app. }
  case_bool_decide as Hn; simpl; [by apply HQ; repeat split|]. apply not_elem_of_app in Hn as [Hn1 Hn2].
  destruct (Z.eqb_spec (cache_warmup_time cfg) 0); wp_pures.
  - apply wp_adjust_size; [|by intros c' ? ?; apply HQ]. split; simpl; [|by intros y [->|]%elem_of_cons; auto|done].
    constructor; [set_solver|done].
  - apply HQ; [|done]. split; [split|done]; simpl.
    + rewrite (assoc (++)), NoDup_app. split_and!; [done|set_solver|apply NoDup_singleton].
    + intros y. rewrite (assoc (++)), elem_of_app, list_elem_of_singleton. intros [?| ->]; auto.
    + intros y. rewrite elem_of_app, list_elem_of_singleton.
      destruct (decide (x = y)) as [->|]; [by rewrite lookup_insert_eq|rewrite lookup_insert_ne by done]. intros [?|]; [auto|congruence].
Qed.

(** The counter of a warming job runs down to its becoming warm. *)
Definition warmed jobs x c c' : Prop := if bool_decide (x ∈ cache_warming c) then
    ∃ n, cache_warming_counter c !! x = Some n ∧
    let c1 := c <| cache_warming_counter ::= <[x := n - 1]> |> in
    if n - 1 <=? 0 then ∃ l, remove1 x (cache_warming c) = Some l ∧ shrunk jobs (c1 <| cache_contents ::= cons x |> <| cache_warming := l |>) c'
    else c' = c1
  else c' = c.

Lemma wp_update_warming jobs x c w (Q : unit → cache → world → Prop) E :
  cache_ok jobs c → (∀ c', cache_ok jobs c' → warmed jobs x c c' → Q tt c' w) → wp (update_warming cfg jobs x) Q E c w.
Proof.
  intros [[H1 H2 H3] Hs] HQ. unfold update_warming. wp_pures. unfold warmed in HQ. case_bool_decide as Hx; [|by apply HQ; repeat split].
  destruct (H3 x Hx) as [n Hn]. unfold dict_add. wp_pures. rewrite Hn. wp_pures. rewrite lookup_insert_eq. wp_pures.
  assert (∀ y, is_Some (<[x:=n + -1]> (cache_warming_counter c) !! y) ↔ is_Some (cache_warming_counter c !! y)) as Hcnt.
  { intros y. destruct (decide (x = y)) as [->|]; [rewrite lookup_insert_eq, Hn; naive_solver|by rewrite lookup_insert_ne]. }
  replace (n - 1) with (n + -1) in HQ by lia. destruct (Z.leb_spec (n + -1) 0) as [Hdone|Hmore]; wp_pures.
  - destruct (remove1_perm x (cache_warming c) Hx) as (l & Hl & Hp). unfold py_remove. wp_pures. simpl. rewrite Hl. wp_pures.
    apply wp_adjust_size; [|intros c' ? ?; apply HQ; [done|]].
    + assert ((x :: cache_contents c) ++ l ≡ₚ cache_contents c ++ cache_warming c) as Hperm by (rewrite Hp; simpl; by rewrite Permutation_middle).
      split; simpl.
      * by rewrite Hperm.
      * intros y. change (x :: cache_contents c ++ l) with ((x :: cache_contents c) ++ l). rewrite Hperm. apply H2.
      * intros y Hy. apply Hcnt, H3. rewrite Hp. by right.
    + exists n. split; [done|]. replace (n - 1) with (n + -1) by lia. destruct (Z.leb_spec (n + -1) 0); [by exists l|lia].
  - apply HQ; [split; [split|done]; simpl; [done|done|]; intros y Hy; by apply Hcnt, H3|].
    exists n. split; [done|]. replace (n - 1) with (n + -1) by lia. by destruct (Z.leb_spec (n + -1) 0); [lia|].
Qed.
End Cache.

(** ** Where the jobs are *)

Inductive place := OnCpu (cpu : Z) | InQueue (q : Z) | Finished.

#[export] Instance place_eq_dec : EqDecision place.
Proof. solve_decision. Defined.

Section Scheduler.
Context (cfg : config).
Abbreviation n := (num_cpus cfg).
Implicit Types (s : scheduler) (loc : string → place) (w : world).

(** The queue object of a CPU, and the objects in use *)
Definition queue_of (cpu : Z) : Z := if per_cpu_queues cfg then cpu else single_sched_queue.
Definition is_queue (q : Z) : Prop := if per_cpu_queues cfg then 0 ≤ q < n else q = single_sched_queue.

Record job_ok (x : string) (j : job) : Prop := {
  j_name : name j = x;
  j_time : ∃ t, time_left j = [t];
  j_affinity : ∀ c, c ∈ affinity j → 0 ≤ c < n;
}.

Record machine_ok s : Prop := {
  m_nodup : NoDup (job_name_list s);
  m_job : ∀ x, x ∈ job_name_list s → ∃ j, jobs s !! x = Some j ∧ job_ok x j;
  m_queue : ∀ cpu, 0 ≤ cpu < n → per_cpu_sched_queue s !! cpu = Some (queue_of cpu);
  m_ran : has n (stats_ran s);
  m_warm : has n (stats_ran_warm s);
  m_cache : ∀ cpu, 0 ≤ cpu < n → ∃ c, caches s !! cpu = Some c ∧ cache_ok cfg (jobs s) c;
}.

(** The queues a job may wait in: those of the CPUs it may run on, and, where
    CPUs steal, those whose number is its run time or working set, since the
    thief looks among these for the affinity *)
Definition waits (q : Z) (j : job) : Prop := allowed q j = true ∨ 0 < peek_interval cfg ∧ int_in_job q j = true.

(** A place a job may be at: a CPU it may run on, the central queue, the queue
    of a CPU it may wait for, or none when its time is used up *)
Definition place_ok (j : job) (p : place) : Prop :=
  match p with
  | OnCpu cpu => 0 ≤ cpu < n ∧ allowed cpu j = true
  | InQueue q => is_queue q ∧ (per_cpu_queues cfg = true → waits q j)
  | Finished => time_left j = [0]
  end.

Definition cpu_ok s loc (cpu : Z) : Prop := ∃ x, sched_current s !! cpu = Some x ∧
  (sched_state s !! cpu = Some STATE_IDLE ∧ (∀ y, y ∈ job_name_list s → loc y ≠ OnCpu cpu) ∨
   sched_state s !! cpu = Some STATE_RUNNING ∧ x ∈ job_name_list s ∧ ∀ y, y ∈ job_name_list s → loc y = OnCpu cpu ↔ y = x).

Definition queue_ok s loc (q : Z) : Prop := ∃ l, queues s !! q = Some l ∧ NoDup l ∧
  ∀ x, x ∈ l ↔ x ∈ job_name_list s ∧ loc x = InQueue q.

(** [loc] says where every job is, once. *)
Record located s loc : Prop := {
  l_cpu : ∀ cpu, 0 ≤ cpu < n → cpu_ok s loc cpu;
  l_queue : ∀ q, is_queue q → queue_ok s loc q;
  l_place : ∀ x j, x ∈ job_name_list s → jobs s !! x = Some j → place_ok j (loc x);
  l_count : jobs_finished s = sum_of (λ x, if decide (loc x = Finished) then 1 else 0) (job_name_list s);
}.

Definition inv s loc : Prop := machine_ok s ∧ located s loc.

Lemma queue_of_is cpu : 0 ≤ cpu < n → is_queue (queue_of cpu).
Proof. unfold is_queue, queue_of. by destruct (per_cpu_queues cfg). Qed.

(** One job moves from its place to [p]. *)
Lemma located_move s s' loc x p :
  machine_ok s → located s loc → x ∈ job_name_list s → job_name_list s' = job_name_list s → loc x ≠ Finished →
  (∀ cpu, 0 ≤ cpu < n →
     (loc x ≠ OnCpu cpu ∧ p ≠ OnCpu cpu ∧ sched_current s' !! cpu = sched_current s !! cpu ∧ sched_state s' !! cpu = sched_state s !! cpu) ∨
     (loc x = OnCpu cpu ∧ p ≠ OnCpu cpu ∧ is_Some (sched_current s' !! cpu) ∧ sched_state s' !! cpu = Some STATE_IDLE) ∨
     (p = OnCpu cpu ∧ sched_state s !! cpu = Some STATE_IDLE ∧ sched_current s' !! cpu = Some x ∧ sched_state s' !! cpu = Some STATE_RUNNING)) →
  (∀ q, is_queue q → ∀ l, queues s !! q = Some l →
     (loc x ≠ InQueue q ∧ p ≠ InQueue q ∧ queues s' !! q = Some l) ∨
     (loc x = InQueue q ∧ p ≠ InQueue q ∧ ∃ l', queues s' !! q = Some l' ∧ l ≡ₚ x :: l') ∨
     (loc x ≠ InQueue q ∧ p = InQueue q ∧ queues s' !! q = Some (l ++ [x]))) →
  (∀ y j, y ∈ job_name_list s → jobs s' !! y = Some j → place_ok j (<[x := p]> loc y)) →
  jobs_finished s' = jobs_finished s + (if decide (p = Finished) then 1 else 0) →
  located s' (<[x := p]> loc).
Proof.
  intros Hm [Hcpu Hq Hpl Hcnt] Hx Hnames Hnf Hcpu' Hq' Hpl' Hcnt'. split.
  - intros cpu Hc. destruct (Hcpu cpu Hc) as (z & Hz & Hst). unfold cpu_ok. rewrite Hnames.
    destruct (Hcpu' cpu Hc) as [(H1 & H2 & -> & ->)|[(H1 & H2 & [z' ->] & ->)|(-> & H2 & -> & ->)]].
    + exists z. split; [done|]. destruct Hst as [[? Hno]|(? & Hin & Hiff)]; [left|right].
      * split; [done|]. intros y Hy. destruct (decide (x = y)) as [->|]; [by rewrite fn_lookup_insert|rewrite fn_lookup_insert_ne by done; auto].
      * split_and!; [done..|]. intros y Hy. destruct (decide (x = y)) as [->|]; [|rewrite fn_lookup_insert_ne by done; auto].
        rewrite fn_lookup_insert. split; [by intros ->|]. intros ->. destruct H1. by apply Hiff.
    + exists z'. split; [done|]. left. split; [done|]. intros y Hy.
      destruct (decide (x = y)) as [->|Hxy]; [by rewrite fn_lookup_insert|rewrite fn_lookup_insert_ne by done].
      destruct Hst as [[? Hno]|(? & Hin & Hiff)]; [auto|]. apply Hiff in H1 as ->; [|done]. rewrite Hiff by done. congruence.
    + exists x. split; [done|]. right. split_and!; [done..|]. intros y Hy.
      destruct (decide (x = y)) as [->|Hxy]; [by rewrite fn_lookup_insert|rewrite fn_lookup_insert_ne by done].
      destruct Hst as [[? Hno]|(? & ? & ?)]; [|rewrite H2 in *; done]. split; [by intros ?%Hno|by intros ->].
  - intros q Hqq. destruct (Hq q Hqq) as (l & Hl & Hnd & Hiff). unfold queue_ok. rewrite Hnames.
    destruct (Hq' q Hqq l Hl) as [(H1 & H2 & ->)|[(H1 & H2 & l' & -> & Hp)|(H1 & -> & ->)]].
    + exists l. split_and!; [done..|]. intros y. rewrite Hiff. destruct (decide (x = y)) as [->|]; [|by rewrite fn_lookup_insert_ne].
      rewrite fn_lookup_insert. naive_solver.
    + exists l'. rewrite Hp in Hnd. apply NoDup_cons in Hnd as [Hxl Hnd]. split_and!; [done..|]. intros y. specialize (Hiff y).
      rewrite Hp, elem_of_cons in Hiff. destruct (decide (x = y)) as [->|]; [rewrite fn_lookup_insert; naive_solver|].
      rewrite fn_lookup_insert_ne by done. naive_solver.
    + eexists. split; [done|]. split; [apply NoDup_app; split_and!; [done| |apply NoDup_singleton]|].
      * intros y [_ Hy]%Hiff ->%list_elem_of_singleton. done.
      * intros y. rewrite elem_of_app, list_elem_of_singleton, Hiff.
        destruct (decide (x = y)) as [->|]; [rewrite fn_lookup_insert; naive_solver|rewrite fn_lookup_insert_ne by done; naive_solver].
  - intros y j. rewrite Hnames. apply Hpl'.
  - rewrite Hcnt', Hnames, Hcnt. rewrite (sum_of_update (λ x, if decide (loc x = Finished) then 1 else 0) (λ y, if decide (<[x:=p]> loc y = Finished) then 1 else 0) _ x (m_nodup _ Hm) Hx).
    + rewrite fn_lookup_insert, (decide_False (P:=loc x = Finished)) by done. case_decide; lia.
    + intros y Hy. by rewrite fn_lookup_insert_ne.
Qed.

(** What the phases before the jobs run leave alone *)
Record frame s loc s' loc' : Prop := {
  f_names : job_name_list s' = job_name_list s;
  f_jobs : jobs s' = jobs s;
  f_time : system_time s' = system_time s;
  f_count : jobs_finished s' = jobs_finished s;
  f_finished : ∀ x, loc' x = Finished ↔ loc x = Finished;
}.

Lemma frame_refl s loc : frame s loc s loc.
Proof. by split. Qed.
Lemma frame_trans s loc s1 loc1 s2 loc2 : frame s loc s1 loc1 → frame s1 loc1 s2 loc2 → frame s loc s2 loc2.
Proof. intros [????] [????]. split; try congruence. naive_solver. Qed.

Lemma machine_frame s s' : machine_ok s → job_name_list s' = job_name_list s → jobs s' = jobs s →
  per_cpu_sched_queue s' = per_cpu_sched_queue s → stats_ran s' = stats_ran s → stats_ran_warm s' = stats_ran_warm s →
  caches s' = caches s → machine_ok s'.
Proof. intros [] Hn Hj Hq Hr Hw Hc. split; rewrite ?Hn, ?Hj, ?Hq, ?Hr, ?Hw, ?Hc; done. Qed.

Lemma wp_read_queue cpu l s w (Q : list string → scheduler → world → Prop) E :
  machine_ok s → 0 ≤ cpu < n → queues s !! queue_of cpu = Some l → Q l s w → wp (get_queue cpu) Q E s w.
Proof. intros Hm Hc Hl HQ. unfold get_queue. wp_pures. rewrite (m_queue _ Hm) by done. wp_pures. rewrite Hl. by wp_pures. Qed.

Lemma wp_write_queue cpu l s w (Q : unit → scheduler → world → Prop) E :
  machine_ok s → 0 ≤ cpu < n → Q tt (s <| queues := <[queue_of cpu := l]> (queues s) |>) w → wp (set_queue cpu l) Q E s w.
Proof. intros Hm Hc HQ. unfold set_queue. wp_pures. rewrite (m_queue _ Hm) by done. by wp_pures. Qed.

Lemma located_cpu_state s loc cpu : located s loc → 0 ≤ cpu < n →
  ∃ x, sched_current s !! cpu = Some x ∧ (sched_state s !! cpu = Some STATE_IDLE ∨
    sched_state s !! cpu = Some STATE_RUNNING ∧ x ∈ job_name_list s ∧ loc x = OnCpu cpu).
Proof.
  intros Hl Hc. destruct (l_cpu _ _ Hl cpu Hc) as (x & Hx & [[? _]|(? & ? & Hiff)]); exists x; [by auto|].
  split; [done|]. right. split_and!; [done..|]. by apply Hiff.
Qed.

Lemma place_insert s s' loc x j p : located s loc → jobs s' = jobs s → jobs s !! x = Some j → place_ok j p →
  ∀ y j', y ∈ job_name_list s → jobs s' !! y = Some j' → place_ok j' (<[x := p]> loc y).
Proof.
  intros Hl Hj Hx Hp y j' Hy Hy'. rewrite Hj in Hy'. destruct (decide (x = y)) as [->|]; [|rewrite fn_lookup_insert_ne by done; by apply (l_place _ _ Hl)].
  rewrite fn_lookup_insert. congruence.
Qed.

(** A CPU gives up its job. *)
Lemma wp_handle_one_interrupt b cpu s loc w (Q : unit → scheduler → world → Prop) E :
  inv s loc → 0 ≤ cpu < n → (∀ s' loc', inv s' loc' → frame s loc s' loc' → Q tt s' w) →
  wp (handle_one_interrupt b cpu) Q E s w.
Proof.
  intros [Hm Hl] Hc HQ. unfold handle_one_interrupt. wp_pures.
  destruct (located_cpu_state _ _ _ Hl Hc) as (x & Hx & Hst).
  assert (wp (mret tt) Q E s w) as Hskip by (by apply (HQ s loc); [|apply frame_refl]).
  destruct Hst as [Hst|(Hst & Hin & Hloc)]; rewrite Hst; wp_pures; [by rewrite andb_false_r|].
  rewrite andb_true_r. destruct b; [|done]. wp_pures. simpl. rewrite Hx. wp_pures. unfold queue_append. wp_pures.
  destruct (l_queue _ _ Hl _ (queue_of_is _ Hc)) as (l & Hq & Hnd & Hiff). set (s1 := s <| sched_state := _ |> <| sched_current := _ |>).
  assert (machine_ok s1) as Hm1 by by apply (machine_frame s).
  apply (wp_read_queue cpu l); [done..|]. apply wp_write_queue; [done..|].
  destruct (m_job _ Hm _ Hin) as (j & Hj & Hjok). pose proof (l_place _ _ Hl _ _ Hin Hj) as Hp. rewrite Hloc in Hp.
  apply (HQ _ (<[x := InQueue (queue_of cpu)]> loc)).
  - split; [by apply (machine_frame s)|]. eapply (located_move s); try done; [by rewrite Hloc| | | |simpl; lia].
    + intros c Hc'. rewrite Hloc. destruct (decide (c = cpu)) as [->|]; simpl.
      * right. left. rewrite !lookup_insert_eq. by eauto.
      * left. rewrite !lookup_insert_ne by done. split_and!; congruence.
    + intros q Hq' l' Hl'. rewrite Hloc. simpl. destruct (decide (q = queue_of cpu)) as [->|].
      * right. right. rewrite lookup_insert_eq. split_and!; congruence.
      * left. rewrite lookup_insert_ne by done. split_and!; congruence.
    + eapply place_insert; try done. split; [by apply queue_of_is|]. destruct Hp as [_ Hp]. unfold queue_of. intros ->. by left.
  - split; try done. intros y. destruct (decide (x = y)) as [->|]; [rewrite fn_lookup_insert; rewrite Hloc; by split|by rewrite fn_lookup_insert_ne].
Qed.

Lemma wp_handle_interrupts s loc w (Q : unit → scheduler → world → Prop) E :
  inv s loc → time_slice cfg ≠ 0 → rng_ok w →
  (∀ s' loc' w', inv s' loc' → frame s loc s' loc' → rng_ok w' → Q tt s' w') → wp (handle_interrupts cfg) Q E s w.
Proof.
  intros Hi Ht Hw HQ. unfold handle_interrupts. wp_pures. unfold py_mod. destruct (Z.eqb_spec (time_slice cfg) 0) as [|_]; [done|]. wp_pures.
  set (b := (_ =? 0) && _). assert (∀ w', rng_ok w' → wp (for_ (range 0 n) (handle_one_interrupt b)) Q E s w') as Hgo.
  { intros w1 Hw1. apply (wp_for (λ _ s' w', ∃ loc', inv s' loc' ∧ frame s loc s' loc' ∧ w' = w1)).
    - exists loc. split_and!; [done|apply frame_refl|done].
    - intros pre cpu post s1 w2 Hr (loc1 & Hi1 & Hf1 & ->). assert (0 ≤ cpu < n) as Hc by (apply elem_of_range; rewrite Hr; set_solver).
      eapply wp_handle_one_interrupt; [done..|]. intros s2 loc2 Hi2 Hf2. exists loc2. split_and!; [done|by eapply frame_trans|done].
    - intros s1 w2 (loc1 & ? & ? & ->). by eapply HQ. }
  destruct (b && trace cfg), (trace cfg); wp_pures; by apply Hgo.
Qed.

(** *** Stealing *)

(** A thief needs another CPU to look at. *)
Definition steals : Prop := per_cpu_queues cfg = true ∧ 0 < peek_interval cfg.
Definition steal_ok : Prop := steals → 2 ≤ n.

(** The test of the thief looks for the number of its CPU among the fields of
    the job, not in its affinity; here it never finds it. *)
Definition steal_safe s : Prop := steals → ∀ x j cpu, x ∈ job_name_list s → jobs s !! x = Some j → affinity j ≠ [] → 0 ≤ cpu < n → int_in_job cpu j = false.

Lemma any_cpu j cpu : affinity j = [] → allowed cpu j = true.
Proof. unfold allowed. by intros ->. Qed.

Lemma wp_steal_one cpu s loc w (Q : unit → scheduler → world → Prop) E :
  inv s loc → per_cpu_queues cfg = true → 0 < peek_interval cfg → 2 ≤ n → 0 ≤ cpu < n → rng_ok w →
  (∀ s' loc' w', inv s' loc' → frame s loc s' loc' → rng_ok w' → Q tt s' w') → wp (steal_one cfg cpu) Q E s w.
Proof.
  intros [Hm Hl] Hper Hpeek Hn2 Hc Hw HQ.
  assert (∀ c, queue_of c = c) as Hqo by (intros c; unfold queue_of; by rewrite Hper).
  assert (∀ q, is_queue q ↔ 0 ≤ q < n) as Hisq by (intros q; unfold is_queue; by rewrite Hper).
  unfold steal_one. wp_pures. destruct (l_queue _ _ Hl cpu) as (own & Hown & _ & Hiffown); [by apply Hisq|].
  eapply wp_read_queue; [done..|by rewrite Hqo|]. wp_pures.
  destruct (Z.eqb_spec (len own) 0) as [Hempty|]; [|by apply (HQ s loc); [|apply frame_refl|]].
  destruct (remove1_perm cpu (range 0 n)) as (others & Hrem & Hperm); [by apply elem_of_range|].
  unfold py_remove. wp_pures. rewrite Hrem. wp_pures.
  assert (others ≠ []) as Hne.
  { intros ->. apply Permutation_length in Hperm. rewrite length_range in Hperm. simpl in Hperm. lia. }
  apply wp_rand_pick; [done..|]. intros other w1 Ho Hw1 _. wp_pures.
  assert (0 ≤ other < n ∧ other ≠ cpu) as [Hor Hoc].
  { split; [apply elem_of_range; rewrite Hperm; set_solver|]. intros ->. pose proof (NoDup_range 0 n) as Hnd.
    rewrite Hperm in Hnd. by apply NoDup_cons in Hnd as [? _]. }
  destruct (l_queue _ _ Hl other) as (l & Hq & Hnd & Hiff); [by apply Hisq|].
  eapply wp_read_queue; [done..|by rewrite Hqo|]. wp_pures.
  apply (wp_for_ret (λ _ _ s' w', s' = s ∧ w' = w1)); [done| |].
  2: { intros [] s' w' [-> ->]. wp_pures. by apply (HQ s loc); [|apply frame_refl|]. }
  intros pre x post [] s' w' Hsplit [-> ->]. wp_pures.
  assert (x ∈ l) as Hxl by (rewrite Hsplit; set_solver). pose proof (proj1 (Hiff x) Hxl) as [Hin Hloc].
  destruct (m_job _ Hm _ Hin) as (j & Hj & Hjok). rewrite Hj. wp_pures.
  destruct ((len (affinity j) =? 0) || int_in_job cpu j) eqn:Htest; [|by wp_pures].
  assert (waits cpu j) as Hwaits.
  { apply orb_true_iff in Htest as [Haff|Hint]; [left|by right]. unfold allowed. by rewrite Haff. }
  destruct (remove1_perm x l Hxl) as (l' & Hl' & Hp). wp_pures. rewrite Hl'. wp_pures.
  apply wp_write_queue; [done..|]. rewrite Hqo. unfold queue_append. wp_pures.
  set (s1 := s <| queues := _ |>). assert (machine_ok s1) as Hm1 by by apply (machine_frame s).
  apply (wp_read_queue cpu own); [done..|rewrite Hqo; simpl; by rewrite lookup_insert_ne|]. apply wp_write_queue; [done..|]. wp_pures.
  apply (HQ _ (<[x := InQueue cpu]> loc)); [|split; try done|done].
  - split; [by apply (machine_frame s)|]. eapply (located_move s); try done; [by rewrite Hloc| | | |simpl; lia].
    + intros c Hc'. rewrite Hloc. by left.
    + intros q Hq' l0 Hl0. rewrite Hloc. simpl. rewrite Hqo. destruct (decide (q = cpu)) as [->|]; [right; right|].
      { rewrite lookup_insert_eq. split_and!; congruence. }
      rewrite lookup_insert_ne by done. destruct (decide (q = other)) as [->|]; [right; left|left].
      * rewrite lookup_insert_eq. split_and!; [done|congruence|]. exists l'. split; [done|]. congruence.
      * rewrite lookup_insert_ne by done. split_and!; congruence.
    + eapply place_insert; try done. split; [by apply Hisq|done].
  - intros y. destruct (decide (x = y)) as [->|]; [rewrite fn_lookup_insert, Hloc; by split|by rewrite fn_lookup_insert_ne].
Qed.

Lemma wp_steal_jobs s loc w (Q : unit → scheduler → world → Prop) E :
  inv s loc → steal_ok → rng_ok w →
  (∀ s' loc' w', inv s' loc' → frame s loc s' loc' → rng_ok w' → Q tt s' w') → wp (steal_jobs cfg) Q E s w.
Proof.
  intros Hi Hok Hw HQ. unfold steal_jobs. wp_pures.
  destruct (per_cpu_queues cfg) eqn:Hper, (Z.ltb_spec 0 (peek_interval cfg)); simpl; try by apply (HQ s loc); [|apply frame_refl|].
  wp_pures. destruct (_ && _); [|by apply (HQ s loc); [|apply frame_refl|]].
  apply (wp_for (λ _ s' w', ∃ loc', inv s' loc' ∧ frame s loc s' loc' ∧ rng_ok w')).
  - exists loc. split_and!; [done|apply frame_refl|done].
  - intros pre cpu post s1 w1 Hr (loc1 & Hi1 & Hf1 & Hw1). assert (0 ≤ cpu < n) as Hc by (apply elem_of_range; rewrite Hr; set_solver).
    eapply wp_steal_one; [done..|by apply Hok|done|done|].
    intros s2 loc2 w2 Hi2 Hf2 Hw2. exists loc2. split_and!; [done|by eapply frame_trans|done].
  - intros s1 w1 (loc1 & ? & ? & ?). by eapply HQ.
Qed.

(** *** Dispatching *)

(** The CPU runs a job, or no job of its queue may run on it. *)
Definition busy s (cpu : Z) : Prop := sched_state s !! cpu = Some STATE_RUNNING ∨
  ∀ l x j, queues s !! queue_of cpu = Some l → x ∈ l → jobs s !! x = Some j → allowed cpu j = false.

Lemma wp_cache_call {A} cpu (m : gmap string job → M cache A) c s w (Q : A → scheduler → world → Prop) E :
  caches s !! cpu = Some c →
  wp (m (jobs s)) (λ a c' w', Q a (s <| caches := <[cpu := c']> (caches s) |>) w')
    (λ e c' w', E e (s <| caches := <[cpu := c']> (caches s) |>) w') c w →
  wp (on_cache cpu m) Q E s w.
Proof. intros Hc Hm. unfold on_cache. wp_pures. rewrite Hc. wp_pures. exact Hm. Qed.

Lemma machine_cache s cpu c : machine_ok s → cache_ok cfg (jobs s) c → machine_ok (s <| caches := <[cpu := c]> (caches s) |>).
Proof.
  intros [H1 H2 H3 H4 H5 H6] Hc. split; try done. intros i Hi. simpl.
  destruct (decide (cpu = i)) as [->|]; [rewrite lookup_insert_eq; by eauto|rewrite lookup_insert_ne by done; by apply H6].
Qed.

(** An idle CPU takes the first job [x] of its queue it may run. *)
Lemma dispatch_inv s loc cpu x j l l' s' : inv s loc → 0 ≤ cpu < n → sched_state s !! cpu = Some STATE_IDLE →
  queues s !! queue_of cpu = Some l → l ≡ₚ x :: l' → jobs s !! x = Some j → allowed cpu j = true →
  s' = s <| queues := <[queue_of cpu := l']> (queues s) |> <| sched_state := <[cpu := STATE_RUNNING]> (sched_state s) |>
    <| sched_current := <[cpu := x]> (sched_current s) |> →
  inv s' (<[x := OnCpu cpu]> loc) ∧ frame s loc s' (<[x := OnCpu cpu]> loc) ∧
  busy s' cpu ∧ (∀ c, busy s c → busy s' c) ∧ x ∈ job_name_list s.
Proof.
  intros [Hm Hl] Hc Hidle Hq Hp Hj Hallow ->. destruct (l_queue _ _ Hl _ (queue_of_is _ Hc)) as (l0 & Hq0 & Hnd & Hiff). simplify_eq.
  assert (x ∈ l) as [Hin Hloc]%Hiff by (rewrite Hp; by left). split_and!; [|split; try done| | |done].
  - split; [by apply (machine_frame s)|]. eapply (located_move s); try done; [by rewrite Hloc| | | |simpl; lia].
    + intros c Hc'. rewrite Hloc. destruct (decide (c = cpu)) as [->|]; simpl.
      * right. right. by rewrite !lookup_insert_eq.
      * left. rewrite !lookup_insert_ne by done. split_and!; congruence.
    + intros q Hq' l1 Hl'. rewrite Hloc. simpl. destruct (decide (q = queue_of cpu)) as [->|].
      * right. left. rewrite lookup_insert_eq. split_and!; [done..|]. exists l'. split; [done|]. congruence.
      * left. rewrite lookup_insert_ne by done. split_and!; congruence.
    + by eapply place_insert.
  - intros y. destruct (decide (x = y)) as [->|]; [rewrite fn_lookup_insert, Hloc; by split|by rewrite fn_lookup_insert_ne].
  - left. simpl. by rewrite lookup_insert_eq.
  - intros c [Hrun|Hno]; [left|right]; simpl.
    + destruct (decide (c = cpu)) as [->|]; [by rewrite lookup_insert_eq|by rewrite lookup_insert_ne].
    + intros l1 y jy Hy Hyl Hyj. destruct (decide (queue_of c = queue_of cpu)) as [He|He]; [|rewrite lookup_insert_ne in Hy by done; eauto].
      rewrite He, lookup_insert_eq in Hy. simplify_eq. apply (Hno l y jy); [congruence| |done]. rewrite Hp. by right.
Qed.

Lemma wp_take_job cpu s loc w (Q : unit → scheduler → world → Prop) E :
  0 ≤ cache_size cfg → inv s loc → 0 ≤ cpu < n → sched_state s !! cpu = Some STATE_IDLE →
  (∀ s' loc', inv s' loc' → frame s loc s' loc' → busy s' cpu → (∀ c, busy s c → busy s' c) → Q tt s' w) →
  wp (get_job cfg cpu) Q E s w.
Proof.
  intros Hsize Hi Hc Hidle HQ. destruct (Hi) as [Hm Hl]. unfold get_job. wp_pures.
  destruct (l_queue _ _ Hl _ (queue_of_is _ Hc)) as (l & Hq & Hnd & Hiff). apply (wp_read_queue cpu l); [done..|]. wp_pures.
  apply (wp_for_ret (λ pre _ s' w', s' = s ∧ w' = w ∧ ∀ i x j, i ∈ pre → l !! Z.to_nat i = Some x → jobs s !! x = Some j → allowed cpu j = false)).
  { split_and!; [done..|]. by intros i x j ?%elem_of_nil. }
  2: { intros [] s' w' (-> & -> & Hno). wp_pures. apply (HQ s loc); [done|apply frame_refl| |done]. right. intros l' x j Hl' Hx Hj.
       simplify_eq. apply list_elem_of_lookup in Hx as [i Hx]. apply (Hno (Z.of_nat i) x); [|by rewrite Nat2Z.id|done].
       apply elem_of_range. apply lookup_lt_Some in Hx. unfold len. lia. }
  intros pre i post [] s' w' Hr (-> & -> & Hno). wp_pures.
  assert (0 ≤ i < len l) as Hir by (apply elem_of_range; rewrite Hr; set_solver).
  rewrite py_index_nonneg by done. simpl. destruct (lookup_lt_is_Some_2 l (Z.to_nat i)) as [x Hx]; [unfold len in *; lia|]. rewrite Hx. wp_pures.
  assert (x ∈ l) as [Hin Hloc]%Hiff by by eapply list_elem_of_lookup_2.
  destruct (m_job _ Hm _ Hin) as (j & Hj & Hjok). rewrite Hj. wp_pures. destruct (allowed cpu j) eqn:Hallow; wp_pures.
  2: { split_and!; [done..|]. intros i' x' j' [?| ->%list_elem_of_singleton]%elem_of_app ??; [by eapply Hno|]. congruence. }
  rewrite py_index_nonneg by done. simpl. rewrite Hx. simpl. wp_pures. apply wp_write_queue; [done..|]. wp_pures.
  destruct (dispatch_inv s loc cpu x j l (delete (Z.to_nat i) l) _ Hi Hc Hidle Hq ltac:(by apply delete_Permutation) Hj Hallow eq_refl)
    as ([Hm2 Hl2] & Hf2 & Hb2 & Hmono & _).
  set (s2 := s <| queues := _ |> <| sched_state := _ |> <| sched_current := _ |>) in *.
  destruct (m_cache _ Hm2 cpu Hc) as (c & Hcc & Hcok). eapply wp_cache_call; [exact Hcc|].
  eapply wp_new_job; [done|exact Hcok|by eauto|]. intros c' Hc' _. wp_pures.
  apply (HQ _ (<[x := OnCpu cpu]> loc)); [|destruct Hf2; by split|exact Hb2|exact Hmono].
  split; [by apply (machine_cache s2)|destruct Hl2; by split].
Qed.

Lemma wp_assign_jobs s loc w (Q : unit → scheduler → world → Prop) E :
  0 ≤ cache_size cfg → inv s loc → rng_ok w →
  (∀ s' loc' w', inv s' loc' → frame s loc s' loc' → (∀ cpu, 0 ≤ cpu < n → busy s' cpu) → rng_ok w' → Q tt s' w') →
  wp (assign_jobs cfg) Q E s w.
Proof.
  intros Hsize Hi Hw HQ. unfold assign_jobs. wp_pures.
  assert (∀ l w1, l ≡ₚ range 0 n → rng_ok w1 → wp (for_ l (λ cpu,
    s ← get; st ← dict_get (sched_state s) cpu; when (st =? STATE_IDLE) (get_job cfg cpu))) Q E s w1) as Hgo.
  2: { destruct (random_order cfg); wp_pures; [|by apply Hgo]. apply wp_shuffle; [done|]. intros l w1 Hl Hw1 _. by apply Hgo. }
  intros l w1 Hp Hw1. apply (wp_for (λ pre s' w', ∃ loc', inv s' loc' ∧ frame s loc s' loc' ∧ (∀ c, c ∈ pre → busy s' c) ∧ w' = w1)).
  - exists loc. split_and!; [done|apply frame_refl| |done]. by intros c ?%elem_of_nil.
  - intros pre cpu post s1 w2 Hr (loc1 & Hi1 & Hf1 & Hb1 & ->). wp_pures.
    assert (0 ≤ cpu < n) as Hc by (apply elem_of_range; rewrite <-Hp, Hr; set_solver).
    destruct (located_cpu_state _ _ _ (proj2 Hi1) Hc) as (x & _ & [Hst|(Hst & _)]); rewrite Hst; wp_pures; simpl.
    + wp_pures. eapply wp_take_job; [done..|]. intros s2 loc2 Hi2 Hf2 Hb2 Hmono. exists loc2. split_and!; [done|by eapply frame_trans| |done].
      intros c [?| ->%list_elem_of_singleton]%elem_of_app; auto.
    + exists loc1. split_and!; [done..| |done]. intros c [?| ->%list_elem_of_singleton]%elem_of_app; [by auto|by left].
  - intros s1 w2 (loc1 & Hi1 & Hf1 & Hb1 & ->). eapply HQ; [done..| |done]. intros cpu Hc. apply Hb1. rewrite Hp. by apply elem_of_range.
Qed.

(** *** Running *)

Definition remaining s (x : string) : Z := match jobs s !! x with Some (Job _ _ _ _ [t]) => t | _ => 0 end.
Definition rate s (cpu : Z) (x : string) : Z :=
  match caches s !! cpu with
  | Some c => if bool_decide (x ∈ cache_contents c) then cache_rate_warm cfg else cache_rate_cold
  | None => 0
  end.

(** Everything about a job but its time *)
Definition static (j : job) : job := j <| time_left := [] |>.
Definition same_jobs s s' : Prop := ∀ y, static <$> jobs s' !! y = static <$> jobs s !! y.

Lemma same_jobs_lookup s s' y j' : same_jobs s s' → jobs s' !! y = Some j' → ∃ j, jobs s !! y = Some j ∧ static j = static j'.
Proof. intros Hs Hj. specialize (Hs y). rewrite Hj in Hs. destruct (jobs s !! y) as [j|]; [|done]. apply (inj Some) in Hs. by exists j. Qed.

Lemma same_jobs_cache s s' c : same_jobs s s' → cache_ok cfg (jobs s) c → cache_ok cfg (jobs s') c.
Proof.
  intros Hs [[H1 H2 H3] H4]. assert (∀ y, wss (jobs s') y = wss (jobs s) y) as Hw.
  { intros y. specialize (Hs y). unfold wss. destruct (jobs s !! y) as [j|], (jobs s' !! y) as [j'|]; simpl in *; try done.
    apply (inj Some) in Hs. by apply (f_equal working_set_size) in Hs. }
  split; [split; [done| |done]|].
  - intros y Hy%H2. specialize (Hs y). destruct (jobs s !! y), (jobs s' !! y); done.
  - by rewrite (sum_of_ext (wss (jobs s')) (wss (jobs s))).
Qed.

(** The turn of one CPU *)
Record turn (cpu : Z) s loc s' loc' : Prop := {
  t_names : job_name_list s' = job_name_list s;
  t_time : system_time s' = system_time s;
  t_static : same_jobs s s';
  t_other : ∀ c, c ≠ cpu → sched_state s' !! c = sched_state s !! c ∧ sched_current s' !! c = sched_current s !! c ∧ caches s' !! c = caches s !! c;
  t_left : ∀ y, y ∈ job_name_list s → remaining s' y = if decide (loc y = OnCpu cpu) then Z.max 0 (remaining s y - rate s cpu y) else remaining s y;
  t_place : ∀ y, y ∈ job_name_list s → loc' y = if decide (loc y = OnCpu cpu) then if remaining s' y <=? 0 then Finished else OnCpu cpu else loc y;
}.

(** The job [x] has run, with [t] left, and the cache has become [c]. *)
Definition after_run s (cpu : Z) (x : string) (j : job) (t : Z) (c : cache) (ran warm : gmap Z Z) : scheduler :=
  s <| stats_ran := ran |> <| stats_ran_warm := warm |> <| jobs := <[x := j <| time_left := [t] |>]> (jobs s) |>
    <| caches := <[cpu := c]> (caches s) |>.

Lemma after_run_same s cpu x j t c ran warm : jobs s !! x = Some j → same_jobs s (after_run s cpu x j t c ran warm).
Proof.
  intros Hj y. simpl. destruct (decide (x = y)) as [->|]; [rewrite lookup_insert_eq, Hj; done|by rewrite lookup_insert_ne].
Qed.

Lemma remaining_after s cpu x j t c ran warm y : jobs s !! x = Some j →
  remaining (after_run s cpu x j t c ran warm) y = if decide (x = y) then t else remaining s y.
Proof.
  intros Hj. unfold remaining. simpl. case_decide as Hxy; [subst; by rewrite lookup_insert_eq|by rewrite lookup_insert_ne].
Qed.

Lemma machine_after s cpu x j t c ran warm : machine_ok s → 0 ≤ cpu < n → jobs s !! x = Some j →
  cache_ok cfg (jobs s) c → has n ran → has n warm → machine_ok (after_run s cpu x j t c ran warm).
Proof.
  intros [H1 H2 H3 H4 H5 H6] Hc Hj Hcc Hr Hw. pose proof (after_run_same s cpu x j t c ran warm Hj) as Hs. split; try done.
  - intros y Hy. destruct (H2 y Hy) as (jy & Hjy & [Hn Ht Ha]). simpl. destruct (decide (x = y)) as [->|].
    + rewrite lookup_insert_eq. simplify_eq. eexists. split; [done|]. split; simpl; eauto.
    + rewrite lookup_insert_ne by done. eexists. split; [done|]. by split.
  - intros i Hi. simpl. destruct (decide (cpu = i)) as [->|].
    + rewrite lookup_insert_eq. eexists. split; [done|]. exact (same_jobs_cache _ _ _ Hs Hcc).
    + rewrite lookup_insert_ne by done. destruct (H6 i Hi) as (c' & -> & Hc'). eexists. split; [done|]. exact (same_jobs_cache _ _ _ Hs Hc').
Qed.

(** A job runs on. *)
Lemma located_run s loc cpu x j t c ran warm : machine_ok s → located s loc → jobs s !! x = Some j → loc x = OnCpu cpu →
  located (after_run s cpu x j t c ran warm) loc.
Proof.
  intros Hm [H1 H2 H3 H4] Hj Hloc. split; [exact H1|exact H2| |exact H4]. intros y jy Hy. simpl.
  destruct (decide (x = y)) as [->|]; [rewrite lookup_insert_eq; intros [= <-]|rewrite lookup_insert_ne by done; by apply H3].
  rewrite Hloc. specialize (H3 y j Hy Hj). by rewrite Hloc in H3.
Qed.

(** A job is finished and leaves its CPU. *)
Lemma located_finish s loc cpu x j : machine_ok s → located s loc → 0 ≤ cpu < n → x ∈ job_name_list s → loc x = OnCpu cpu →
  jobs s !! x = Some j → time_left j = [0] →
  located (s <| sched_state ::= <[cpu := STATE_IDLE]> |> <| sched_current ::= <[cpu := ""]> |> <| jobs_finished ::= Z.succ |>)
    (<[x := Finished]> loc).
Proof.
  intros Hm Hl Hc Hin Hloc Hj Ht. apply (located_move s); try done; [by rewrite Hloc|..].
  - intros i Hi. rewrite Hloc. destruct (decide (i = cpu)) as [->|]; simpl.
    + right. left. rewrite !lookup_insert_eq. by eauto.
    + left. rewrite !lookup_insert_ne by done. split_and!; congruence.
  - intros q Hq l Hl'. rewrite Hloc. by left.
  - by eapply place_insert.
Qed.

Lemma cache_id s cpu c : caches s !! cpu = Some c → s <| caches := <[cpu := c]> (caches s) |> = s.
Proof. intros Hc. destruct s. unfold update. simpl in *. by rewrite insert_id. Qed.

(** What a turn comes to, once the job has run *)
Lemma turn_done s loc cpu x j t t' c ran warm : inv s loc → 0 ≤ cpu < n → x ∈ job_name_list s →
  (∀ y, y ∈ job_name_list s → loc y = OnCpu cpu ↔ y = x) → jobs s !! x = Some j → time_left j = [t] →
  t' = Z.max 0 (t - rate s cpu x) → cache_ok cfg (jobs s) c → has n ran → has n warm →
  let s1 := after_run s cpu x j t' c ran warm in
  let s2 := s1 <| sched_state ::= <[cpu := STATE_IDLE]> |> <| sched_current ::= <[cpu := ""]> |> <| jobs_finished ::= Z.succ |> in
  if t' <=? 0 then inv s2 (<[x := Finished]> loc) ∧ turn cpu s loc s2 (<[x := Finished]> loc)
  else inv s1 loc ∧ turn cpu s loc s1 loc.
Proof.
  intros [Hm Hl] Hc Hin Huniq Hj Ht Ht' Hcok Hran Hwarm s1 s2. assert (loc x = OnCpu cpu) as Hloc by by apply Huniq.
  assert (machine_ok s1) as Hm1 by by apply machine_after. assert (located s1 loc) as Hl1 by by apply located_run.
  assert (same_jobs s s1) as Hsame by by apply after_run_same.
  assert (∀ y, y ∈ job_name_list s → remaining s1 y = if decide (loc y = OnCpu cpu) then Z.max 0 (remaining s y - rate s cpu y) else remaining s y) as Hrem.
  { intros y Hy. unfold s1. rewrite (remaining_after _ _ _ _ _ _ _ _ _ Hj). destruct (decide (x = y)) as [<-|Hxy].
    - rewrite decide_True, Ht' by done. unfold remaining. rewrite Hj. destruct j. simpl in Ht. by rewrite Ht.
    - rewrite decide_False; [done|]. rewrite Huniq by done. congruence. }
  assert (∀ i, i ≠ cpu → caches s1 !! i = caches s !! i) as Hcaches by (intros i Hi; simpl; by rewrite lookup_insert_ne).
  assert (∀ s' y, y ∈ job_name_list s → remaining s' y = remaining s1 y → y = x → remaining s' y = t') as Hx.
  { intros s' y Hy -> ->. rewrite Hrem, decide_True by done. rewrite Ht'. unfold remaining. rewrite Hj. destruct j. simpl in Ht. by rewrite Ht. }
  destruct (Z.leb_spec t' 0) as [Hdone|Hmore].
  - assert (t' = 0) as H0 by lia. split; [split; [by apply (machine_frame s1)|]|].
    + eapply (located_finish s1); try done; [simpl; by rewrite lookup_insert_eq|]. simpl. by rewrite H0.
    + split; try done.
      * intros i Hi. simpl. by rewrite !lookup_insert_ne.
      * intros y Hy. destruct (decide (x = y)) as [<-|Hxy].
        -- rewrite fn_lookup_insert, decide_True by done. rewrite (Hx s2 x Hy eq_refl eq_refl), H0. done.
        -- rewrite fn_lookup_insert_ne by done. rewrite decide_False; [done|]. rewrite Huniq by done. congruence.
  - split; [done|]. split; try done.
    + intros i Hi. split_and!; [done..|]. by apply Hcaches.
    + intros y Hy. case_decide as Hy'; [|done]. pose proof Hy' as Hyx. apply Huniq in Hyx; [|done].
      rewrite (Hx s1 y Hy eq_refl Hyx). destruct (Z.leb_spec t' 0); [lia|done].
Qed.

Lemma wp_run_one_tick cpu x s loc w (Q : unit → scheduler → world → Prop) E :
  0 ≤ cache_size cfg → inv s loc → 0 ≤ cpu < n → sched_current s !! cpu = Some x → x ∈ job_name_list s →
  (∀ y, y ∈ job_name_list s → loc y = OnCpu cpu ↔ y = x) →
  (∀ s' loc' w', inv s' loc' → turn cpu s loc s' loc' → rng w' = rng w → Q tt s' w') → wp (run_one_tick cfg cpu) Q E s w.
Proof.
  intros Hsize Hi Hc Hx Hin Huniq HQ. destruct (Hi) as [Hm Hl]. unfold run_one_tick. wp_pures. rewrite Hx. wp_pures.
  destruct (m_job _ Hm _ Hin) as (j & Hj & [Hname [t Ht] Haff]). rewrite Hj. wp_pures.
  destruct (m_cache _ Hm cpu Hc) as (c & Hcc & Hcok). eapply wp_cache_call; [exact Hcc|]. unfold get_rate. wp_pures.
  rewrite (cache_id _ _ _ Hcc). set (r := if bool_decide _ then _ else _).
  assert (r = rate s cpu x) as Hr by (unfold rate; by rewrite Hcc). clearbody r. subst r.
  destruct (has_lookup _ _ _ (m_ran _ Hm) Hc) as [ran Hran]. destruct (has_lookup _ _ _ (m_warm _ Hm) Hc) as [warm Hwarm].
  unfold dict_add. wp_pures. rewrite Hran. wp_pures. set (t' := Z.max 0 (t - rate s cpu x)).
  assert (∀ warm', s <| stats_ran := <[cpu := ran + 1]> (stats_ran s) |> <| stats_ran_warm := warm' |> <| jobs := <[x := j <| time_left := [t'] |>]> (jobs s) |> =
    after_run s cpu x j t' c (<[cpu := ran + 1]> (stats_ran s)) warm') as Heq.
  { intros warm'. unfold after_run, update. simpl. by rewrite (insert_id (caches s)). }
  assert (∀ warm' w1, has n warm' → rng w1 = rng w → wp (
    (on_cache cpu (λ jobs, update_warming cfg jobs x));;
    when (t' <=? 0) (modify (λ s, s <| sched_state ::= <[cpu := STATE_IDLE]> |> <| sched_current ::= <[cpu := ""]> |> <| jobs_finished ::= Z.succ |>))) Q E
    (s <| stats_ran := <[cpu := ran + 1]> (stats_ran s) |> <| stats_ran_warm := warm' |> <| jobs := <[x := j <| time_left := [t'] |>]> (jobs s) |>) w1) as Hend.
  { intros warm' w1 Hwarm' Hw1. rewrite Heq. wp_pures. eapply wp_cache_call; [simpl; by rewrite lookup_insert_eq|]. eapply wp_update_warming; [done| |].
    { exact (same_jobs_cache _ _ _ (after_run_same s cpu x j t' c (<[cpu := ran + 1]> (stats_ran s)) warm' Hj) Hcok). }
    intros c' Hc' _. wp_pures. set (s3 := _ <| caches := _ |>).
    assert (s3 = after_run s cpu x j t' c' (<[cpu := ran + 1]> (stats_ran s)) warm') as ->.
    { unfold s3, after_run, update. simpl. by rewrite insert_insert_eq. }
    assert (cache_ok cfg (jobs s) c') as Hcok'.
    { eapply same_jobs_cache; [|exact Hc']. intros y. symmetry. by apply after_run_same. }
    pose proof (turn_done s loc cpu x j t t' c' _ warm' Hi Hc Hin Huniq Hj Ht eq_refl Hcok' (has_insert _ _ cpu (ran + 1) (m_ran _ Hm)) Hwarm') as Hdone.
    cbv zeta in Hdone. destruct (t' <=? 0); wp_pures; destruct Hdone; by eapply HQ. }
  assert (∀ warm' w1, has n warm' → rng w1 = rng w → wp (
    when (trace cfg) (put_str (name j +:+ " ");;
      when (trace_time_left cfg) (t ← list_get [t'] 0; put_str ("[" +:+ fmt_d 3 t +:+ "] ")));;
    (on_cache cpu (λ jobs, update_warming cfg jobs x));;
    when (t' <=? 0) (modify (λ s, s <| sched_state ::= <[cpu := STATE_IDLE]> |> <| sched_current ::= <[cpu := ""]> |> <| jobs_finished ::= Z.succ |>))) Q E
    (s <| stats_ran := <[cpu := ran + 1]> (stats_ran s) |> <| stats_ran_warm := warm' |> <| jobs := <[x := j <| time_left := [t'] |>]> (jobs s) |>) w1) as Hprint.
  { intros warm' w1 Hwarm' Hw1. pose proof (Hend warm' w1 Hwarm' Hw1) as Hgo.
    destruct (trace cfg), (trace_time_left cfg); wp_pures; simpl; try (wp_pures; simpl); by apply wp_unbind, Hend. }
  destruct (1 <? rate s cpu x); wp_pures; simpl.
  - rewrite Hwarm. wp_pures. rewrite Ht. simpl. wp_pures.
    pose proof (Hprint _ w (has_insert _ _ cpu (warm + 1) (m_warm _ Hm)) eq_refl) as Hgo. autorewrite with wp in Hgo. exact Hgo.
  - rewrite Ht. simpl. wp_pures. pose proof (Hprint _ w (m_warm _ Hm) eq_refl) as Hgo. autorewrite with wp in Hgo. exact Hgo.
Qed.

Lemma wp_run_cpu cpu s loc w (Q : unit → scheduler → world → Prop) E :
  0 ≤ cache_size cfg → inv s loc → 0 ≤ cpu < n →
  (∀ s' loc' w', inv s' loc' → turn cpu s loc s' loc' → rng w' = rng w → Q tt s' w') → wp (run_cpu cfg cpu) Q E s w.
Proof.
  intros Hsize Hi Hc HQ. unfold run_cpu. wp_pures.
  assert (∀ s' loc' w', inv s' loc' → turn cpu s loc s' loc' → rng w' = rng w → wp (
    s ← get; cache_string ← for_acc (job_name_list s) "" (λ x job_name,
      c ← on_cache cpu (λ _, get_cache_state job_name); mret (x +:+ c));
    when (trace cfg) (when (trace_cache cfg) (put_str ("cache[" +:+ cache_string +:+ "]"));; put_str "     ")) Q E s' w') as Hend.
  { intros s1 loc1 w1 Hi1 Ht1 Hw1. wp_pures. destruct (m_cache _ (proj1 Hi1) cpu Hc) as (c & Hcc & _).
    apply (wp_for_acc (λ _ _ s' w', s' = s1 ∧ w' = w1)); [done| |].
    - intros pre y post b s' w' _ [-> ->]. wp_pures. eapply wp_cache_call; [exact Hcc|]. unfold get_cache_state. wp_pures.
      by rewrite (cache_id _ _ _ Hcc).
    - intros b s' w' [-> ->]. destruct (trace cfg), (trace_cache cfg); wp_pures; by eapply HQ. }
  destruct (l_cpu _ _ (proj2 Hi) cpu Hc) as (x & Hx & [[Hst Hno]|(Hst & Hin & Huniq)]); rewrite Hst; wp_pures; simpl.
  - assert (turn cpu s loc s loc) as Ht.
    { split; try done; intros y Hy; rewrite decide_False by auto; done. }
    destruct (trace cfg), (trace_time_left cfg); wp_pures; by apply wp_unbind, (Hend s loc).
  - eapply wp_run_one_tick; [done..|]. intros s' loc' w' Hi' Ht' Hw'. wp_pures. by apply wp_unbind, (Hend s' loc').
Qed.

(** The time left and the place of a job once the CPUs of [l] have had their
    turns, from the state before *)
Definition left_after (l : list Z) s loc (y : string) : Z :=
  match loc y with
  | OnCpu c => if bool_decide (c ∈ l) then Z.max 0 (remaining s y - rate s c y) else remaining s y
  | _ => remaining s y
  end.
Definition place_after (l : list Z) s loc (y : string) : place :=
  match loc y with
  | OnCpu c => if bool_decide (c ∈ l) && (left_after l s loc y <=? 0) then Finished else OnCpu c
  | p => p
  end.

Record ran (l : list Z) s loc s' loc' : Prop := {
  r_names : job_name_list s' = job_name_list s;
  r_time : system_time s' = system_time s;
  r_static : same_jobs s s';
  r_left : ∀ y, y ∈ job_name_list s → remaining s' y = left_after l s loc y;
  r_place : ∀ y, y ∈ job_name_list s → loc' y = place_after l s loc y;
}.

Lemma ran_turn l cpu s loc s1 loc1 s2 loc2 : cpu ∉ l → ran l s loc s1 loc1 → caches s1 !! cpu = caches s !! cpu →
  turn cpu s1 loc1 s2 loc2 → ran (l ++ [cpu]) s loc s2 loc2.
Proof.
  intros Hcpu [R1 R2 R3 R4 R5] Hcache [T1 T2 T3 T4 T5 T6].
  assert (∀ y, rate s1 cpu y = rate s cpu y) as Hrate by (intros y; unfold rate; by rewrite Hcache).
  assert (∀ y, y ∈ job_name_list s → remaining s2 y = left_after (l ++ [cpu]) s loc y ∧
    loc2 y = place_after (l ++ [cpu]) s loc y) as Hy.
  { intros y Hy. specialize (T5 y). specialize (T6 y). rewrite R1, (R5 y Hy), Hrate, (R4 y Hy) in T5. rewrite R1, (R5 y Hy) in T6.
    rewrite T5 in T6 |- * by done. rewrite T6 by done. clear T5 T6. unfold place_after, left_after in *. destruct (loc y) as [c|q|] eqn:Hloc.
    - destruct (decide (c = cpu)) as [->|Hc].
      + rewrite !(bool_decide_false (cpu ∈ l)), !(bool_decide_true (cpu ∈ l ++ [cpu])) by set_solver. simpl.
        by rewrite !decide_True by done.
      + assert (bool_decide (c ∈ l ++ [cpu]) = bool_decide (c ∈ l)) as -> by (apply bool_decide_ext; set_solver).
        destruct (_ && _); by rewrite !decide_False by congruence.
    - by rewrite !decide_False by done.
    - by rewrite !decide_False by done. }
  split; [congruence|congruence| |by apply Hy|by apply Hy]. intros y. by rewrite T3, R3.
Qed.

Lemma wp_run_jobs s loc w (Q : unit → scheduler → world → Prop) E :
  0 ≤ cache_size cfg → inv s loc → rng_ok w →
  (∀ s' loc' w', inv s' loc' → ran (range 0 n) s loc s' loc' → rng_ok w' → Q tt s' w') → wp (run_jobs cfg) Q E s w.
Proof.
  intros Hsize Hi Hw HQ. unfold run_jobs.
  apply (wp_for (λ pre s' w', ∃ loc', inv s' loc' ∧ ran pre s loc s' loc' ∧ rng_ok w' ∧
    ∀ c, c ∉ pre → caches s' !! c = caches s !! c)).
  - exists loc. split_and!; [done| |done|done]. split; try done; intros y Hy; unfold place_after, left_after; by destruct (loc y).
  - intros pre cpu post s1 w1 Hr (loc1 & Hi1 & Hran & Hw1 & Hcaches).
    assert (0 ≤ cpu < n) as Hc by (apply elem_of_range; rewrite Hr; set_solver).
    assert (cpu ∉ pre) as Hpre. { pose proof (NoDup_range 0 n) as Hnd. rewrite Hr in Hnd. apply NoDup_app in Hnd as (_ & Hd & _). intros H. apply (Hd cpu H). by left. }
    eapply wp_run_cpu; [done..|]. intros s2 loc2 w2 Hi2 Ht2 Hw2. exists loc2. split_and!; [done| | |].
    + eapply ran_turn; [done..|by apply Hcaches|done].
    + intros k. rewrite Hw2. apply Hw1.
    + intros c Hc'. destruct (t_other _ _ _ _ _ Ht2 c) as (_ & _ & ->); [set_solver|]. apply Hcaches. set_solver.
  - intros s1 w1 (loc1 & ? & ? & ? & _). by eapply HQ.
Qed.

Lemma wp_print_sched_queues s loc w (Q : unit → scheduler → world → Prop) E :
  inv s loc → (per_cpu_queues cfg = false → 1 ≤ n) → (∀ w', rng w' = rng w → Q tt s w') → wp (print_sched_queues cfg) Q E s w.
Proof.
  intros [Hm Hl] Hn HQ. unfold print_sched_queues. wp_pures. destruct (trace_sched cfg); [|by apply HQ].
  assert (∀ l w1 Q', (∀ w', rng w' = rng w1 → Q' tt s w') →
    wp (for_ l (λ job_name : string, put_str (job_name +:+ " "))) Q' E s w1) as Hlist.
  { intros l w1 Q' HQ'. apply (wp_for (λ _ s' w', s' = s ∧ rng w' = rng w1)); [done| |by intros s' w' [-> ?]; apply HQ'].
    intros pre x post s' w' _ [-> Hw']. by wp_pures. }
  destruct (per_cpu_queues cfg) eqn:Hper; wp_pures.
  - apply (wp_for (λ _ s' w', s' = s ∧ rng w' = rng w)); [done| |by intros s' w' [-> ?]; wp_pures; apply HQ].
    intros pre cpu post s' w' Hr [-> Hw']. assert (0 ≤ cpu < n) as Hc by (apply elem_of_range; rewrite Hr; set_solver).
    destruct (l_queue _ _ Hl _ (queue_of_is _ Hc)) as (l & Hq & _). wp_pures. eapply wp_read_queue; [done..|]. wp_pures.
    apply Hlist. intros w2 Hw2. wp_pures. split; [done|]. simpl in *. congruence.
  - destruct (l_queue _ _ Hl single_sched_queue) as (l & Hq & _); [unfold is_queue; by rewrite Hper|]. rewrite Hq. wp_pures.
    apply Hlist. intros w2 Hw2. wp_pures. apply HQ. simpl in *. congruence.
Qed.

(** ** A tick *)

(** From [s] the clock has ticked: [s1] is the state after the dispatch. *)
Record ticked s loc s1 loc1 s' loc' : Prop := {
  k_frame : frame s loc s1 loc1;
  k_dispatched : inv s1 loc1;
  k_busy : ∀ cpu, 0 ≤ cpu < n → busy s1 cpu;
  k_inv : inv s' loc';
  k_time : system_time s' = system_time s + 1;
  k_ran : ∀ x, x ∈ job_name_list s → remaining s' x = left_after (range 0 n) s1 loc1 x ∧ loc' x = place_after (range 0 n) s1 loc1 x;
  k_jobs : job_name_list s' = job_name_list s ∧ same_jobs s s';
}.

Lemma wp_clock_tick s loc w (Q : unit → scheduler → world → Prop) E :
  0 ≤ cache_size cfg → time_slice cfg ≠ 0 → 1 ≤ n → steal_ok → inv s loc → rng_ok w →
  (∀ s' loc' s1 loc1 w', ticked s loc s1 loc1 s' loc' → rng_ok w' → Q tt s' w') → wp (tick cfg) Q E s w.
Proof.
  intros Hsize Hslice Hn Hok Hi Hw HQ. unfold tick. wp_pures.
  eapply wp_handle_interrupts; [done..|]. intros s1 loc1 w1 Hi1 Hf1 Hw1. wp_pures.
  eapply wp_steal_jobs; [done..|].
  intros s2 loc2 w2 Hi2 Hf2 Hw2. wp_pures. eapply wp_assign_jobs; [done..|]. intros s3 loc3 w3 Hi3 Hf3 Hb3 Hw3. wp_pures.
  assert (frame s loc s3 loc3) as Hf by eauto using frame_trans.
  eapply wp_run_jobs; [done..|]. intros s4 loc4 w4 Hi4 Hr4 Hw4. wp_pures. eapply wp_print_sched_queues; [done..|]. intros w5 Hw5.
  assert (∀ w', rng w' = rng w4 → Q tt (s4 <| system_time ::= Z.succ |>) w') as Hend.
  { intros w' Hw'. eapply (HQ _ loc4 s3 loc3); [|intros k; rewrite Hw'; apply Hw4]. destruct Hr4 as [R1 R2 R3 R4 R5], Hf as [F1 F2 F3 F4 F5].
    split; try done.
    - destruct Hi4 as [Hm4 [L1 L2 L3 L4]]. split; [by apply (machine_frame s4)|by split].
    - simpl. lia.
    - rewrite <-F1. intros x Hx. split; [by apply (R4 x)|by apply R5].
    - split; [simpl; congruence|]. intros y. simpl. by rewrite (R3 y), F2. }
  wp_pures. destruct (trace cfg); wp_pures; by apply Hend.
Qed.

(** *** Progress *)

(** The ticks still needed at most *)
Definition ticks_left s loc (x : string) : Z := if decide (loc x = Finished) then 0 else Z.max 1 (remaining s x).
Definition work s loc : Z := sum_of (ticks_left s loc) (job_name_list s).

Lemma unfinished s loc : located s loc → jobs_finished s < num_jobs s → ∃ x, x ∈ job_name_list s ∧ loc x ≠ Finished.
Proof.
  intros [_ _ _ ->]. unfold num_jobs. induction (job_name_list s) as [|x l IH]; [done|]. rewrite sum_of_cons. unfold len in *. simpl.
  case_decide as Hx; [|intros _; exists x; split; [by left|done]]. intros Hlt. destruct IH as (y & ? & ?); [lia|]. exists y. split; [by right|done].
Qed.

Lemma some_cpu x j : 1 ≤ n → job_ok x j → ∃ c, 0 ≤ c < n ∧ allowed c j = true.
Proof.
  intros Hn Hok. destruct (affinity j) as [|c a] eqn:Haff; [exists 0; split; [lia|by apply any_cpu]|]. exists c.
  split; [apply (j_affinity _ _ Hok); rewrite Haff; by left|]. unfold allowed. rewrite Haff. apply orb_true_iff. right.
  apply bool_decide_eq_true. by left.
Qed.

(** Without a mistaken theft a job waits for a CPU it may run on. *)
Lemma waits_allowed s x j q : steal_safe s → per_cpu_queues cfg = true → x ∈ job_name_list s → jobs s !! x = Some j → 0 ≤ q < n →
  waits q j → allowed q j = true.
Proof.
  intros Hsafe Hper Hx Hj Hq [?|[Hpeek Hint]]; [done|]. destruct (affinity j) as [|c a] eqn:Haff; [by apply any_cpu|].
  rewrite (Hsafe (conj Hper Hpeek) x j q Hx Hj) in Hint; [done|by rewrite Haff|done].
Qed.

(** After the dispatch some job runs. *)
Lemma someone_runs s loc : 1 ≤ n → inv s loc → (∀ cpu, 0 ≤ cpu < n → busy s cpu) → steal_safe s → jobs_finished s < num_jobs s →
  ∃ x cpu, x ∈ job_name_list s ∧ 0 ≤ cpu < n ∧ loc x = OnCpu cpu.
Proof.
  intros Hn [Hm Hl] Hbusy Hsafe Hlt. destruct (unfinished _ _ Hl Hlt) as (x & Hin & Hnf).
  destruct (m_job _ Hm _ Hin) as (j & Hj & Hjok). pose proof (l_place _ _ Hl _ _ Hin Hj) as Hp.
  destruct (loc x) as [cpu|q|] eqn:Hloc; [by exists x, cpu; destruct Hp| |done]. destruct Hp as [Hq Hallow].
  assert (∃ cpu, 0 ≤ cpu < n ∧ queue_of cpu = q ∧ allowed cpu j = true) as (cpu & Hc & <- & Hac).
  { unfold is_queue, queue_of in *. destruct (per_cpu_queues cfg) eqn:Hper; [exists q; split_and!; [lia|lia|done|]; by eapply waits_allowed; eauto|].
    destruct (some_cpu x j Hn Hjok) as (c & Hc & Hac). by exists c. }
  destruct (l_queue _ _ Hl _ (queue_of_is _ Hc)) as (l & Hql & _ & Hiff). destruct (Hbusy cpu Hc) as [Hrun|Hno].
  - destruct (l_cpu _ _ Hl cpu Hc) as (y & Hy & [[Hidle _]|(_ & Hyin & Huniq)]); [by rewrite Hidle in Hrun|]. exists y, cpu. split_and!; [done|lia|lia|by apply Huniq].
  - rewrite (Hno l x j) in Hac; [done..| |done]. by apply Hiff.
Qed.

Lemma static_lookup s s' x j : same_jobs s s' → jobs s !! x = Some j → ∃ j', jobs s' !! x = Some j' ∧ static j' = static j.
Proof. intros Hs Hj. specialize (Hs x). rewrite Hj in Hs. destruct (jobs s' !! x) as [j'|]; [|done]. apply (inj Some) in Hs. by exists j'. Qed.

Lemma work_decreases s loc s1 loc1 s' loc' : 1 ≤ n → 1 ≤ cache_rate_warm cfg → steal_safe s → ticked s loc s1 loc1 s' loc' →
  jobs_finished s < num_jobs s → work s' loc' < work s loc.
Proof.
  intros Hn Hwarm Hsafe [Hf Hi1 Hb Hi' Ht Hran [Hnames _]] Hlt. destruct Hf as [F1 F2 F3 F4 F5]. unfold work. rewrite Hnames.
  assert (∀ x, remaining s1 x = remaining s x) as Hrem by (intros x; unfold remaining; by rewrite F2).
  assert (∀ c x, 0 ≤ c < n → 1 ≤ rate s1 c x) as Hrate.
  { intros c x Hc. unfold rate. destruct (m_cache _ (proj1 Hi1) c Hc) as (k & -> & _). unfold cache_rate_cold. case_match; lia. }
  assert (∀ x c, x ∈ job_name_list s → loc1 x = OnCpu c → 0 ≤ c < n ∧ ticks_left s' loc' x < ticks_left s loc x) as Hrun.
  { intros x c Hx Hc. assert (0 ≤ c < n) as Hcn.
    { rewrite <-F1 in Hx. destruct (m_job _ (proj1 Hi1) _ Hx) as (j & Hj & _). pose proof (l_place _ _ (proj2 Hi1) _ _ Hx Hj) as Hp. rewrite Hc in Hp. apply Hp. }
    split; [done|]. destruct (Hran x Hx) as [Hl Hp]. unfold ticks_left. rewrite Hl, Hp. unfold place_after, left_after. rewrite Hc, Hrem.
    rewrite bool_decide_true by by apply elem_of_range. rewrite (decide_False (P:=loc x = Finished)) by (rewrite <-F5, Hc; done).
    specialize (Hrate c x Hcn). simpl. destruct (Z.leb_spec (Z.max 0 (remaining s x - rate s1 c x)) 0); [rewrite decide_True by done|rewrite decide_False by done]; lia. }
  destruct (someone_runs s1 loc1) as (x & c & Hx & _ & Hc); [done..|intros ?; rewrite F1, F2; by apply Hsafe|unfold num_jobs in *; rewrite F1, F4; done|]. rewrite F1 in Hx.
  apply (sum_of_lt _ _ _ x); [done|by apply (Hrun x c)|]. intros y Hy. destruct (loc1 y) as [cy|q|] eqn:Hly.
  - destruct (Hrun y cy Hy Hly). lia.
  - destruct (Hran y Hy) as [Hl Hp]. unfold ticks_left. rewrite Hl, Hp. unfold place_after, left_after. rewrite Hly, Hrem.
    rewrite !decide_False; [lia|rewrite <-F5, Hly; done|done].
  - destruct (Hran y Hy) as [Hl Hp]. unfold ticks_left. rewrite Hp. unfold place_after. rewrite Hly.
    rewrite !decide_True; [lia|rewrite <-F5, Hly; done|done].
Qed.

Lemma steal_safe_same s s' : same_jobs s s' → job_name_list s' = job_name_list s → steal_safe s → steal_safe s'.
Proof.
  intros Hs Hn Hsafe Hst. pose proof (Hsafe Hst) as Hno. rewrite Hn. intros x j cpu Hx Hj Haff Hc.
  destruct (same_jobs_lookup _ _ _ _ Hs Hj) as (j0 & Hj0 & He). pose proof (Hno x j0 cpu Hx Hj0) as H. unfold int_in_job in *.
  pose proof (f_equal run_time He) as E1. pose proof (f_equal working_set_size He) as E2. pose proof (f_equal affinity He) as E3.
  simpl in E1, E2, E3. rewrite <-E1, <-E2. apply H; [congruence|done].
Qed.

Lemma wp_print_stats s w (Q : unit → scheduler → world → Prop) E : machine_ok s → 0 < system_time s →
  (∀ w', Q tt s w') → wp (print_stats cfg) Q E s w.
Proof.
  intros Hm Ht HQ. unfold print_stats. wp_pures. apply (wp_for (λ _ s' _, s' = s)); [done| |by intros s' w' ->; wp_pures].
  intros pre cpu post s' w' Hr ->. assert (0 ≤ cpu < n) as Hc by (apply elem_of_range; rewrite Hr; set_solver).
  destruct (has_lookup _ _ _ (m_ran _ Hm) Hc) as [a Ha]. destruct (has_lookup _ _ _ (m_warm _ Hm) Hc) as [b Hb].
  unfold percent, f_div. rewrite f_of_Z_nonzero by done. wp_pures. rewrite Ha. wp_pures. rewrite Hb. by wp_pures.
Qed.

Lemma every_finished s loc : located s loc → num_jobs s ≤ jobs_finished s → ∀ x, x ∈ job_name_list s → loc x = Finished.
Proof.
  intros [_ _ _ ->]. unfold num_jobs, len. induction (job_name_list s) as [|y l IH]; [intros _ x []%elem_of_nil|].
  rewrite sum_of_cons. simpl. assert (∀ l, sum_of (λ x, if decide (loc x = Finished) then 1 else 0) l ≤ Z.of_nat (length l)) as Hle.
  { clear. induction l as [|z l IH]; [done|]. rewrite sum_of_cons. simpl. case_decide; lia. }
  specialize (Hle l). case_decide as Hy; [|lia]. intros Hlt x [->|Hx]%elem_of_cons; [done|]. apply IH; [lia|done].
Qed.

(** ** The run *)

(** At the start of a run *)
Definition fresh s loc : Prop := inv s loc ∧ jobs_finished s = 0 ∧ 0 < num_jobs s.

Lemma wp_run fuel s loc w (Q : unit → scheduler → world → Prop) E :
  0 ≤ cache_size cfg → time_slice cfg ≠ 0 → 1 ≤ n → 1 ≤ cache_rate_warm cfg → steal_ok → steal_safe s → fresh s loc → rng_ok w →
  work s loc < Z.of_nat fuel →
  (∀ s' loc' w', inv s' loc' → job_name_list s' = job_name_list s → same_jobs s s' →
     (∀ x, x ∈ job_name_list s → loc' x = Finished) → 0 < system_time s' ≤ work s loc → Q tt s' w') →
  wp (run cfg fuel) Q E s w.
Proof.
  intros Hsize Hslice Hn Hwarm Hok Hsafe ([Hm Hl] & Hfin & Hnum) Hw Hfuel HQ. unfold run. wp_pures.
  set (s0 := s <| system_time := 0 |> <| jobs_finished := 0 |>).
  assert (inv s0 loc) as Hi0 by (split; [by apply (machine_frame s)|destruct Hl as [L1 L2 L3 L4]; split; try done; by rewrite Hfin in L4]).
  assert (∀ s' loc', 0 ≤ work s' loc') as Hnn by (intros s' loc'; apply sum_of_nonneg; intros x _; unfold ticks_left; case_decide; lia).
  apply (wp_while_bound (λ m _ s' w', ∃ loc', inv s' loc' ∧ rng_ok w' ∧ job_name_list s' = job_name_list s ∧ same_jobs s s' ∧
    Z.of_nat m = work s' loc' ∧ system_time s' + work s' loc' ≤ work s loc ∧ 0 ≤ system_time s' ∧
    (system_time s' = 0 → jobs_finished s' = 0)) _ _ _ _ (Z.to_nat (work s loc))).
  - exists loc. split_and!; try done. by rewrite Z2Nat.id by apply Hnn.
  - specialize (Hnn s loc). lia.
  - intros m [] s1 w1 (loc1 & Hi1 & Hw1 & Hnames & Hsame & Hmeas & Htime & Ht0 & Hstart). wp_pures.
    destruct (Z.ltb_spec (jobs_finished s1) (num_jobs s1)); wp_pures.
    + assert (steal_safe s1) as Hsafe1 by by eapply steal_safe_same. eapply wp_clock_tick; [done..|]. intros s2 loc2 s3 loc3 w2 Htick Hw2. wp_pures.
      pose proof (work_decreases _ _ _ _ _ _ Hn Hwarm Hsafe1 Htick ltac:(done)) as Hdec. pose proof (Hnn s2 loc2).
      exists (Z.to_nat (work s2 loc2)). split; [lia|]. exists loc2. destruct Htick as [_ _ _ Hi2 Ht2 _ [Hn2 Hs2]].
      split_and!; [done|done|congruence| |lia|lia|lia|lia]. intros y. by rewrite Hs2.
    + pose proof (every_finished _ _ (proj2 Hi1) ltac:(done)) as Hall. rewrite Hnames in Hall. pose proof (Hnn s1 loc1).
      assert (0 < system_time s1) as Htpos.
      { destruct (Z.eq_dec (system_time s1) 0) as [Hz|]; [|lia]. specialize (Hstart Hz). unfold num_jobs in *. rewrite Hnames in *. lia. }
      destruct (solve cfg); [|eapply HQ; [done..|lia]]. apply wp_print_stats; [apply Hi1|done|]. intros w2. eapply HQ; [done..|lia].
Qed.

(** ** The constructor *)

(** What parsing can raise *)
Definition bad_input {S} : exn → S → world → Prop := λ e _ _, e = ValueError ∨ e = SystemExit 1.

Record parsed s : Prop := {
  p_nodup : NoDup (job_name_list s);
  p_job : ∀ x, x ∈ job_name_list s → ∃ j, jobs s !! x = Some j ∧ job_ok x j;
  p_count : jobs_finished s = 0;
}.

Lemma wp_draw_ten k s w (Q : Z → scheduler → world → Prop) E : (∀ r w', rng w' = rng w → Q r s w') → wp (draw_ten k) Q E s w.
Proof. intros HQ. unfold draw_ten, f_div. wp_pures. rewrite f_of_Z_nonzero by lia. wp_pures. by apply HQ. Qed.

Lemma wp_random_jobs s w (Q : string → scheduler → world → Prop) E : (∀ l w', rng w' = rng w → Q l s w') → wp (random_jobs cfg) Q E s w.
Proof.
  intros HQ. unfold random_jobs. apply (wp_for_acc (λ _ _ s' w', s' = s ∧ rng w' = rng w)); [done| |by intros l s' w' [-> ?]; apply HQ].
  intros pre x post l s' w' _ [-> Hw']. wp_pures. apply wp_draw_ten. intros a w1 Hw1. wp_pures. apply wp_draw_ten. intros b w2 Hw2. wp_pures.
  split; [done|]. congruence.
Qed.

Lemma wp_parse_job entry s w (Q : unit → scheduler → world → Prop) : parsed s →
  (∀ s' w', parsed s' → job_name_list s' ≠ [] → rng w' = rng w → Q tt s' w') → wp (parse_job entry) Q bad_input s w.
Proof.
  intros [P1 P2 P3] HQ. unfold parse_job, py_int.
  destruct (split_on ":" entry) as [|x [|t1 [|t2 [|]]]]; wp_pures; try by right.
  destruct (int_of_str t1) as [rt|]; [wp_pures|by left]. destruct (int_of_str t2) as [ws|]; [wp_pures|by left].
  case_bool_decide as Hx; wp_pures; [by right|]. apply HQ; [|simpl; by destruct (job_name_list s)|done]. split; [| |done]; simpl.
  - apply NoDup_app. split_and!; [done| |apply NoDup_singleton]. by intros y Hy ->%list_elem_of_singleton.
  - intros y [Hy| ->%list_elem_of_singleton]%elem_of_app.
    + rewrite lookup_insert_ne by (by intros ->). by apply P2.
    + rewrite lookup_insert_eq. eexists. split; [done|]. split; simpl; [done|by eauto|]. by intros c ?%elem_of_nil.
Qed.

Lemma wp_parse_affinity entry s w (Q : unit → scheduler → world → Prop) : parsed s →
  (∀ s' w', parsed s' → job_name_list s' = job_name_list s → rng w' = rng w → Q tt s' w') → wp (parse_affinity cfg entry) Q bad_input s w.
Proof.
  intros Hp HQ. unfold parse_affinity, py_int.
  destruct (split_on ":" entry) as [|x [|cpus [|]]]; wp_pures; try by right.
  case_bool_decide as Hx; simpl; wp_pures; [|by right].
  apply (wp_for (λ _ s' w', parsed s' ∧ job_name_list s' = job_name_list s ∧ rng w' = rng w)); [done| |intros s' w' (? & ? & ?); by apply HQ].
  intros pre cpu post s1 w1 _ ([P1 P2 P3] & Hnames & Hw1). wp_pures. destruct (P2 x) as (j & Hj & [J1 J2 J3]); [congruence|].
  rewrite Hj. wp_pures. destruct (int_of_str cpu) as [c|]; wp_pures; [|by left].
  destruct (Z.ltb_spec c 0), (Z.leb_spec n c); simpl; wp_pures; try by right.
  split; [|done]. split; [done| |done]. simpl. intros y Hy. destruct (decide (x = y)) as [->|]; [|rewrite lookup_insert_ne by done; by apply P2].
  rewrite lookup_insert_eq. eexists. split; [done|]. split; simpl; [done|done|].
  intros c' [?| ->%list_elem_of_singleton]%elem_of_app; [by apply J3|lia].
Qed.

(** *** Dealing the jobs to the queues *)

(** The jobs but those of [l] are in the queues of CPUs they may run on. *)
Record dealt (l : list string) s loc : Prop := {
  d_parsed : parsed s;
  d_rest : NoDup l ∧ ∀ x, x ∈ l → x ∈ job_name_list s;
  d_refs : ∀ cpu, 0 ≤ cpu < n → per_cpu_sched_queue s !! cpu = Some cpu;
  d_queue : ∀ cpu, 0 ≤ cpu < n → ∃ q, queues s !! cpu = Some q ∧ NoDup q ∧ ∀ x, x ∈ q ↔ x ∈ job_name_list s ∧ (x ∉ l) ∧ loc x = InQueue cpu;
  d_place : ∀ x j, x ∈ job_name_list s → x ∉ l → jobs s !! x = Some j → ∃ cpu, 0 ≤ cpu < n ∧ loc x = InQueue cpu ∧ allowed cpu j = true;
}.

Lemma deal_to l l' s loc cpu x j q : dealt l s loc → 0 ≤ cpu < n → l ≡ₚ x :: l' → jobs s !! x = Some j → allowed cpu j = true →
  queues s !! cpu = Some q →
  dealt l' (s <| queues := <[cpu := q ++ [x]]> (queues s) |>) (<[x := InQueue cpu]> loc).
Proof.
  intros [D1 [D2 D2'] D3 D4 D5] Hc Hp Hj Hallow Hq. assert (x ∈ l) as Hxl by (rewrite Hp; by left).
  assert (∀ y, y ∈ l ↔ y = x ∨ y ∈ l') as Hl by (intros y; by rewrite Hp, elem_of_cons).
  rewrite Hp in D2. apply NoDup_cons in D2 as [Hxl' Hnd]. split.
  - destruct D1. by split.
  - split; [done|]. intros y Hy. apply D2', Hl. by right.
  - done.
  - intros c Hc'. destruct (D4 c Hc') as (qc & Hqc & Hndc & Hiff). simpl. destruct (decide (cpu = c)) as [->|].
    + rewrite lookup_insert_eq. simplify_eq. eexists. split; [done|]. split.
      { apply NoDup_app. split_and!; [done| |apply NoDup_singleton]. intros y Hy ->%list_elem_of_singleton. by apply Hiff in Hy as (_ & ? & _). }
      intros y. rewrite elem_of_app, list_elem_of_singleton, Hiff, Hl. destruct (decide (x = y)) as [->|].
      * rewrite fn_lookup_insert. naive_solver.
      * rewrite fn_lookup_insert_ne by done. naive_solver.
    + rewrite lookup_insert_ne by done. exists qc. split_and!; [done..|]. intros y. rewrite Hiff, Hl. destruct (decide (x = y)) as [->|].
      * rewrite fn_lookup_insert. naive_solver.
      * rewrite fn_lookup_insert_ne by done. naive_solver.
  - intros y jy Hy Hyl Hjy. simpl in *. destruct (decide (x = y)) as [->|].
    + rewrite fn_lookup_insert. simplify_eq. eauto.
    + rewrite fn_lookup_insert_ne by done. apply D5; [done| |done]. rewrite Hl. naive_solver.
Qed.

Lemma wp_deal_one l cpu s loc w (Q : list string → scheduler → world → Prop) E : per_cpu_queues cfg = true →
  dealt l s loc → 0 ≤ cpu < n →
  ((∀ x j, x ∈ l → jobs s !! x = Some j → allowed cpu j = false) → Q l s w) →
  (∀ l' s' loc' x, dealt l' s' loc' → l ≡ₚ x :: l' → jobs s' = jobs s → job_name_list s' = job_name_list s → Q l' s' w) →
  wp (deal_one l cpu) Q E s w.
Proof.
  intros Hper Hd Hc Hno Hyes. unfold deal_one. wp_pures.
  apply (wp_for_ret (λ pre _ s' w', s' = s ∧ w' = w ∧ ∀ x j, x ∈ pre → jobs s !! x = Some j → allowed cpu j = false)).
  { split_and!; [done..|]. by intros x j ?%elem_of_nil. }
  2: { intros [] s' w' (-> & -> & H). wp_pures. by apply Hno. }
  intros pre x post [] s' w' Hl (-> & -> & Hpre). wp_pures. assert (x ∈ l) as Hxl by (rewrite Hl; set_solver).
  destruct (p_job _ (d_parsed _ _ _ Hd) x) as (j & Hj & _); [by apply (d_rest _ _ _ Hd)|]. rewrite Hj. wp_pures.
  destruct (allowed cpu j) eqn:Hallow; wp_pures.
  2: { split_and!; [done..|]. intros y jy [?| ->%list_elem_of_singleton]%elem_of_app ?; [by eapply Hpre|congruence]. }
  destruct (d_queue _ _ _ Hd cpu Hc) as (q & Hq & _). unfold queue_append, get_queue, set_queue. wp_pures.
  rewrite (d_refs _ _ _ Hd cpu Hc). wp_pures. rewrite Hq. wp_pures. rewrite (d_refs _ _ _ Hd cpu Hc). wp_pures.
  destruct (remove1_perm x l Hxl) as (l' & Hl' & Hp). unfold py_remove. wp_pures. rewrite Hl'. wp_pures.
  eapply Hyes; [by eapply deal_to|done..].
Qed.

Lemma wp_deal_jobs s loc w (Q : unit → scheduler → world → Prop) E : per_cpu_queues cfg = true → 1 ≤ n →
  dealt (job_name_list s) s loc →
  (∀ s' loc', dealt [] s' loc' → jobs s' = jobs s → job_name_list s' = job_name_list s → Q tt s' w) → wp (deal_jobs cfg (job_name_list s)) Q E s w.
Proof.
  intros Hper Hn Hd HQ. unfold deal_jobs.
  apply (wp_while (λ l s' w', (∃ loc', dealt l s' loc') ∧ jobs s' = jobs s ∧ job_name_list s' = job_name_list s ∧ w' = w) (λ l _ _, length l));
    [split_and!; by eauto|lia|].
  intros l s1 w1 ([loc1 Hd1] & Hj1 & Hn1 & ->). destruct (Z.ltb_spec 0 (len l)) as [Hlen|Hlen]; wp_pures.
  2: { destruct l; [|unfold len in Hlen; simpl in Hlen; lia]. by eapply HQ. }
  apply (wp_for_acc (λ pre l' s' w', (∃ loc', dealt l' s' loc') ∧ jobs s' = jobs s ∧ job_name_list s' = job_name_list s ∧ w' = w ∧
    ((length l' < length l)%nat ∨ l' = l ∧ ∀ c x j, c ∈ pre → x ∈ l → jobs s !! x = Some j → allowed c j = false))).
  - split_and!; [by eauto|done..|]. right. split; [done|]. by intros c x j ?%elem_of_nil.
  - intros pre cpu post l' s2 w2 Hr ([loc2 Hd2] & Hj2 & Hn2 & -> & Hor). assert (0 ≤ cpu < n) as Hc by (apply elem_of_range; rewrite Hr; set_solver).
    eapply wp_deal_one; [done..| |].
    + intros Hno. split_and!; [by eauto|done..|]. destruct Hor as [?|[-> Hpre]]; [by left|right]. split; [done|].
      intros c x j [?| ->%list_elem_of_singleton]%elem_of_app ??; [by eapply Hpre|]. eapply Hno; [done|congruence].
    + intros l3 s3 loc3 x Hd3 Hp Hj3 Hn3. split_and!; [by eauto|congruence..|]. left. apply Permutation_length in Hp. simpl in Hp.
      destruct Hor as [?|[-> _]]; lia.
  - intros l' s2 w2 (Hd2 & Hj2 & Hn2 & -> & Hor). wp_pures. split; [done|]. destruct Hor as [?|[-> Hall]]; [done|].
    exfalso. destruct l as [|x l]; [done|]. destruct (d_rest _ _ _ Hd1) as [_ Hin]. specialize (Hin x ltac:(by left)).
    destruct (p_job _ (d_parsed _ _ _ Hd1) x Hin) as (j & Hj & Hok). rewrite Hj1 in Hj.
    destruct (some_cpu x j Hn Hok) as (c & Hc & Hac).
    rewrite (Hall c x j) in Hac; [done| |by left|done]. by apply elem_of_range.
Qed.

(** The queues are made, no job has a CPU. *)
Record queued s loc : Prop := {
  u_parsed : parsed s;
  u_refs : ∀ cpu, 0 ≤ cpu < n → per_cpu_sched_queue s !! cpu = Some (queue_of cpu);
  u_queue : ∀ q, is_queue q → queue_ok s loc q;
  u_place : ∀ x j, x ∈ job_name_list s → jobs s !! x = Some j → ∃ q, loc x = InQueue q ∧ is_queue q ∧ (per_cpu_queues cfg = true → allowed q j = true);
}.

Lemma wp_make_own_queues s w (Q : unit → scheduler → world → Prop) E : per_cpu_queues cfg = true → 1 ≤ n → parsed s →
  (∀ s' loc' w', queued s' loc' → jobs s' = jobs s → job_name_list s' = job_name_list s → rng w' = rng w → Q tt s' w') →
  wp (make_queues cfg) Q E s w.
Proof.
  intros Hper Hn Hp HQ. assert (∀ c, queue_of c = c) as Hqo by (intros c; unfold queue_of; by rewrite Hper).
  assert (∀ q, is_queue q ↔ 0 ≤ q < n) as Hisq by (intros q; unfold is_queue; by rewrite Hper).
  unfold make_queues. rewrite Hper. wp_pures.
  apply (wp_for (λ pre s' w', parsed s' ∧ jobs s' = jobs s ∧ job_name_list s' = job_name_list s ∧ w' = w ∧
    ∀ c, c ∈ pre → per_cpu_sched_queue s' !! c = Some c ∧ queues s' !! c = Some [])).
  { split_and!; [done..|]. by intros c ?%elem_of_nil. }
  { intros pre cpu post s1 w1 _ ([] & Hj1 & Hn1 & -> & Hall). wp_pures. split_and!; [by split|done..|].
    intros c Hcp. simpl. destruct (decide (cpu = c)) as [->|]; [by rewrite !lookup_insert_eq|rewrite !lookup_insert_ne by done].
    apply Hall. set_solver. }
  intros s1 w1 (Hp1 & Hj1 & Hn1 & -> & Hall). wp_pures. eapply (wp_deal_jobs s1 (λ _, Finished)); [done..| |].
  { split; [done|split; [apply Hp1|done]| | |by intros x j ? []].
    - intros cpu Hc. apply Hall. by apply elem_of_range.
    - intros cpu Hc. exists []. split; [apply Hall; by apply elem_of_range|]. split; [constructor|]. intros x.
      split; [by intros ?%elem_of_nil|by intros (_ & _ & ?)]. }
  intros s2 loc2 Hd2 Hj2 Hn2. wp_pures.
  assert (queued s2 loc2) as Hq2.
  { destruct Hd2 as [D1 _ D3 D4 D5]. split; [done|intros; rewrite Hqo; auto| |].
    - intros q Hq%Hisq. destruct (D4 q Hq) as (l & Hl & Hnd & Hiff). exists l. split_and!; [done..|]. intros x. rewrite Hiff.
      split; [by intros (? & _ & ?)|intros [? ?]; split_and!; [done|by intros ?%elem_of_nil|done]].
    - intros x j Hx Hj. destruct (D5 x j Hx) as (c & ? & ? & ?); [by intros ?%elem_of_nil|done|]. exists c. rewrite Hisq. split; [done|]. by split. }
  apply (wp_for (λ _ s' w', s' = s2 ∧ rng w' = rng w)); [done| |].
  - intros pre cpu post s' w' Hr [-> Hw']. assert (0 ≤ cpu < n) as Hc by (apply elem_of_range; rewrite Hr; set_solver).
    destruct (u_queue _ _ Hq2 cpu) as (l & Hl & _); [by apply Hisq|]. unfold get_queue. wp_pures. rewrite (u_refs _ _ Hq2 cpu Hc), Hqo. wp_pures.
    rewrite Hl. by wp_pures.
  - intros s' w' [-> Hw']. wp_pures. apply (HQ s2 loc2); [done|congruence..|done].
Qed.

Lemma wp_make_central_queue s w (Q : unit → scheduler → world → Prop) E : per_cpu_queues cfg = false → parsed s →
  (∀ s' loc' w', queued s' loc' → jobs s' = jobs s → job_name_list s' = job_name_list s → rng w' = rng w → Q tt s' w') →
  wp (make_queues cfg) Q E s w.
Proof.
  intros Hper Hp HQ. assert (∀ c, queue_of c = single_sched_queue) as Hqo by (intros c; unfold queue_of; by rewrite Hper).
  assert (∀ q, is_queue q ↔ q = single_sched_queue) as Hisq by (intros q; unfold is_queue; by rewrite Hper).
  unfold make_queues. rewrite Hper. wp_pures. simpl.
  apply (wp_for (λ pre s' w', parsed s' ∧ jobs s' = jobs s ∧ job_name_list s' = job_name_list s ∧ w' = w ∧ queues s' !! single_sched_queue = Some pre)).
  { destruct Hp. split_and!; [by split|done..|simpl; by rewrite lookup_insert_eq]. }
  { intros pre x post s1 w1 _ ([] & Hj1 & Hn1 & -> & Hq1). wp_pures. rewrite Hq1. wp_pures. split_and!; [by split|done..|simpl; by rewrite lookup_insert_eq]. }
  intros s1 w1 (Hp1 & Hj1 & Hn1 & -> & Hq1). wp_pures.
  apply (wp_for (λ pre s' w', parsed s' ∧ jobs s' = jobs s ∧ job_name_list s' = job_name_list s ∧ w' = w ∧
    queues s' !! single_sched_queue = Some (job_name_list s) ∧ ∀ c, c ∈ pre → per_cpu_sched_queue s' !! c = Some single_sched_queue)).
  { split_and!; [done..|]. by intros c ?%elem_of_nil. }
  { intros pre cpu post s2 w2 _ ([] & Hj2 & Hn2 & -> & Hq2 & Hall). wp_pures. split_and!; [by split|done..|].
    intros c Hc. simpl. destruct (decide (cpu = c)) as [->|]; [by rewrite !lookup_insert_eq|rewrite !lookup_insert_ne by done].
    apply Hall. set_solver. }
  intros s2 w2 (Hp2 & Hj2 & Hn2 & -> & Hq2 & Hall). wp_pures. rewrite Hq2. wp_pures.
  apply (HQ s2 (λ _, InQueue single_sched_queue)); [|done..]. split; [done| | |].
  - intros cpu Hc. rewrite Hqo. apply Hall. by apply elem_of_range.
  - intros q ->%Hisq. exists (job_name_list s). rewrite Hn2. split_and!; [done|rewrite <-Hn2; apply Hp2|]. intros x. by split; [|intros [? _]].
  - intros x j Hx Hj. eexists. split; [done|]. split; [by apply Hisq|]. by rewrite Hper.
Qed.

Lemma wp_parse_lists s l w (Q : unit → scheduler → world → Prop) : parsed s →
  (∀ s' w', parsed s' → job_name_list s' ≠ [] → rng w' = rng w → Q tt s' w') → wp (parse_lists cfg l) Q bad_input s w.
Proof.
  intros Hp HQ. unfold parse_lists. wp_pures.
  apply (wp_for (λ pre s' w', parsed s' ∧ (pre ≠ [] → job_name_list s' ≠ []) ∧ rng w' = rng w)); [done| |].
  { intros pre x post s1 w1 _ (Hp1 & _ & Hw1). apply wp_parse_job; [done|]. intros s2 w2 ? ? ?. split_and!; [done|done|congruence]. }
  intros s1 w1 (Hp1 & Hne & Hw1). specialize (Hne (split_on_nonnil _ _)). wp_pures.
  case_bool_decide; wp_pures; [by apply HQ|].
  apply (wp_for (λ _ s' w', parsed s' ∧ job_name_list s' = job_name_list s1 ∧ rng w' = rng w)); [by split_and!| |].
  { intros pre x post s2 w2 _ (Hp2 & Hn2 & Hw2). apply wp_parse_affinity; [done|]. intros s3 w3 ? ? ?. split_and!; [done|congruence..]. }
  intros s2 w2 (? & Hn2 & ?). apply HQ; [done|congruence|done].
Qed.

Lemma wp_make_cpus s loc w (Q : unit → scheduler → world → Prop) E : 0 ≤ cache_size cfg → queued s loc → job_name_list s ≠ [] →
  (∀ s', fresh s' loc → Q tt s' w) → wp (make_cpus cfg) Q E s w.
Proof.
  intros Hsize Hq Hne HQ. unfold make_cpus. apply (wp_for (λ pre s' w', queued s' loc ∧ job_name_list s' ≠ [] ∧ w' = w ∧ ∀ c, c ∈ pre →
    sched_state s' !! c = Some STATE_IDLE ∧ sched_current s' !! c = Some "" ∧ is_Some (stats_ran s' !! c) ∧ is_Some (stats_ran_warm s' !! c) ∧
    caches s' !! c = Some (Cache [] [] ∅))).
  - split_and!; [done..|]. by intros c ?%elem_of_nil.
  - intros pre cpu post s2 w2 _ ([[] U2 U3 U4] & Hne2 & -> & Hall). wp_pures. split_and!; [by split; [split|..]|done..|]. intros c Hc. simpl.
    destruct (decide (cpu = c)) as [->|]; [rewrite !lookup_insert_eq; by eauto 10|rewrite !lookup_insert_ne by done]. apply Hall. set_solver.
  - intros s2 w2 ([[P1 P2 P3] U2 U3 U4] & Hne2 & -> & Hall). apply HQ.
    assert (∀ x, x ∈ job_name_list s2 → ∃ q, loc x = InQueue q) as Hloc.
    { intros x Hx. destruct (P2 x Hx) as (j & Hj & _). destruct (U4 x j Hx Hj) as (q & ? & _). by exists q. }
    split; [|split; [done|unfold num_jobs, len; destruct (job_name_list s2); [done|simpl; lia]]]. split; split; try done.
    + intros c Hc%elem_of_range. by destruct (Hall c Hc) as (_ & _ & ? & _).
    + intros c Hc%elem_of_range. by destruct (Hall c Hc) as (_ & _ & _ & ? & _).
    + intros c Hc%elem_of_range. destruct (Hall c Hc) as (_ & _ & _ & _ & Hcc). eexists. split; [done|].
      split; [split; simpl|simpl; lia]; [constructor|by intros x ?%elem_of_nil..].
    + intros c Hc%elem_of_range. exists "". destruct (Hall c Hc) as (? & ? & _). split; [done|left]. split; [done|].
      intros y Hy. destruct (Hloc y Hy) as [q ->]. done.
    + intros x j Hx Hj. destruct (U4 x j Hx Hj) as (q & -> & ? & ?). split; [done|]. left. auto.
    + rewrite P3. transitivity (sum_of (λ _, 0) (job_name_list s2)); [by rewrite sum_of_zero|]. apply sum_of_ext. intros x Hx.
      destruct (Hloc x Hx) as [q ->]. by rewrite decide_False.
Qed.

Lemma wp_scheduler_init s w (Q : unit → scheduler → world → Prop) : 1 ≤ n → 0 ≤ cache_size cfg → parsed s →
  (∀ s' loc' w', fresh s' loc' → rng w' = rng w → Q tt s' w') → wp (scheduler_init cfg) Q bad_input s w.
Proof.
  intros Hn Hsize Hp HQ.
  assert (∀ s' loc' w', queued s' loc' → job_name_list s' ≠ [] → rng w' = rng w → wp (make_cpus cfg) Q bad_input s' w') as Hcpus.
  { intros s' loc' w' Hq Hne Hw'. apply (wp_make_cpus s' loc'); [done..|]. intros s2 H2. by apply (HQ s2 loc'). }
  assert (∀ l w', rng w' = rng w → wp (parse_lists cfg l) (λ _ s' w', wp (make_queues cfg;; make_cpus cfg) Q bad_input s' w') bad_input s w') as Hgo.
  { intros l w1 Hw1. apply wp_parse_lists; [done|]. intros s2 w2 Hp2 Hne2 Hw2. rewrite wp_bind.
    destruct (per_cpu_queues cfg) eqn:Hper; [apply wp_make_own_queues|apply wp_make_central_queue]; try done;
      intros s3 loc3 w3 Hq3 _ Hn3 Hw3; apply (Hcpus s3 loc3); [done|congruence|congruence|done|congruence|congruence]. }
  unfold scheduler_init. wp_pures. case_bool_decide; [|wp_pures; by apply Hgo].
  apply wp_random_jobs. intros l w1 Hw1. wp_pures. by apply Hgo.
Qed.
End Scheduler.

(** ** The theorems *)

Lemma fresh_work cfg s loc : fresh cfg s loc → work s loc = sum_of (λ x, Z.max 1 (remaining s x)) (job_name_list s).
Proof.
  intros ([_ Hl] & Hfin & _). apply sum_of_ext. intros x Hx. unfold ticks_left. rewrite decide_False; [done|]. intros Hloc.
  pose proof (l_count _ _ _ Hl) as Hc. rewrite Hfin in Hc.
  enough (sum_of (λ _, 0) (job_name_list s) < sum_of (λ x, if decide (loc x = Finished) then 1 else 0) (job_name_list s)) by (rewrite sum_of_zero in *; lia).
  apply (sum_of_lt _ _ _ x); [done|by rewrite decide_True|]. intros y _. case_decide; lia.
Qed.

(** The states of a run before its ticks and after the last *)
Inductive reached (cfg : config) (w0 : world) : scheduler → world → Prop :=
| reached_start s w : scheduler_init cfg scheduler_blank w0 = Ok tt s w →
    reached cfg w0 (s <| system_time := 0 |> <| jobs_finished := 0 |>) w
| reached_tick s w s' w' : reached cfg w0 s w → tick cfg s w = Ok tt s' w' → reached cfg w0 s' w'.

Lemma init_fresh cfg w s w' : 1 ≤ num_cpus cfg → 0 ≤ cache_size cfg → rng_ok w →
  scheduler_init cfg scheduler_blank w = Ok tt s w' → (∃ loc, fresh cfg s loc) ∧ rng_ok w'.
Proof.
  intros Hn Hsize Hw Hinit. assert (parsed cfg scheduler_blank) as Hp by (split; [constructor|by intros x ?%elem_of_nil|done]).
  assert (wp (scheduler_init cfg) (λ _ s' w', (∃ loc, fresh cfg s' loc) ∧ rng_ok w') bad_input scheduler_blank w) as Hwp.
  { apply wp_scheduler_init; [done..|]. intros s' loc' w1 Hf Hw'. split; [by exists loc'|by eapply rng_ok_rng]. }
  unfold wp in Hwp. by rewrite Hinit in Hwp.
Qed.

Lemma reached_inv cfg w0 s w : 0 ≤ cache_size cfg → time_slice cfg ≠ 0 → 1 ≤ num_cpus cfg → steal_ok cfg → rng_ok w0 →
  reached cfg w0 s w → (∃ loc, inv cfg s loc) ∧ rng_ok w.
Proof.
  intros Hsize Hslice Hn Hok Hw0. induction 1 as [s w Hinit|s w s' w' _ [[loc Hi] Hw] Htick].
  - destruct (init_fresh _ _ _ _ Hn Hsize Hw0 Hinit) as [(loc & [Hm Hl] & Hfin & _) Hw]. split; [|done]. exists loc.
    split; [by apply (machine_frame cfg s)|]. destruct Hl as [L1 L2 L3 L4]. split; try done. by rewrite Hfin in L4.
  - assert (wp (tick cfg) (λ _ s' w', (∃ loc, inv cfg s' loc) ∧ rng_ok w') noexn s w) as Hwp.
    { eapply wp_clock_tick; [done..|]. intros s2 loc2 s1 loc1 w2 Ht Hw2. split; [|done]. exists loc2. apply (k_inv _ _ _ _ _ _ _ Ht). }
    unfold wp in Hwp. by rewrite Htick in Hwp.
Qed.

(** C36: in every state of a run, after any number of ticks under any options
    and draws (CPUs that steal being at least two), every CPU has a cache, the
    working sets of the jobs that are warm in it fit into it, and a job is warm
    or warming in it, not both, and the latter with a counter. There, a job
    that comes to a CPU is warm, or warming, or starts to warm up, at once if
    that takes no time; a tick of a warming job counts down and makes it warm
    in the end; and a job that becomes warm drives out, from the one warm for
    longest on, only as many as must leave, which may include itself, and
    these start to warm up again. *)
Theorem cache_fits cfg w0 s w cpu : 0 ≤ cache_size cfg → time_slice cfg ≠ 0 → 1 ≤ num_cpus cfg → steal_ok cfg → rng_ok w0 →
  reached cfg w0 s w → 0 ≤ cpu < num_cpus cfg →
  ∃ c, caches s !! cpu = Some c ∧ cache_ok cfg (jobs s) c ∧
    ∀ x, x ∈ job_name_list s →
      wp (new_job cfg (jobs s) x) (λ _ c' _, cache_ok cfg (jobs s) c' ∧ admitted cfg (jobs s) x c c') noexn c w ∧
      wp (update_warming cfg (jobs s) x) (λ _ c' _, cache_ok cfg (jobs s) c' ∧ warmed cfg (jobs s) x c c') noexn c w.
Proof.
  intros Hsize Hslice Hn Hok Hw0 Hr Hc. destruct (reached_inv _ _ _ _ Hsize Hslice Hn Hok Hw0 Hr) as [(loc & Hm & _) _].
  destruct (m_cache _ _ Hm cpu Hc) as (c & Hcc & Hcok). exists c. split; [done|]. split; [done|]. intros x Hx.
  destruct (m_job _ _ Hm x Hx) as (j & Hj & _). split; [apply wp_new_job; by eauto|by apply wp_update_warming].
Qed.

(** C35: a tick of the clock raises nothing, with one queue or a queue per CPU,
    stealing (given two CPUs), affinities, caches and tracing, for every order
    of the CPUs and every victim drawn. Every job is at one place before and
    after: on one CPU, in one queue, or finished with no time left; its
    affinity allows the CPU it is on, and the CPU of its queue, unless that
    one's number is the job's run time or working set, where the thief, which
    compares with these by mistake, may have put it. Between, the CPUs were
    dispatched: no job was finished or lost, and an idle CPU has no job in its
    queue it may run. Then exactly the jobs on CPUs lose time, by the warm
    rate if the cache of that CPU holds them and by the cold rate otherwise,
    and those with none left are finished. *)
Theorem multi_tick_correct cfg s loc w :
  0 ≤ cache_size cfg → time_slice cfg ≠ 0 → 1 ≤ num_cpus cfg → steal_ok cfg → inv cfg s loc → rng_ok w →
  wp (tick cfg) (λ _ s' _, ∃ s1 loc1 loc', ticked cfg s loc s1 loc1 s' loc') noexn s w.
Proof. intros. eapply wp_clock_tick; try done. intros s' loc' s1 loc1 w' Ht _. by exists s1, loc1, loc'. Qed.

(** C34: the simulation of a multiprocessor ends. The constructor returns or
    refuses its input with an error message or a ValueError. If it returns,
    and either no CPU steals or there are two CPUs and no job with an affinity
    has the number of a CPU for its run time or working set (which the thief
    takes for its affinity), then under any other option, order and draws the
    main loop raises nothing and ends within as many ticks as the run times
    add up to (a job without work counting one), with every job finished and
    every CPU idle, and the statistics are printed. *)
Theorem multi_completes cfg w : 1 ≤ num_cpus cfg → 0 ≤ cache_size cfg → rng_ok w →
  wp (scheduler_init cfg) (λ _ _ w', rng_ok w') bad_input scheduler_blank w ∧
  ∀ fuel s w', scheduler_init cfg scheduler_blank w = Ok tt s w' →
  time_slice cfg ≠ 0 → 1 ≤ cache_rate_warm cfg → steal_ok cfg → steal_safe cfg s →
  sum_of (λ x, Z.max 1 (remaining s x)) (job_name_list s) < Z.of_nat fuel →
  wp (run cfg fuel) (λ _ s' _, job_name_list s' = job_name_list s ∧
    0 < system_time s' ≤ sum_of (λ x, Z.max 1 (remaining s x)) (job_name_list s) ∧ jobs_finished s' = num_jobs s ∧
    (∀ x j, x ∈ job_name_list s → jobs s' !! x = Some j → time_left j = [0]) ∧
    ∀ cpu, 0 ≤ cpu < num_cpus cfg → sched_state s' !! cpu = Some STATE_IDLE) noexn s w'.
Proof.
  intros Hn Hsize Hw. assert (parsed cfg scheduler_blank) as Hp by (split; [constructor|by intros x ?%elem_of_nil|done]).
  assert (∀ w' : world, rng w' = rng w → rng_ok w') as Hrng by (intros w' Hw' k; rewrite Hw'; apply Hw).
  split; [by apply wp_scheduler_init; auto|]. intros fuel s w1 Hinit Hslice Hwarm Hok Hsafe Hfuel.
  destruct (init_fresh _ _ _ _ Hn Hsize Hw Hinit) as [[loc Hf] Hw1].
  rewrite <-(fresh_work _ _ _ Hf) in *. eapply wp_run; try done. intros s2 loc2 w2 [Hm2 Hl2] Hn2 Hs2 Hall Ht.
  split_and!; [done|lia|lia| | |].
  - rewrite (l_count _ _ _ Hl2). unfold num_jobs. rewrite Hn2. revert Hall. clear. unfold len.
    induction (job_name_list s) as [|x l IH]; [done|]. intros Hall. rewrite sum_of_cons, IH by (intros y ?; apply Hall; by right).
    rewrite decide_True by (apply Hall; by left). simpl. lia.
  - intros x j Hx Hj. pose proof (l_place _ _ _ Hl2 x j) as Hpl. rewrite Hall, Hn2 in Hpl by done. by apply Hpl.
  - intros cpu Hc. destruct (located_cpu_state _ _ _ _ Hl2 Hc) as (x & _ & [?|(_ & Hx & Hloc)]); [done|].
    rewrite Hn2 in Hx. by rewrite Hall in Hloc.
Qed.

(** ** Witnesses *)

Definition demo_config : config :=
  Config "a:10:20,b:10:30,c:5:60" "a:0,b:0.1" true 3 0 0 0 2 4 true 50 2 2 true true true true true.

Definition demo_state : scheduler :=
  match scheduler_init demo_config scheduler_blank (world_of [60; 30]) with Ok _ s _ => s | _ => scheduler_blank end.

Lemma demo_rng : rng_ok (world_of [60; 30]).
Proof. apply world_of_ok. apply (bool_decide_unpack _). vm_compute. done. Qed.

Lemma demo_init : ∃ w, scheduler_init demo_config scheduler_blank (world_of [60; 30]) = Ok tt demo_state w ∧ rng_ok w.
Proof. eexists. split; [vm_compute; reflexivity|]. intros n. exact (demo_rng n). Qed.

Lemma demo_safe : steal_safe demo_config demo_state.
Proof.
  intros _ x j cpu Hx Hj _ Hc. simpl in Hc.
  assert (job_name_list demo_state = ["a"; "b"; "c"]) as Hnames by (vm_compute; reflexivity). rewrite Hnames in Hx.
  assert (run_time j = 10 ∨ run_time j = 5) as Hr; [|assert (20 ≤ working_set_size j) as Hs; [|unfold int_in_job; apply orb_false_iff; split; apply Z.eqb_neq; lia]];
    rewrite !elem_of_cons in Hx; destruct Hx as [-> | [-> | [-> | []%elem_of_nil]]]; vm_compute in Hj;
    injection Hj as <-; simpl; lia.
Qed.

Lemma demo_fresh : ∃ loc, fresh demo_config demo_state loc.
Proof.
  assert (wp (scheduler_init demo_config) (λ _ s' _, ∃ loc, fresh demo_config s' loc) bad_input scheduler_blank (world_of [60; 30])) as Hwp.
  { apply wp_scheduler_init; [done|done|split; [constructor|by intros x ?%elem_of_nil|done]|]. intros s' loc' w' ? _. by exists loc'. }
  destruct demo_init as (w & Hrun & _). unfold wp in Hwp. by rewrite Hrun in Hwp.
Qed.

(** The state after one tick *)
Definition demo_tick : res scheduler unit := (scheduler_init demo_config;; tick demo_config) scheduler_blank (world_of [60; 30]).
Definition demo_ticked : scheduler := match demo_tick with Ok _ s _ => s | _ => demo_state end.

Lemma demo_tick_ok : match demo_tick with Ok _ _ _ => True | _ => False end.
Proof. vm_compute. done. Qed.

Lemma cache_fits_witness : ∃ w c, reached demo_config (world_of [60; 30]) demo_ticked w ∧ caches demo_ticked !! 1 = Some c ∧
  cache_warming c = ["b"] ∧ cache_ok demo_config (jobs demo_ticked) c.
Proof.
  destruct demo_init as (w1 & H1 & _). assert (∃ w, tick demo_config demo_state w1 = Ok tt demo_ticked w) as (w & H2).
  { pose proof demo_tick_ok as Hok. unfold demo_ticked, demo_tick, mbind, M_bind in *. rewrite H1 in *.
    destruct (tick demo_config demo_state w1) as [[] s w| |]; [by exists w|done..]. }
  assert (demo_state <| system_time := 0 |> <| jobs_finished := 0 |> = demo_state) as H0 by (vm_compute; reflexivity).
  assert (reached demo_config (world_of [60; 30]) demo_ticked w) as Hr.
  { apply (reached_tick demo_config _ demo_state w1); [|exact H2]. rewrite <-H0. exact (reached_start demo_config (world_of [60; 30]) demo_state w1 H1). }
  destruct (cache_fits demo_config (world_of [60; 30]) demo_ticked w 1 ltac:(done) ltac:(done) ltac:(done) ltac:(done) demo_rng Hr ltac:(done))
    as (c & Hc & Hok & _).
  exists w, c. split; [exact Hr|]. split; [exact Hc|]. split; [|exact Hok]. vm_compute in Hc. injection Hc as <-. reflexivity.
Defined.

Lemma multi_tick_correct_witness : ∃ loc s' w' s1 loc1 loc', inv demo_config demo_state loc ∧
  tick demo_config demo_state (world_of [60; 30]) = Ok tt s' w' ∧ ticked demo_config demo_state loc s1 loc1 s' loc'.
Proof.
  destruct demo_fresh as (loc & Hi & _).
  destruct (wp_noexn_ok _ _ _ _ (multi_tick_correct demo_config demo_state loc (world_of [60; 30]) ltac:(done) ltac:(done) ltac:(done) ltac:(done) Hi demo_rng))
    as ([] & s' & w' & Hrun & s1 & loc1 & loc' & Ht).
  exists loc, s', w', s1, loc1, loc'. split; [exact Hi|]. split; [exact Hrun|exact Ht].
Defined.

Lemma multi_completes_witness : ∃ w s' w', scheduler_init demo_config scheduler_blank (world_of [60; 30]) = Ok tt demo_state w ∧
  run demo_config 26 demo_state w = Ok tt s' w' ∧ jobs_finished s' = 3 ∧ system_time s' ≤ 25.
Proof.
  destruct demo_init as (w & Hinit & Hw).
  destruct (multi_completes demo_config (world_of [60; 30]) ltac:(done) ltac:(done) demo_rng) as [_ Hwp].
  specialize (Hwp 26%nat demo_state w Hinit ltac:(done) ltac:(done) ltac:(done) demo_safe ltac:(vm_compute; done)).
  destruct (wp_noexn_ok _ _ _ _ Hwp) as ([] & s' & w' & Hrun & _ & [_ Ht] & Hf & _).
  exists w, s', w'. split; [exact Hinit|]. split; [exact Hrun|]. split; [exact Hf|]. exact Ht.
Defined.

(** *** A stolen job

    Job [a] may only run on CPU 0, but its working set is 1, the number of the
    other CPU, which therefore steals it and never runs it. *)

Definition thief_config : config :=
  Config "x:3:50,a:5:1" "x:0,a:0" true 1 0 0 0 2 10 false 100 2 10 false false false false false.

Record stuck (s : scheduler) : Prop := {
  s_names : job_name_list s = ["x"; "a"];
  s_count : jobs_finished s = 1;
  s_time : 0 < system_time s;
  s_job : jobs s !! "a" = Some (Job "a" 5 1 [0] [5]);
  s_refs : per_cpu_sched_queue s !! 0 = Some 0 ∧ per_cpu_sched_queue s !! 1 = Some 1;
  s_queues : queues s !! 0 = Some [] ∧ queues s !! 1 = Some ["a"];
  s_idle : sched_state s !! 0 = Some STATE_IDLE ∧ sched_state s !! 1 = Some STATE_IDLE;
  s_caches : is_Some (caches s !! 0) ∧ is_Some (caches s !! 1);
}.

Lemma stuck_run s cpu w (Q : unit → scheduler → world → Prop) E : stuck s → cpu ∈ [0; 1] → Q tt s w → wp (run_cpu thief_config cpu) Q E s w.
Proof.
  intros [S1 S2 S3 S4 S5 [S6 S7] [S8 S9] [[c0 Hc0] [c1 Hc1]]] Hcpu HQ. rewrite !elem_of_cons in Hcpu.
  assert (sched_state s !! cpu = Some STATE_IDLE ∧ ∃ c, caches s !! cpu = Some c) as [Hst [c Hc]].
  { destruct Hcpu as [-> | [-> | []%elem_of_nil]]; by eauto. }
  unfold run_cpu. change (trace thief_config) with false. wp_pures. rewrite Hst. wp_pures. simpl. wp_pures.
  apply (wp_for_acc (λ _ _ s' w', s' = s ∧ w' = w)); [done| |intros b s' w' [-> ->]; by wp_pures].
  intros pre x post b s' w' _ [-> ->]. wp_pures. eapply wp_cache_call; [exact Hc|]. unfold get_cache_state. wp_pures. by rewrite (cache_id _ _ _ Hc).
Qed.

Lemma stuck_steal s cpu w (Q : unit → scheduler → world → Prop) E : stuck s → cpu ∈ [0; 1] → rng_ok w →
  (∀ w', rng_ok w' → Q tt s w') → wp (steal_one thief_config cpu) Q E s w.
Proof.
  intros [S1 S2 S3 S4 [S5 S5'] [S6 S7] _ _] Hcpu Hw HQ. rewrite !elem_of_cons in Hcpu. unfold steal_one, get_queue. wp_pures.
  destruct Hcpu as [-> | [-> | []%elem_of_nil]]; [rewrite S5|rewrite S5']; wp_pures; [rewrite S6|rewrite S7]; wp_pures; [|by apply HQ].
  unfold py_remove. change (remove1 0 (range 0 (num_cpus thief_config))) with (Some [1]). wp_pures.
  apply wp_rand_pick; [done..|]. intros other w1 ->%list_elem_of_singleton Hw1 _. wp_pures. rewrite S5'. wp_pures. rewrite S7. simpl. wp_pures.
  rewrite S4. wp_pures. by apply HQ.
Qed.

Lemma stuck_dispatch s cpu w (Q : unit → scheduler → world → Prop) E : stuck s → cpu ∈ [0; 1] → Q tt s w → wp (get_job thief_config cpu) Q E s w.
Proof.
  intros [S1 S2 S3 S4 [S5 S5'] [S6 S7] _ _] Hcpu HQ. rewrite !elem_of_cons in Hcpu. unfold get_job, get_queue. wp_pures.
  destruct Hcpu as [-> | [-> | []%elem_of_nil]]; [rewrite S5|rewrite S5']; wp_pures; [rewrite S6|rewrite S7]; simpl; wp_pures; [done|].
  rewrite py_index_nonneg by (unfold len; simpl; lia). simpl. wp_pures. rewrite S4. wp_pures. exact HQ.
Qed.

(** A loop over the two CPUs whose body changes nothing *)
Lemma stuck_loop body s w (Q : unit → scheduler → world → Prop) E :
  (∀ cpu w', cpu ∈ [0; 1] → rng_ok w' → wp (body cpu) (λ _ s' w', s' = s ∧ rng_ok w') E s w') →
  rng_ok w → (∀ w', rng_ok w' → Q tt s w') → wp (for_ [0; 1] body) Q E s w.
Proof.
  intros Hb Hw HQ. apply (wp_for (λ _ s' w', s' = s ∧ rng_ok w')); [done| |intros s' w' [-> ?]; by apply HQ].
  intros pre cpu post s' w' Hr [-> Hw']. apply Hb; [rewrite Hr; set_solver|done].
Qed.

Lemma stuck_tick s w : stuck s → rng_ok w → wp (tick thief_config) (λ _ s' w', stuck s' ∧ rng_ok w') noexn s w.
Proof.
  intros Hs Hw. destruct (Hs) as [S1 S2 S3 S4 S5 S6 [S8 S9] S10].
  assert (∀ cpu, cpu ∈ [0; 1] → sched_state s !! cpu = Some STATE_IDLE) as Hidle.
  { intros cpu. rewrite !elem_of_cons. intros [-> | [-> | []%elem_of_nil]]; done. }
  unfold tick. rewrite wp_bind. unfold handle_interrupts, py_mod. change (trace thief_config) with false. wp_pures.
  change (range 0 (num_cpus thief_config)) with [0; 1]. cbn [time_slice thief_config Z.eqb]. wp_pures. rewrite andb_false_r.
  apply stuck_loop; [|done|].
  { intros cpu w' Hc Hw'. unfold handle_one_interrupt. wp_pures. rewrite (Hidle cpu Hc). wp_pures. rewrite andb_false_r. done. }
  intros w1 Hw1. rewrite wp_bind. unfold steal_jobs. wp_pures. cbn [per_cpu_queues peek_interval thief_config andb]. simpl (0 <? 1). cbn iota.
  rewrite Z.mod_1_r, (proj2 (Z.ltb_lt 0 (system_time s)) S3). cbn [Z.eqb andb]. change (range 0 (num_cpus thief_config)) with [0; 1].
  apply stuck_loop; [intros cpu w' Hc Hw'; by apply stuck_steal|done|]. intros w2 Hw2. wp_pures.
  unfold assign_jobs. wp_pures. change (range 0 (num_cpus thief_config)) with [0; 1]. cbn [random_order thief_config]. wp_pures.
  apply stuck_loop; [|done|].
  { intros cpu w' Hc Hw'. wp_pures. rewrite (Hidle cpu Hc). wp_pures. simpl. by apply stuck_dispatch. }
  intros w3 Hw3. wp_pures. unfold run_jobs. change (range 0 (num_cpus thief_config)) with [0; 1].
  apply stuck_loop; [intros cpu w' Hc Hw'; by apply stuck_run|done|]. intros w4 Hw4. wp_pures. unfold print_sched_queues. wp_pures.
  cbn [trace_sched thief_config]. wp_pures. split; [|done]. split; try done. simpl. lia.
Qed.

Definition main_loop (fuel : nat) : M scheduler unit := while_ fuel tt (λ _,
  s ← get; if jobs_finished s <? num_jobs s then tick thief_config;; mret (inl tt) else mret (inr tt)).

Lemma main_loop_tick fuel s w s' w' : (jobs_finished s <? num_jobs s) = true → tick thief_config s w = Ok tt s' w' →
  main_loop (S fuel) s w = main_loop fuel s' w'.
Proof. intros Hlt Ht. unfold main_loop. simpl. unfold mbind, M_bind, get. rewrite Hlt, Ht. done. Qed.

Lemma stuck_loops fuel s w : stuck s → rng_ok w → main_loop fuel s w = OutOfFuel.
Proof.
  revert s w. induction fuel as [|fuel IH]; intros s w Hs Hw; [done|].
  destruct (wp_noexn_ok _ _ _ _ (stuck_tick s w Hs Hw)) as ([] & s' & w' & Ht & Hs' & Hw').
  rewrite (main_loop_tick _ _ _ s' w'); [by apply IH| |done]. unfold num_jobs. by rewrite (s_count _ Hs), (s_names _ Hs).
Qed.

(** After three ticks the first job is finished, the other one stolen, and the
    loop goes on for ever. *)
Definition after_ticks (k : nat) : option (scheduler * world) :=
  match (scheduler_init thief_config;; for_ (seq 0 k) (λ _, tick thief_config)) scheduler_blank (world_of []) with
  | Ok _ s w => Some (s, w)
  | _ => None
  end.

Lemma thief_never_ends : ∃ s w, after_ticks 3 = Some (s, w) ∧ jobs_finished s = 1 ∧ num_jobs s = 2 ∧
  ∀ fuel, main_loop fuel s w = OutOfFuel.
Proof.
  destruct (after_ticks 3) as [[s w]|] eqn:Hk; [|vm_compute in Hk; discriminate]. exists s, w. split; [done|].
  assert (stuck s) as Hs by (vm_compute in Hk; injection Hk as <- <-; split; vm_compute; try done; split; (done || by eexists)).
  split; [apply Hs|]. split; [unfold num_jobs; by rewrite (s_names _ Hs)|]. intros fuel. apply stuck_loops; [done|].
  assert (rng w = rng (world_of [])) as Hr by (vm_compute in Hk; injection Hk as _ <-; reflexivity). intros k. rewrite Hr.
  apply world_of_ok. constructor.
Qed.
