(* ===== verification/Disk.v ===== *)
(** * The disk: [file-disks/disk.py]

    A disk of three tracks serves a queue of block requests: the arm seeks,
    the platter turns until the block comes by, the block is transferred.  The
    policy picks the next request.  Without [-G] the program draws nothing and
    the window system plays no part: [graphics] is [False] throughout, and the
    variables that only the drawing reads are left out. *)
From Stdlib Require Import Floats.SpecFloat.
From S2P Require Import Prelude PyStr PyRandom PyFloat PyFloatInt.
Open Scope Z_scope.

(** The options *)
Record config := Config {
  addr : string;
  addrDesc : string;
  lateAddr : string;
  lateAddrDesc : string;
  policy : string;
  seekSpeed : float;
  rotateSpeed : float;
  skew : Z;
  window : Z;
  compute : bool;
  zoning : string;
}.

#[export] Instance config_settable : Settable config := λ c,
  Config (addr c) (addrDesc c) (lateAddr c) (lateAddrDesc c) (policy c) (seekSpeed c) (rotateSpeed c) (skew c) (window c)
    (compute c) (zoning c).

Definition MAXTRACKS : Z := 1000.

(** The states that a request and the disk go through *)
Inductive state := STATE_NULL | STATE_SEEK | STATE_ROTATE | STATE_XFER | STATE_DONE.

#[export] Instance state_eq_dec : EqDecision state.
Proof. solve_decision. Defined.

(** A block of a request: a number, or the text of an option *)
Definition block : Set := (Z + string)%type.

(** ** Zones and block layout *)

Record layout := Layout {
  blockToTrackMap : gmap Z Z;
  blockToAngleMap : gmap Z Z;
  tracksBeginEnd : gmap Z (Z * Z);
  blockAngleOffset : list Z;
  maxBlock : Z;
}.

Section Layout.
Context {St : Type}.

(** [range(0, 360, step)] *)
Definition angles (step : Z) : M St (list Z) :=
  if step =? 0 then raise ValueError
  else mret (if 0 <? step then (λ k, k * step) <$> range 0 ((360 + step - 1) / step) else []).

(** The blocks of a track, numbered from [pblock] on; [last] is the local
    variable [block], which the first track is to set. *)
Definition lay_track (track pblock skew : Z) (label : string) (l : layout) (last : option Z) : M St (layout * Z) :=
  offset ← list_get (blockAngleOffset l) track;
  let angleOffset := 2 * offset in
  steps ← angles angleOffset;
  '(tracks, (degrees, last)) ← for_acc steps (blockToTrackMap l, (blockToAngleMap l, last)) (λ m angle,
    let block := angle / angleOffset + pblock in
    print (label +:+ str_of_Z angleOffset +:+ " " +:+ str_of_Z block);;
    mret (<[block := track]> m.1, (<[block := angle + angleOffset * skew]> m.2.1, Some block)));
  block ← of_option NameError last;
  mret (Layout tracks degrees (<[track := (pblock, block)]> (tracksBeginEnd l)) (blockAngleOffset l) (maxBlock l), block).

Definition InitBlockLayout (cfg : config) : M St layout :=
  let zones := split_on "," (zoning cfg) in
  passert (len zones =? 3);;
  offsets ← for_acc (range 0 (len zones)) [] (λ l i,
    z ← list_get zones i;
    print ("z " +:+ str_of_Z i +:+ " " +:+ z);;
    n ← py_int z;
    mret (l ++ [n / 2]));
  '(l, block) ← lay_track 0 0 0 "0 " (Layout ∅ ∅ ∅ offsets 0) None;
  '(l, block) ← lay_track 1 (block + 1) (skew cfg) ("1 " +:+ str_of_Z (skew cfg) +:+ " ") l (Some block);
  let pblock := block + 1 in
  '(l, block) ← lay_track 2 pblock (2 * skew cfg) ("2 " +:+ str_of_Z (2 * skew cfg) +:+ " ") l (Some block);
  mret (Layout (blockToTrackMap l) ((λ a, (a + 180) mod 360) <$> blockToAngleMap l) (tracksBeginEnd l) (blockAngleOffset l) pblock).

Definition PrintAddrDescMessage (value : string) : M St unit :=
  print ("Bad address description (" +:+ value +:+ ")");;
  print "The address description must be a comma-separated list of length three, without spaces.";;
  print ("For example, " +:+ dq +:+ "10,100,0" +:+ dq +:+ " would indicate that 10 addresses should be generated, with");;
  print "100 as the maximum value, and 0 as the minumum. A max of -1 means just use the highest";;
  print "possible value as the max address to generate.";;
  raise (SystemExit 1).

Definition MakeRequests (l : layout) (addr addrDesc : string) : M St (list block) :=
  if bool_decide (addr = "-1") then
    let desc := split_on "," addrDesc in
    when (negb (len desc =? 3)) (PrintAddrDescMessage addrDesc);;
    d0 ← list_get desc 0; numRequests ← py_int d0;
    d1 ← list_get desc 1; maxRequest ← py_int d1;
    d2 ← list_get desc 2; minRequest ← py_int d2;
    let maxRequest := if maxRequest =? -1 then maxBlock l else maxRequest in
    for_acc (range 0 numRequests) [] (λ tmpList _, r ← draw_below maxRequest; mret (tmpList ++ [inl (r + minRequest)]))
  else mret (inr <$> split_on "," addr).
End Layout.

(** ** The disk *)

(** The times are integers until they are added to the totals, which hold
    integers too.  [seekBegin], [rotBegin], [xferBegin] and the target of the
    arm are set before they are read. *)
Record disk := Disk {
  requestQueue : list (block * Z);
  requestState : list state;
  requestCount : Z;
  lateCount : Z;
  currWindow : Z;
  currentIndex : Z;
  currentBlock : block;
  dstate : state;
  angle : float;
  timer : Z;
  armTrack : Z;
  armSpeed : float;
  armX1 : float;
  armX2 : float;
  headX1 : float;
  headX2 : float;
  armTarget : Z;
  armTargetX1 : float;
  seekBegin : Z;
  rotBegin : Z;
  xferBegin : Z;
  totalEst : float;
  seekTotal : Z;
  rotTotal : Z;
  xferTotal : Z;
  isDone : bool;
}.

#[export] Instance disk_settable : Settable disk := λ d,
  Disk (requestQueue d) (requestState d) (requestCount d) (lateCount d) (currWindow d) (currentIndex d) (currentBlock d)
    (dstate d) (angle d) (timer d) (armTrack d) (armSpeed d) (armX1 d) (armX2 d) (headX1 d) (headX2 d) (armTarget d)
    (armTargetX1 d) (seekBegin d) (rotBegin d) (xferBegin d) (totalEst d) (seekTotal d) (rotTotal d) (xferTotal d) (isDone d).

(** The width of a track, the distance of each track from the spindle, and the
    place of the spindle *)
Definition trackWidth : Z := 40.
Definition tracks (track : Z) : Z := 140 - trackWidth * track.
Definition spindleX : Z := 250.
Definition armWidth : Z := 20.
Definition headWidth : Z := 10.

(** The state after [__init__], but for the queue *)
Definition disk_init (cfg : config) : disk :=
  let armX := spindleX - tracks 0 in
  Disk [] [] 0 0 (window cfg) (-1) (inl (-1)) STATE_NULL (f_of_Z 0) 0 0 (seekSpeed cfg)
    (f_of_Z (armX - armWidth)) (f_of_Z (armX + armWidth)) (f_of_Z (armX - headWidth)) (f_of_Z (armX + headWidth))
    0 (f_of_Z 0) 0 0 0 (f_of_Z 0) 0 0 0 false.

(** [d[block]] on a dict with numbers for keys, and a use of a block as a number *)
Definition of_block {S A} (d : gmap Z A) (b : block) : M S A :=
  match b with inl n => dict_get d n | inr _ => raise KeyError end.
Definition block_int {S} (b : block) : M S Z := match b with inl n => mret n | inr _ => raise TypeError end.

Section Run.
Context (cfg : config) (lay : layout) (lateRequests : list block) (fuel : nat).

Definition fairWindow : Z := if bool_decide (policy cfg = "BSATF") && negb (window cfg =? -1) then window cfg else -1.

Definition AddQueueEntry (block : block) (index : Z) : M disk unit :=
  d ← get;
  requestQueue <~ (requestQueue d ++ [(block, index)]);;
  requestState <~ (requestState d ++ [STATE_NULL]).

Definition AddRequest (block : block) : M disk unit := d ← get; AddQueueEntry block (len (requestQueue d)).

Definition SwitchState (newState : state) : M disk unit :=
  dstate <~ newState;;
  d ← get;
  l ← list_set (requestState d) (currentIndex d) newState;
  requestState <~ l.

Definition RadiallyCloseTo (a1 a2 : float) : bool :=
  let v := if f_lt a2 a1 then f_sub a1 a2 else f_sub a2 a1 in
  f_lt v (rotateSpeed cfg).

Definition DoneWithTransfer : M disk bool :=
  d ← get;
  angleOffset ← list_get (blockAngleOffset lay) (armTrack d);
  a ← of_block (blockToAngleMap lay) (currentBlock d);
  if RadiallyCloseTo (angle d) (f_of_Z ((a + angleOffset) mod 360)) then
    SwitchState STATE_DONE;;
    requestCount <~ requestCount d + 1;;
    mret true
  else mret false.

Definition DoneWithRotation : M disk bool :=
  d ← get;
  angleOffset ← list_get (blockAngleOffset lay) (armTrack d);
  a ← of_block (blockToAngleMap lay) (currentBlock d);
  if RadiallyCloseTo (angle d) (f_of_Z ((a - angleOffset) mod 360)) then
    SwitchState STATE_XFER;;
    mret true
  else mret false.

Definition PlanSeek (track : Z) : M disk unit :=
  d ← get;
  seekBegin <~ timer d;;
  SwitchState STATE_SEEK;;
  if track =? armTrack d then
    rotBegin <~ timer d;;
    SwitchState STATE_ROTATE
  else
    armTarget <~ track;;
    armTargetX1 <~ f_of_Z (spindleX - tracks track - trackWidth / 2);;
    armSpeed <~ (if armTrack d <=? track then seekSpeed cfg else f_sub (f_of_Z 0) (seekSpeed cfg)).

Definition DoneWithSeek : M disk bool :=
  d ← get;
  armX1 <~ f_add (armX1 d) (armSpeed d);;
  armX2 <~ f_add (armX2 d) (armSpeed d);;
  headX1 <~ f_add (headX1 d) (armSpeed d);;
  headX2 <~ f_add (headX2 d) (armSpeed d);;
  d ← get;
  if f_lt (f_of_Z 0) (armSpeed d) && negb (f_lt (armX1 d) (armTargetX1 d))
     || f_lt (armSpeed d) (f_of_Z 0) && negb (f_lt (armTargetX1 d) (armX1 d)) then
    armTrack <~ armTarget d;;
    mret true
  else mret false.

(** The loops that bring an angle into range *)
Definition below_360 (x : float) : M disk float :=
  while_ fuel x (λ x, mret (if f_lt (f_of_Z 360) x then inl (f_sub x (f_of_Z 360)) else inr x)).
Definition above_0 (x : float) : M disk float :=
  while_ fuel x (λ x, mret (if f_lt x (f_of_Z 0) then inl (f_add x (f_of_Z 360)) else inr x)).

(** The estimate of the access time of a block *)
Definition estimate (d : disk) (track angle_ : Z) : M disk float :=
  let dist := Z.abs (armTrack d - track) in
  perTrack ← f_div (f_of_Z trackWidth) (seekSpeed cfg);
  let seekEst := f_mul perTrack (f_of_Z dist) in
  angleOffset ← list_get (blockAngleOffset lay) track;
  angleAtArrival ← below_360 (f_add (angle d) (f_mul seekEst (rotateSpeed cfg)));
  rotDist ← below_360 (f_sub (f_of_Z (angle_ - angleOffset)) angleAtArrival);
  rotDist ← above_0 rotDist;
  rotEst ← f_div rotDist (rotateSpeed cfg);
  xferEst ← f_div (f_mul (f_of_Z angleOffset) (f_of_Z 2)) (rotateSpeed cfg);
  mret (f_add (f_add seekEst rotEst) xferEst).

(** Shortest access time first; the best so far is an estimate, a block and its
    index *)
Definition DoSATF (rList : list (block * Z)) : M disk (Z * Z) :=
  d ← get;
  best ← for_acc rList (f_of_Z (-1), (-1, -1)) (λ best r,
    let '(block, index) := r : Datatypes.prod _ _ in
    st ← list_get (requestState d) index;
    if bool_decide (st = STATE_DONE) then mret best
    else
      track ← of_block (blockToTrackMap lay) block;
      angle_ ← of_block (blockToAngleMap lay) block;
      totalEst ← estimate d track angle_;
      n ← block_int block;
      mret (if f_eq best.1 (f_of_Z (-1)) || f_lt totalEst best.1 then (totalEst, (n, index)) else best));
  totalEst <~ best.1;;
  passert (negb (best.2.1 =? -1));;
  passert (negb (best.2.2 =? -1));;
  mret best.2.

(** The requests on the nearest track *)
Definition DoSSTF (rList : list (block * Z)) : M disk (list (block * Z)) :=
  d ← get;
  best ← for_acc rList (MAXTRACKS, []) (λ best r,
    let '(block, index) := r : Datatypes.prod _ _ in
    st ← list_get (requestState d) index;
    if bool_decide (st = STATE_DONE) then mret best
    else
      track ← of_block (blockToTrackMap lay) block;
      let dist := Z.abs (armTrack d - track) in
      mret (if dist <? best.1 then (dist, [(block, index)])
            else if dist =? best.1 then (best.1, best.2 ++ [(block, index)]) else best));
  passert (negb (bool_decide (best.2 = [])));;
  mret best.2.

Definition UpdateWindow : M disk unit :=
  d ← get;
  when ((fairWindow =? -1) && (0 <? currWindow d) && (currWindow d <? len (requestQueue d)))
    (currWindow <~ currWindow d + 1).

Definition GetWindow : M disk Z :=
  d ← get;
  if currWindow d <=? -1 then mret (len (requestQueue d))
  else
    when (negb (fairWindow =? -1) && (0 <? requestCount d))
      (r ← py_mod (requestCount d) fairWindow; when (r =? 0) (currWindow <~ currWindow d + fairWindow));;
    gets currWindow.

Definition PrintStats : M disk unit :=
  d ← get;
  when (compute cfg)
    (print (nl +:+ "TOTALS      Seek:" +:+ fmt_d 3 (seekTotal d) +:+ "  Rotate:" +:+ fmt_d 3 (rotTotal d) +:+
            "  Transfer:" +:+ fmt_d 3 (xferTotal d) +:+ "  Total:" +:+ fmt_d 4 (timer d) +:+ nl)).

(** [self.requestQueue[0:n]] *)
Definition prefix_of {A} (n : Z) (l : list A) : list A := take (Z.to_nat (if n <? 0 then len l + n else n)) l.

(** The policy's choice *)
Definition choose : M disk (block * Z) :=
  d ← get;
  if bool_decide (policy cfg = "FIFO") then
    r ← list_get (requestQueue d) (requestCount d);
    DoSATF (take 1 (drop (Z.to_nat (requestCount d)) (requestQueue d)));;
    mret r
  else if bool_decide (policy cfg = "SATF") || bool_decide (policy cfg = "BSATF") then
    endIndex ← GetWindow;
    let endIndex := if len (requestQueue d) <? endIndex then len (requestQueue d) else endIndex in
    r ← DoSATF (prefix_of endIndex (requestQueue d));
    mret (inl r.1, r.2)
  else if bool_decide (policy cfg = "SSTF") then
    endIndex ← GetWindow;
    trackList ← DoSSTF (prefix_of endIndex (requestQueue d));
    r ← DoSATF trackList;
    mret (inl r.1, r.2)
  else
    print ("policy (" +:+ policy cfg +:+ ") not implemented");;
    raise (SystemExit 1).

Definition GetNextIO : M disk unit :=
  d ← get;
  if requestCount d =? len (requestQueue d) then
    PrintStats;;
    isDone <~ true
  else
    '(b, index) ← choose;
    currentBlock <~ b;;
    currentIndex <~ index;;
    track ← of_block (blockToTrackMap lay) b;
    PlanSeek track;;
    d ← get;
    when ((0 <? len lateRequests) && (lateCount d <? len lateRequests))
      (b ← list_get lateRequests (lateCount d);
       AddRequest b;;
       lateCount <~ lateCount d + 1).

Definition DoRequestStats : M disk unit :=
  d ← get;
  let seekTime := rotBegin d - seekBegin d in
  let rotTime := xferBegin d - rotBegin d in
  let xferTime := timer d - xferBegin d in
  let totalTime := timer d - seekBegin d in
  when (compute cfg)
    (n ← block_int (currentBlock d);
     print ("Block: " +:+ fmt_d 3 n +:+ "  Seek:" +:+ fmt_d 3 seekTime +:+ "  Rotate:" +:+ fmt_d 3 rotTime +:+
            "  Transfer:" +:+ fmt_d 3 xferTime +:+ "  Total:" +:+ fmt_d 4 totalTime));;
  seekTotal <~ seekTotal d + seekTime;;
  rotTotal <~ rotTotal d + rotTime;;
  xferTotal <~ xferTotal d + xferTime.

(** Whether the next request goes on where the last one ended *)
Definition sequential (armTrack : Z) (currentBlock nextBlock : block) : M disk bool :=
  t1 ← of_block (blockToTrackMap lay) currentBlock;
  t2 ← of_block (blockToTrackMap lay) nextBlock;
  if t1 =? t2 then
    '(first, last) ← dict_get (tracksBeginEnd lay) armTrack;
    n1 ← block_int currentBlock;
    n2 ← block_int nextBlock;
    mret ((n1 =? last) && (n2 =? first) || (n1 + 1 =? n2))
  else mret false.

(** The end of a request, and the start of the next *)
Definition finish_request : M disk unit :=
  DoRequestStats;;
  SwitchState STATE_DONE;;
  UpdateWindow;;
  d ← get;
  let current := currentBlock d in
  GetNextIO;;
  d ← get;
  c ← sequential (armTrack d) current (currentBlock d);
  when c
    (rotBegin <~ timer d;;
     seekBegin <~ timer d;;
     xferBegin <~ timer d;;
     SwitchState STATE_XFER).

(** The steps of [Animate]: time and the platter go on; then the arm, the
    wait for the block and the transfer, which may follow in the same step *)
Definition tick : M disk unit :=
  d ← get;
  timer <~ timer d + 1;;
  angle <~ f_add (angle d) (rotateSpeed cfg);;
  d ← get;
  when (negb (f_lt (angle d) (f_of_Z 360))) (angle <~ f_of_Z 0).

Definition seek_stage : M disk unit :=
  d ← get;
  when (bool_decide (dstate d = STATE_SEEK))
    (c ← DoneWithSeek;
     when c (rotBegin <~ timer d;; SwitchState STATE_ROTATE)).

Definition rotate_stage : M disk unit :=
  d ← get;
  when (bool_decide (dstate d = STATE_ROTATE))
    (c ← DoneWithRotation;
     when c (xferBegin <~ timer d;; SwitchState STATE_XFER)).

Definition transfer_stage : M disk unit :=
  d ← get;
  when (bool_decide (dstate d = STATE_XFER))
    (c ← DoneWithTransfer;
     when c finish_request).

Definition Animate : M disk unit := tick;; seek_stage;; rotate_stage;; transfer_stage.

Definition Go : M disk unit :=
  GetNextIO;;
  while_ fuel tt (λ _, d ← get; if isDone d then mret (inr tt) else Animate;; mret (inl tt)).
End Run.

(** ** The program *)

(** [n % x] is not zero: the remainder of doubles is exact. *)
Definition divides_not (n : Z) (x : float) : bool :=
  match x with
  | S754_finite _ m e => negb (if 0 <=? e then n mod (Zpos m * 2 ^ e) =? 0 else (n * 2 ^ (- e)) mod (Zpos m) =? 0)
  | _ => true
  end.

Definition check_seek (cfg : config) : M disk unit :=
  when (f_lt (f_of_Z 1) (seekSpeed cfg) && divides_not trackWidth (seekSpeed cfg))
    (print ("Seek speed (" +:+ str_of_Z (f_trunc (seekSpeed cfg)) +:+ ") must divide evenly into track width (" +:+ str_of_Z trackWidth +:+ ")");;
     raise (SystemExit 1));;
  when (f_lt (seekSpeed cfg) (f_of_Z 1))
    (x ← f_div (f_of_Z trackWidth) (seekSpeed cfg);
     when (negb (f_eq x (f_of_Z (f_trunc x))))
       (print ("Seek speed (" +:+ fmt_f 6 (seekSpeed cfg) +:+ ") must divide evenly into track width (" +:+ str_of_Z trackWidth +:+ ")");;
        raise (SystemExit 1))).

(** A list as [print] shows it; the texts hold no quotes. *)
Definition block_repr (b : block) : string := match b with inl n => str_of_Z n | inr x => "'" +:+ x +:+ "'" end.

(** [int(block)] *)
Definition to_int (b : block) : M disk Z := match b with inl n => mret n | inr x => py_int x end.

(** [Disk(...)], which returns the layout and the late requests *)
Definition make_disk (cfg : config) : M disk (layout * list block) :=
  lay ← InitBlockLayout cfg;
  requests ← MakeRequests lay (addr cfg) (addrDesc cfg);
  lateRequests ← MakeRequests lay (lateAddr cfg) (lateAddrDesc cfg);
  print ("REQUESTS " +:+ list_str (block_repr <$> requests));;
  print "";;
  when (0 <? len lateRequests) (print ("LATE REQUESTS " +:+ list_str (block_repr <$> lateRequests));; print "");;
  when (negb (compute cfg))
    (print "";;
     print "For the requests above, compute the seek, rotate, and transfer times.";;
     print "Use -c or the graphical mode (-G) to see the answers.";;
     print "");;
  check_seek cfg;;
  for_ (range 0 (len requests)) (λ index,
    r ← list_get requests index;
    b ← to_int r;
    AddQueueEntry (inl b) index);;
  mret (lay, lateRequests).

Definition main (cfg : config) (fuel : nat) : M disk unit :=
  when (window cfg =? 0)
    (print ("Scheduling window (" +:+ str_of_Z (window cfg) +:+ ") must be positive or -1 (which means a full window)");;
     raise (SystemExit 1));;
  put (disk_init cfg);;
  '(lay, lateRequests) ← make_disk cfg;
  Go cfg lay lateRequests fuel.
