(* ===== verification/DiskFacts.v ===== *)
(** * The disk serves every request

    At integer speeds the arm and the platter move on integers, so each phase
    of a request ends: the arm reaches the track, the platter comes by the
    place within a revolution.  The invariant of [Go] keeps the books of the
    requests served and of the time spent. *)
From S2P Require Import Prelude PyStr PyRandom PyFloat PyFloatInt Disk.
Open Scope Z_scope.

#[local] Arguments f_of_Z : simpl never.

(** ** What the proofs assume of the disk *)

(** Every number below [n] is a block, on one of three tracks and at an angle. *)
Record layout_ok (lay : layout) (n : Z) : Prop := LayoutOk {
  ok_track : ∀ b, 0 ≤ b < n → ∃ t, blockToTrackMap lay !! b = Some t ∧ 0 ≤ t < 3;
  ok_angle : ∀ b, 0 ≤ b < n → ∃ a, blockToAngleMap lay !! b = Some a ∧ 0 ≤ a < 360;
  ok_ends : ∀ t, 0 ≤ t < 3 → is_Some (tracksBeginEnd lay !! t);
  ok_offsets : len (blockAngleOffset lay) = 3;
  ok_offset : Forall (λ o, 0 ≤ o ≤ 360) (blockAngleOffset lay);
}.

Definition track_of (lay : layout) (b : Z) : Z := default 0 (blockToTrackMap lay !! b).
Definition angle_of (lay : layout) (b : Z) : Z := default 0 (blockToAngleMap lay !! b).
Definition offset_of (lay : layout) (b : Z) : Z := default 0 (blockAngleOffset lay !! Z.to_nat (track_of lay b)).

(** The angles at which the transfer of a block starts and ends *)
Definition start_of (lay : layout) (b : Z) : Z := (angle_of lay b - offset_of lay b) mod 360.
Definition end_of (lay : layout) (b : Z) : Z := (angle_of lay b + offset_of lay b) mod 360.

Section Facts.
Context (cfg : config) (lay : layout) (fuel : nat) (n r s : Z).
Hypothesis Hlay : layout_ok lay n.
Hypothesis Hrot : rotateSpeed cfg = f_of_Z r.
Hypothesis Hseek : seekSpeed cfg = f_of_Z s.
Hypothesis Hr : 1 ≤ r < 2 ^ 40.
Hypothesis Hs : 1 ≤ s.
Hypothesis Hdiv : (s | trackWidth).

Definition valid (b : Z) : Prop := 0 ≤ b < n.

Lemma lay_track_of b : valid b → blockToTrackMap lay !! b = Some (track_of lay b) ∧ 0 ≤ track_of lay b < 3.
Proof. intros Hb. unfold track_of. destruct (ok_track _ _ Hlay b Hb) as (t & -> & Ht). done. Qed.
Lemma lay_angle_of b : valid b → blockToAngleMap lay !! b = Some (angle_of lay b) ∧ 0 ≤ angle_of lay b < 360.
Proof. intros Hb. unfold angle_of. destruct (ok_angle _ _ Hlay b Hb) as (a & -> & Ha). done. Qed.

Lemma lay_offset t : 0 ≤ t < 3 →
  py_index (blockAngleOffset lay) t = Some (Z.to_nat t) ∧
  ∃ o, blockAngleOffset lay !! Z.to_nat t = Some o ∧ 0 ≤ o ≤ 360.
Proof.
  intros Ht. pose proof (ok_offsets _ _ Hlay) as Hl. split; [apply py_index_nonneg; lia|].
  destruct (lookup_lt_is_Some_2 (blockAngleOffset lay) (Z.to_nat t)) as [o Ho]; [unfold len in Hl; lia|].
  exists o. split; [done|]. pose proof (ok_offset _ _ Hlay) as Hall. rewrite Forall_lookup in Hall. eauto.
Qed.

Lemma s_cases : s ∈ [1; 2; 4; 5; 8; 10; 20; 40].
Proof.
  clear - Hs Hdiv. unfold trackWidth in Hdiv. assert (s ≤ 40) by (apply Z.divide_pos_le; [lia|done]).
  assert (Forall (λ j, 40 mod j = 0 → j ∈ [1; 2; 4; 5; 8; 10; 20; 40]) (range 1 41)) as Hall.
  { apply (bool_decide_unpack _). by vm_compute. }
  rewrite Forall_forall in Hall. apply Hall; [apply elem_of_range; lia|]. destruct Hdiv as [k ->]. apply Z.mod_mul. lia.
Qed.

(** The time of a seek by one track *)
Lemma per_track (Q : float → disk → world → Prop) d w :
  Q (f_of_Z (trackWidth / s)) d w → wp (f_div (f_of_Z trackWidth) (seekSpeed cfg)) Q noexn d w.
Proof.
  rewrite Hseek. pose proof s_cases as H. rewrite !elem_of_cons, elem_of_nil in H.
  repeat destruct H as [->|H]; [..|done]; intros HQ; exact HQ.
Qed.

(** *** The estimate always comes out *)

Definition laps : Z := 100 + r.
Hypothesis Hfuel : laps < Z.of_nat fuel.

Lemma wp_below_360 x (Q : float → disk → world → Prop) d w : Z.abs x < 2 ^ 50 → x ≤ 360 * laps →
  (∀ y, Z.abs y < 2 ^ 50 → y ≤ 360 → x ≤ y ∨ 0 ≤ y → Q (f_of_Z y) d w) → wp (below_360 fuel (f_of_Z x)) Q noexn d w.
Proof.
  intros Hx Hlaps HQ. unfold below_360.
  apply (wp_while_bound (λ m b d' w', d' = d ∧ w' = w ∧ ∃ y, b = f_of_Z y ∧ Z.abs y < 2 ^ 50 ∧ (x ≤ y ∨ 0 ≤ y) ∧ y ≤ 360 * Z.of_nat m)
    _ _ _ _ (Z.to_nat laps)).
  - split_and!; [done|done|]. exists x. unfold laps in *. split; [done|lia].
  - unfold laps in *. lia.
  - intros m b d' w' (-> & -> & y & -> & Hy & Hxy & Hm). wp_pures. rewrite f_lt_of_Z by (unfold small; lia).
    destruct (Z.ltb_spec 360 y).
    + rewrite f_sub_of_Z by (unfold small; lia). exists (pred m). split; [lia|]. split_and!; [done|done|].
      exists (y - 360). split; [done|lia].
    + apply HQ; lia.
Qed.

Lemma wp_above_0 x (Q : float → disk → world → Prop) d w : Z.abs x < 2 ^ 50 → - 360 * laps ≤ x →
  (∀ y, Z.abs y < 2 ^ 50 → 0 ≤ y → Q (f_of_Z y) d w) → wp (above_0 fuel (f_of_Z x)) Q noexn d w.
Proof.
  intros Hx Hlaps HQ. unfold above_0.
  apply (wp_while_bound (λ m b d' w', d' = d ∧ w' = w ∧ ∃ y, b = f_of_Z y ∧ Z.abs y < 2 ^ 50 ∧ - 360 * Z.of_nat m ≤ y)
    _ _ _ _ (Z.to_nat laps)).
  - split_and!; [done|done|]. exists x. unfold laps in *. split; [done|lia].
  - unfold laps in *. lia.
  - intros m b d' w' (-> & -> & y & -> & Hy & Hm). wp_pures. rewrite f_lt_of_Z by (unfold small; lia).
    destruct (Z.ltb_spec y 0).
    + rewrite f_add_of_Z by (unfold small; lia). exists (pred m). split; [lia|]. split_and!; [done|done|].
      exists (y + 360). split; [done|lia].
    + apply HQ; lia.
Qed.

Lemma f_r_nonzero : SpecFloat.SFeqb (f_of_Z r) f_zero = false.
Proof. apply f_of_Z_nonzero. lia. Qed.

Lemma wp_estimate d track angle_ a (Q : float → disk → world → Prop) w :
  angle d = f_of_Z a → 0 ≤ a < 360 → 0 ≤ armTrack d < 3 → 0 ≤ track < 3 → 0 ≤ angle_ < 360 →
  (∀ e, Q e d w) → wp (estimate cfg lay fuel d track angle_) Q noexn d w.
Proof.
  intros Ha Hab Hat Htr Hang HQ. unfold estimate. wp_pures. apply per_track. wp_pures.
  destruct (lay_offset track Htr) as (Hi & o & Ho & Hob). rewrite Hi. simpl. rewrite Ho. wp_pures.
  assert (0 ≤ trackWidth / s ≤ 40) as Hq.
  { unfold trackWidth. split; [apply Z.div_pos; lia|]. apply Z.div_le_upper_bound; lia. }
  assert (0 ≤ trackWidth / s * Z.abs (armTrack d - track) ≤ 80) as Hd by nia.
  rewrite f_mul_of_Z by (unfold small; lia). rewrite Hrot, f_mul_of_Z by (unfold small; nia). rewrite Ha, f_add_of_Z by (unfold small; nia).
  set (seek := trackWidth / s * Z.abs (armTrack d - track)) in *.
  apply wp_below_360; [nia|unfold laps; nia|]. intros y Hy Hy360 Hxy. wp_pures.
  assert (0 ≤ y) by (assert (0 ≤ seek * r) by nia; lia). rewrite f_sub_of_Z by (unfold small; lia).
  apply wp_below_360; [lia|unfold laps; lia|]. intros z Hz Hz360 Hxz. wp_pures.
  apply wp_above_0; [lia|unfold laps; lia|]. intros v Hv Hv0. wp_pures. unfold f_div. rewrite f_r_nonzero. wp_pures. apply HQ.
Qed.

(** *** The policies *)

(** A request that waits: its index is in the queue and it is not done. *)
Definition waiting (d : disk) (e : block * Z) : Prop := requestState d !! Z.to_nat e.2 ≠ Some STATE_DONE.
Definition entry_ok (d : disk) (e : block * Z) : Prop :=
  ∃ b i, e = (inl b, i) ∧ valid b ∧ 0 ≤ i < len (requestState d).

Lemma entry_state {A} d e (d' : disk) w (k : state → M disk A) R E : entry_ok d e →
  (∀ st, requestState d !! Z.to_nat e.2 = Some st → wp (k st) R E d' w) →
  wp (st ← list_get (requestState d) e.2; k st) R E d' w.
Proof.
  intros (b & i & -> & Hb & Hi) HQ. wp_pures. simpl in HQ. rewrite py_index_nonneg by done. simpl.
  destruct (lookup_lt_is_Some_2 (requestState d) (Z.to_nat i)) as [st Hst]; [unfold len in Hi; lia|]. rewrite Hst. by apply HQ.
Qed.

Definition ready (d : disk) : Prop := (∃ a, angle d = f_of_Z a ∧ 0 ≤ a < 360) ∧ 0 ≤ armTrack d < 3.

Lemma wp_DoSATF rList (Q : Z * Z → disk → world → Prop) d w :
  ready d → Forall (entry_ok d) rList → Exists (waiting d) rList →
  (∀ b i est, (inl b, i) ∈ rList → waiting d (inl b, i) → Q (b, i) (d <| totalEst := est |>) w) →
  wp (DoSATF cfg lay fuel rList) Q noexn d w.
Proof.
  intros [(a & Ha & Hab) Hat] Hok Hex HQ. unfold DoSATF. wp_pures.
  apply (wp_for_acc (λ pre best d' w', d' = d ∧ w' = w ∧
    (best = (f_of_Z (-1), (-1, -1)) ∧ Forall (λ e, ¬ waiting d e) pre ∨
     (inl best.2.1, best.2.2) ∈ rList ∧ waiting d (inl best.2.1, best.2.2)))).
  - split_and!; [done|done|]. left. by split.
  - intros pre e post best d' w' Hl (-> & -> & Hbest).
    assert (e ∈ rList) as Hin by (rewrite Hl; set_solver). rewrite Forall_forall in Hok. pose proof (Hok e Hin) as He.
    pose proof He as (b & i & -> & Hb & Hi). cbv beta iota.
    apply (entry_state d (inl b, i)); [done|]. intros st Hst. simpl in Hst.
    case_bool_decide as Hdone; wp_pures.
    + split_and!; [done|done|]. destruct Hbest as [[-> Hpre]|Hbest]; [left|by right]. split; [done|].
      apply Forall_app; split; [done|]. apply Forall_singleton. unfold waiting. simpl. rewrite Hst. congruence.
    + unfold of_block. destruct (lay_track_of b Hb) as [Ht Htb], (lay_angle_of b Hb) as [Han Hanb]. wp_pures.
      rewrite Ht. wp_pures. rewrite Han. wp_pures. apply (wp_estimate _ _ _ a); [done..|]. intros e. wp_pures.
      split_and!; [done|done|]. right. destruct (f_eq best.1 (f_of_Z (-1))) eqn:Hf; simpl.
      * split; [done|]. unfold waiting. simpl. rewrite Hst. congruence.
      * destruct (f_lt e best.1); simpl; [split; [done|]; unfold waiting; simpl; rewrite Hst; congruence|].
        destruct Hbest as [[-> _]|Hbest]; [by vm_compute in Hf|done].
  - intros best d' w' (-> & -> & Hbest). destruct Hbest as [[-> Hall]|[Hin Hw]].
    + exfalso. apply Exists_exists in Hex as (e & He & Hwe). rewrite Forall_forall in Hall. by destruct (Hall e He).
    + rewrite Forall_forall in Hok. pose proof (Hok _ Hin) as (b & i & Heq & Hb & Hi). destruct best as [f [x y]].
      simpl in *. injection Heq as -> ->. wp_pures. unfold valid in Hb.
      destruct (Z.eqb_spec b (-1)); [lia|]. destruct (Z.eqb_spec i (-1)); [lia|]. wp_pures. by apply HQ.
Qed.

Lemma wp_DoSSTF rList (Q : list (block * Z) → disk → world → Prop) d w :
  0 ≤ armTrack d < 3 → Forall (entry_ok d) rList → Exists (waiting d) rList →
  (∀ l, l ≠ [] → l ⊆ rList → Forall (waiting d) l → Q l d w) →
  wp (DoSSTF lay rList) Q noexn d w.
Proof.
  intros Hat Hok Hex HQ. unfold DoSSTF. wp_pures.
  apply (wp_for_acc (λ pre best d' w', d' = d ∧ w' = w ∧ best.2 ⊆ rList ∧ Forall (waiting d) best.2 ∧
    (best = (MAXTRACKS, []) ∧ Forall (λ e, ¬ waiting d e) pre ∨ best.2 ≠ []))).
  - split_and!; [done|done|set_solver|done|]. by left.
  - intros pre e post best d' w' Hl (-> & -> & Hsub & Hall & Hbest).
    assert (e ∈ rList) as Hin by (rewrite Hl; set_solver). rewrite Forall_forall in Hok. pose proof (Hok e Hin) as He.
    pose proof He as (b & i & -> & Hb & Hi). cbv beta iota.
    apply (entry_state d (inl b, i)); [done|]. intros st Hst. simpl in Hst.
    case_bool_decide as Hdone; wp_pures.
    + split_and!; [done..|]. destruct Hbest as [[-> Hpre]|Hbest]; [left|by right]. split; [done|].
      apply Forall_app; split; [done|]. apply Forall_singleton. unfold waiting. simpl. rewrite Hst. congruence.
    + assert (waiting d (inl b, i)) as Hwait by (unfold waiting; simpl; rewrite Hst; congruence).
      unfold of_block. destruct (lay_track_of b Hb) as [Ht Htb]. wp_pures. rewrite Ht. wp_pures.
      destruct (Z.ltb_spec (Z.abs (armTrack d - track_of lay b)) best.1); simpl.
      * split_and!; [done|done|set_solver|by apply Forall_singleton|by right].
      * destruct (Z.eqb_spec (Z.abs (armTrack d - track_of lay b)) best.1); simpl.
        -- split_and!; [done|done|set_solver|by apply Forall_app; rewrite Forall_singleton|]. right. by destruct best.2.
        -- split_and!; [done..|]. destruct Hbest as [[-> _]|Hbest]; [|by right]. unfold MAXTRACKS in *. simpl in *. lia.
  - intros best d' w' (-> & -> & Hsub & Hall & Hbest). destruct Hbest as [[-> Hno]|Hne].
    + exfalso. apply Exists_exists in Hex as (e & He & Hwe). rewrite Forall_forall in Hno. by destruct (Hno e He).
    + rewrite bool_decide_false by done. simpl. wp_pures. by apply HQ.
Qed.

(** *** The queue *)

Definition entries (bs : list Z) : list (block * Z) := imap (λ i b, (inl b, Z.of_nat i)) bs.

Lemma entries_lookup bs i : entries bs !! i = (λ b, (inl b, Z.of_nat i)) <$> bs !! i.
Proof. unfold entries. by rewrite list_lookup_imap. Qed.

Lemma entries_length bs : length (entries bs) = length bs.
Proof. apply length_imap. Qed.

Lemma elem_of_entries bs b i : (inl b, i) ∈ entries bs ↔ ∃ k, i = Z.of_nat k ∧ bs !! k = Some b.
Proof.
  rewrite list_elem_of_lookup. setoid_rewrite entries_lookup. split.
  - intros (k & Hk). apply fmap_Some in Hk as (b' & Hb' & Heq). injection Heq as -> ->. eauto.
  - intros (k & -> & Hk). exists k. by rewrite Hk.
Qed.

Lemma entries_app bs b : entries (bs ++ [b]) = entries bs ++ [(inl b, len bs)].
Proof. unfold entries, len. rewrite imap_app. simpl. by rewrite Nat.add_0_r. Qed.

(** What the queue and the states of its requests have to do with the requests
    served, [srv], and the current one, in state [st] *)
Record books (bs : list Z) (srv : list nat) (cur : option nat) (d : disk) : Prop := Books {
  books_queue : requestQueue d = entries bs;
  books_blocks : Forall valid bs;
  books_srv : NoDup srv ∧ Forall (λ i, i < length bs)%nat srv;
  books_count : requestCount d = Z.of_nat (length srv);
  books_len : length (requestState d) = length bs;
  books_states : ∀ i, (i < length bs)%nat → requestState d !! i =
    Some (if decide (i ∈ srv) then STATE_DONE else if decide (cur = Some i) then dstate d else STATE_NULL);
}.

Lemma books_entry_ok bs srv cur d e : books bs srv cur d → e ∈ entries bs → entry_ok d e.
Proof.
  intros Hb He. destruct e as [b i]. assert (∃ n, b = inl n) as [b' ->].
  { apply list_elem_of_lookup in He as [k Hk]. rewrite entries_lookup in Hk.
    apply fmap_Some in Hk as (? & _ & Heq). injection Heq as -> _. eauto. }
  apply elem_of_entries in He as (k & -> & Hk). exists b', (Z.of_nat k). split; [done|].
  pose proof (books_blocks _ _ _ _ Hb) as Hv. rewrite Forall_lookup in Hv. split; [eauto|].
  unfold len. rewrite (books_len _ _ _ _ Hb). apply lookup_lt_Some in Hk. lia.
Qed.

(** Among more requests than are served, one waits. *)
Lemma books_waiting bs srv d m : books bs srv None d → (length srv < m)%nat → (length srv < length bs)%nat →
  Exists (waiting d) (take m (entries bs)).
Proof.
  intros Hb Hm Hlen. destruct (decide (Exists (λ i, i ∉ srv) (seq 0 (min m (length bs))))) as [Hex|Hno].
  - apply Exists_exists in Hex as (i & Hi & Hnot). apply elem_of_seq in Hi.
    destruct (lookup_lt_is_Some_2 bs i) as [b Hbi]; [lia|]. apply Exists_exists. exists (inl b, Z.of_nat i). split.
    + apply list_elem_of_lookup. exists i. rewrite lookup_take_lt, entries_lookup, Hbi by lia. done.
    + unfold waiting. simpl. rewrite Nat2Z.id, (books_states _ _ _ _ Hb) by lia.
      by rewrite (decide_False (P:=i ∈ srv)), decide_False by done.
  - exfalso. apply not_Exists_Forall in Hno; [|apply _]. rewrite Forall_forall in Hno.
    assert (seq 0 (min m (length bs)) ⊆+ srv) as Hsub.
    { apply NoDup_submseteq; [apply NoDup_seq|]. intros i Hi. specialize (Hno i Hi). by apply dec_stable in Hno. }
    apply submseteq_length in Hsub. rewrite length_seq in Hsub. lia.
Qed.

(** *** The window *)

Definition win_ready (c : Z) (d : disk) : Prop :=
  currWindow d ≤ -1 ∨ (fairWindow cfg = -1 ∧ c < currWindow d) ∨
  (1 ≤ fairWindow cfg ∧ currWindow d = fairWindow cfg * (1 + Z.max 0 (c - 1) / fairWindow cfg)).
Definition win_run (c : Z) (d : disk) : Prop :=
  currWindow d ≤ -1 ∨ (fairWindow cfg = -1 ∧ c < currWindow d) ∨
  (1 ≤ fairWindow cfg ∧ currWindow d = fairWindow cfg * (1 + c / fairWindow cfg)).

Lemma wp_GetWindow d w (Q : Z → disk → world → Prop) :
  0 ≤ requestCount d < len (requestQueue d) → win_ready (requestCount d) d →
  (∀ g v, requestCount d < g → win_run (requestCount d) (d <| currWindow := v |>) → Q g (d <| currWindow := v |>) w) →
  wp (GetWindow cfg) Q noexn d w.
Proof.
  intros Hc Hwin HQ. unfold GetWindow. wp_pures. set (c := requestCount d) in *.
  assert (d = d <| currWindow := currWindow d |>) as Hid by (by destruct d).
  destruct (Z.leb_spec (currWindow d) (-1)).
  { rewrite Hid at 2. apply HQ; [lia|]. left. done. }
  destruct Hwin as [|[[Hf Hw]|[Hf Hw]]]; [lia| |].
  - rewrite Hf. simpl. wp_pures. rewrite Hid at 2. apply HQ; [done|]. right; left. done.
  - destruct (Z.eqb_spec (fairWindow cfg) (-1)); [lia|]. simpl.
    assert (∀ v, v = fairWindow cfg * (1 + c / fairWindow cfg) → c < v) as Hlt.
    { intros v ->. pose proof (Z.mod_pos_bound c (fairWindow cfg)). pose proof (Z.div_mod c (fairWindow cfg)). lia. }
    destruct (Z.ltb_spec 0 c) as [Hc0|Hc0]; simpl; wp_pures.
    + unfold py_mod. destruct (Z.eqb_spec (fairWindow cfg) 0); [lia|]. wp_pures. rewrite Z.max_r in Hw by lia.
      pose proof (Z.div_mod c (fairWindow cfg) ltac:(lia)) as Hdm.
      pose proof (Z.mod_pos_bound c (fairWindow cfg) ltac:(lia)) as Hmb.
      destruct (Z.eqb_spec (c mod fairWindow cfg) 0) as [Hm|Hm]; wp_pures.
      * assert ((c - 1) / fairWindow cfg = c / fairWindow cfg - 1) as Hq.
        { symmetry. apply Z.div_unique with (fairWindow cfg - 1); lia. }
        rewrite Hq in Hw. apply (HQ (currWindow d + fairWindow cfg)); [apply Hlt; lia|]. right; right. simpl. split; [done|lia].
      * assert ((c - 1) / fairWindow cfg = c / fairWindow cfg) as Hq.
        { symmetry. apply Z.div_unique with (c mod fairWindow cfg - 1); lia. }
        rewrite Hq in Hw. rewrite Hid at 2. apply HQ; [by apply Hlt|]. right; right. done.
    + assert (c = 0) as Hc00 by lia. rewrite Hc00 in *. simpl in Hw. rewrite Z.div_0_l in Hw by lia.
      rewrite Hid at 2. apply HQ; [lia|]. right; right. simpl. rewrite Z.div_0_l by lia. done.
Qed.

Lemma wp_UpdateWindow d w (Q : unit → disk → world → Prop) c :
  0 ≤ c → win_run c d →
  (∀ v, (c + 1 < len (requestQueue d) → win_ready (c + 1) (d <| currWindow := v |>)) → Q tt (d <| currWindow := v |>) w) →
  wp (UpdateWindow cfg) Q noexn d w.
Proof.
  intros Hc0 Hwin HQ. unfold UpdateWindow. wp_pures.
  destruct ((fairWindow cfg =? -1) && (0 <? currWindow d) && (currWindow d <? len (requestQueue d))) eqn:Hcond; wp_pures.
  - apply HQ. intros _. destruct Hwin as [|[[_ Hw]|[Hw _]]]; [lia| |lia]. right; left. simpl. lia.
  - assert (d = d <| currWindow := currWindow d |>) as Hid by (by destruct d).
    rewrite Hid. apply HQ. intros Hc. destruct Hwin as [|[[Hf Hw]|[Hf Hw]]]; [by left|right; left|right; right]; simpl; [lia|].
    split; [done|]. by replace (Z.max 0 (c + 1 - 1)) with c by lia.
Qed.

(** *** The choice of the next request *)

Definition policy_ok : Prop := policy cfg ∈ ["FIFO"; "SATF"; "BSATF"; "SSTF"].
Definition in_order (srv : list nat) : Prop := policy cfg = "FIFO" → srv = seq 0 (length srv).

Lemma books_est bs srv cur d e : books bs srv cur d → books bs srv cur (d <| totalEst := e |>).
Proof. by intros []. Qed.
Lemma books_win bs srv cur d v : books bs srv cur d → books bs srv cur (d <| currWindow := v |>).
Proof. by intros []. Qed.

(** What the choice yields: a request that waits, under FIFO the first *)
Definition chosen (bs : list Z) (srv : list nat) (b : Z) (k : nat) : Prop :=
  bs !! k = Some b ∧ (k ∉ srv) ∧ (policy cfg = "FIFO" → k = length srv).

Lemma waiting_unserved bs srv d b i : books bs srv None d → (inl b, i) ∈ entries bs → waiting d (inl b, i) →
  ∃ k, i = Z.of_nat k ∧ bs !! k = Some b ∧ k ∉ srv.
Proof.
  intros Hb He Hw. apply elem_of_entries in He as (k & -> & Hk). exists k. split_and!; [done..|]. intros Hin.
  apply Hw. simpl. rewrite Nat2Z.id, (books_states _ _ _ _ Hb) by (by eapply lookup_lt_Some). by rewrite decide_True.
Qed.

Lemma take_entries_ok bs srv d m : books bs srv None d → Forall (entry_ok d) (take m (entries bs)).
Proof. intros Hb. apply Forall_take, Forall_forall. intros e. by apply (books_entry_ok _ _ _ _ _ Hb). Qed.

Lemma wp_choose bs srv d w (Q : block * Z → disk → world → Prop) :
  policy_ok → ready d → books bs srv None d → (length srv < length bs)%nat → in_order srv → win_ready (len srv) d →
  (∀ b k est v, chosen bs srv b k → let d' := d <| currWindow := v |> <| totalEst := est |> in
    win_run (len srv) d' → Q (inl b, Z.of_nat k) d' w) →
  wp (choose cfg lay fuel) Q noexn d w.
Proof.
  intros Hpol Hready Hb Hlt Hord Hwin HQ. unfold choose. wp_pures.
  pose proof (books_count _ _ _ _ Hb) as Hc. pose proof (books_queue _ _ _ _ Hb) as Hq.
  assert (len (entries bs) = len bs) as Hel by (unfold len; by rewrite entries_length).
  case_bool_decide as Hfifo.
  - wp_pures. rewrite Hq, Hc. rewrite py_index_nonneg by (rewrite Hel; unfold len; lia). rewrite Nat2Z.id. simpl.
    destruct (lookup_lt_is_Some_2 bs (length srv)) as [b Hbk]; [done|]. rewrite entries_lookup, Hbk. simpl. wp_pures.
    assert (take 1 (drop (length srv) (entries bs)) = [(inl b, Z.of_nat (length srv))]) as ->.
    { rewrite (drop_S _ ((inl b : block), Z.of_nat (length srv))); [done|by rewrite entries_lookup, Hbk]. }
    assert (length srv ∉ srv) as Hnot by (intros Hin; rewrite (Hord Hfifo) in Hin at 2; rewrite elem_of_seq in Hin; lia).
    assert (waiting d (inl b, Z.of_nat (length srv))) as Hw.
    { unfold waiting. simpl. rewrite Nat2Z.id, (books_states _ _ _ _ Hb) by done. by rewrite !decide_False. }
    apply wp_DoSATF; [done| |by constructor|].
    { apply Forall_singleton. apply (books_entry_ok _ _ _ _ _ Hb), elem_of_entries. eauto. }
    intros _ _ est _ _. wp_pures.
    assert (d = d <| currWindow := currWindow d |>) as Hid by (by destruct d). rewrite Hid. apply HQ; [done|]. simpl.
    destruct Hwin as [|[|[Hf _]]]; [by left|by right; left|]. unfold fairWindow in Hf. by rewrite Hfifo in Hf.
  - set (sat := bool_decide (policy cfg = "SATF") || bool_decide (policy cfg = "BSATF")).
    assert (∀ g, Z.of_nat (length srv) < g → ∃ m, prefix_of g (requestQueue d) = take m (entries bs) ∧ (length srv < m)%nat) as Hpre.
    { intros g Hg. exists (Z.to_nat g). unfold prefix_of. rewrite Hq. destruct (Z.ltb_spec g 0); [lia|]. split; [done|lia]. }
    assert (∀ v l b i, l ⊆ entries bs → (inl b, i) ∈ l → waiting (d <| currWindow := v |>) (inl b, i) →
      ∃ k, i = Z.of_nat k ∧ chosen bs srv b k) as Hpick.
    { intros v l b i Hl Hin Hw. destruct (waiting_unserved bs srv d b i Hb) as (k & -> & Hk & Hnot); [by apply Hl|done|].
      exists k. by split_and!. }
    assert (∀ m, take m (entries bs) ⊆ entries bs) as Htake by (intros m; apply sublist_subseteq, sublist_take).
    destruct sat eqn:Hsat.
    + wp_pures. apply wp_GetWindow; [rewrite Hc, Hq, Hel; unfold len; lia|by rewrite Hc|].
      intros g v Hg Hrun. rewrite Hc in Hg, Hrun. wp_pures.
      destruct (Hpre (if len (requestQueue d) <? g then len (requestQueue d) else g)) as (m & -> & Hm).
      { rewrite Hq, Hel. unfold len. destruct (Z.ltb_spec (Z.of_nat (length bs)) g); lia. }
      apply wp_DoSATF; [done|by eapply take_entries_ok, books_win|eapply (books_waiting bs srv); [by apply books_win|done..]|].
      intros b i est Hin Hw. wp_pures. destruct (Hpick v _ b i (Htake m) Hin Hw) as (k & -> & Hk). by apply HQ.
    + rewrite bool_decide_true.
      2: { unfold policy_ok in Hpol. rewrite !elem_of_cons, elem_of_nil in Hpol. subst sat.
           destruct Hpol as [?|[Hp|[Hp|[Hp|[]]]]]; [done|rewrite Hp in Hsat; by vm_compute in Hsat..|done]. }
      wp_pures. apply wp_GetWindow; [rewrite Hc, Hq, Hel; unfold len; lia|by rewrite Hc|].
      intros g v Hg Hrun. rewrite Hc in Hg, Hrun. wp_pures. destruct (Hpre g Hg) as (m & -> & Hm).
      apply wp_DoSSTF; [by destruct Hready|by eapply take_entries_ok, books_win|eapply (books_waiting bs srv); [by apply books_win|done..]|].
      intros l Hne Hsub Hall. wp_pures. apply wp_DoSATF; [done| | |].
      * apply Forall_forall. intros e He. eapply (books_entry_ok bs srv None d); [done|]. by eapply Htake, Hsub.
      * destruct l as [|e l]; [done|]. left. by inversion Hall.
      * intros b i est Hin Hw. wp_pures. assert (l ⊆ entries bs) as Hl by (etrans; [done|apply Htake]).
        destruct (Hpick v _ b i Hl Hin Hw) as (k & -> & Hk). by apply HQ.
Qed.

(** *** Rotation *)

(** A revolution, in steps *)
Definition period : Z := 359 / r + 1.

(** The steps from angle [a] until the platter is at or just before [t] *)
Definition steps (a t : Z) : Z := (t / r - a / r - 1) mod period + 1.

(** The angle after a step *)
Definition turned (a : Z) : Z := if a + r <? 360 then a + r else 0.

Lemma slot_bounds t : 0 ≤ t < 360 → 0 ≤ t / r < period.
Proof.
  intros Ht. unfold period. split; [apply Z.div_pos; lia|].
  assert (t / r ≤ 359 / r) by (apply Z.div_le_mono; lia). lia.
Qed.

Lemma period_pos : 1 ≤ period.
Proof. unfold period. assert (0 ≤ 359 / r) by (apply Z.div_pos; lia). lia. Qed.

Lemma steps_bounds a t : 1 ≤ steps a t ≤ period.
Proof.
  unfold steps. pose proof period_pos. pose proof (Z.mod_pos_bound (t / r - a / r - 1) period ltac:(lia)). lia.
Qed.

Lemma turned_ok a : 0 ≤ a < 360 → (r | a) → 0 ≤ turned a < 360 ∧ (r | turned a) ∧ turned a / r = (a / r + 1) mod period.
Proof.
  intros Ha [q ->]. unfold turned. rewrite Z.div_mul by lia. destruct (Z.ltb_spec (q * r + r) 360).
  - split; [lia|]. split; [exists (q + 1); lia|]. replace (q * r + r) with ((q + 1) * r) by lia. rewrite Z.div_mul by lia.
    pose proof (slot_bounds ((q + 1) * r) ltac:(lia)) as Hb. rewrite Z.div_mul in Hb by lia. by rewrite Z.mod_small by lia.
  - split; [lia|]. split; [apply Z.divide_0_r|]. rewrite Z.div_0_l by lia.
    assert (359 / r = q) as Hq by (symmetry; apply Z.div_unique with (359 - q * r); lia).
    unfold period. rewrite Hq. by rewrite Z.mod_same by nia.
Qed.

Lemma turned_steps a t : 0 ≤ a < 360 → (r | a) → 0 ≤ t < 360 →
  turned a / r = t / r ∨ steps (turned a) t = steps a t - 1.
Proof.
  intros Ha Hd Ht. destruct (turned_ok a Ha Hd) as (_ & _ & Heq). pose proof (slot_bounds t Ht) as Hts.
  pose proof (slot_bounds a Ha) as Has. pose proof period_pos. unfold steps. rewrite Heq.
  set (x := t / r) in *. set (y := a / r) in *.
  rewrite <-(Zminus_mod_idemp_l (x - (y + 1) mod period)), Zminus_mod_idemp_r, Zminus_mod_idemp_l.
  destruct (decide ((x - y - 1) mod period = 0)) as [H0|Hne].
  - left. apply Z.mod_divide in H0 as [z Hz]; [|lia]. assert (y + 1 = x + (- z) * period) as -> by lia.
    rewrite Z.mod_add by lia. by rewrite Z.mod_small by lia.
  - right. pose proof (Z.mod_pos_bound (x - y - 1) period ltac:(lia)).
    pose proof (Z.div_mod (x - y - 1) period ltac:(lia)) as Hdm.
    replace (x - (y + 1) - 1) with ((x - y - 1) mod period - 1 + ((x - y - 1) / period) * period) by lia.
    rewrite Z.mod_add, Z.mod_small by lia. lia.
Qed.

Lemma RadiallyCloseTo_Z a t : 0 ≤ a < 360 → 0 ≤ t < 360 →
  RadiallyCloseTo cfg (f_of_Z a) (f_of_Z t) = (Z.abs (a - t) <? r).
Proof.
  intros Ha Ht. unfold RadiallyCloseTo. rewrite f_lt_of_Z by (unfold small; lia). rewrite Hrot.
  destruct (Z.ltb_spec t a); rewrite f_sub_of_Z, f_lt_of_Z by (unfold small; lia); f_equal; lia.
Qed.

Lemma close_slot a t : 0 ≤ a → (r | a) → a / r = t / r → (Z.abs (a - t) <? r) = true.
Proof.
  intros Ha [q ->] Heq. rewrite Z.div_mul in Heq by lia. apply Z.ltb_lt.
  pose proof (Z.div_mod t r ltac:(lia)). pose proof (Z.mod_pos_bound t r ltac:(lia)). subst q. lia.
Qed.

(** *** Changes of state *)

Lemma wp_SwitchState st d w (Q : unit → disk → world → Prop) : 0 ≤ currentIndex d < len (requestState d) →
  Q tt (d <| dstate := st |> <| requestState := <[Z.to_nat (currentIndex d) := st]> (requestState d) |>) w →
  wp (SwitchState st) Q noexn d w.
Proof. intros Hi HQ. unfold SwitchState. wp_pures. simpl. rewrite py_index_nonneg by done. simpl. wp_pures. exact HQ. Qed.

Definition switched (st : state) (d : disk) : disk :=
  d <| dstate := st |> <| requestState := <[Z.to_nat (currentIndex d) := st]> (requestState d) |>.

Lemma books_index bs srv cur d k : books bs srv cur d → (k < length bs)%nat → currentIndex d = Z.of_nat k →
  0 ≤ currentIndex d < len (requestState d).
Proof. intros Hb Hk Hi. unfold len. rewrite (books_len _ _ _ _ Hb). lia. Qed.

Lemma books_switch bs srv d k st : books bs srv (Some k) d → (k < length bs)%nat → (k ∉ srv) → currentIndex d = Z.of_nat k →
  books bs srv (Some k) (switched st d).
Proof.
  intros [Hq Hv Hs' Hc Hl Hst] Hk Hnot Hi. split; simpl; try done; [by rewrite length_insert|].
  intros i Hil. rewrite Hi, Nat2Z.id. destruct (decide (i = k)) as [->|Hne].
  - rewrite list_lookup_insert_eq by (by rewrite Hl). by rewrite decide_False, decide_True by done.
  - rewrite list_lookup_insert_ne, Hst by done. destruct (decide (i ∈ srv)); [done|].
    by rewrite !decide_False by congruence.
Qed.

(** The current request becomes one of those served. *)
Lemma books_serve bs srv d k : books bs srv (Some k) d → (k < length bs)%nat → (k ∉ srv) → currentIndex d = Z.of_nat k →
  books bs (srv ++ [k]) None (switched STATE_DONE d <| requestCount := requestCount d + 1 |>).
Proof.
  intros [Hq Hv [Hnd Hlt] Hc Hl Hst] Hk Hnot Hi. split; simpl; try done.
  - split; [|by apply Forall_app; rewrite Forall_singleton].
    apply NoDup_app. split_and!; [done|set_solver|apply NoDup_singleton].
  - rewrite Hc, length_app. simpl. lia.
  - by rewrite length_insert.
  - intros i Hil. rewrite Hi, Nat2Z.id. destruct (decide (i = k)) as [->|Hne].
    + rewrite list_lookup_insert_eq by (by rewrite Hl). rewrite decide_True; [done|set_solver].
    + rewrite list_lookup_insert_ne, Hst by done. f_equal.
      rewrite (decide_ext (i ∈ srv ++ [k]) (i ∈ srv)) by set_solver.
      destruct (decide (i ∈ srv)); [done|]. by rewrite !decide_False by congruence.
Qed.

(** A request that is served stays so. *)
Lemma books_switch_done bs srv d k : books bs srv None d → k ∈ srv → currentIndex d = Z.of_nat k →
  books bs srv None (switched STATE_DONE d).
Proof.
  intros [Hq Hv [Hnd Hlt] Hc Hl Hst] Hk Hi. split; simpl; try done; [by rewrite length_insert|].
  intros i Hil. rewrite Hi, Nat2Z.id. destruct (decide (i = k)) as [->|Hne].
  - rewrite list_lookup_insert_eq by (by rewrite Hl). by rewrite decide_True.
  - by rewrite list_lookup_insert_ne, Hst by done.
Qed.

Lemma books_start bs srv d k st : books bs srv None d → (k < length bs)%nat → (k ∉ srv) → currentIndex d = Z.of_nat k →
  books bs srv (Some k) (switched st d).
Proof.
  intros [Hq Hv Hs' Hc Hl Hst] Hk Hnot Hi. split; simpl; try done; [by rewrite length_insert|].
  intros i Hil. rewrite Hi, Nat2Z.id. destruct (decide (i = k)) as [->|Hne].
  - rewrite list_lookup_insert_eq by (by rewrite Hl). by rewrite decide_False, decide_True by done.
  - rewrite list_lookup_insert_ne, Hst by done. destruct (decide (i ∈ srv)); [done|]. by rewrite !decide_False by congruence.
Qed.

Definition queued (b : Z) (d : disk) : disk :=
  d <| requestQueue := requestQueue d ++ [(inl b, len (requestQueue d))] |> <| requestState := requestState d ++ [STATE_NULL] |>.

Lemma wp_AddRequest b d w (Q : unit → disk → world → Prop) : Q tt (queued b d) w → wp (AddRequest (inl b)) Q noexn d w.
Proof. intros HQ. unfold AddRequest, AddQueueEntry. wp_pures. exact HQ. Qed.

Lemma books_queued bs srv cur d b : books bs srv cur d → valid b → (∀ k, cur = Some k → (k < length bs)%nat) →
  books (bs ++ [b]) srv cur (queued b d).
Proof.
  intros [Hq Hv [Hnd Hlt] Hc Hl Hst] Hb Hcur. split; simpl; try done.
  - rewrite Hq, entries_app. do 3 f_equal. unfold len. by rewrite entries_length.
  - apply Forall_app. by rewrite Forall_singleton.
  - split; [done|]. eapply Forall_impl; [exact Hlt|]. intros i Hi. simpl in Hi. rewrite length_app. lia.
  - rewrite !length_app. simpl. lia.
  - intros i Hil. rewrite length_app in Hil. simpl in Hil. destruct (decide (i = length bs)) as [->|Hne].
    + rewrite list_lookup_middle by done. rewrite !decide_False; [done| |].
      * intros Heq. specialize (Hcur _ Heq). lia.
      * intros Hin. rewrite Forall_forall in Hlt. specialize (Hlt _ Hin). simpl in Hlt. lia.
    + rewrite lookup_app_l by lia. apply Hst. lia.
Qed.

(** *** The movement of the disk

    [moving d b m]: the disk is at work on block [b], and the transfer ends
    within [m] steps. *)

Definition arm_place (track : Z) : Z := 90 + trackWidth * track.
Definition arm_at (d : disk) (b : Z) : Prop := armTrack d = track_of lay b ∧ armX1 d = f_of_Z (arm_place (armTrack d)).

Definition arm_moving (d : disk) (b k : Z) : Prop := ∃ x,
  armX1 d = f_of_Z x ∧ 50 ≤ x ≤ 210 ∧ 1 ≤ k ∧
  0 ≤ armTrack d < 3 ∧ armTrack d ≠ track_of lay b ∧ armTarget d = track_of lay b ∧
  armTargetX1 d = f_of_Z (arm_place (track_of lay b)) ∧
  (armSpeed d = f_of_Z s ∧ x + s * k = arm_place (track_of lay b) ∨
   armSpeed d = f_of_Z (- s) ∧ x - s * k = arm_place (track_of lay b)).

Definition moving (d : disk) (b m : Z) : Prop :=
  currentBlock d = inl b ∧ valid b ∧ ∃ a, angle d = f_of_Z a ∧ 0 ≤ a < 360 ∧ (r | a) ∧
  match dstate d with
  | STATE_SEEK => seekBegin d ≤ timer d ∧ ∃ k, arm_moving d b k ∧ m = k + 2 * period
  | STATE_ROTATE => seekBegin d ≤ rotBegin d ≤ timer d ∧ arm_at d b ∧ m = steps a (start_of lay b) + period
  | STATE_XFER => seekBegin d ≤ rotBegin d ∧ rotBegin d ≤ xferBegin d ≤ timer d ∧ arm_at d b ∧ m = steps a (end_of lay b)
  | _ => False
  end.

(** A request takes at most this many steps. *)
Definition longest : Z := 2 * trackWidth + 2 * period.

(** What planning a seek leaves alone *)
Definition core (d : disk) :=
  (lateCount d, currWindow d, timer d, (seekTotal d, rotTotal d, xferTotal d), isDone d, currentIndex d, currentBlock d).

(** The steps of a seek by one track *)
Lemma seek_steps : ∃ q, 1 ≤ q ≤ trackWidth ∧ trackWidth = q * s.
Proof. destruct Hdiv as [q Hq]. exists q. unfold trackWidth in *. split; nia. Qed.

Lemma wp_PlanSeek bs srv d b k a w (Q : unit → disk → world → Prop) :
  books bs srv None d → (k < length bs)%nat → (k ∉ srv) → valid b → currentIndex d = Z.of_nat k → currentBlock d = inl b →
  angle d = f_of_Z a → 0 ≤ a < 360 → (r | a) → 0 ≤ armTrack d < 3 → armX1 d = f_of_Z (arm_place (armTrack d)) →
  (∀ d' m, books bs srv (Some k) d' → moving d' b m → m ≤ longest → core d' = core d → seekBegin d' = timer d →
     armTrack d' = armTrack d → Q tt d' w) →
  wp (PlanSeek cfg (track_of lay b)) Q noexn d w.
Proof.
  intros Hb Hk Hnot Hvb Hi Hcb Ha Hab Hra Hat Hax HQ. unfold PlanSeek. wp_pures.
  apply wp_SwitchState; [exact (books_index bs srv None d k Hb Hk Hi)|].
  set (d1 := switched STATE_SEEK (d <| seekBegin := timer d |>)). change (update _ _ (update _ _ _)) with d1.
  assert (books bs srv (Some k) d1) as Hb1.
  { apply (books_start bs srv (d <| seekBegin := timer d |>) k); [by destruct Hb|done..]. }
  pose proof period_pos. destruct (lay_track_of b Hvb) as [_ Htb].
  destruct (Z.eqb_spec (track_of lay b) (armTrack d)) as [Heq|Hne]; wp_pures.
  - apply wp_SwitchState; [eapply (books_index bs srv (Some k) d1); done|].
    apply (HQ _ (steps a (start_of lay b) + period)).
    + apply (books_switch bs srv (d1 <| rotBegin := timer d |>) k); [by destruct Hb1|done..].
    + split; [done|]. split; [done|]. exists a. split; [done|]. split; [done|]. split; [done|]. simpl.
      split; [lia|]. split; [|done]. by split.
    + pose proof (steps_bounds a (start_of lay b)). unfold longest, trackWidth. lia.
    + done.
    + done.
    + done.
  - destruct seek_steps as (q & Hq & Hqs).
    set (t := track_of lay b) in *. rewrite Hseek.
    assert (f_sub (f_of_Z 0) (f_of_Z s) = f_of_Z (- s)) as -> by (apply (f_sub_of_Z 0); unfold small, trackWidth in *; nia).
    apply (HQ _ (q * Z.abs (armTrack d - t) + 2 * period)); [by destruct Hb1| |unfold longest, trackWidth in *; nia|done..].
    split; [done|]. split; [done|]. exists a. split; [done|]. split; [done|]. split; [done|]. simpl. split; [lia|].
    exists (q * Z.abs (armTrack d - t)). split; [|done]. exists (arm_place (armTrack d)).
    unfold arm_place, trackWidth in *. simpl. split_and!; try done; try lia; try nia.
    + unfold spindleX, tracks, trackWidth. f_equal. change (40 / 2) with 20. lia.
    + destruct (Z.leb_spec (armTrack d) t); [left|right]; (split; [done|nia]).
Qed.

(** *** The run

    [bs0] are the requests, [lates] those that come one by one as the disk
    turns to the next; [w0] is the world before the first line. *)
Context (bs0 lates : list Z) (w0 : world).
Hypothesis Hbs0 : Forall valid bs0.
Hypothesis Hlates : Forall valid lates.
Hypothesis Hsome : bs0 ≠ [].
Hypothesis Hpol : policy_ok.
Hypothesis Hcompute : compute cfg = true.

Definition lateRequests : list block := inl <$> lates.

(** The requests in the queue when [c] are served *)
Definition late_ok (c : Z) (bs : list Z) (d : disk) : Prop :=
  0 ≤ lateCount d ≤ len lates ∧ Z.min c (len lates) ≤ lateCount d ∧ bs = bs0 ++ take (Z.to_nat (lateCount d)) lates.

Lemma late_lookup c bs d k b : late_ok c bs d → bs !! k = Some b → (bs0 ++ lates) !! k = Some b.
Proof.
  intros (_ & _ & ->) Hk. apply (prefix_lookup_Some _ _ _ _ Hk). apply prefix_app. apply prefix_take.
Qed.

(** The times of a request, and its line *)
Definition line (b : Z) (t : Z * Z * Z) : string :=
  let '(seek, rot, xfer) := t in
  "Block: " +:+ fmt_d 3 b +:+ "  Seek:" +:+ fmt_d 3 seek +:+ "  Rotate:" +:+ fmt_d 3 rot +:+
  "  Transfer:" +:+ fmt_d 3 xfer +:+ "  Total:" +:+ fmt_d 4 (seek + rot + xfer).
Definition times_ok (t : Z * Z * Z) : Prop := let '(seek, rot, xfer) := t in 0 ≤ seek ∧ 0 ≤ rot ∧ 0 ≤ xfer.

(** The requests served so far, with their times *)
Record ledger (srv : list nat) (log : list (Z * (Z * Z * Z))) (d : disk) (w : world) : Prop := Ledger {
  ledger_blocks : Forall2 (λ k e, (bs0 ++ lates) !! k = Some e.1) srv log;
  ledger_times : Forall (λ e, times_ok e.2) log;
  ledger_seek : seekTotal d = sum_of (λ e, e.2.1.1) log;
  ledger_rot : rotTotal d = sum_of (λ e, e.2.1.2) log;
  ledger_xfer : xferTotal d = sum_of (λ e, e.2.2) log;
  ledger_shown : shown ((λ e, line e.1 e.2) <$> log) w0 w;
}.

Definition total_time (d : disk) : Z := seekTotal d + rotTotal d + xferTotal d.

(** Between two requests *)
Record idle (bs : list Z) (srv : list nat) (log : list (Z * (Z * Z * Z))) (d : disk) (w : world) : Prop := Idle {
  idle_books : books bs srv None d;
  idle_order : in_order srv;
  idle_window : (length srv < length bs)%nat → win_ready (len srv) d;
  idle_late : late_ok (len srv) bs d;
  idle_ledger : ledger srv log d w;
  idle_time : total_time d = timer d;
  idle_angle : ∃ a, angle d = f_of_Z a ∧ 0 ≤ a < 360 ∧ (r | a);
  idle_arm : 0 ≤ armTrack d < 3 ∧ armX1 d = f_of_Z (arm_place (armTrack d));
  idle_isDone : isDone d = false;
}.

(** During a request that ends within [m] steps *)
Record running (bs : list Z) (srv : list nat) (log : list (Z * (Z * Z * Z))) (k : nat) (b m : Z) (d : disk) (w : world) : Prop := Running {
  run_books : books bs srv (Some k) d;
  run_order : in_order srv;
  run_chosen : chosen bs srv b k;
  run_index : currentIndex d = Z.of_nat k;
  run_window : win_run (len srv) d;
  run_late : late_ok (1 + len srv) bs d;
  run_ledger : ledger srv log d w;
  run_time : total_time d = seekBegin d;
  run_moving : moving d b m;
  run_isDone : isDone d = false;
}.

Definition totals_line (d : disk) : string :=
  nl +:+ "TOTALS      Seek:" +:+ fmt_d 3 (seekTotal d) +:+ "  Rotate:" +:+ fmt_d 3 (rotTotal d) +:+
  "  Transfer:" +:+ fmt_d 3 (xferTotal d) +:+ "  Total:" +:+ fmt_d 4 (timer d) +:+ nl.

(** The run is over: all requests are served, under FIFO in order, and the
    time is that of the requests. *)
Definition all_served (d : disk) (w : world) : Prop := ∃ log,
  (λ e, e.1) <$> log ≡ₚ bs0 ++ lates ∧
  (policy cfg = "FIFO" → (λ e, e.1) <$> log = bs0 ++ lates) ∧
  Forall (λ e, times_ok e.2) log ∧
  seekTotal d = sum_of (λ e, e.2.1.1) log ∧ rotTotal d = sum_of (λ e, e.2.1.2) log ∧ xferTotal d = sum_of (λ e, e.2.2) log ∧
  timer d = seekTotal d + rotTotal d + xferTotal d ∧
  shown (((λ e, line e.1 e.2) <$> log) ++ [totals_line d]) w0 w.

(** Indices that run through a list reach all of it. *)
Lemma served_perm {A} (l : list A) srv (xs : list A) : NoDup srv → length srv = length l → Forall (λ i, i < length l)%nat srv →
  Forall2 (λ k x, l !! k = Some x) srv xs → xs ≡ₚ l.
Proof.
  intros Hnd Hlen Hlt Hxs. assert (srv ≡ₚ seq 0 (length l)) as Hp.
  { apply submseteq_length_Permutation; [|rewrite length_seq; lia]. apply NoDup_submseteq; [done|].
    intros i Hi. rewrite Forall_forall in Hlt. apply elem_of_seq. specialize (Hlt i Hi). simpl in Hlt. lia. }
  assert (∀ srv xs, Forall2 (λ k x, l !! k = Some x) srv xs → xs = omap (l !!.) srv) as Hom.
  { induction 1 as [|k x srv' xs' Hk _ IH]; [done|]. simpl. rewrite Hk. by f_equal. }
  assert (Forall2 (λ k x, l !! k = Some x) (seq 0 (length l)) l) as Hid.
  { apply Forall2_same_length_lookup. rewrite length_seq. split; [done|]. intros i x y Hx Hy.
    apply lookup_seq in Hx as [-> _]. done. }
  rewrite (Hom _ _ Hxs), Hp. by rewrite <-(Hom _ _ Hid).
Qed.

Lemma served_order (l xs : list Z) : length xs = length l →
  Forall2 (λ k x, l !! k = Some x) (seq 0 (length l)) xs → xs = l.
Proof.
  intros Hlen Hxs. apply list_eq. intros i. destruct (decide (i < length l)%nat).
  - rewrite Forall2_lookup in Hxs. specialize (Hxs i). rewrite lookup_seq_lt in Hxs by done.
    inversion Hxs as [? x Hx|]. done.
  - by rewrite !lookup_ge_None_2 by lia.
Qed.

(** With all of the queue served, everything is: late requests come in as fast
    as requests are served. *)
Lemma idle_all bs srv log d w w' : idle bs srv log d w → length srv = length bs →
  w' = emit (totals_line d +:+ nl) w → all_served d w'.
Proof.
  intros Hi Hlen ->. destruct (idle_late _ _ _ _ _ Hi) as (Hl1 & Hl2 & Hbs).
  assert (bs = bs0 ++ lates) as Hall.
  { rewrite Hbs, firstn_all2; [done|]. assert (length bs0 ≠ 0%nat) by (by destruct bs0).
    rewrite Hbs, length_app, length_take in Hlen. unfold len in *. lia. }
  rewrite Hall in Hlen. destruct (books_srv _ _ _ _ (idle_books _ _ _ _ _ Hi)) as [Hnd Hlt]. rewrite Hall in Hlt.
  destruct (idle_ledger _ _ _ _ _ Hi) as [Hb Ht Hs1 Hs2 Hs3 Hsh].
  assert (Forall2 (λ k x, (bs0 ++ lates) !! k = Some x) srv ((λ e, e.1) <$> log)) as Hb' by (by rewrite Forall2_fmap_r).
  exists log. split_and!; try done.
  - by apply (served_perm _ srv).
  - intros Hf. apply served_order; [rewrite <-(Forall2_length _ _ _ Hb'); done|]. rewrite <-Hlen.
    rewrite <-(idle_order _ _ _ _ _ Hi Hf). done.
  - symmetry. apply (idle_time _ _ _ _ _ Hi).
  - by apply shown_emit.
Qed.

(** A late request joins the queue, if one is left. *)
Lemma wp_late bs srv k b d w (Q : unit → disk → world → Prop) :
  books bs srv (Some k) d → chosen bs srv b k → late_ok (len srv) bs d →
  (∀ bs' v q l, books bs' srv (Some k) (d <| requestQueue := q |> <| requestState := l |> <| lateCount := v |>) →
     chosen bs' srv b k → late_ok (1 + len srv) bs' (d <| requestQueue := q |> <| requestState := l |> <| lateCount := v |>) →
     Q tt (d <| requestQueue := q |> <| requestState := l |> <| lateCount := v |>) w) →
  wp (when ((0 <? len lateRequests) && (lateCount d <? len lateRequests))
      (b ← list_get lateRequests (lateCount d);
       AddRequest b;;
       lateCount <~ lateCount d + 1)) Q noexn d w.
Proof.
  intros Hb (Hbk & Hnot & Hfifo) (Hl1 & Hl2 & Hbs) HQ.
  assert (len lateRequests = len lates) as -> by (unfold len, lateRequests; by rewrite length_fmap).
  destruct ((0 <? len lates) && (lateCount d <? len lates)) eqn:Hc; cbn [when].
  - assert (lateCount d < len lates) as Hlt by lia.
    destruct (lookup_lt_is_Some_2 lates (Z.to_nat (lateCount d))) as [x Hx]; [unfold len in Hlt; lia|].
    assert (valid x) as Hvx by (rewrite Forall_lookup in Hlates; eauto).
    wp_pures. rewrite py_index_nonneg by (unfold len, lateRequests in *; rewrite length_fmap; lia). simpl.
    unfold lateRequests. rewrite list_lookup_fmap, Hx. simpl. wp_pures. apply wp_AddRequest. wp_pures.
    assert (k < length bs)%nat as Hk by (by eapply lookup_lt_Some).
    apply (HQ (bs ++ [x]) (lateCount d + 1) (requestQueue d ++ [(inl x, len (requestQueue d))]) (requestState d ++ [STATE_NULL])).
    + assert (books (bs ++ [x]) srv (Some k) (queued x d)) as [] by (apply books_queued; [done..|by intros ? [= <-]]). done.
    + split; [by apply lookup_app_l_Some|done].
    + split; [simpl; lia|]. split; [simpl; lia|]. simpl. replace (Z.to_nat (lateCount d + 1)) with (S (Z.to_nat (lateCount d))) by lia.
      by rewrite (take_S_r _ _ x), Hbs, (assoc (++)).
  - wp_pures. assert (d = d <| requestQueue := requestQueue d |> <| requestState := requestState d |> <| lateCount := lateCount d |>) as Hid by (by destruct d).
    rewrite Hid. apply (HQ bs); rewrite <-?Hid; [done|by split_and!|]. split; [done|]. split; [|done].
    assert (lateCount d = len lates) by (unfold len in *; lia). lia.
Qed.

Lemma wp_GetNextIO bs srv log d w (Q : unit → disk → world → Prop) : idle bs srv log d w →
  (∀ w', length srv = length bs → all_served d w' → Q tt (d <| isDone := true |>) w') →
  (∀ bs' k b m d', running bs' srv log k b m d' w → m ≤ longest → seekBegin d' = timer d' → timer d' = timer d →
     armTrack d' = armTrack d → (length srv < length (bs0 ++ lates))%nat → Q tt d' w) →
  wp (GetNextIO cfg lay lateRequests fuel) Q noexn d w.
Proof.
  intros Hi Hend Hnext. pose proof Hi as [Hb Hord Hwin Hlate Hled Htime (a & Ha & Hab & Hra) [Hat Hax] Hdone].
  unfold GetNextIO. wp_pures. rewrite (books_count _ _ _ _ Hb), (books_queue _ _ _ _ Hb). unfold len at 1. rewrite entries_length.
  destruct (Z.eqb_spec (Z.of_nat (length srv)) (Z.of_nat (length bs))) as [Heq|Hne].
  - unfold PrintStats. wp_pures. rewrite Hcompute. wp_pures. apply Hend; [lia|]. eapply idle_all; [done|lia|done].
  - assert (length srv < length bs)%nat as Hlt.
    { destruct (books_srv _ _ _ _ Hb) as [Hnd Hall]. assert (length srv ≤ length bs)%nat; [|lia].
      rewrite <-(length_seq (length bs) 0). apply submseteq_length, NoDup_submseteq; [done|]. intros i Hin.
      rewrite Forall_forall in Hall. apply elem_of_seq. specialize (Hall i Hin). simpl in Hall. lia. }
    wp_pures. apply (wp_choose bs srv); [done|split; [by exists a|done]|done..|by apply Hwin|].
    intros b k est v Hch d1 Hrun. wp_pures. pose proof Hch as (Hbk & Hnot & Hfifo).
    assert (valid b) as Hvb by (pose proof (books_blocks _ _ _ _ Hb) as Hv; rewrite Forall_lookup in Hv; eauto).
    unfold of_block. destruct (lay_track_of b Hvb) as [Htr _]. wp_pures. rewrite Htr. wp_pures.
    apply (wp_PlanSeek bs srv _ b k a); try done; [by destruct Hb|by eapply lookup_lt_Some|].
    intros d2 m Hb2 Hmov Hm Hcore Hsb Harm. rewrite wp_bind, wp_get. unfold core in Hcore. subst d1. simpl in Hcore, Hsb, Harm.
    injection Hcore as Hc1 Hc2 Hc3 Hc4 Hc5 Hc6 Hc7 Hc8 Hc9.
    apply (wp_late bs srv k b); [done|done| |].
    { destruct Hlate as (H1 & H2 & H3). rewrite <-Hc1 in *. done. }
    intros bs' v' q l Hb3 Hch' Hlate'. apply (Hnext bs' k b m); [|simpl; congruence..|].
    + split; simpl; try done; try congruence.
      * unfold win_run in *. simpl in *. by rewrite Hc2.
      * destruct Hled as [? ? ? ? ? ?]. split; simpl; congruence || done.
      * unfold total_time in *. simpl in *. congruence.
    + destruct Hlate' as (H1 & H2 & Hbs'). destruct Hlate as (_ & _ & ->). rewrite length_app in *. rewrite length_take in Hlt. lia.
Qed.

(** *** The end of a request *)

Lemma wp_sequential t b b' d w (Q : bool → disk → world → Prop) : valid b → valid b' → 0 ≤ t < 3 →
  (∀ c : bool, (c = true → track_of lay b = track_of lay b') → Q c d w) →
  wp (sequential lay t (inl b) (inl b')) Q noexn d w.
Proof.
  intros Hb Hb' Ht HQ. unfold sequential, of_block, block_int. destruct (lay_track_of b Hb) as [Hbt _], (lay_track_of b' Hb') as [Hbt' _].
  wp_pures. rewrite Hbt. wp_pures. rewrite Hbt'. wp_pures.
  destruct (Z.eqb_spec (track_of lay b) (track_of lay b')) as [Heq|Hne]; wp_pures; [|by apply HQ].
  destruct (ok_ends _ _ Hlay t Ht) as [[first last] Hends]. rewrite Hends. wp_pures. by apply HQ.
Qed.

(** The next request starts its transfer at once. *)
Definition resumed (d : disk) : disk :=
  switched STATE_XFER (d <| rotBegin := timer d |> <| seekBegin := timer d |> <| xferBegin := timer d |>).

Lemma running_resumed bs srv log k b m d w : running bs srv log k b m d w → dstate d ≠ STATE_SEEK → seekBegin d = timer d →
  ∃ m', running bs srv log k b m' (resumed d) w ∧ m' ≤ period.
Proof.
  intros [Hb Hord Hch Hi Hwin Hlate Hled Htime Hmov Hdone] Hns Hsb. pose proof Hch as (Hbk & Hnot & _).
  destruct Hmov as (Hcb & Hvb & a & Ha & Hab & Hra & Hst).
  assert (arm_at d b) as Harm by (destruct (dstate d); [done|done|by destruct Hst as (_ & ? & _)|by destruct Hst as (_ & _ & ? & _)|done]).
  exists (steps a (end_of lay b)). split; [|apply steps_bounds]. split; simpl; try done.
  - apply books_switch; [by destruct Hb|by eapply lookup_lt_Some|done|done].
  - by destruct Hled.
  - unfold total_time in *. simpl. congruence.
  - split; [done|]. split; [done|]. exists a. split; [done|]. split; [done|]. split; [done|]. simpl. split_and!; try done; lia.
Qed.

Lemma ledger_add srv log k b t d w d' : ledger srv log d w → (bs0 ++ lates) !! k = Some b → times_ok t →
  seekTotal d' = seekTotal d + t.1.1 → rotTotal d' = rotTotal d + t.1.2 → xferTotal d' = xferTotal d + t.2 →
  ledger (srv ++ [k]) (log ++ [(b, t)]) d' (emit (line b t +:+ nl) w).
Proof.
  intros [Hb Ht Hs1 Hs2 Hs3 Hsh] Hk Hok H1 H2 H3. split.
  - apply Forall2_app; [done|]. by repeat constructor.
  - rewrite Forall_app, Forall_singleton. done.
  - rewrite sum_of_app, H1, Hs1. simpl. lia.
  - rewrite sum_of_app, H2, Hs2. simpl. lia.
  - rewrite sum_of_app, H3, Hs3. simpl. lia.
  - rewrite fmap_app. by apply shown_emit.
Qed.

(** From the last step of the transfer to the state between two requests *)
Lemma wp_to_idle bs srv log k b m d w (Q : unit → disk → world → Prop) : running bs srv log k b m d w → dstate d = STATE_XFER →
  (∀ d' t w', idle bs (srv ++ [k]) (log ++ [(b, t)]) d' w' → currentBlock d' = inl b → currentIndex d' = Z.of_nat k →
     armTrack d' = track_of lay b → Q tt d' w') →
  wp (DoRequestStats cfg;; SwitchState STATE_DONE;; UpdateWindow cfg) Q noexn
    (switched STATE_DONE d <| requestCount := requestCount d + 1 |>) w.
Proof.
  intros [Hb Hord Hch Hi Hwin Hlate Hled Htime Hmov Hdone] Hx HQ. pose proof Hch as (Hbk & Hnot & Hfifo).
  destruct Hmov as (Hcb & Hvb & a & Ha & Hab & Hra & Hst). rewrite Hx in Hst. destruct Hst as (H1 & H2 & [Hat Hax] & _).
  assert (k < length bs)%nat as Hk by (by eapply lookup_lt_Some).
  pose proof (books_serve _ _ _ _ Hb Hk Hnot Hi) as Hb1. set (d1 := switched STATE_DONE d <| requestCount := _ |>) in *.
  set (t := (rotBegin d - seekBegin d, xferBegin d - rotBegin d, timer d - xferBegin d)).
  unfold DoRequestStats. wp_pures. rewrite Hcompute. simpl currentBlock. rewrite Hcb. unfold block_int. wp_pures. simpl.
  set (w1 := emit _ w). assert (w1 = emit (line b t +:+ nl) w) as Hw1.
  { unfold w1, line, t. by replace (rotBegin d - seekBegin d + (xferBegin d - rotBegin d) + (timer d - xferBegin d))
      with (timer d - seekBegin d) by lia. }
  set (d2 := d1 <| seekTotal := _ |> <| rotTotal := _ |> <| xferTotal := _ |>).
  assert (books bs (srv ++ [k]) None d2) as Hb2 by (by destruct Hb1).
  apply wp_SwitchState; [exact (books_index _ _ _ d2 k Hb2 Hk Hi)|]. fold (switched STATE_DONE d2).
  apply (wp_UpdateWindow _ _ _ (len srv)); [unfold len; lia|exact Hwin|]. intros v Hv. apply (HQ _ t); [|done..].
  rewrite Hw1. pose proof (books_switch_done _ _ d2 k Hb2 ltac:(set_solver) Hi) as Hb3.
  assert (len (srv ++ [k]) = len srv + 1) as Hls by (unfold len; rewrite length_app; simpl; lia).
  split; simpl; try done.
  - by destruct Hb3.
  - intros Hf. rewrite length_app. simpl. rewrite Nat.add_1_r, seq_S, <-(Hord Hf), (Hfifo Hf). done.
  - rewrite Hls. intros Hlt. apply Hv. simpl. rewrite (books_queue _ _ _ _ Hb). unfold len. rewrite entries_length.
    rewrite length_app in Hlt. simpl in Hlt. lia.
  - by rewrite Hls, Z.add_comm.
  - eapply (ledger_add _ _ _ _ t d); [done|by eapply late_lookup|simpl; lia|done..].
  - unfold total_time in *. simpl. lia.
  - by exists a.
  - rewrite Hat. destruct (lay_track_of b Hvb) as [_ Htb]. split; [done|]. by rewrite <-Hat.
Qed.

(** With [c] requests served, the run is over or at the next request. *)
Definition next_ok (c : nat) (d : disk) (w : world) : Prop :=
  isDone d = true ∧ all_served d w ∨
  (∃ bs srv log k b m, running bs srv log k b m d w ∧ m ≤ longest ∧ length srv = c ∧ (c < length (bs0 ++ lates))%nat).

Lemma wp_seq3 {A} (m1 m2 m3 : M disk unit) (m : M disk A) Q E d w :
  wp (m1;; m2;; m3) (λ _ d w, wp m Q E d w) E d w → wp (m1;; m2;; m3;; m) Q E d w.
Proof.
  unfold wp, mbind, M_bind. destruct (m1 d w) as [a1 d1 w1| |]; [|done..]. destruct (m2 d1 w1) as [a2 d2 w2| |]; [|done..].
  by destruct (m3 d2 w2).
Qed.

Lemma wp_finish_request bs srv log k b m d w (Q : unit → disk → world → Prop) :
  running bs srv log k b m d w → dstate d = STATE_XFER →
  (∀ d' w', next_ok (S (length srv)) d' w' → Q tt d' w') →
  wp (finish_request cfg lay lateRequests fuel) Q noexn (switched STATE_DONE d <| requestCount := requestCount d + 1 |>) w.
Proof.
  intros Hrun Hx HQ. unfold finish_request. apply wp_seq3. eapply wp_to_idle; [done|done|].
  intros d1 t w1 Hidle Hcb Hci Harm. pose proof Hidle as [Hb1 _ _ _ _ _ _ [Hat1 _] _].
  pose proof (run_chosen _ _ _ _ _ _ _ _ Hrun) as (Hbk & _ & _). pose proof (books_blocks _ _ _ _ Hb1) as Hvs.
  assert (valid b) as Hvb by (rewrite Forall_lookup in Hvs; eauto).
  wp_pures. rewrite Hcb. eapply wp_GetNextIO; [done| |].
  - intros w2 _ Hall. wp_pures. simpl. rewrite Hcb. apply wp_sequential; [done..|]. intros c _. wp_pures.
    destruct c; [|apply HQ; by left]. apply wp_SwitchState; [|apply HQ; by left].
    apply (books_index _ _ _ d1 k Hb1); [by eapply lookup_lt_Some|done].
  - intros bs' k' b' m' d2 Hrun2 Hm' Hsb Htm Hat Hlt. wp_pures.
    assert (length (srv ++ [k]) = S (length srv)) as Hlen by (rewrite length_app; simpl; lia). rewrite Hlen in Hlt.
    pose proof (run_moving _ _ _ _ _ _ _ _ Hrun2) as (Hcb2 & Hvb2 & a & _ & _ & _ & Hst). rewrite Hcb2, Hat.
    apply wp_sequential; [done..|]. intros c Hc. wp_pures. destruct c.
    2: { apply HQ. right. exists bs', (srv ++ [k]), (log ++ [(b, t)]), k', b', m'. done. }
    assert (dstate d2 ≠ STATE_SEEK) as Hns.
    { intros Hseek2. rewrite Hseek2 in Hst. destruct Hst as (_ & j & (x & _ & _ & _ & _ & Hne & _) & _). rewrite <-Hc in Hne by done. congruence. }
    destruct (running_resumed _ _ _ _ _ _ _ _ Hrun2 Hns Hsb) as (m2 & Hres & Hm2).
    pose proof (run_books _ _ _ _ _ _ _ _ Hrun2) as Hb2. pose proof (run_chosen _ _ _ _ _ _ _ _ Hrun2) as (Hbk2 & _ & _).
    apply wp_SwitchState.
    { apply (books_index _ _ _ d2 k' Hb2); [by eapply lookup_lt_Some|by eapply run_index]. }
    apply HQ. right. exists bs', (srv ++ [k]), (log ++ [(b, t)]), k', b', m2. split; [done|].
    split; [|done]. pose proof period_pos. unfold longest, trackWidth. lia.
Qed.

(** *** A step *)

Lemma start_bounds b : 0 ≤ start_of lay b < 360.
Proof. unfold start_of. apply Z.mod_pos_bound. lia. Qed.
Lemma end_bounds b : 0 ≤ end_of lay b < 360.
Proof. unfold end_of. apply Z.mod_pos_bound. lia. Qed.

(** The platter is at or just before the place that the disk waits for. *)
Definition due (d : disk) (b : Z) : Prop := ∃ a, angle d = f_of_Z a ∧ 0 ≤ a < 360 ∧
  match dstate d with
  | STATE_ROTATE => a / r = start_of lay b / r
  | STATE_XFER => a / r = end_of lay b / r
  | _ => False
  end.

Lemma wp_disk_tick bs srv log k b m d w (Q : unit → disk → world → Prop) : running bs srv log k b m d w →
  (∀ d' m', running bs srv log k b m' d' w → dstate d' = dstate d →
     (if decide (dstate d = STATE_SEEK) then m' = m else due d' b ∨ m' = m - 1) → Q tt d' w) →
  wp (tick cfg) Q noexn d w.
Proof.
  intros [Hb Hord Hch Hi Hwin Hlate Hled Htime Hmov Hdone] HQ. pose proof Hmov as (Hcb & Hvb & a & Ha & Hab & Hra & Hst).
  unfold tick. wp_pures. simpl. rewrite Ha, Hrot, f_add_of_Z by (unfold small; lia). rewrite f_lt_of_Z by (unfold small; lia).
  destruct (turned_ok a Hab Hra) as (Hta & Htr & _).
  pose proof (turned_steps a (start_of lay b) Hab Hra (start_bounds b)) as Hts.
  pose proof (turned_steps a (end_of lay b) Hab Hra (end_bounds b)) as Hte.
  assert (∀ d', d' = d <| timer := timer d + 1 |> <| angle := f_of_Z (turned a) |> → Q tt d' w) as Hgo.
  2: { unfold turned in Hgo. destruct (Z.ltb_spec (a + r) 360); wp_pures; by apply Hgo. }
  intros d' ->. set (d1 := update _ _ _).
  assert (∀ m', moving d1 b m' → running bs srv log k b m' d1 w) as Hrun.
  { intros m' Hm'. split; try done; [by destruct Hb|by destruct Hled]. }
  destruct (dstate d) eqn:Hds; try done.
  - apply (HQ d1 m); [|done|by rewrite decide_True]. apply Hrun. split; [done|]. split; [done|]. exists (turned a).
    split; [done|]. split; [done|]. split; [done|]. simpl. rewrite Hds. destruct Hst as [H1 H2]. split; [lia|exact H2].
  - destruct Hst as (H1 & H2 & ->). apply (HQ d1 (steps (turned a) (start_of lay b) + period)); [|done|].
    + apply Hrun. split; [done|]. split; [done|]. exists (turned a).
      split; [done|]. split; [done|]. split; [done|]. simpl. rewrite Hds. split; [lia|]. split; [exact H2|done].
    + rewrite decide_False by done. destruct Hts as [Hts|Hts]; [left|right; lia]. exists (turned a). split; [done|]. split; [done|]. simpl. by rewrite Hds.
  - destruct Hst as (H1 & H2 & H3 & ->). apply (HQ d1 (steps (turned a) (end_of lay b))); [|done|].
    + apply Hrun. split; [done|]. split; [done|]. exists (turned a).
      split; [done|]. split; [done|]. split; [done|]. simpl. rewrite Hds. split; [lia|]. split; [lia|]. split; [exact H3|done].
    + rewrite decide_False by done. destruct Hte as [Hte|Hte]; [left|right; lia]. exists (turned a). split; [done|]. split; [done|]. simpl. by rewrite Hds.
Qed.

Lemma block_offset b : valid b → py_index (blockAngleOffset lay) (track_of lay b) = Some (Z.to_nat (track_of lay b)) ∧
  blockAngleOffset lay !! Z.to_nat (track_of lay b) = Some (offset_of lay b).
Proof.
  intros Hb. destruct (lay_track_of b Hb) as [_ Ht]. destruct (lay_offset _ Ht) as (Hi & o & Ho & _).
  split; [done|]. unfold offset_of. by rewrite Ho.
Qed.

Lemma wp_transfer_stage bs srv log k b m mx d w (Q : unit → disk → world → Prop) : running bs srv log k b m d w →
  dstate d = STATE_XFER → due d b ∨ m ≤ mx →
  (m ≤ mx → Q tt d w) → (∀ d' w', next_ok (S (length srv)) d' w' → Q tt d' w') →
  wp (transfer_stage cfg lay lateRequests fuel) Q noexn d w.
Proof.
  intros Hrun Hx Hdue Hstay Hend. pose proof Hrun as [Hb _ (Hbk & _) Hi _ _ _ _ (Hcb & Hvb & a & Ha & Hab & Hra & Hst) _].
  rewrite Hx in Hst. destruct Hst as (_ & _ & [Hat _] & Hm). destruct (lay_angle_of b Hvb) as [Hang _].
  destruct (block_offset b Hvb) as [Hoi Ho]. unfold transfer_stage. wp_pures. rewrite Hx, bool_decide_true by done.
  unfold DoneWithTransfer, of_block. wp_pures. rewrite Hat, Hoi. simpl. rewrite Ho. wp_pures. rewrite Hcb. wp_pures. rewrite Hang. wp_pures.
  fold (end_of lay b). rewrite Ha, RadiallyCloseTo_Z by (done || apply end_bounds).
  destruct (Z.abs (a - end_of lay b) <? r) eqn:Hclose.
  - wp_pures. apply wp_SwitchState; [apply (books_index bs srv (Some k) d k Hb); [by eapply lookup_lt_Some|done]|]. wp_pures.
    eapply wp_finish_request; [done|done|]. exact Hend.
  - wp_pures. apply Hstay. destruct Hdue as [(a' & Ha' & Hab' & Hslot)|?]; [|done]. rewrite Hx in Hslot. exfalso.
    assert (a' = a) as -> by (apply f_of_Z_inj; [unfold small; lia..|congruence]).
    rewrite close_slot in Hclose; [done|lia|done|done].
Qed.

Lemma wp_rotate_stage bs srv log k b m mx d w (Q : unit → disk → world → Prop) : running bs srv log k b m d w →
  dstate d = STATE_ROTATE → due d b ∨ m ≤ mx →
  (m ≤ mx → Q tt d w) →
  (∀ d' m', running bs srv log k b m' d' w → dstate d' = STATE_XFER → m' ≤ period → Q tt d' w) →
  wp (rotate_stage cfg lay) Q noexn d w.
Proof.
  intros Hrun Hx Hdue Hstay Hnext.
  pose proof Hrun as [Hb Hord Hch Hi Hwin Hlate Hled Htime (Hcb & Hvb & a & Ha & Hab & Hra & Hst) Hdone].
  pose proof Hch as (Hbk & Hnot & _). rewrite Hx in Hst. destruct Hst as (Htm & Harm & Hm). destruct (lay_angle_of b Hvb) as [Hang _].
  pose proof Harm as [Hat _]. destruct (block_offset b Hvb) as [Hoi Ho]. unfold rotate_stage. wp_pures. rewrite Hx, bool_decide_true by done.
  unfold DoneWithRotation, of_block. wp_pures. rewrite Hat, Hoi. simpl. rewrite Ho. wp_pures. rewrite Hcb. wp_pures. rewrite Hang. wp_pures.
  fold (start_of lay b). rewrite Ha, RadiallyCloseTo_Z by (done || apply start_bounds).
  assert (k < length bs)%nat as Hk by (by eapply lookup_lt_Some).
  destruct (Z.abs (a - start_of lay b) <? r) eqn:Hclose.
  - wp_pures. pose proof (books_index bs srv (Some k) d k Hb Hk Hi) as Hidx.
    apply wp_SwitchState; [done|]. wp_pures.
    pose proof (books_switch bs srv d k STATE_XFER Hb Hk Hnot Hi) as Hb1.
    apply wp_SwitchState; [exact (books_index _ _ _ _ k Hb1 Hk Hi)|].
    pose proof (books_switch bs srv _ k STATE_XFER Hb1 Hk Hnot Hi) as Hb2.
    apply (Hnext _ (steps a (end_of lay b))); [|done|apply steps_bounds].
    split; try done; [by destruct Hb2|by destruct Hled|].
    split; [done|]. split; [done|]. exists a. split; [done|]. split; [done|]. split; [done|]. simpl.
    split; [lia|]. split; [lia|]. split; [exact Harm|done].
  - wp_pures. apply Hstay. destruct Hdue as [(a' & Ha' & Hab' & Hslot)|?]; [|done]. rewrite Hx in Hslot. exfalso.
    assert (a' = a) as -> by (apply f_of_Z_inj; [unfold small; lia..|congruence]).
    rewrite close_slot in Hclose; [done|lia|done|done].
Qed.

Lemma wp_seek_stage bs srv log k b m d w (Q : unit → disk → world → Prop) : running bs srv log k b m d w →
  dstate d = STATE_SEEK →
  (∀ d', running bs srv log k b (m - 1) d' w → dstate d' = STATE_SEEK → Q tt d' w) →
  (∀ d' m', running bs srv log k b m' d' w → dstate d' = STATE_ROTATE → m' < m → Q tt d' w) →
  wp seek_stage Q noexn d w.
Proof.
  intros Hrun Hx Hstay Hnext.
  pose proof Hrun as [Hb Hord Hch Hi Hwin Hlate Hled Htime (Hcb & Hvb & a & Ha & Hab & Hra & Hst) Hdone].
  pose proof Hch as (Hbk & Hnot & _). rewrite Hx in Hst.
  destruct Hst as (Htm & j & (x & Hax & Hxb & Hj & Hat & Hne & Htar & Htx & Hsp) & Hm).
  destruct (lay_track_of b Hvb) as [_ Htb]. assert (k < length bs)%nat as Hk by (by eapply lookup_lt_Some).
  destruct seek_steps as (q & Hq & Hqs). assert (s ≤ 40) by (unfold trackWidth in *; nia).
  set (X := arm_place (track_of lay b)) in *. assert (90 ≤ X ≤ 170) as HX by (unfold X, arm_place, trackWidth; lia).
  unfold seek_stage. wp_pures. rewrite Hx, bool_decide_true by done. unfold DoneWithSeek. wp_pures. simpl.
  assert (∃ y, f_add (armX1 d) (armSpeed d) = f_of_Z y ∧ 50 ≤ y ≤ 210 ∧
    (armSpeed d = f_of_Z s ∧ y + s * (j - 1) = X ∨ armSpeed d = f_of_Z (- s) ∧ y - s * (j - 1) = X) ∧
    (f_lt (f_of_Z 0) (armSpeed d) && negb (f_lt (f_of_Z y) (f_of_Z X)) ||
     f_lt (armSpeed d) (f_of_Z 0) && negb (f_lt (f_of_Z X) (f_of_Z y))) = (j =? 1)) as (y & Hy & Hyb & Hys & Hdone').
  { rewrite Hax. destruct Hsp as [[-> Hxj]|[-> Hxj]].
    - exists (x + s). rewrite f_add_of_Z, !f_lt_of_Z by (unfold small; nia). split; [done|]. split; [nia|].
      split; [left; split; [done|nia]|]. destruct (Z.eqb_spec j 1) as [->|]; [|assert (2 ≤ j) by lia]; nia.
    - exists (x + - s). rewrite f_add_of_Z, !f_lt_of_Z by (unfold small; nia). split; [done|]. split; [nia|].
      split; [right; split; [done|nia]|]. destruct (Z.eqb_spec j 1) as [->|]; [|assert (2 ≤ j) by lia]; nia. }
  rewrite Hy, Htx, Hdone'. destruct (Z.eqb_spec j 1) as [->|Hj1]; wp_pures.
  - apply wp_SwitchState; [exact (books_index _ _ _ d k Hb Hk Hi)|].
    apply (Hnext _ (steps a (start_of lay b) + period)); [|done|pose proof (steps_bounds a (start_of lay b)); lia].
    split; try done; [|by destruct Hled|].
    + set (d1 := _ <| rotBegin := _ |>). apply (books_switch bs srv d1 k); [by destruct Hb|done..].
    + split; [done|]. split; [done|]. exists a. split; [done|]. split; [done|]. split; [done|]. simpl.
      split; [lia|]. split; [|done]. unfold arm_at. simpl. rewrite Htar. split; [done|]. f_equal. destruct Hys as [[_ ?]|[_ ?]]; unfold X in *; lia.
  - apply Hstay; [|done]. split; try done; [by destruct Hb|by destruct Hled|].
    split; [done|]. split; [done|]. exists a. split; [done|]. split; [done|]. split; [done|]. simpl. rewrite Hx.
    split; [lia|]. exists (j - 1). split; [|lia]. exists y. simpl. by split_and!; try done; lia.
Qed.

Lemma skip_stage (st : state) (body : M disk unit) d w (Q : unit → disk → world → Prop) : dstate d ≠ st →
  Q tt d w → wp (d ← get; when (bool_decide (dstate d = st)) body) Q noexn d w.
Proof. intros Hne HQ. wp_pures. by rewrite bool_decide_false. Qed.

Lemma wp_Animate bs srv log k b m d w (Q : unit → disk → world → Prop) : running bs srv log k b m d w →
  (∀ d' m', running bs srv log k b m' d' w → m' < m → Q tt d' w) →
  (∀ d' w', next_ok (S (length srv)) d' w' → Q tt d' w') →
  wp (Animate cfg lay lateRequests fuel) Q noexn d w.
Proof.
  intros Hrun Hstay Hend. unfold Animate. wp_pures. pose proof period_pos as Hper.
  assert (∀ d' m', running bs srv log k b m' d' w → dstate d' = STATE_XFER → due d' b ∨ m' ≤ m - 1 →
    wp (transfer_stage cfg lay lateRequests fuel) Q noexn d' w) as Htransfer.
  { intros d' m' Hr' Hx Hdue. eapply (wp_transfer_stage _ _ _ _ _ m' (m - 1)); [done|done|done| |done].
    intros Hm'. eapply Hstay; [done|lia]. }
  assert (∀ d' m', running bs srv log k b m' d' w → dstate d' = STATE_ROTATE → due d' b ∨ m' ≤ m - 1 → period < m →
    wp (rotate_stage cfg lay) (λ _ d w, wp (transfer_stage cfg lay lateRequests fuel) Q noexn d w) noexn d' w) as Hrotate.
  { intros d' m' Hr' Hx Hdue Hpm. eapply (wp_rotate_stage _ _ _ _ _ m' (m - 1)); [done|done|done| |].
    - intros Hm'. apply skip_stage; [by rewrite Hx|]. eapply Hstay; [done|lia].
    - intros d2 m2 Hr2 Hx2 Hm2. eapply Htransfer; [done|done|]. right. lia. }
  eapply wp_disk_tick; [done|]. intros d1 m1 Hr1 Hds Hdue.
  pose proof (run_moving _ _ _ _ _ _ _ _ Hrun) as (_ & _ & a & _ & _ & _ & Hst).
  destruct (dstate d) eqn:Hd; try done; simpl in Hdue; wp_pures.
  - subst m1. eapply wp_seek_stage; [done|done| |].
    + intros d2 Hr2 Hx2. wp_pures. apply skip_stage; [by rewrite Hx2|]. apply skip_stage; [by rewrite Hx2|]. eapply Hstay; [done|lia].
    + intros d2 m2 Hr2 Hx2 Hm2. wp_pures. eapply Hrotate; [done|done|right; lia|].
      destruct Hst as (_ & j & (_ & _ & _ & Hj & _) & ->). lia.
  - apply skip_stage; [by rewrite Hds|]. wp_pures. eapply Hrotate; [done|done|destruct Hdue; [by left|right; lia]|].
    destruct Hst as (_ & _ & ->). pose proof (steps_bounds a (start_of lay b)). lia.
  - apply skip_stage; [by rewrite Hds|]. wp_pures. apply skip_stage; [by rewrite Hds|].
    eapply Htransfer; [done|done|destruct Hdue; [by left|right; lia]].
Qed.

Lemma moving_pos d b m : moving d b m → 1 ≤ m.
Proof.
  intros (_ & _ & a & _ & _ & _ & Hst). pose proof period_pos. destruct (dstate d); try done.
  - destruct Hst as (_ & j & (_ & _ & _ & Hj & _) & ->). lia.
  - destruct Hst as (_ & _ & ->). pose proof (steps_bounds a (start_of lay b)). lia.
  - destruct Hst as (_ & _ & _ & ->). apply steps_bounds.
Qed.

(** The run ends within [m] more steps. *)
Definition within (m : nat) (d : disk) (w : world) : Prop :=
  isDone d = true ∧ all_served d w ∨
  (∃ bs srv log k b mm, running bs srv log k b mm d w ∧ (length srv < length (bs0 ++ lates))%nat ∧
    (len (bs0 ++ lates) - len srv - 1) * longest + mm ≤ Z.of_nat m).

Lemma next_within c d w : next_ok c d w → within (Z.to_nat ((len (bs0 ++ lates) - Z.of_nat c) * longest)) d w.
Proof.
  intros [Hdone|(bs & srv & log & k & b & m & Hr' & Hm & <- & Hlt)]; [by left|right].
  exists bs, srv, log, k, b, m. split; [done|]. split; [done|]. unfold len.
  assert (0 < longest) by (pose proof period_pos; unfold longest, trackWidth; lia). nia.
Qed.

Definition enough : Z := len (bs0 ++ lates) * longest.

Lemma wp_Go d w : idle bs0 [] [] d w → enough < Z.of_nat fuel →
  wp (Go cfg lay lateRequests fuel) (λ _ d' w', isDone d' = true ∧ all_served d' w') noexn d w.
Proof.
  intros Hidle Henough. unfold Go. wp_pures.
  assert (0 < longest) as Hlong by (pose proof period_pos; unfold longest, trackWidth; lia).
  assert (∀ d w, next_ok 0 d w → wp (while_ fuel tt (λ _, d ← get; if isDone d then mret (inr tt)
      else Animate cfg lay lateRequests fuel;; mret (inl tt))) (λ _ d' w', isDone d' = true ∧ all_served d' w') noexn d w) as Hloop.
  { intros d0 w1 Hnext. apply next_within in Hnext. change (Z.of_nat 0) with 0 in Hnext. rewrite Z.sub_0_r in Hnext.
    eapply (wp_while_bound (λ m _, within m)); [exact Hnext| |].
    { unfold enough in *. assert (0 ≤ len (bs0 ++ lates) * longest) by (unfold len; nia). lia. }
    clear dependent d d0 w w1. intros m [] d w [[Hdone Hall]|(bs & srv & log & k & b & mm & Hrun & Hlt & Hm)].
    - wp_pures. rewrite Hdone. by wp_pures.
    - wp_pures. rewrite (run_isDone _ _ _ _ _ _ _ _ Hrun). wp_pures.
      pose proof (moving_pos _ _ _ (run_moving _ _ _ _ _ _ _ _ Hrun)) as Hpos.
      assert (0 ≤ len (bs0 ++ lates) - len srv - 1) by (unfold len; lia).
      eapply wp_Animate; [done| |].
      + intros d' m' Hrun' Hm'. wp_pures. exists (pred m). split; [nia|]. right. exists bs, srv, log, k, b, m'.
        split; [done|]. split; [done|]. nia.
      + intros d' w' Hnext. wp_pures. apply next_within in Hnext. eexists. split; [|exact Hnext].
        unfold len in *. nia. }
  eapply wp_GetNextIO; [done| |].
  - intros w' Hlen. destruct bs0; done.
  - intros bs' k b m d' Hrun Hm _ _ _ Hlt. apply Hloop. right. exists bs', [], [], k, b, m. done.
Qed.
End Facts.

(** ** The program *)

(** The blocks of a track whose zone is [z] degrees wide *)
Definition per_track_blocks (z : Z) : Z := (360 + 2 * (z / 2) - 1) / (2 * (z / 2)).

Section Layout.

(** The blocks below [p] have a track and an angle. *)
Definition covers (l : layout) (p : Z) : Prop := ∀ b, 0 ≤ b < p →
  (∃ t, blockToTrackMap l !! b = Some t ∧ 0 ≤ t < 3) ∧ is_Some (blockToAngleMap l !! b).

Lemma wp_lay_track t p skew label l last z d w (Q : layout * Z → disk → world → Prop) :
  0 ≤ t < 3 → 0 ≤ p → blockAngleOffset l !! Z.to_nat t = Some (z / 2) → len (blockAngleOffset l) = 3 → 2 ≤ z ≤ 720 → covers l p →
  (∀ l' w', let q := p + per_track_blocks z - 1 in
     covers l' (q + 1) → p ≤ q → tracksBeginEnd l' = <[t := (p, q)]> (tracksBeginEnd l) →
     blockAngleOffset l' = blockAngleOffset l → rng w' = rng w → Q (l', q) d w') →
  wp (lay_track t p skew label l last) Q noexn d w.
Proof.
  intros Ht Hp Hoff Hlen Hz Hcov HQ. unfold lay_track. wp_pures. rewrite py_index_nonneg by lia. simpl. rewrite Hoff. wp_pures.
  assert (1 ≤ z / 2 ≤ 360) as Hzb by (split; [apply Z.div_le_lower_bound; lia|apply Z.div_le_upper_bound; lia]).
  unfold angles. destruct (Z.eqb_spec (2 * (z / 2)) 0); [lia|]. destruct (Z.ltb_spec 0 (2 * (z / 2))); [|lia]. wp_pures.
  set (st := 2 * (z / 2)) in *. fold (per_track_blocks z). change ((360 + st - 1) / st) with (per_track_blocks z).
  set (cnt := per_track_blocks z). assert (1 ≤ cnt) as Hcnt by (apply Z.div_le_lower_bound; lia).
  apply (wp_for_acc (λ pre m d' w', d' = d ∧ rng w' = rng w ∧
    covers (Layout m.1 m.2.1 ∅ [] 0) (p + len pre) ∧ (pre ≠ [] → m.2.2 = Some (p + len pre - 1)))).
  - split_and!; [done|done| |done]. change (len []) with 0. rewrite Z.add_0_r. exact Hcov.
  - intros pre x post [m1 [m2 lst]] d' w' Heq (-> & Hr & Hc & _). wp_pures.
    assert (x = len pre * st) as ->.
    { assert (((λ k, k * st) <$> range 0 cnt) !! length pre = Some x) as Hx by (rewrite Heq; by apply list_lookup_middle).
      rewrite list_lookup_fmap in Hx. apply fmap_Some in Hx as (j & Hj & ->). unfold range in Hj. apply lookup_seqZ in Hj as [-> _].
      unfold len. lia. }
    rewrite Z.div_mul by lia. simpl in *. assert (len (pre ++ [len pre * st]) = len pre + 1) as Hl1 by (unfold len; rewrite length_app; simpl; lia).
    rewrite Hl1. split_and!; [done|done| |intros _; f_equal; lia].
    intros b Hb. simpl. destruct (decide (b = len pre + p)) as [->|Hne].
    + rewrite !lookup_insert_eq. eauto.
    + rewrite !lookup_insert_ne by done. apply (Hc b). lia.
  - intros [m1 [m2 lst]] d' w' (-> & Hr & Hc & Hlast). simpl in *.
    assert (len ((λ k, k * st) <$> range 0 cnt) = cnt) as Hl by (unfold len, range; rewrite length_fmap, length_seqZ; lia).
    rewrite Hl in *. rewrite Hlast by (intros Hnil; rewrite Hnil in Hl; change (len []) with 0 in Hl; lia). wp_pures.
    apply HQ; [|lia|done..]. intros b Hb. apply (Hc b). lia.
Qed.

(** The three zones of the option, in degrees *)
Definition zones_ok (cfg : config) (zs : list Z) : Prop :=
  length zs = 3%nat ∧ mapM int_of_str (split_on "," (zoning cfg)) = Some zs ∧ Forall (λ z, 2 ≤ z ≤ 720) zs.
Definition blocks_of (zs : list Z) : Z := sum_of per_track_blocks zs.

Lemma wp_zones cfg zs d w (Q : list Z → disk → world → Prop) : zones_ok cfg zs →
  (∀ w', rng w' = rng w → Q ((λ z, z / 2) <$> zs) d w') →
  wp (for_acc (range 0 (len (split_on "," (zoning cfg)))) [] (λ l i,
    z ← list_get (split_on "," (zoning cfg)) i;
    print ("z " +:+ str_of_Z i +:+ " " +:+ z);;
    n ← py_int z;
    mret (l ++ [n / 2]))) Q noexn d w.
Proof.
  intros (Hlen & Hzs & _) HQ. apply mapM_Some in Hzs. set (texts := split_on "," (zoning cfg)) in *.
  assert (length texts = length zs) as Htl by (by eapply Forall2_length).
  apply (wp_for_acc (λ pre l d' w', d' = d ∧ rng w' = rng w ∧ l = (λ z, z / 2) <$> take (length pre) zs)); [done| |].
  - intros pre i post l d' w' Heq (-> & Hr & ->).
    assert (i = len pre ∧ i < len texts) as [-> Hi].
    { assert (range 0 (len texts) !! length pre = Some i) as Hi by (rewrite Heq; by apply list_lookup_middle).
      unfold range in Hi. apply lookup_seqZ in Hi as [-> Hlt]. unfold len in *. lia. }
    wp_pures. rewrite py_index_nonneg by (unfold len in *; lia). unfold len at 1. rewrite Nat2Z.id. simpl.
    destruct (lookup_lt_is_Some_2 texts (length pre)) as [x Hx]; [unfold len in Hi; lia|]. rewrite Hx.
    destruct (Forall2_lookup_l _ _ _ _ _ Hzs Hx) as (z & Hz & Hxz). wp_pures. unfold py_int. wp_pures. rewrite Hxz. wp_pures.
    split_and!; [done|done|]. rewrite length_app. simpl. rewrite Nat.add_1_r, (take_S_r _ _ z), fmap_app by done. done.
  - intros l d' w' (-> & Hr & ->). rewrite firstn_all2; [by apply HQ|]. unfold range, len. rewrite length_seqZ. lia.
Qed.

Lemma wp_InitBlockLayout cfg zs d w (Q : layout → disk → world → Prop) : zones_ok cfg zs →
  (∀ lay w', layout_ok lay (blocks_of zs) → maxBlock lay = blocks_of (take 2 zs) → 0 < maxBlock lay → rng w' = rng w → Q lay d w') →
  wp (InitBlockLayout cfg) Q noexn d w.
Proof.
  intros Hok HQ. pose proof Hok as (Hlen & Hzs & Hall). unfold InitBlockLayout. wp_pures.
  assert (length (split_on "," (zoning cfg)) = 3%nat) as Htl by (apply mapM_Some, Forall2_length in Hzs; lia).
  unfold len at 1. rewrite Htl. simpl (_ =? _). wp_pures. apply (wp_zones cfg zs); [done|]. intros w1 Hr1. wp_pures.
  destruct zs as [|z0 [|z1 [|z2 []]]]; try done. rewrite !Forall_cons in Hall. destruct Hall as (H0 & H1 & H2 & _).
  set (offs := (λ z, z / 2) <$> [z0; z1; z2]).
  assert (len offs = 3) as Hlo by done.
  apply (wp_lay_track _ _ _ _ _ _ z0); [lia|lia|done|done|done|intros b Hb; lia|]. intros l1 w2 q1 Hc1 Hq1 Ht1 Ho1 Hr2. wp_pures.
  simpl in Ho1. apply (wp_lay_track _ _ _ _ _ _ z1); [lia|lia|by rewrite Ho1|by rewrite Ho1|done|done|]. intros l2 w3 q2 Hc2 Hq2 Ht2 Ho2 Hr3. wp_pures.
  apply (wp_lay_track _ _ _ _ _ _ z2); [lia|lia|by rewrite Ho2, Ho1|by rewrite Ho2, Ho1|done|done|]. intros l3 w4 q3 Hc3 Hq3 Ht3 Ho3 Hr4. wp_pures.
  assert (blocks_of [z0; z1; z2] = q3 + 1) as Hn by (unfold blocks_of, q3, q2, q1; simpl; lia).
  apply HQ; [|unfold q2, q1, blocks_of; simpl; lia|simpl; lia|congruence]. rewrite Hn. split; simpl.
  - intros b Hb. by destruct (Hc3 b Hb).
  - intros b Hb. destruct (Hc3 b Hb) as [_ [a Ha]]. rewrite lookup_fmap, Ha. eexists. split; [done|]. apply Z.mod_pos_bound. lia.
  - intros t Ht. rewrite Ht3, Ht2, Ht1. assert (t = 0 ∨ t = 1 ∨ t = 2) as [-> | [-> | ->]] by lia; by eexists.
  - by rewrite Ho3, Ho2, Ho1.
  - rewrite Ho3, Ho2, Ho1. unfold offs. repeat constructor; try (apply Z.div_pos; lia); apply Z.div_le_upper_bound; lia.
Qed.

(** Where the requests come from: a list of blocks, or draws *)
Definition listed (n : Z) (addr : string) (bs : list Z) : Prop :=
  addr ≠ "-1" ∧ mapM int_of_str (split_on "," addr) = Some bs ∧ Forall (valid n) bs.
Definition drawn_from (most n : Z) (addr desc : string) (num : Z) : Prop :=
  addr = "-1" ∧ ∃ hi lo, mapM int_of_str (split_on "," desc) = Some [num; hi; lo] ∧
    0 ≤ lo ∧ (hi = -1 ∧ lo + most ≤ n ∨ 0 < hi ∧ lo + hi ≤ n).

(** A request stands for a block. *)
Definition reads (b : block) (x : Z) : Prop := match b with inl n => n = x | inr t => int_of_str t = Some x end.

Lemma wp_to_int b x d w (Q : Z → disk → world → Prop) : reads b x → Q x d w → wp (to_int b) Q noexn d w.
Proof. unfold reads, to_int, py_int. destruct b as [y|t]; [intros ->|intros Ht]; intros HQ; wp_pures; rewrite ?Ht; done. Qed.

Lemma wp_drawn lay n addr desc num d w (Q : list block → disk → world → Prop) : rng_ok w → 0 < maxBlock lay → drawn_from (maxBlock lay) n addr desc num →
  (∀ bs w', Forall (valid n) bs → len bs = Z.max 0 num → rng w' = rng w → Q (inl <$> bs) d w') →
  wp (MakeRequests lay addr desc) Q noexn d w.
Proof.
  intros Hw Hmax (-> & hi & lo & Hdesc & Hlo & Hhi) HQ. apply mapM_Some in Hdesc. unfold MakeRequests. rewrite bool_decide_true by done.
  destruct (split_on "," desc) as [|t0 [|t1 [|t2 []]]]; try (by inversion Hdesc as [|? ? ? ? _ H]; inversion H as [|? ? ? ? _ H']; inversion H' as [|? ? ? ? _ H'']; inversion H'').
  inversion Hdesc as [|? ? ? ? Ht0 H]; subst. inversion H as [|? ? ? ? Ht1 H']; subst. inversion H' as [|? ? ? ? Ht2 _]; subst.
  wp_pures. simpl. unfold py_int. wp_pures. rewrite Ht0. wp_pures. simpl. wp_pures. rewrite Ht1. wp_pures. simpl. wp_pures. rewrite Ht2. wp_pures.
  set (m := if hi =? -1 then maxBlock lay else hi). assert (0 < m ∧ lo + m ≤ n) as [Hm Hmn] by (unfold m; destruct (Z.eqb_spec hi (-1)); lia).
  apply (wp_for_acc (λ pre l d' w', ∃ bs, d' = d ∧ l = inl <$> bs ∧ Forall (valid n) bs ∧ length bs = length pre ∧ rng w' = rng w)).
  - exists []. done.
  - intros pre i post l d' w' _ (bs & -> & -> & Hbs & Hlen & Hr). wp_pures. apply wp_draw_below; [done|by eapply rng_ok_rng|].
    intros v w'' Hv Hr' _. wp_pures. exists (bs ++ [v + lo]). rewrite fmap_app, !length_app, Hlen. split_and!; [done|done| |done|congruence].
    rewrite Forall_app, Forall_singleton. split; [done|]. unfold valid. lia.
  - intros l d' w' (bs & -> & -> & Hbs & Hlen & Hr). apply HQ; [done| |done]. unfold len. rewrite Hlen. unfold range. rewrite length_seqZ. lia.
Qed.

Lemma wp_requests lay n addr desc num d w (Q : list block → disk → world → Prop) : rng_ok w → 0 < maxBlock lay → 0 ≤ num →
  (∃ bs, listed n addr bs ∧ len bs = num) ∨ drawn_from (maxBlock lay) n addr desc num →
  (∀ l bs w', Forall2 reads l bs → Forall (valid n) bs →
     (∀ bs', listed n addr bs' → bs = bs') → len bs = num → rng w' = rng w → Q l d w') →
  wp (MakeRequests lay addr desc) Q noexn d w.
Proof.
  intros Hw Hmax Hnum [[bs [Hl Hlen]]|Hd] HQ.
  - pose proof Hl as (Hne & Hbs & Hval). unfold MakeRequests. rewrite bool_decide_false by done. wp_pures. apply (HQ _ bs); [|done| |done|done].
    + apply mapM_Some in Hbs. by rewrite Forall2_fmap_l.
    + intros bs' (_ & Hbs' & _). congruence.
  - eapply wp_drawn; [done..|]. intros bs w' Hval Hlen Hr. apply (HQ _ bs); [|done| |lia|done].
    + rewrite Forall2_fmap_l. apply Forall_Forall2_diag. by apply Forall_forall.
    + intros bs' (Hne & _). by destruct Hd.
Qed.

Lemma wp_check_seek cfg s d w (Q : unit → disk → world → Prop) : seekSpeed cfg = f_of_Z s → 1 ≤ s → (s | trackWidth) →
  Q tt d w → wp (check_seek cfg) Q noexn d w.
Proof.
  intros Hseek Hs Hdiv HQ. unfold check_seek. wp_pures. rewrite Hseek. pose proof (s_cases s Hs Hdiv) as H.
  rewrite !elem_of_cons, elem_of_nil in H. repeat destruct H as [->|H]; [..|done]; exact HQ.
Qed.

(** The queue at the start *)
Lemma wp_enqueue n l bs d w (Q : unit → disk → world → Prop) : Forall2 reads l bs → Forall (valid n) bs → books n [] [] None d →
  (∀ q st, books n bs [] None (d <| requestQueue := q |> <| requestState := st |>) → Q tt (d <| requestQueue := q |> <| requestState := st |>) w) →
  wp (for_ (range 0 (len l)) (λ index, r ← list_get l index; b ← to_int r; AddQueueEntry (inl b) index)) Q noexn d w.
Proof.
  intros Hl Hval Hb HQ. assert (length l = length bs) as Hlen by (by eapply Forall2_length).
  apply (wp_for (λ pre d' w', w' = w ∧ ∃ q st, d' = d <| requestQueue := q |> <| requestState := st |> ∧
    books n (take (length pre) bs) [] None d')).
  - split; [done|]. exists (requestQueue d), (requestState d). split; [by destruct d|done].
  - intros pre i post d' w' Heq (-> & q & st & -> & Hb').
    assert (i = len pre ∧ i < len l) as [-> Hi].
    { assert (range 0 (len l) !! length pre = Some i) as Hi by (rewrite Heq; by apply list_lookup_middle).
      unfold range in Hi. apply lookup_seqZ in Hi as [-> Hlt]. unfold len in *. lia. }
    destruct (lookup_lt_is_Some_2 l (length pre)) as [x Hx]; [unfold len in Hi; lia|].
    destruct (Forall2_lookup_l _ _ _ _ _ Hl Hx) as (b & Hbk & Hr). rewrite Forall_lookup in Hval. pose proof (Hval _ _ Hbk) as Hvb.
    wp_pures. rewrite py_index_nonneg by (unfold len in *; lia). unfold len at 1. rewrite Nat2Z.id. simpl. rewrite Hx. wp_pures.
    apply (wp_to_int _ b); [done|]. unfold AddQueueEntry. wp_pures. split; [done|]. eexists _, _. split; [reflexivity|].
    pose proof (books_queued 0 n _ _ _ _ b Hb' Hvb ltac:(done)) as Hb2. rewrite length_app. simpl. rewrite Nat.add_1_r, (take_S_r _ _ b) by done.
    assert (len (requestQueue (d <| requestQueue := q |> <| requestState := st |>)) = len pre) as Hql.
    { rewrite (books_queue _ _ _ _ _ Hb'). unfold len in *. rewrite entries_length, length_take. lia. }
    unfold queued in Hb2. rewrite Hql in Hb2. exact Hb2.
  - intros d' w' (-> & q & st & -> & Hb'). unfold range in Hb'. rewrite length_seqZ, firstn_all2 in Hb' by (unfold len; lia). by apply HQ.
Qed.

(** Where the requests of the options come from *)
Definition requests_ok (cfg : config) (zs : list Z) (num late : Z) : Prop :=
  let n := blocks_of zs in
  let most := blocks_of (take 2 zs) in
  ((∃ bs, listed n (addr cfg) bs ∧ len bs = num) ∨ drawn_from most n (addr cfg) (addrDesc cfg) num) ∧
  drawn_from most n (lateAddr cfg) (lateAddrDesc cfg) late.

Lemma books_init n cfg : books n [] [] None (disk_init cfg).
Proof. split; [done|constructor|split; constructor|done|done|intros i Hi; simpl in Hi; lia]. Qed.

Lemma wp_make_disk cfg zs num late s w (Q : layout * list block → disk → world → Prop) :
  zones_ok cfg zs → requests_ok cfg zs num late → 0 ≤ num → 0 ≤ late → rng_ok w →
  seekSpeed cfg = f_of_Z s → 1 ≤ s → (s | trackWidth) →
  (∀ lay bs lates q st w', layout_ok lay (blocks_of zs) → len bs = num → len lates = late →
     (∀ bs', listed (blocks_of zs) (addr cfg) bs' → bs = bs') → Forall (valid (blocks_of zs)) lates →
     let d := disk_init cfg <| requestQueue := q |> <| requestState := st |> in
     books (blocks_of zs) bs [] None d → Q (lay, inl <$> lates) d w') →
  wp (make_disk cfg) Q noexn (disk_init cfg) w.
Proof.
  intros Hz [Hreq Hlate] Hnum Hl0 Hw Hseek Hs Hdiv HQ. unfold make_disk. wp_pures.
  apply (wp_InitBlockLayout cfg zs); [done|]. intros lay w1 Hlay Hmax Hmax0 Hr1. wp_pures. rewrite <-Hmax in *.
  apply (wp_requests _ (blocks_of zs) _ _ num); [by eapply rng_ok_rng|done..|]. intros l bs w2 Hl Hval Hlisted Hlen Hr2. wp_pures.
  apply (wp_drawn _ (blocks_of zs) _ _ late); [eapply rng_ok_rng; [|done]; congruence|done..|]. intros lates w3 Hlv Hll Hr3. wp_pures.
  destruct (0 <? _); wp_pures; (destruct (compute cfg); simpl; wp_pures);
    (eapply wp_check_seek; [done..|]; wp_pures; eapply wp_enqueue; [done|done|apply books_init|]; intros q st Hb; wp_pures;
     apply (HQ lay bs lates q st); [done|lia|lia|done|done|done]).
Qed.

(** C39: at integer speeds (the seek speed a divisor of the track width, as the
    program demands), under FIFO, SATF, BSATF or SSTF, with any window but 0,
    any skew, three zones with sectors of 2 to 720 degrees, requests listed or
    drawn for blocks that exist, and late requests, if any, that are drawn,
    the simulation with [-c] ends without an error within a bound computed
    from the speeds, and has served every request, the late ones included,
    exactly once, under FIFO in the order given.  A line is printed for each,
    its seek, rotation and transfer times are not negative, and the totals
    printed add up to the time shown.  (A list of late requests fails, see
    [late_list_fails].) *)
Theorem disk_completes cfg zs r s num late fuel w :
  rotateSpeed cfg = f_of_Z r → seekSpeed cfg = f_of_Z s → 1 ≤ r < 2 ^ 40 → 1 ≤ s → (s | trackWidth) →
  policy_ok cfg → window cfg ≠ 0 → compute cfg = true → zones_ok cfg zs → requests_ok cfg zs num late →
  1 ≤ num → 0 ≤ late → rng_ok w → (num + late) * longest r < Z.of_nat fuel → laps r < Z.of_nat fuel →
  wp (main cfg fuel) (λ _ d w', ∃ bs lates w1,
    (∀ bs', listed (blocks_of zs) (addr cfg) bs' → bs = bs') ∧ len bs = num ∧ len lates = late ∧
    isDone d = true ∧ all_served cfg bs lates w1 d w') noexn (disk_init cfg) w.
Proof.
  intros Hrot Hseek Hr Hs Hdiv Hpol Hwin Hcomp Hz Hreq Hnum Hlate Hw Hf1 Hf2. unfold main. wp_pures.
  destruct (Z.eqb_spec (window cfg) 0); [done|]. wp_pures.
  eapply (wp_make_disk cfg zs num late s); [done|done|lia|lia|done..|].
  intros lay bs lates q st w1 Hlay Hlen Hll Hlisted Hlv d Hb. wp_pures.
  apply (wp_conseq _ (λ _ d' w', isDone d' = true ∧ all_served cfg bs lates w1 d' w')).
  2: { intros _ d' w' [Hdone Hall]. by exists bs, lates, w1. }
  apply (wp_Go cfg lay fuel (blocks_of zs) r s); try done.
  - apply (books_blocks _ _ _ _ _ Hb).
  - intros ->. change (len []) with 0 in Hlen. lia.
  - split; try done.
    + intros _. unfold win_ready. simpl. change (len []) with 0. destruct (decide (window cfg ≤ -1)); [by left|].
      right. unfold fairWindow. destruct (bool_decide _ && negb _) eqn:Hfw; [right|left; lia]. split; [lia|]. simpl. rewrite Z.div_0_l by lia. lia.
    + change (len []) with 0. split; [simpl; unfold len; lia|]. split; [simpl; unfold len; lia|]. simpl. by rewrite app_nil_r.
    + exists 0. split; [done|]. split; [lia|]. apply Z.divide_0_r.
  - unfold enough, len in *. by rewrite length_app, Nat2Z.inj_add, Hlen, Hll.
Qed.

(** README: [disk.py -a 10,18 -c] *)
Definition readme (addr policy : string) (window : Z) : config :=
  Config addr "5,-1,0" "-1" "0,-1,0" policy (f_of_Z 1) (f_of_Z 1) 0 window true "30,30,30".

Lemma disk_completes_witness : ∃ Q, wp (main (readme "10,18" "SATF" (-1)) 2000) Q noexn (disk_init (readme "10,18" "SATF" (-1))) (world_of []).
Proof.
  eexists. apply (disk_completes _ [30; 30; 30] 1 1 2 0).
  1, 2: reflexivity. 1, 2: lia. 1: by exists 40. 1: by right; left. 1: done. 1: reflexivity.
  - split; [reflexivity|]. split; [reflexivity|]. repeat constructor; lia.
  - split.
    + left. exists [10; 18]. split; [|reflexivity]. split; [done|]. split; [reflexivity|].
      repeat constructor; vm_compute; done.
    + split; [reflexivity|]. exists (-1), 0. split; [reflexivity|]. split; [lia|]. left. by vm_compute.
  - lia.
  - lia.
  - by apply world_of_ok.
  - by vm_compute.
  - by vm_compute.
Defined.
End Layout.

(** ** Runs of the README, and of what it does not show *)

Definition run_of (cfg : config) (fuel : nat) (w : world) : res disk unit := main cfg fuel (disk_init cfg) w.

Example disk_readme :
  last_lines 3 (run_of (readme "10,18" "FIFO" (-1)) 400 (world_of [])) =
  Some (String.concat nl ["Block:  10  Seek:  0  Rotate:105  Transfer: 30  Total: 135";
    "Block:  18  Seek: 40  Rotate:170  Transfer: 30  Total: 240"; "";
    "TOTALS      Seek: 40  Rotate:275  Transfer: 60  Total: 375"; ""; ""]).
Proof. vm_compute. reflexivity. Qed.

(** A bounded window of one request makes BSATF serve in order, SATF does not. *)
Example disk_bsatf :
  last_lines 4 (run_of (readme "7,30,8" "BSATF" 1) 900 (world_of [])) =
  Some (String.concat nl ["Block:   7  Seek:  0  Rotate: 15  Transfer: 30  Total:  45";
    "Block:  30  Seek: 80  Rotate:220  Transfer: 30  Total: 330";
    "Block:   8  Seek: 80  Rotate:310  Transfer: 30  Total: 420"; "";
    "TOTALS      Seek:160  Rotate:545  Transfer: 90  Total: 795"; ""; ""]) ∧
  last_lines 4 (run_of (readme "7,30,8" "SATF" (-1)) 900 (world_of [])) =
  Some (String.concat nl ["Block:   7  Seek:  0  Rotate: 15  Transfer: 30  Total:  45";
    "Block:   8  Seek:  0  Rotate:  0  Transfer: 30  Total:  30";
    "Block:  30  Seek: 80  Rotate:190  Transfer: 30  Total: 300"; "";
    "TOTALS      Seek: 80  Rotate:205  Transfer: 90  Total: 375"; ""; ""]).
Proof. split; vm_compute; reflexivity. Qed.

(** A list of late requests is never turned into numbers. *)
Example late_list_fails :
  ∃ d w, run_of (readme "10" "FIFO" (-1) <| lateAddr := "18" |>) 400 (world_of []) = Raise KeyError d w.
Proof. vm_compute. eexists _, _. reflexivity. Qed.

(** The largest draw asks for the last block of the middle track: [maxBlock]
    counts two tracks of the three. *)
Example inner_track_undrawn :
  match run_of (readme "-1" "FIFO" (-1) <| addrDesc := "1,-1,0" |>) 900 (World [] (λ _, 2 ^ 53 - 1) 0) with
  | Ok _ d _ => requestQueue d = [(inl 23, 0)]
  | _ => False
  end.
Proof. vm_compute. reflexivity. Qed.

(** Block 8 starts under the head, and its estimated access time is the 24
    steps of the transfer: but the head waits for a whole turn. *)
Example turn_missed :
  last_lines 2 (run_of (readme "8" "SATF" (-1) <| zoning := "24,24,24" |>) 900 (world_of [])) =
  Some (String.concat nl ["Block:   8  Seek:  0  Rotate:360  Transfer: 24  Total: 384"; "";
    "TOTALS      Seek:  0  Rotate:360  Transfer: 24  Total: 384"; ""; ""]) ∧
  match run_of (readme "8" "SATF" (-1) <| zoning := "24,24,24" |>) 900 (world_of []) with
  | Ok _ d _ => totalEst d = f_of_Z 24
  | _ => False
  end.
Proof. split; vm_compute; reflexivity. Qed.
