(* ===== verification/Afs.v ===== *)
(** * The AFS simulator: [dist-afs/afs.py]

    Clients open, read, write and close files of a server through caches; the
    server calls back the clients that hold a file when another stores it. *)
From S2P Require Import Prelude PyStr PyRandom PyDict.
Open Scope Z_scope.

(** ** Data *)

(** An entry of a client cache *)
Record entry := Entry { data : Z; dirty : bool; refcnt : Z; valid : bool }.
#[export] Instance entry_settable : Settable entry := λ s, Entry (data s) (dirty s) (refcnt s) (valid s).

Record cache := Cache {
  items : odict string entry;
  hitcnt : Z;
  misscnt : Z;
  invalidcnt : Z;
}.
#[export] Instance cache_settable : Settable cache := λ s, Cache (items s) (hitcnt s) (misscnt s) (invalidcnt s).

(** The micro-operations of a client *)
Inductive action :=
| OPEN (fname : string) (fd : Z)
| READ (fd : Z)
| WRITE (fd : Z)
| CLOSE (fd : Z).

(** The name of client [k] is [c<k>].  [fds] has the descriptors in use. *)
Record client := Client {
  cid : Z;
  cached : cache;
  fds : gmap Z string;
  readcnt : Z;
  writecnt : Z;
  done : bool;
  acnt : Z;
  acts : list action;
}.
#[export] Instance client_settable : Settable client := λ s,
  Client (cid s) (cached s) (fds s) (readcnt s) (writecnt s) (done s) (acnt s) (acts s).

Definition name_of (k : Z) : string := "c" +:+ str_of_Z k.

(** The clients, the server with its callback lists, and the source of fresh
    values *)
Record afs := Afs {
  clients : list client;
  contents : odict string Z;
  callbacks : odict string (list string);
  getcnt : Z;
  putcnt : Z;
  value : Z;
}.
#[export] Instance afs_settable : Settable afs := λ s,
  Afs (clients s) (contents s) (callbacks s) (getcnt s) (putcnt s) (value s).

(** ** Helpers *)

Definition dospace {S} (howmuch : Z) : M S unit := for_ (range 0 (howmuch + 1)) (λ _, put_str (rjust 28 " ")).

Definition isset (num index : Z) : bool := 0 <? Z.land num (Z.shiftl 1 index).

Definition zassert {S} (c : bool) (msg : string) : M S unit :=
  when (negb c) (print ("ABORT:: " +:+ msg);; raise (SystemExit 1)).

Definition letters : list string :=
  (λ k, String (ascii_of_nat (97 + k)) EmptyString) <$> seq 0 26.
(** [files.getfiles()] *)
Definition filelist (numfiles : Z) : list string := take (Z.to_nat numfiles) letters.

(** [files.getvalue()] *)
Definition getvalue : M afs Z := s ← get; modify (λ s, s <| value ::= Z.succ |>);; mret (value s).

Section Program.
Context (solve : bool) (detail : Z).

(** [filedesc.lookup] tests the global [i] of the main program, which its
    loops leave behind, where it means its argument. *)
Context (global_i : Z).

(** ** The file descriptors of a client *)

Definition max_fd : Z := 1024.

(** [self.fd[sfd]] *)
Definition fd_name (sfd : Z) : M client string :=
  s ← get;
  match fds s !! sfd with
  | Some f => mret f
  | None => if (0 <=? sfd) && (sfd <? max_fd) then mret "" else raise KeyError
  end.

Definition fd_alloc (fname : string) : M client Z :=
  r ← for_ret (range 0 max_fd) tt (λ _ i,
    f ← fd_name i;
    if bool_decide (f = "") then modify (λ s, s <| fds ::= <[i := fname]> |>);; mret (inr i) else mret (inl tt));
  mret (match r with inr i => i | inl _ => -1 end).
Definition fd_alloc_at (fname : string) (sfd : Z) : M client Z :=
  f ← fd_name sfd;
  zassert (bool_decide (f = "")) ("filedesc:alloc() -- fd:" +:+ str_of_Z sfd +:+ " already in use, cannot allocate");;
  modify (λ s, s <| fds ::= <[sfd := fname]> |>);;
  mret sfd.

Definition fd_lookup (sfd : Z) : M client string :=
  zassert ((0 <=? global_i) && (global_i <? max_fd))
    ("filedesc:lookup() -- file descriptor out of valid range (" +:+ str_of_Z sfd +:+ " not between 0 and " +:+ str_of_Z max_fd +:+ ")");;
  f ← fd_name sfd;
  zassert (bool_decide (f ≠ "")) ("filedesc:lookup() -- fd:" +:+ str_of_Z sfd +:+ " not in use, cannot lookup");;
  fd_name sfd.

(** [filedesc.free] formats a message with a variable that does not exist; no
    client calls it. *)
Definition fd_free (i : Z) : M client unit := raise NameError.

(** ** The cache of a client *)

Definition flag (b : bool) : string := if b then "1" else "0".

(** [print(self.cache)] *)
Definition entry_text (p : string * entry) : string :=
  "'" +:+ p.1 +:+ "': {'data': " +:+ str_of_Z (data p.2) +:+ ", 'dirty': " +:+ str_of_bool (dirty p.2) +:+ ", 'refcnt': " +:+
  str_of_Z (refcnt p.2) +:+ ", 'valid': " +:+ str_of_bool (valid p.2) +:+ "}".
Definition items_text (d : odict string entry) : string := "{" +:+ join ", " (entry_text <$> d) +:+ "}".

Definition cache_stats : M cache unit :=
  s ← get;
  print ("   Cache -- Hits:" +:+ str_of_Z (hitcnt s) +:+ " Misses:" +:+ str_of_Z (misscnt s) +:+ " Invalidates:" +:+ str_of_Z (invalidcnt s)).

Definition cache_put (fname : string) (d : Z) (dirt : bool) (refs : Z) : M cache unit :=
  modify (λ s, s <| items ::= od_set fname (Entry d dirt refs true) |>).

(** [self.cache[fname] = dict(...)] with some fields of the entry changed *)
Definition change (fname : string) (f : entry → entry) : M cache unit :=
  s ← get; e ← od_lookup (items s) fname; modify (λ s, s <| items ::= od_set fname (f e) |>).

Definition cache_update (fname : string) (d : Z) : M cache unit := change fname (λ e, e <| data := d |> <| dirty := true |>).

Definition printstate (num : Z) : M cache unit :=
  s ← get;
  for_ (items s) (λ '(fname, e),
    when (solve && isset detail 2)
      (dospace num;;
       print ((if isset detail 3 then name_of num +:+ " " else "") +:+ "[" +:+ fname +:+ ":" +:+ fmt_d 2 (data e) +:+ " (v=" +:+
              flag (valid e) +:+ ",d=" +:+ flag (dirty e) +:+ ",r=" +:+ str_of_Z (refcnt e) +:+ ")]"))).

Definition cache_invalidate (num : Z) (fname : string) : M cache unit :=
  dospace num;;
  s ← get;
  print ("invalidate file:" +:+ fname +:+ " cache: " +:+ items_text (items s));;
  if negb (od_mem fname (items s)) then mret tt
  else
    modify (λ s, s <| invalidcnt ::= Z.succ |>);;
    change fname (λ e, e <| valid := false |>);;
    when (solve && isset detail 1)
      (dospace num;;
       print (if isset detail 3 then rjust 2 (name_of num) +:+ " invalidate " +:+ fname else "invalidate " +:+ fname);;
       printstate num).

Definition checkvalid (fname : string) : M cache unit :=
  s ← get;
  zassert (od_mem fname (items s)) ("cache:checkvalid() -- cannot checkvalid on file not in cache (" +:+ fname +:+ ")");;
  e ← od_lookup (items s) fname;
  when (negb (valid e) && (refcnt e =? 0)) (modify (λ s, s <| items ::= od_del fname |>)).

Definition checkget (fname : string) : M cache (option entry) :=
  s ← get;
  if od_mem fname (items s) then
    change fname id;; modify (λ s, s <| hitcnt ::= Z.succ |>);;
    s ← get; e ← od_lookup (items s) fname; mret (Some e)
  else modify (λ s, s <| misscnt ::= Z.succ |>);; mret None.

Definition in_cache (fname : string) : M cache unit := s ← get; passert (od_mem fname (items s)).
Definition cache_get (fname : string) : M cache entry := in_cache fname;; s ← get; od_lookup (items s) fname.
Definition incref (fname : string) : M cache unit := in_cache fname;; change fname (λ e, e <| refcnt ::= Z.succ |>).
Definition decref (fname : string) : M cache unit := in_cache fname;; change fname (λ e, e <| refcnt ::= Z.pred |>).
Definition setdirty (fname : string) (b : bool) : M cache unit := in_cache fname;; change fname (λ e, e <| dirty := b |>).
Definition setclean (fname : string) : M cache unit := in_cache fname;; change fname (λ e, e <| dirty := false |>).
Definition isdirty (fname : string) : M cache bool := in_cache fname;; s ← get; e ← od_lookup (items s) fname; mret (dirty e).
Definition setvalid (fname : string) : M cache unit := in_cache fname;; change fname (λ e, e <| valid := true |>).

(** Code over one client, and over its cache *)
Definition on_client {A} (k : Z) (m : M client A) : M afs A := zoom_at clients (λ l s, s <| clients := l |>) k m.
Definition on_cache {A} (k : Z) (m : M cache A) : M afs A := on_client k (zoom cached (λ c s, s <| cached := c |>) m).

(** ** The server *)

Definition server_init (numfiles : Z) : M afs unit :=
  for_ (filelist numfiles) (λ f, v ← getvalue; modify (λ s, s <| contents ::= od_set f v |>)).

Definition server_stats : M afs unit :=
  s ← get; print ("Server   -- Gets:" +:+ str_of_Z (getcnt s) +:+ " Puts:" +:+ str_of_Z (putcnt s)).

Definition filestats (printcontents : bool) : M afs unit :=
  s ← get;
  for_ (contents s) (λ '(fname, v),
    print ("file:" +:+ fname +:+ " contains:" +:+ (if printcontents then str_of_Z v else "?"))).

Definition setclients : M afs unit :=
  s ← get;
  for_ (clients s) (λ c, modify (λ s, s <| callbacks ::= od_set (name_of (cid c)) [] |>)).

Definition server_get (name fname : string) : M afs Z :=
  s ← get;
  zassert (od_mem fname (contents s)) ("server:get() -- file:" +:+ fname +:+ " not found on server");;
  modify (λ s, s <| getcnt ::= Z.succ |>);;
  v ← od_lookup (contents s) fname;
  when (solve && isset detail 0) (print ("getfile:" +:+ fname +:+ " c:" +:+ name +:+ " [" +:+ str_of_Z v +:+ "]"));;
  l ← od_lookup (callbacks s) name;
  when (negb (bool_decide (fname ∈ l))) (modify (λ s, s <| callbacks ::= od_set name (l ++ [fname]) |>));;
  mret v.

(** The other clients with a callback for the file *)
Definition call_back (name fname : string) : M afs unit :=
  s ← get;
  for_ (range 0 (len (clients s))) (λ k,
    s ← get;
    let cname := name_of k in
    l ← od_lookup (callbacks s) cname;
    when (bool_decide (fname ∈ l) && negb (bool_decide (cname = name)))
      (when (solve && isset detail 1) (print ("callback: c:" +:+ cname +:+ " file:" +:+ fname));;
       on_cache k (cache_invalidate k fname))).

Definition server_put (name fname : string) (v : Z) : M afs unit :=
  s ← get;
  zassert (od_mem fname (contents s)) ("server:put() -- file:" +:+ fname +:+ " not found on server");;
  modify (λ s, s <| putcnt ::= Z.succ |>);;
  modify (λ s, s <| contents ::= od_set fname v |>);;
  when (solve && isset detail 0) (print ("putfile:" +:+ fname +:+ " c:" +:+ name +:+ " [" +:+ str_of_Z v +:+ "]"));;
  call_back name fname.

(** ** The clients *)

Definition action_text (a : action) : string :=
  match a with
  | OPEN f fd => "(1, '" +:+ f +:+ "', " +:+ str_of_Z fd +:+ ")"
  | READ fd => "(2, " +:+ str_of_Z fd +:+ ")"
  | WRITE fd => "(3, " +:+ str_of_Z fd +:+ ")"
  | CLOSE fd => "(4, " +:+ str_of_Z fd +:+ ")"
  end.

Definition add_acts (l : list action) : M client unit := modify (λ s, s <| acts ::= (.++ l) |>).

(** A random session: open, read or write, close *)
Definition random_session (numfiles : Z) (ratio : Z * Z) : M client unit :=
  fname ← rand_pick (filelist numfiles);
  r ← rand_lt ratio.1 ratio.2;
  fd ← fd_alloc fname;
  zassert (0 <=? fd) "client:init() -- ran out of file descriptors, sorry!";;
  add_acts [OPEN fname fd; if (r : bool) then READ fd else WRITE fd; CLOSE fd].

Definition char_at (s : string) (i : nat) : M client string :=
  match String.get i s with Some c => mret (String c EmptyString) | None => raise IndexError end.

(** One action of the list given by the user *)
Definition given_action (a : string) : M client unit :=
  let malformed what ex := "client:init() -- malformed " +:+ what +:+ " action (" +:+ a +:+ ") should be " +:+ ex +:+ " or something like that" in
  act ← str_head a;
  let simple what ex mk :=
    zassert (slen a =? 2) (malformed what ex);; x ← char_at a 1; fd ← py_int x; add_acts [mk fd] in
  if Ascii.eqb act "o" then
    zassert (slen a =? 3) (malformed "open" "oa1");;
    fname ← char_at a 1; x ← char_at a 2; fd ← py_int x;
    fd_alloc_at fname fd;;
    passert (0 <=? fd);;
    add_acts [OPEN fname fd]
  else if Ascii.eqb act "r" then simple "read" "r1" READ
  else if Ascii.eqb act "w" then simple "write" "w1" WRITE
  else if Ascii.eqb act "c" then simple "close" "c1" CLOSE
  else print ("Unrecognized command: " +:+ String act "" +:+ " (from " +:+ a +:+ ")");; raise (SystemExit 1).

Definition client_init (numfiles : Z) (ratio : Z * Z) (numsteps : Z) (actions : string) : M client unit :=
  (if bool_decide (actions = "") then for_ (range 0 numsteps) (λ _, random_session numfiles ratio)
   else for_ (split_on ":" actions) given_action);;
  s ← get;
  print ("[" +:+ join ", " (action_text <$> acts s) +:+ "]").

Definition new_client (k : Z) : client := Client k (Cache [] 0 0 0) ∅ 0 0 false 0 [].

Definition client_stats (k : Z) : M afs unit :=
  s ← on_client k get;
  print (name_of k +:+ "       -- Reads:" +:+ str_of_Z (readcnt s) +:+ " Writes:" +:+ str_of_Z (writecnt s));;
  on_cache k cache_stats.

Definition getfile (k : Z) (fname : string) : M afs unit :=
  item ← on_cache k (checkget fname);
  (if match item with Some e => valid e | None => false end then mret tt
   else v ← server_get (name_of k) fname; on_cache k (cache_put fname v false 0));;
  on_cache k (incref fname).

Definition putfile (k : Z) (fname : string) (v : Z) : M afs unit :=
  server_put (name_of k) fname v;;
  on_cache k (setclean fname);;
  on_cache k (setvalid fname).

Definition do_read (k fd : Z) : M afs unit :=
  fname ← on_client k (fd_lookup fd);
  on_client k (modify (λ s, s <| readcnt ::= Z.succ |>));;
  e ← on_cache k (cache_get fname);
  print ("read:" +:+ str_of_Z fd +:+ " -> " +:+ (if solve then str_of_Z (data e) else "value?")).

Definition do_write (k fd : Z) : M afs unit :=
  fname ← on_client k (fd_lookup fd);
  on_client k (modify (λ s, s <| writecnt ::= Z.succ |>));;
  e ← on_cache k (cache_get fname);
  v ← getvalue;
  on_cache k (cache_update fname v);;
  print ("write:" +:+ str_of_Z fd +:+ " " +:+ (if solve then str_of_Z (data e) else "value?") +:+ " -> " +:+ str_of_Z v).

Definition do_close (k fd : Z) : M afs unit :=
  fname ← on_client k (fd_lookup fd);
  e ← on_cache k (cache_get fname);
  print ("close:" +:+ str_of_Z fd);;
  d ← on_cache k (isdirty fname);
  (if (d : bool) then putfile k fname (data e) else mret tt);;
  on_cache k (decref fname);;
  on_cache k (checkvalid fname).

Definition do_action (k : Z) (a : action) : M afs unit :=
  match a with
  | OPEN fname fd => print ("open:" +:+ fname +:+ " [fd:" +:+ str_of_Z fd +:+ "]");; getfile k fname
  | READ fd => do_read k fd
  | WRITE fd => do_write k fd
  | CLOSE fd => do_close k fd
  end.

(** [client.step]: -1 when the client was done, 0 when it is now, else 1 *)
Definition step (k : Z) : M afs Z :=
  c ← on_client k get;
  if done c then mret (-1)
  else if acnt c =? len (acts c) then on_client k (done <~ true);; mret 0
  else
    a ← list_get (acts c) (acnt c);
    dospace k;;
    when (isset detail 3) (put_str (name_of k +:+ " "));;
    do_action k a;;
    on_cache k (printstate k);;
    when (solve && (0 <? detail)) (print "");;
    on_client k (modify (λ s, s <| acnt ::= Z.succ |>));;
    mret 1.
End Program.

(** ** The main program *)

Section Main.
Context (solve : bool) (detail : Z).

(** [for i in range(len(clients))]: each must occur in the schedule. *)
Definition check_schedule (n : Z) (schedule : string) : M afs unit :=
  for_ (range 0 n) (λ i,
    cnt ← for_acc (String.list_ascii_of_string schedule) 0 (λ cnt c,
      k ← py_int (String c ""); mret (if k =? i then cnt + 1 else cnt));
    zassert (negb (cnt =? 0)) ("main: client " +:+ str_of_Z i +:+ " not in schedule:" +:+ schedule +:+ ", which would never terminate")).

(** The client whose turn it is: a random one, or the next of the schedule *)
Definition next_client (schedule : string) (schedcurr : Z) : M afs (Z * Z) :=
  if bool_decide (schedule = "") then
    s ← get; k ← rand_int (len (clients s)); list_get (clients s) k;; mret (k, schedcurr)
  else
    x ← list_get (String.list_ascii_of_string schedule) schedcurr;
    idx ← py_int (String x "");
    s ← get; list_get (clients s) idx;;
    mret (idx, if schedcurr + 1 =? slen schedule then 0 else schedcurr + 1).

(** The loop; its locals are [numrunning] and [schedcurr]. *)
Definition round (global_i : Z) (schedule : string) (loc : Z * Z) : M afs (Z * Z + unit) :=
  let '(numrunning, schedcurr) := loc in
  if negb (0 <? numrunning) then mret (inr tt)
  else
    p ← next_client schedule schedcurr;
    rc ← step solve detail global_i p.1;
    mret (inl (if rc =? 0 then numrunning - 1 else numrunning, p.2)).

Definition run (fuel : nat) (global_i : Z) (schedule : string) : M afs unit :=
  s ← get; while_ fuel (len (clients s), 0) (round global_i schedule).

(** A client is made and joins the list. *)
Definition add_client (numfiles : Z) (ratio : Z * Z) (numsteps k : Z) (actions : string) : M afs unit :=
  modify (λ s, s <| clients ::= (.++ [new_client k]) |>);;
  on_client k (client_init numfiles ratio numsteps actions).

Definition make_clients (numfiles numclients numsteps : Z) (ratio : Z * Z) (actions : string) : M afs unit :=
  if bool_decide (actions = "") then for_ (range 0 numclients) (λ k, add_client numfiles ratio numsteps k "")
  else for_acc (split_on "," actions) 0 (λ i clist, add_client numfiles (0, 1) (slen clist) i clist;; mret (i + 1));; mret tt.

Definition header : M afs unit :=
  s ← get;
  put_str (rjust 12 "Server" +:+ " " +:+ rjust 12 " " +:+ " ");;
  for_ (clients s) (λ c, put_str (rjust 13 (name_of (cid c)) +:+ " " +:+ rjust 13 " " +:+ " "));;
  print "".

Definition afs_blank : afs := Afs [] [] [] 0 0 0.

(** The value the loops leave in [i]: the number of clients given by
    [actions], or the last index. *)
Definition left_in_i (n : Z) (actions schedule : string) : Z :=
  if bool_decide (schedule = "") && negb (bool_decide (actions = "")) then n else n - 1.

Definition setup (numfiles numclients numsteps : Z) (ratio : Z * Z) (actions : string) : M afs unit :=
  zassert ((0 <? numfiles) && (numfiles <=? 26)) "main: can only simulate 26 or fewer files, sorry";;
  zassert ((0 <=? ratio.1) && (ratio.1 <=? ratio.2)) "main: read ratio must be between 0 and 1 inclusive";;
  server_init numfiles;;
  make_clients numfiles numclients numsteps ratio actions;;
  setclients;;
  header;;
  filestats true.

Definition main (fuel : nat) (numfiles numclients numsteps : Z) (ratio : Z * Z) (actions schedule : string) (printstats : bool) :
    M afs unit :=
  setup numfiles numclients numsteps ratio actions;;
  s ← get;
  let n := len (clients s) in
  when (negb (bool_decide (schedule = ""))) (check_schedule n schedule);;
  run fuel (left_in_i n actions schedule) schedule;;
  filestats solve;;
  when printstats (server_stats;; for_ (range 0 n) client_stats).
End Main.

(** ** What the clients should see

    Between an open and the close that follows it a client has its own copy
    of the file, taken from the server at the open and stored there at the
    close if it was written: the last to close wins. *)

Record session := Session { s_file : string; s_data : Z; s_dirty : bool }.
Record spec := Spec { sp_files : odict string Z; sp_next : Z; sp_open : list (option session) }.

(** One action of client [k] *)
Definition spec_step (k : nat) (a : action) (sp : spec) : option spec :=
  match a, sp_open sp !! k with
  | OPEN f _, Some None =>
      v ← od_get f (sp_files sp);
      Some (Spec (sp_files sp) (sp_next sp) (<[k := Some (Session f v false)]> (sp_open sp)))
  | READ _, Some (Some x) => Some sp
  | WRITE _, Some (Some x) =>
      Some (Spec (sp_files sp) (sp_next sp + 1) (<[k := Some (Session (s_file x) (sp_next sp) true)]> (sp_open sp)))
  | CLOSE _, Some (Some x) =>
      Some (Spec (if s_dirty x then od_set (s_file x) (s_data x) (sp_files sp) else sp_files sp) (sp_next sp)
                 (<[k := None]> (sp_open sp)))
  | _, _ => None
  end.

(** What a read prints *)
Definition spec_read (k : nat) (a : action) (sp : spec) : option string :=
  match a, sp_open sp !! k with
  | READ fd, Some (Some x) => Some (("read:" +:+ str_of_Z fd +:+ " -> " +:+ str_of_Z (s_data x)) +:+ nl)
  | _, _ => None
  end.

(** A sequence of actions *)
Definition spec_exec (tr : list (nat * action)) (sp : spec) : option spec :=
  foldl (λ o p, o ≫= spec_step p.1 p.2) (Some sp) tr.

(** *** Sessions

    The file a client has open after some actions *)
Definition opened_by (o : option string) (a : action) : option string :=
  match a with OPEN f _ => Some f | CLOSE _ => None | _ => o end.
Definition opened (l : list action) : option string := foldl opened_by None l.

(** The rest of a list of sessions on the files [files], with the descriptors
    [fd], in which [o] is open *)
Fixpoint legal (files : list string) (fd : gmap Z string) (o : option string) (l : list action) : bool :=
  let names k f := bool_decide (fd !! k = Some f ∧ f ≠ "" ∧ 0 ≤ k < max_fd) in
  match l, o with
  | [], None => true
  | OPEN f k :: l, None => names k f && bool_decide (f ∈ files) && legal files fd (Some f) l
  | READ k :: l, Some f | WRITE k :: l, Some f => names k f && legal files fd o l
  | CLOSE k :: l, Some f => names k f && legal files fd None l
  | _, _ => false
  end.

Definition current (c : client) : option string := opened (take (Z.to_nat (acnt c)) (acts c)).
Definition session_of (c : client) : option session :=
  f ← current c; e ← od_get f (items (cached c)); Some (Session f (data e) (dirty e)).
Definition abs (s : afs) : spec := Spec (contents s) (value s) (session_of <$> clients s).

(** *** The invariant

    Client [k], with the server's [files] and the callback list [cb] it keeps
    for the client: a copy that is valid and clean is the server's; a copy is
    dirty only while its file is open. *)
Definition refs_of (c : client) (f : string) : Z := if decide (current c = Some f) then 1 else 0.

Record client_ok (files : odict string Z) (cb : list string) (k : nat) (c : client) : Prop := {
  ok_cid : cid c = Z.of_nat k;
  ok_acnt : 0 ≤ acnt c ≤ len (acts c);
  ok_legal : legal files.*1 (fds c) (current c) (drop (Z.to_nat (acnt c)) (acts c)) = true;
  ok_item : ∀ f e, od_get f (items (cached c)) = Some e →
    f ∈ cb ∧ refcnt e = refs_of c f ∧ (dirty e = true → current c = Some f) ∧
    (valid e = true → dirty e = false → od_get f files = Some (data e));
  ok_known : ∀ f e, od_get f (items (cached c)) = Some e → f ∈ files.*1;
  ok_open : ∀ f, current c = Some f → is_Some (od_get f (items (cached c)));
  ok_done : done c = true → acnt c = len (acts c);
}.

Definition inv (s : afs) : Prop := ∀ (k : nat) c, clients s !! k = Some c →
  ∃ cb, od_get (name_of (Z.of_nat k)) (callbacks s) = Some cb ∧ client_ok (contents s) cb k c.

Lemma name_of_inj j k : name_of j = name_of k → j = k.
Proof.
  intros H. change (String "c" (str_of_Z j) = String "c" (str_of_Z k)) in H.
  assert (str_of_Z j = str_of_Z k) as Hs by congruence. pose proof (f_equal int_of_str Hs) as Hi. rewrite !int_of_str_of_Z in Hi. congruence.
Qed.

(** The state with client [k] set to [c] *)
Definition upd (s : afs) (k : nat) (c : client) : afs := s <| clients ::= <[k := c]> |>.

Lemma upd_id s k c : clients s !! k = Some c → upd s k c = s.
Proof. intros Hc. destruct s. unfold upd, update; simpl in *. by rewrite list_insert_id. Qed.

Section Steps.
Context (solve : bool) (detail : Z).
Implicit Types (s : afs) (k : nat) (c : client) (w : world).

Lemma wp_on_client {A} s k c (m : M client A) (Q : A → afs → world → Prop) E w : (k < length (clients s))%nat →
  wp m (λ a c' w, Q a (upd s k c') w) (λ e c' w, E e (upd s k c') w) c w → wp (on_client (Z.of_nat k) m) Q E (upd s k c) w.
Proof.
  intros Hk Hm. eapply wp_zoom_at; [by apply list_lookup_insert_eq|]. eapply wp_mono; [exact Hm|..]; simpl; intros a c' w' HQ.
  - unfold upd, update in *. simpl in *. by rewrite list_insert_insert_eq.
  - unfold upd, update in *. simpl in *. by rewrite list_insert_insert_eq.
Qed.

Lemma wp_on_cache {A} s k c (m : M cache A) (Q : A → afs → world → Prop) E w : (k < length (clients s))%nat →
  wp m (λ a t w, Q a (upd s k (c <| cached := t |>)) w) (λ e t w, E e (upd s k (c <| cached := t |>)) w) (cached c) w →
  wp (on_cache (Z.of_nat k) m) Q E (upd s k c) w.
Proof. intros Hk Hm. apply wp_on_client; [done|]. wp_pures. exact Hm. Qed.

(** *** The cache *)

Lemma wp_change f e g (Q : unit → cache → world → Prop) E t w : od_get f (items t) = Some e →
  Q tt (t <| items ::= od_set f (g e) |>) w → wp (change f g) Q E t w.
Proof. intros He HQ. unfold change. wp_pures. by rewrite He. Qed.

Lemma in_cache_mem f e (t : cache) : od_get f (items t) = Some e → od_mem f (items t) = true.
Proof. unfold od_mem. by intros ->. Qed.

Lemma wp_in_cache f e (Q : unit → cache → world → Prop) E t w : od_get f (items t) = Some e → Q tt t w → wp (in_cache f) Q E t w.
Proof. intros He HQ. unfold in_cache. wp_pures. by rewrite (in_cache_mem _ _ _ He). Qed.

Lemma wp_dospace {S} n (Q : unit → S → world → Prop) E (t : S) w : (∀ w', printed w w' → Q tt t w') → wp (dospace n) Q E t w.
Proof.
  intros HQ. unfold dospace. apply (wp_for (λ _ t' w', t' = t ∧ printed w w')); [done| |intros t' w' [-> Hw]; by apply HQ].
  intros l x l' t' w' _ [-> Hw]. wp_pures. split; [done|]. by apply printed_emit.
Qed.
(** *** Opening a file *)

(** The server is as before but for the callback list [cb] of client [k]. *)
Record same_server (s s' : afs) k (cb : list string) : Prop := {
  ss_clients : clients s' = clients s;
  ss_contents : contents s' = contents s;
  ss_value : value s' = value s;
  ss_callbacks : ∀ n, od_get n (callbacks s') = if decide (n = name_of (Z.of_nat k)) then Some cb else od_get n (callbacks s);
}.

Lemma wp_server_get s k f v cb (Q : Z → afs → world → Prop) E w :
  od_get f (contents s) = Some v → od_get (name_of (Z.of_nat k)) (callbacks s) = Some cb →
  (∀ s' cb' w', same_server s s' k cb' → cb ⊆ cb' → f ∈ cb' → Q v s' w') →
  wp (server_get solve detail (name_of (Z.of_nat k)) f) Q E s w.
Proof.
  intros Hv Hcb HQ. unfold server_get, zassert, od_mem. wp_pures. rewrite Hv. simpl. wp_pures.
  assert (∀ w', if negb (bool_decide (f ∈ cb)) then Q v (s <| getcnt ::= Z.succ |> <| callbacks ::= od_set (name_of (Z.of_nat k)) (cb ++ [f]) |>) w'
    else Q v (s <| getcnt ::= Z.succ |>) w') as Hlast.
  { intros w'. case_bool_decide as Hf; simpl.
    - eapply HQ; [|reflexivity|done]. split; [done..|]. intros n. case_decide; [by subst|done].
    - eapply (HQ _ (cb ++ [f])); [|by apply list_subseteq_app_l|apply elem_of_app; right; left].
      split; [done..|]. intros n. simpl. apply od_get_set. }
  destruct (solve && isset detail 0); wp_pures; rewrite Hcb; wp_pures; apply Hlast.
Qed.

(** The copy a client gets *)
Definition opened_entry (o : option entry) (v : Z) : entry :=
  match o with
  | Some e => if valid e then e <| refcnt ::= Z.succ |> else Entry v false 1 true
  | None => Entry v false 1 true
  end.

Lemma wp_incref s k c f e (Q : unit → afs → world → Prop) E w : (k < length (clients s))%nat → od_get f (items (cached c)) = Some e →
  (∀ t', (∀ g, od_get g (items t') = if decide (g = f) then Some (e <| refcnt ::= Z.succ |>) else od_get g (items (cached c))) →
    Q tt (upd s k (c <| cached := t' |>)) w) →
  wp (on_cache (Z.of_nat k) (incref f)) Q E (upd s k c) w.
Proof.
  intros Hk He HQ. apply wp_on_cache; [done|]. unfold incref. wp_pures. eapply wp_in_cache; [done|].
  eapply wp_change; [done|]. apply HQ. intros g. simpl. apply od_get_set.
Qed.

Lemma wp_getfile s k c f v cb (Q : unit → afs → world → Prop) E w : (k < length (clients s))%nat →
  od_get f (contents s) = Some v → od_get (name_of (Z.of_nat k)) (callbacks s) = Some cb →
  (∀ s' t' cb' w', same_server s s' k cb' → cb ⊆ cb' → (f ∈ cb' ∨ is_Some (od_get f (items (cached c)))) →
    (∀ g, od_get g (items t') =
      if decide (g = f) then Some (opened_entry (od_get f (items (cached c))) v) else od_get g (items (cached c))) →
    Q tt (upd s' k (c <| cached := t' |>)) w') →
  wp (getfile solve detail (Z.of_nat k) f) Q E (upd s k c) w.
Proof.
  intros Hk Hv Hcb HQ. unfold getfile. wp_pures. apply wp_on_cache; [done|].
  assert (∀ t w', (∀ g, od_get g (items t) = od_get g (items (cached c))) → (∀ e, od_get f (items t) = Some e → valid e = false) →
    wp ((v ← server_get solve detail (name_of (Z.of_nat k)) f; on_cache (Z.of_nat k) (cache_put f v false 0));;
        on_cache (Z.of_nat k) (incref f)) Q E (upd s k (c <| cached := t |>)) w') as Hmiss.
  { intros t w' Ht Hinv. wp_pures. eapply wp_server_get; [done..|]. intros s' cb' w2 [H1 H2 H3 H4] Hcb' Hf. simpl in *.
    assert (s' = upd (s' <| clients := clients s |>) k (c <| cached := t |>)) as ->.
    { destruct s'; unfold upd, update in *; simpl in *. by subst. }
    apply wp_on_cache; [done|]. unfold cache_put. wp_pures. eapply (wp_incref _ _ _ _ (Entry v false 0 true));
      [done|simpl; by rewrite od_get_set, decide_True|].
    intros t' Ht'. eapply HQ; [by split|done|by left|]. intros g. rewrite Ht'. simpl. rewrite od_get_set, Ht.
    case_decide; [|done]. destruct (od_get f (items (cached c))) as [e|] eqn:He; [|done].
    simpl. rewrite (Hinv e); [done|]. by rewrite Ht. }
  unfold checkget. wp_pures. unfold od_mem. destruct (od_get f (items (cached c))) as [e|] eqn:He; wp_pures.
  - eapply wp_change; [done|]. wp_pures. simpl. rewrite od_get_set, decide_True by done. wp_pures.
    destruct (valid e) eqn:Hval.
    + wp_pures. eapply (wp_incref _ _ _ _ e); [done|simpl; by rewrite od_get_set, decide_True|]. intros t' Ht'.
      eapply HQ; [|reflexivity|right; by eexists|].
      * split; [done..|]. intros n. case_decide; [by subst|done].
      * intros g. rewrite Ht'. simpl. rewrite od_get_set. case_decide; [by rewrite Hval|done].
    + refine (wp_unbind _ _ _ _ _ _ (Hmiss _ _ _ _)).
      * intros g. simpl. rewrite od_get_set. case_decide; [by subst|done].
      * intros e'. simpl. rewrite od_get_set, decide_True by done. congruence.
  - simpl. refine (wp_unbind _ _ _ _ _ _ (wp_unbind _ _ _ _ _ _ (Hmiss _ _ _ _))); [done|]. intros e. simpl. by rewrite He.
Qed.
(** *** Storing a file *)

(** Client [c] has been called back for file [f]. *)
Record invalidated (f : string) c c' : Prop := {
  iv_cid : cid c' = cid c;
  iv_acnt : acnt c' = acnt c;
  iv_acts : acts c' = acts c;
  iv_fds : fds c' = fds c;
  iv_done : done c' = done c;
  iv_items : ∀ g, od_get g (items (cached c')) =
    if decide (g = f) then (λ e, e <| valid := false |>) <$> od_get f (items (cached c)) else od_get g (items (cached c));
}.

Lemma wp_printstate num (Q : unit → cache → world → Prop) E t w : (∀ w', printed w w' → Q tt t w') →
  wp (printstate solve detail num) Q E t w.
Proof.
  intros HQ. unfold printstate. wp_pures. apply (wp_for (λ _ t' w', t' = t ∧ printed w w')); [done| |intros t' w' [-> Hw]; by apply HQ].
  intros l [g e] l' t' w' _ [-> Hw]. wp_pures. case_match; [|done]. apply wp_dospace. intros w2 Hw2. wp_pures. split; [done|].
  apply printed_emit. by etrans.
Qed.

Lemma wp_cache_invalidate num f (Q : unit → cache → world → Prop) E t w :
  (∀ t' w', (∀ g, od_get g (items t') =
    if decide (g = f) then (λ e, e <| valid := false |>) <$> od_get f (items t) else od_get g (items t)) → Q tt t' w') →
  wp (cache_invalidate solve detail num f) Q E t w.
Proof.
  intros HQ. unfold cache_invalidate. wp_pures. apply wp_dospace. intros w1 _. wp_pures.
  unfold od_mem. destruct (od_get f (items t)) as [e|] eqn:He; simpl; wp_pures.
  - eapply wp_change; [done|]. wp_pures.
    assert (∀ t' w', items t' = od_set f (e <| valid := false |>) (items t) → Q tt t' w') as Hend.
    { intros t' w' Ht. apply HQ. intros g. rewrite Ht. simpl. apply od_get_set. }
    case_match; [|by apply Hend]. apply wp_dospace. intros w2 _. wp_pures. apply wp_printstate. intros w3 _. by apply Hend.
  - apply HQ. intros g. case_decide; [by subst|done].
Qed.

Lemma wp_callbacks s k f (Q : unit → afs → world → Prop) E w :
  (∀ j c, clients s !! j = Some c → ∃ cb, od_get (name_of (Z.of_nat j)) (callbacks s) = Some cb ∧
    (is_Some (od_get f (items (cached c))) → f ∈ cb)) →
  (∀ l w', length l = length (clients s) → l !! k = clients s !! k →
    (∀ j c, j ≠ k → clients s !! j = Some c → ∃ c', l !! j = Some c' ∧ invalidated f c c') →
    Q tt (s <| clients := l |>) w') →
  wp (call_back solve detail (name_of (Z.of_nat k)) f) Q E s w.
Proof.
  intros Hcb HQ. unfold call_back. wp_pures.
  apply (wp_for (λ pre s' _, ∃ l, s' = s <| clients := l |> ∧ length l = length (clients s) ∧ l !! k = clients s !! k ∧
    ∀ j c, j ≠ k → clients s !! j = Some c → ∃ c', l !! j = Some c' ∧
      if decide (j < length pre)%nat then invalidated f c c' else c' = c)).
  - exists (clients s). split_and!; [by destruct s|done..|]. intros j c _ Hc. exists c. split; [done|].
    by rewrite decide_False by (simpl; lia).
  - intros pre j post s' w' Hsplit (l & -> & Hl & Hk & Hinv). apply range_split in Hsplit as (-> & _ & Hj).
    unfold len in Hj. rewrite length_app, length_range. rewrite length_range in Hinv.
    assert (j = Z.of_nat (Z.to_nat j)) as Hjn by lia. set (n := Z.to_nat j) in *. clearbody n. subst j.
    destruct (lookup_lt_is_Some_2 (clients s) n) as [c Hc]; [lia|]. destruct (Hcb n c Hc) as (cb & Hcbn & Hmem).
    replace (Z.to_nat (Z.of_nat n - 0)) with n in * by lia. wp_pures. simpl. rewrite Hcbn. wp_pures.
    destruct (decide (n = k)) as [->|Hne].
    { rewrite (bool_decide_true (name_of _ = _)) by done. rewrite andb_false_r. exists l. split_and!; [done..|].
      intros i c0 Hi Hc0. destruct (Hinv i c0 Hi Hc0) as (c' & Hc' & Hrel). exists c'. split; [done|].
      repeat case_decide; simpl in *; try done; lia. }
    destruct (Hinv n c Hne Hc) as (c1 & Hc1 & Hrel). rewrite decide_False in Hrel by lia. subst c1.
    assert (∀ l', length l' = length l → (∀ i, i ≠ n → l' !! i = l !! i) → (∃ c', l' !! n = Some c' ∧ invalidated f c c') →
      ∃ l0, s <| clients := l' |> = s <| clients := l0 |> ∧ length l0 = length (clients s) ∧ l0 !! k = clients s !! k ∧
        ∀ i c0, i ≠ k → clients s !! i = Some c0 → ∃ c', l0 !! i = Some c' ∧
          if decide (i < n + length [Z.of_nat n])%nat then invalidated f c0 c' else c' = c0) as Hnext.
    { intros l' Hl' Hother (c' & Hc' & Hcc'). exists l'. split_and!; [done|congruence|by rewrite Hother by done|].
      intros i c0 Hi Hc0. destruct (decide (i = n)) as [->|Hin].
      - exists c'. split; [done|]. rewrite decide_True by (simpl; lia). congruence.
      - rewrite Hother by done. destruct (Hinv i c0 Hi Hc0) as (c2 & Hc2 & Hr). exists c2. split; [done|].
        repeat case_decide; simpl in *; try done; lia. }
    rewrite (bool_decide_false (name_of _ = _)) by (intros ?%name_of_inj; lia). rewrite andb_true_r.
    case_bool_decide as Hf.
    + assert (∀ w', wp (on_cache (Z.of_nat n) (cache_invalidate solve detail (Z.of_nat n) f)) (λ _ s0 _,
        ∃ l0, s0 = s <| clients := l0 |> ∧ length l0 = length (clients s) ∧ l0 !! k = clients s !! k ∧
        ∀ i c0, i ≠ k → clients s !! i = Some c0 → ∃ c', l0 !! i = Some c' ∧
          if decide (i < n + length [Z.of_nat n])%nat then invalidated f c0 c' else c' = c0) E (s <| clients := l |>) w') as Hcall.
      { intros w2. rewrite <-(upd_id (s <| clients := l |>) n c) by done. apply wp_on_cache; [simpl; lia|].
        apply wp_cache_invalidate. intros t' w3 Ht'.
        apply (Hnext (<[n := c <| cached := t' |>]> l)); [by rewrite length_insert|intros i Hi; by rewrite list_lookup_insert_ne by done|].
        eexists. split; [apply list_lookup_insert_eq; lia|]. by split. }
      wp_pures. case_match; apply Hcall.
    + wp_pures. apply Hnext; [done..|]. exists c. split; [done|]. split; [done..|]. intros g. case_decide; [subst g|done].
      destruct (od_get f (items (cached c))) eqn:He; [|done]. destruct Hf. apply Hmem. by eexists.
  - intros s' w' (l & -> & Hl & Hk & Hinv). apply HQ; [done..|]. intros j c Hj Hc.
    destruct (Hinv j c Hj Hc) as (c' & Hc' & Hr). exists c'. split; [done|]. apply lookup_lt_Some in Hc.
    rewrite decide_True in Hr; [done|]. rewrite length_range. unfold len. lia.
Qed.
(** *** The actions *)

(** Client [c] but for its cache and statistics *)
Record like c c' : Prop := {
  lk_cid : cid c' = cid c;
  lk_acnt : acnt c' = acnt c;
  lk_acts : acts c' = acts c;
  lk_fds : fds c' = fds c;
  lk_done : done c' = done c;
}.

Lemma wp_fd_lookup global_i c fd f (Q : string → client → world → Prop) E w : 0 ≤ global_i < max_fd → fds c !! fd = Some f → f ≠ "" → Q f c w →
  wp (fd_lookup global_i fd) Q E c w.
Proof.
  intros Hgi Hfd Hf HQ. unfold fd_lookup, zassert, fd_name. wp_pures.
  destruct (Z.leb_spec 0 global_i); [|lia]. destruct (Z.ltb_spec global_i max_fd); [|lia]. simpl. wp_pures.
  rewrite Hfd. wp_pures. rewrite bool_decide_true by done. simpl. wp_pures. rewrite Hfd. by wp_pures.
Qed.

Lemma wp_cache_get f e (Q : entry → cache → world → Prop) E t w : od_get f (items t) = Some e → Q e t w → wp (cache_get f) Q E t w.
Proof. intros He HQ. unfold cache_get. wp_pures. eapply wp_in_cache; [done|]. wp_pures. by rewrite He. Qed.

Lemma cached_id c : c <| cached := cached c |> = c.
Proof. by destruct c. Qed.

Lemma wp_do_read global_i s k c fd f e (Q : unit → afs → world → Prop) E w : 0 ≤ global_i < max_fd → (k < length (clients s))%nat →
  fds c !! fd = Some f → f ≠ "" → od_get f (items (cached c)) = Some e →
  (∀ c', like c c' → cached c' = cached c →
    Q tt (upd s k c') (emit (("read:" +:+ str_of_Z fd +:+ " -> " +:+ (if solve then str_of_Z (data e) else "value?")) +:+ nl) w)) →
  wp (do_read solve global_i (Z.of_nat k) fd) Q E (upd s k c) w.
Proof.
  intros Hgi Hk Hfd Hf He HQ. unfold do_read. wp_pures. apply wp_on_client; [done|]. eapply wp_fd_lookup; [done..|].
  wp_pures. apply wp_on_client; [done|]. wp_pures. apply wp_on_cache; [done|]. eapply wp_cache_get; [done|]. wp_pures.
  apply HQ; [by split|done].
Qed.

Lemma wp_do_write global_i s k c fd f e (Q : unit → afs → world → Prop) E w : 0 ≤ global_i < max_fd → (k < length (clients s))%nat →
  fds c !! fd = Some f → f ≠ "" → od_get f (items (cached c)) = Some e →
  (∀ c' w', like c c' → (∀ g, od_get g (items (cached c')) =
      if decide (g = f) then Some (e <| data := value s |> <| dirty := true |>) else od_get g (items (cached c))) →
    Q tt (upd (s <| value ::= Z.succ |>) k c') w') →
  wp (do_write solve global_i (Z.of_nat k) fd) Q E (upd s k c) w.
Proof.
  intros Hgi Hk Hfd Hf He HQ. unfold do_write. wp_pures. apply wp_on_client; [done|]. eapply wp_fd_lookup; [done..|].
  wp_pures. apply wp_on_client; [done|]. wp_pures. apply wp_on_cache; [done|]. eapply wp_cache_get; [done|].
  unfold getvalue. wp_pures.
  match goal with |- wp _ _ _ (update value _ (upd s k ?c1)) _ =>
    change (update value Z.succ (upd s k c1)) with (upd (s <| value ::= Z.succ |>) k c1) end.
  apply wp_on_cache; [done|]. unfold cache_update. eapply wp_change; [done|]. wp_pures. apply HQ; [by split|].
  intros g. simpl. apply od_get_set.
Qed.

(** What a close leaves of the copy *)
Definition closed_entry (e : entry) : option entry :=
  let e' := e <| refcnt ::= Z.pred |> in if negb (valid e) && (refcnt e' =? 0) then None else Some e'.

Lemma wp_release s k c f e (Q : unit → afs → world → Prop) E w : (k < length (clients s))%nat →
  od_get f (items (cached c)) = Some e →
  (∀ c', like c c' → (∀ g, od_get g (items (cached c')) = if decide (g = f) then closed_entry e else od_get g (items (cached c))) →
    Q tt (upd s k c') w) →
  wp (on_cache (Z.of_nat k) (decref f);; on_cache (Z.of_nat k) (checkvalid f)) Q E (upd s k c) w.
Proof.
  intros Hk He HQ. wp_pures. apply wp_on_cache; [done|]. unfold decref. wp_pures. eapply wp_in_cache; [done|].
  eapply wp_change; [done|]. apply wp_on_cache; [done|]. unfold checkvalid, zassert, od_mem. wp_pures. simpl.
  rewrite od_get_set, decide_True by done. simpl. wp_pures.
  assert (∀ g, od_get g (if negb (valid e) && (Z.pred (refcnt e) =? 0) then od_del f (od_set f (e <| refcnt ::= Z.pred |>) (items (cached c)))
    else od_set f (e <| refcnt ::= Z.pred |>) (items (cached c))) = if decide (g = f) then closed_entry e else od_get g (items (cached c))) as Hg.
  { intros g. unfold closed_entry. simpl. destruct (negb (valid e) && (Z.pred (refcnt e) =? 0));
      rewrite ?od_get_del, od_get_set; by repeat case_decide. }
  simpl. destruct (negb (valid e) && (Z.pred (refcnt e) =? 0)); wp_pures; (apply HQ; [by split|exact Hg]).
Qed.
(** A dirty copy is stored, and the other clients are called back. *)
Lemma wp_putfile s k c f e v (Q : unit → afs → world → Prop) E w : (k < length (clients s))%nat →
  od_get f (items (cached c)) = Some e → is_Some (od_get f (contents s)) →
  (∀ j cj, clients (upd s k c) !! j = Some cj → ∃ cb, od_get (name_of (Z.of_nat j)) (callbacks s) = Some cb ∧
    (is_Some (od_get f (items (cached cj))) → f ∈ cb)) →
  (∀ l c' n w', length l = length (clients s) → like c c' →
    (∀ g, od_get g (items (cached c')) =
      if decide (g = f) then Some (e <| dirty := false |> <| valid := true |>) else od_get g (items (cached c))) →
    (∀ j c, j ≠ k → clients s !! j = Some c → ∃ c', l !! j = Some c' ∧ invalidated f c c') →
    Q tt (upd (s <| clients := l |> <| contents ::= od_set f v |> <| putcnt := n |>) k c') w') →
  wp (putfile solve detail (Z.of_nat k) f v) Q E (upd s k c) w.
Proof.
  intros Hk He [v0 Hv0] Hcb HQ. unfold putfile, server_put, zassert, od_mem. wp_pures. simpl. rewrite Hv0. simpl. wp_pures.
  assert (∀ l w', length l = length (clients s) → l !! k = Some c →
    (∀ j c, j ≠ k → clients s !! j = Some c → ∃ c', l !! j = Some c' ∧ invalidated f c c') →
    wp (on_cache (Z.of_nat k) (setclean f);; on_cache (Z.of_nat k) (setvalid f)) Q E
      (upd s k c <| putcnt ::= Z.succ |> <| contents ::= od_set f v |> <| clients := l |>) w') as Hend.
  { intros l w' Hl Hlk Hothers.
    assert (upd s k c <| putcnt ::= Z.succ |> <| contents ::= od_set f v |> <| clients := l |> =
      upd (s <| clients := l |> <| contents ::= od_set f v |> <| putcnt := putcnt s + 1 |>) k c) as ->.
    { unfold upd, update. simpl. by rewrite list_insert_id. }
    wp_pures. apply wp_on_cache; [simpl; lia|]. unfold setclean. wp_pures. eapply wp_in_cache; [done|]. eapply wp_change; [done|].
    apply wp_on_cache; [simpl; lia|]. unfold setvalid. wp_pures.
    eapply wp_in_cache; [simpl; by rewrite od_get_set, decide_True|]. eapply wp_change; [simpl; by rewrite od_get_set, decide_True|].
    apply HQ; [done|by split| |done]. intros g. simpl. rewrite !od_get_set. by case_decide. }
  assert (∀ w', wp (call_back solve detail (name_of (Z.of_nat k)) f)
    (λ _ s0 w0, wp (on_cache (Z.of_nat k) (setclean f);; on_cache (Z.of_nat k) (setvalid f)) Q E s0 w0) E
    (upd s k c <| putcnt ::= Z.succ |> <| contents ::= od_set f v |>) w') as Hloop.
  { intros w'. eapply (wp_callbacks (upd s k c <| putcnt ::= Z.succ |> <| contents ::= od_set f v |>) k); [exact Hcb|]. intros l w2 Hl Hlk Hinv.
    simpl in *. rewrite length_insert in Hl. apply Hend; [done|by rewrite Hlk, list_lookup_insert_eq|].
    intros j cj Hj Hcj. apply Hinv; [done|]. by rewrite list_lookup_insert_ne. }
  destruct (solve && isset detail 0); wp_pures; apply Hloop.
Qed.
(** *** Sessions advance *)

Definition legal_at (files : list string) (fd : gmap Z string) (o : option string) (a : action) : Prop :=
  match a, o with
  | OPEN f k, None => fd !! k = Some f ∧ f ≠ "" ∧ f ∈ files
  | READ k, Some f | WRITE k, Some f | CLOSE k, Some f => fd !! k = Some f ∧ f ≠ ""
  | _, _ => False
  end.

Lemma legal_inv files fd o a l : legal files fd o (a :: l) = true → legal_at files fd o a ∧ legal files fd (opened_by o a) l = true.
Proof. destruct a, o; simpl; try done; rewrite ?andb_true_iff, ?bool_decide_eq_true; naive_solver. Qed.

(** The client after its next action [a], with the cache still to be stated *)
Lemma advance files cb k c a c' : client_ok files cb k c → acts c !! Z.to_nat (acnt c) = Some a →
  cid c' = cid c → acts c' = acts c → fds c' = fds c → done c' = false → acnt c' = acnt c + 1 →
  legal_at files.*1 (fds c) (current c) a ∧ current c' = opened_by (current c) a ∧
  ∀ files' cb', files'.*1 = files.*1 →
    (∀ f e, od_get f (items (cached c')) = Some e → f ∈ files.*1) →
    (∀ f e, od_get f (items (cached c')) = Some e →
      f ∈ cb' ∧ refcnt e = refs_of c' f ∧ (dirty e = true → current c' = Some f) ∧
      (valid e = true → dirty e = false → od_get f files' = Some (data e))) →
    (∀ f, current c' = Some f → is_Some (od_get f (items (cached c')))) →
    client_ok files' cb' k c'.
Proof.
  intros [H1 H2 H3 _ _ _ _] Ha Hcid Hacts Hfds Hdone Hacnt. rewrite (drop_S _ _ _ Ha) in H3.
  apply legal_inv in H3 as [Hat Hrest]. pose proof (lookup_lt_Some _ _ _ Ha) as Hlt.
  assert (Z.to_nat (acnt c') = S (Z.to_nat (acnt c))) as Hn by lia.
  assert (current c' = opened_by (current c) a) as Hcur.
  { unfold current, opened. rewrite Hn, Hacts, (take_S_r _ _ _ Ha), foldl_app. done. }
  split; [done|]. split; [done|]. intros files' cb' Hfiles Hknown Hitem Hopen.
  split; [by rewrite Hcid| | |done|by rewrite Hfiles|done|by rewrite Hdone].
  - rewrite Hacts. unfold len. lia.
  - by rewrite Hfiles, Hcur, Hfds, Hn, Hacts.
Qed.

Lemma session_none c : current c = None → session_of c = None.
Proof. unfold session_of. by intros ->. Qed.

Lemma session_some c f e : current c = Some f → od_get f (items (cached c)) = Some e → session_of c = Some (Session f (data e) (dirty e)).
Proof. unfold session_of. intros ->. simpl. by intros ->. Qed.

Lemma abs_open s k c : clients s !! k = Some c → sp_open (abs s) !! k = Some (session_of c).
Proof. intros Hc. simpl. by rewrite list_lookup_fmap, Hc. Qed.

Lemma abs_upd s s1 k c : clients s1 = clients s →
  abs (upd s1 k c) = Spec (contents s1) (value s1) (<[k := session_of c]> (sp_open (abs s))).
Proof. intros Hcl. unfold abs, upd, update. simpl. by rewrite list_fmap_insert, Hcl. Qed.

(** The others do not notice. *)
Lemma inv_upd s s1 k c cb : inv s → clients s1 = clients s → contents s1 = contents s →
  (∀ n, od_get n (callbacks s1) = if decide (n = name_of (Z.of_nat k)) then Some cb else od_get n (callbacks s)) →
  client_ok (contents s) cb k c → inv (upd s1 k c).
Proof.
  intros Hinv Hcl Hco Hcb Hc j c' Hj. unfold upd in *. simpl in *. rewrite Hcb, Hco.
  apply list_lookup_insert_Some in Hj as [(-> & -> & _)|[Hne Hj]].
  - rewrite decide_True by done. eauto.
  - rewrite Hcl in Hj. rewrite decide_False by (intros ?%name_of_inj; lia). by apply Hinv.
Qed.

(** What the step theorem says of an action, before the position moves on *)
Definition acted s k c a (s' : afs) : Prop := ∃ s1 c1, s' = upd s1 k c1 ∧ (k < length (clients s1))%nat ∧ like c c1 ∧
  inv (upd s1 k (c1 <| acnt ::= Z.succ |>)) ∧ spec_step k a (abs s) = Some (abs (upd s1 k (c1 <| acnt ::= Z.succ |>))) ∧
  length (clients s1) = length (clients s) ∧ ∀ j c, j ≠ k → clients s !! j = Some c → ∃ c', clients s1 !! j = Some c' ∧ like c c'.

Lemma like_refl c : like c c.
Proof. by split. Qed.

Lemma acted_alone s s1 k c a c1 cb : inv s → clients s !! k = Some c → clients s1 = clients s → contents s1 = contents s →
  (∀ n, od_get n (callbacks s1) = if decide (n = name_of (Z.of_nat k)) then Some cb else od_get n (callbacks s)) →
  like c c1 → client_ok (contents s) cb k (c1 <| acnt ::= Z.succ |>) →
  spec_step k a (abs s) = Some (Spec (contents s) (value s1) (<[k := session_of (c1 <| acnt ::= Z.succ |>)]> (sp_open (abs s)))) →
  acted s k c a (upd s1 k c1).
Proof.
  intros Hinv Hc Hcl Hco Hcb Hlike Hok Hspec. exists s1, c1. split_and!; [done|by rewrite Hcl; eapply lookup_lt_Some|done| | |by rewrite Hcl|].
  - by eapply inv_upd.
  - rewrite Hspec. f_equal. by rewrite (abs_upd s s1), Hco.
  - intros j cj _ Hj. exists cj. rewrite Hcl. split; [done|apply like_refl].
Qed.
(** *** Each action *)

Section Action.
Context s k c (a : action) (cb : list string).
Context (Hinv : inv s) (Hc : clients s !! k = Some c) (Hdone : done c = false) (Ha : acts c !! Z.to_nat (acnt c) = Some a).
Context (Hcb : od_get (name_of (Z.of_nat k)) (callbacks s) = Some cb) (Hok : client_ok (contents s) cb k c).

Lemma acting_lt : (k < length (clients s))%nat.
Proof. by eapply lookup_lt_Some. Qed.

(** [advance] for a client that is like [c] *)
Lemma advance_like c1 : like c c1 →
  legal_at (contents s).*1 (fds c) (current c) a ∧ current (c1 <| acnt ::= Z.succ |>) = opened_by (current c) a ∧
  ∀ files' cb', files'.*1 = (contents s).*1 →
    (∀ f e, od_get f (items (cached c1)) = Some e → f ∈ (contents s).*1) →
    (∀ f e, od_get f (items (cached c1)) = Some e →
      f ∈ cb' ∧ refcnt e = (if decide (opened_by (current c) a = Some f) then 1 else 0) ∧
      (dirty e = true → opened_by (current c) a = Some f) ∧
      (valid e = true → dirty e = false → od_get f files' = Some (data e))) →
    (∀ f, opened_by (current c) a = Some f → is_Some (od_get f (items (cached c1)))) →
    client_ok files' cb' k (c1 <| acnt ::= Z.succ |>).
Proof.
  intros [H1 H2 H3 H4 H5]. destruct (advance _ _ _ _ a (c1 <| acnt ::= Z.succ |>) Hok Ha) as (Hat & Hcur & Hnew);
    [done..|simpl; congruence|simpl; lia|]. split_and!; [done..|]. intros files' cb' Hfiles Hknown Hitem Hopen.
  apply Hnew; [done|done| |by rewrite Hcur]. unfold refs_of. by rewrite Hcur.
Qed.

Lemma same_callbacks n : od_get n (callbacks s) = if decide (n = name_of (Z.of_nat k)) then Some cb else od_get n (callbacks s).
Proof. case_decide; [by subst|done]. Qed.

Lemma wp_open_action f fd w : a = OPEN f fd →
  wp (getfile solve detail (Z.of_nat k) f) (λ _ s' _, acted s k c a s') noexn s w.
Proof.
  intros Hop. rewrite <-(upd_id s k c Hc) at 1.
  assert (∃ v, od_get f (contents s) = Some v) as [v Hv].
  { destruct (advance_like c (like_refl c)) as [Hat _]. rewrite Hop in Hat. simpl in Hat.
    destruct (current c); [done|]. destruct Hat as (_ & _ & Hin). destruct (od_get f (contents s)) eqn:Hf; [eauto|].
    by apply od_get_None in Hf. }
  eapply wp_getfile; [apply acting_lt|done..|]. intros s' t' cb' _ [S1 S2 S3 S4] Hsub Hmem Ht.
  assert (like c (c <| cached := t' |>)) as Hlike by by split.
  destruct (advance_like _ Hlike) as (Hat & Hcur & Hnew). rewrite Hop in Hat. simpl in Hat.
  destruct (current c) as [g|] eqn:Hcurc; [done|]. destruct Hat as (Hfd & Hne & Hin).
  assert (∀ e, od_get f (items (cached c)) = Some e → refcnt e = 0 ∧ dirty e = false ∧ (valid e = true → data e = v)) as Hold.
  { intros e He. destruct (ok_item _ _ _ _ Hok f e He) as (_ & Hr & Hd & Hval). unfold refs_of in Hr. rewrite Hcurc in *.
    rewrite decide_False in Hr by done. destruct (dirty e); [by specialize (Hd eq_refl)|]. split_and!; [done..|].
    intros Hv'. specialize (Hval Hv' eq_refl). congruence. }
  assert (∃ e', opened_entry (od_get f (items (cached c))) v = e' ∧ refcnt e' = 1 ∧ dirty e' = false ∧ data e' = v) as (e' & He' & Hr' & Hd' & Hv').
  { eexists. split; [done|]. destruct (od_get f (items (cached c))) as [e|] eqn:He; [|done]. simpl.
    destruct (Hold e eq_refl) as (Hr & Hd & Hval). destruct (valid e); [|done]. simpl. rewrite Hr, Hd, Hval; done. }
  rewrite He' in Ht. rewrite Hop in Hcur, Hnew.
  eapply (acted_alone _ _ _ _ _ _ cb'); [done..| |].
  - apply Hnew; [done| | |].
    + intros g e. simpl. rewrite Ht. case_decide; [by subst|apply Hok].
    + intros g e. simpl. rewrite Ht. case_decide as Hg; [subst g; intros [= <-]|intros He].
      * split_and!; [|by rewrite decide_True|done|congruence]. destruct Hmem as [|[e0 He0]]; [done|].
        apply Hsub. by apply (ok_item _ _ _ _ Hok f e0).
      * destruct (ok_item _ _ _ _ Hok g e He) as (Hgcb & Hr & Hd & Hval). unfold refs_of in Hr. rewrite Hcurc in *.
        rewrite decide_False in Hr by done. rewrite decide_False by congruence. split_and!; [by apply Hsub|done| |done].
        intros Hde. by specialize (Hd Hde).
    + intros g [= <-]. simpl. rewrite Ht, decide_True by done. eauto.
  - rewrite Hop. unfold spec_step. rewrite (abs_open s k c Hc), (session_none c Hcurc). simpl. rewrite Hv. simpl. rewrite S3.
    do 3 f_equal. symmetry. rewrite <-Hv', <-Hd'. apply session_some; [by rewrite Hcur|]. simpl. by rewrite Ht, decide_True.
Qed.
(** The file that is open *)
Lemma open_file fd : a = READ fd ∨ a = WRITE fd ∨ a = CLOSE fd →
  ∃ f e, current c = Some f ∧ fds c !! fd = Some f ∧ f ≠ "" ∧ od_get f (items (cached c)) = Some e ∧ f ∈ cb ∧ refcnt e = 1 ∧
    (valid e = true → dirty e = false → od_get f (contents s) = Some (data e)).
Proof.
  intros Hop. destruct (advance_like c (like_refl c)) as [Hat _].
  assert (∃ f, current c = Some f ∧ fds c !! fd = Some f ∧ f ≠ "") as (f & Hcur & Hfd & Hne).
  { destruct Hop as [-> |[-> | ->]]; simpl in Hat; destruct (current c); naive_solver. }
  destruct (ok_open _ _ _ _ Hok f Hcur) as [e He]. destruct (ok_item _ _ _ _ Hok f e He) as (Hf & Hr & _ & Hval).
  unfold refs_of in Hr. rewrite decide_True in Hr by done. exists f, e. done.
Qed.

(** The entries of the files that are not open *)
Lemma closed_files f g e : current c = Some f → g ≠ f → od_get g (items (cached c)) = Some e →
  g ∈ cb ∧ refcnt e = 0 ∧ dirty e = false ∧ (valid e = true → od_get g (contents s) = Some (data e)).
Proof.
  intros Hcur Hne He. destruct (ok_item _ _ _ _ Hok g e He) as (Hg & Hr & Hd & Hval). unfold refs_of in Hr.
  rewrite decide_False in Hr by congruence.
  destruct (dirty e); [by specialize (Hd eq_refl); congruence|]. split_and!; [done..|]. intros H. by apply Hval.
Qed.

Lemma wp_read_action global_i fd w : 0 ≤ global_i < max_fd → a = READ fd →
  wp (do_read solve global_i (Z.of_nat k) fd) (λ _ s' w', acted s k c a s' ∧
    ∀ line, spec_read k a (abs s) = Some line → solve = true → stdout w' = line :: stdout w) noexn s w.
Proof.
  intros Hgi Hop. rewrite <-(upd_id s k c Hc) at 1. destruct (open_file fd) as (f & e & Hcur & Hfd & Hne & He & Hf & Hr & Hval); [auto|].
  eapply wp_do_read; [done|apply acting_lt|done..|]. intros c1 Hlike Hcached. destruct (advance_like c1 Hlike) as (_ & Hcur1 & Hnew).
  rewrite Hop in Hcur1, Hnew. simpl in Hcur1, Hnew.
  assert (client_ok (contents s) cb k (c1 <| acnt ::= Z.succ |>)) as Hok1.
  { apply Hnew; [done|rewrite Hcached; apply Hok..]. }
  split.
  - eapply (acted_alone _ _ _ _ _ _ cb); [done..|apply same_callbacks|done|done|]. rewrite Hop. unfold spec_step.
    rewrite (abs_open s k c Hc), (session_some c f e) by done. f_equal. unfold abs at 1. f_equal.
    rewrite (session_some _ f e) by (rewrite ?Hcur1; simpl; by rewrite ?Hcached). symmetry. apply list_insert_id.
    rewrite list_lookup_fmap, Hc. simpl. by rewrite (session_some c f e).
  - intros line Hline Hsol. rewrite Hop in Hline. unfold spec_read in Hline.
    rewrite (abs_open s k c Hc), (session_some c f e) in Hline by done.
    rewrite Hsol. exact (f_equal (λ o, default "" o :: stdout w) Hline).
Qed.

Lemma wp_write_action global_i fd w : 0 ≤ global_i < max_fd → a = WRITE fd →
  wp (do_write solve global_i (Z.of_nat k) fd) (λ _ s' _, acted s k c a s') noexn s w.
Proof.
  intros Hgi Hop. rewrite <-(upd_id s k c Hc) at 1. destruct (open_file fd) as (f & e & Hcur & Hfd & Hne & He & Hf & Hr & Hval); [auto|].
  eapply wp_do_write; [done|apply acting_lt|done..|]. intros c1 w1 Hlike Hitems. destruct (advance_like c1 Hlike) as (_ & Hcur1 & Hnew).
  rewrite Hop in Hcur1, Hnew. simpl in Hcur1, Hnew. rewrite Hcur in Hcur1, Hnew.
  eapply (acted_alone _ _ _ _ _ _ cb); [done..|apply same_callbacks|done| |].
  - apply Hnew; [done| | |].
    + intros g e1. rewrite Hitems. case_decide; [subst g; intros _; by eapply Hok|apply Hok].
    + intros g e1. rewrite Hitems. case_decide as Hg; [subst g; intros [= <-]|intros He1].
      * rewrite decide_True by done. split_and!; [done..|]. simpl. done.
      * destruct (closed_files f g e1) as (H1 & H2 & H3 & H4); [done..|]. rewrite decide_False by congruence.
        split_and!; [done..| |auto]. congruence.
    + intros g [= <-]. rewrite Hitems, decide_True by done. eauto.
  - rewrite Hop. unfold spec_step. rewrite (abs_open s k c Hc), (session_some c f e) by done. f_equal. simpl. f_equal. f_equal.
    symmetry. by erewrite session_some; [|done|simpl; by rewrite Hitems, decide_True].
Qed.
(** The client after a close, over the stored files [files'] *)
Lemma closed_ok fd f e c1 files' : a = CLOSE fd → current c = Some f → like c c1 → files'.*1 = (contents s).*1 →
  (∀ g, g ≠ f → od_get g files' = od_get g (contents s)) → refcnt e = 1 →
  (valid e = true → od_get f files' = Some (data e)) → dirty e = false → f ∈ cb →
  (∀ g, od_get g (items (cached c1)) = if decide (g = f) then closed_entry e else od_get g (items (cached c))) →
  client_ok files' cb k (c1 <| acnt ::= Z.succ |>) ∧ session_of (c1 <| acnt ::= Z.succ |>) = None.
Proof.
  intros Hop Hcur Hlike Hkeys Hfiles Hr Hval Hd Hf Hitems. destruct (advance_like c1 Hlike) as (_ & Hcur1 & Hnew).
  rewrite Hop in Hcur1, Hnew. simpl in Hcur1, Hnew. split; [|by apply session_none].
  destruct (open_file fd) as (f' & e0 & Hcur' & _ & _ & He0 & _); [auto|]. assert (f' = f) as -> by congruence.
  apply Hnew; [done|intros g e1; rewrite Hitems; case_decide; [subst g; intros _; by eapply Hok|apply Hok]| |done].
  intros g e1. rewrite Hitems. case_decide as Hg; [subst g|intros He1].
  - unfold closed_entry. simpl. rewrite Hr. simpl. rewrite andb_true_r. destruct (valid e) eqn:Hv; simpl; [|done].
    intros [= <-]. simpl. rewrite Hr, Hd. split_and!; [done..|]. auto.
  - destruct (closed_files f g e1) as (H1 & H2 & H3 & H4); [done..|]. rewrite Hfiles by done. split_and!; [done..|congruence|auto].
Qed.

(** A client that is called back when [f] is stored *)
Lemma invalidated_ok files' f j cj cb' c' : (∀ g, g ≠ f → od_get g files' = od_get g (contents s)) → files'.*1 = (contents s).*1 →
  client_ok (contents s) cb' j cj → invalidated f cj c' → client_ok files' cb' j c' ∧ session_of c' = session_of cj.
Proof.
  intros Hfiles Hkeys [H1 H2 H3 H4 H7 H5 H6] [I1 I2 I3 I4 I5 I6].
  assert (current c' = current cj) as Hcur by (unfold current; by rewrite I2, I3).
  split; [split|].
  - congruence.
  - by rewrite I2, I3.
  - by rewrite Hkeys, Hcur, I2, I3, I4.
  - unfold refs_of. rewrite Hcur. intros g e. rewrite I6. case_decide as Hg.
    + subst g. intros (e0 & He0 & ->)%fmap_Some. destruct (H4 f e0 He0) as (? & ? & ? & ?). split_and!; [done..|]. simpl. done.
    + intros He. destruct (H4 g e He) as (? & ? & ? & ?). rewrite Hfiles by done. done.
  - intros g e. rewrite I6, Hkeys. case_decide; [subst g; intros (e0 & He0 & _)%fmap_Some; by eapply H7|apply H7].
  - intros g. rewrite Hcur, I6. intros Hg%H5. case_decide; [subst|done]. destruct Hg as [e ->]. simpl. eauto.
  - rewrite I5, I2, I3. done.
  - unfold session_of. rewrite Hcur. destruct (current cj) as [g|]; [|done]. simpl. rewrite I6. case_decide; [subst g|done].
    by destruct (od_get f (items (cached cj))).
Qed.

(** The store of a dirty file, seen by everybody *)
Lemma stored_acted fd f e c1 l n : a = CLOSE fd → current c = Some f → od_get f (items (cached c)) = Some e → dirty e = true →
  f ∈ cb → refcnt e = 1 → length l = length (clients s) →
  (∀ j c, j ≠ k → clients s !! j = Some c → ∃ c', l !! j = Some c' ∧ invalidated f c c') → like c c1 →
  (∀ g, od_get g (items (cached c1)) =
    if decide (g = f) then closed_entry (e <| dirty := false |> <| valid := true |>) else od_get g (items (cached c))) →
  acted s k c a (upd (s <| clients := l |> <| contents ::= od_set f (data e) |> <| putcnt := n |>) k c1).
Proof.
  intros Hop Hcur He Hd Hf Hr Hl Hothers Hlike Hitems. pose proof acting_lt as Hlt.
  assert ((od_set f (data e) (contents s)).*1 = (contents s).*1) as Hkeys.
  { apply od_keys_set. destruct (od_get f (contents s)) eqn:Hno; [eauto|]. exfalso.
    apply od_get_None in Hno. by eapply Hno, Hok. }
  assert (∀ g, g ≠ f → od_get g (od_set f (data e) (contents s)) = od_get g (contents s)) as Hfiles.
  { intros g Hg. rewrite od_get_set. by rewrite decide_False. }
  destruct (closed_ok fd f (e <| dirty := false |> <| valid := true |>) c1 (od_set f (data e) (contents s))) as [Hok1 Hses]; try done.
  { intros _. simpl. by rewrite od_get_set, decide_True. }
  eexists _, c1. split; [reflexivity|]. split_and!; [simpl; lia|done| | |done|].
  - intros j cj Hj. change (<[k := c1 <| acnt ::= Z.succ |>]> l !! j = Some cj) in Hj.
    change (∃ cb0, od_get (name_of (Z.of_nat j)) (callbacks s) = Some cb0 ∧ client_ok (od_set f (data e) (contents s)) cb0 j cj).
    apply list_lookup_insert_Some in Hj as [(<- & <- & _)|[Hne Hj]]; [eauto|].
    destruct (lookup_lt_is_Some_2 (clients s) j) as [c0 Hc0]; [rewrite <-Hl; by eapply lookup_lt_Some|].
    destruct (Hothers j c0) as (c' & Hc' & Hiv); [done..|]. simplify_eq. destruct (Hinv j c0 Hc0) as (cb' & Hcb' & Hok0).
    exists cb'. split; [done|]. by eapply invalidated_ok.
  - rewrite Hop. unfold spec_step. rewrite (abs_open s k c Hc), (session_some c f e) by done.
    rewrite (abs_upd (s <| clients := l |>)) by done. rewrite Hses. simpl. rewrite Hd. do 2 f_equal. apply list_eq. intros j.
    destruct (decide (j = k)) as [->|Hne]; [by rewrite !list_lookup_insert_eq by (rewrite length_fmap; lia)|].
    rewrite !list_lookup_insert_ne, !list_lookup_fmap by done. destruct (clients s !! j) as [cj|] eqn:Hj.
    + destruct (Hothers j cj) as (c' & -> & Hiv); [done..|]. simpl. destruct (Hinv j cj Hj) as (cb' & _ & Hok0).
      f_equal. symmetry. by eapply invalidated_ok.
    + rewrite (lookup_ge_None_2 l); [done|]. rewrite Hl. by apply lookup_ge_None.
  - intros j cj Hj Hcj. destruct (Hothers j cj Hj Hcj) as (c' & Hc' & [I1 I2 I3 I4 I5 I6]). exists c'. split; [done|]. by split.
Qed.
Lemma wp_close_action global_i fd w : 0 ≤ global_i < max_fd → a = CLOSE fd →
  wp (do_close solve detail global_i (Z.of_nat k) fd) (λ _ s' _, acted s k c a s') noexn s w.
Proof.
  intros Hgi Hop. rewrite <-(upd_id s k c Hc) at 1. pose proof acting_lt as Hlt.
  destruct (open_file fd) as (f & e & Hcur & Hfd & Hne & He & Hf & Hr & Hval); [auto|].
  unfold do_close. wp_pures. apply wp_on_client; [done|]. eapply wp_fd_lookup; [done..|].
  wp_pures. apply wp_on_cache; [done|]. eapply wp_cache_get; [done|]. wp_pures.
  rewrite cached_id. apply wp_on_cache; [done|]. unfold isdirty. wp_pures. eapply wp_in_cache; [done|]. wp_pures. rewrite He. wp_pures.
  rewrite cached_id. destruct (dirty e) eqn:Hd.
  - eapply wp_putfile; [done..| | |].
    + destruct (od_get f (contents s)) eqn:Hno; [eauto|]. exfalso. apply od_get_None in Hno. by eapply Hno, Hok.
    + intros j cj Hj. change (<[k := c]> (clients s) !! j = Some cj) in Hj. rewrite list_insert_id in Hj by done.
      destruct (Hinv j cj Hj) as (cbj & Hcbj & Hokj). exists cbj. split; [done|]. intros [e0 He0]. by eapply ok_item.
    + intros l c1 n w1 Hl Hlike1 Hitems1 Hothers.
      eapply wp_release; [simpl; lia|by rewrite Hitems1, decide_True|]. intros c2 Hlike2 Hitems2.
      eapply (stored_acted fd f e); [done..| |].
      * destruct Hlike1, Hlike2. split; congruence.
      * intros g. rewrite Hitems2, Hitems1. by case_decide.
  - rewrite wp_ret. eapply wp_release; [done..|]. intros c1 Hlike Hitems.
    destruct (closed_ok fd f e c1 (contents s)) as [Hok1 Hses]; try done; [by intros; apply Hval|].
    eapply (acted_alone _ _ _ _ _ _ cb); [done..|apply same_callbacks|done|done|]. rewrite Hop. unfold spec_step.
    rewrite (abs_open s k c Hc), (session_some c f e), Hses by done. simpl. by rewrite Hd.
Qed.

Lemma wp_do_action global_i b w : 0 ≤ global_i < max_fd → a = b →
  wp (do_action solve detail global_i (Z.of_nat k) b) (λ _ s' w', acted s k c a s' ∧
    ∀ line, spec_read k a (abs s) = Some line → solve = true → stdout w' = line :: stdout w) noexn s w.
Proof.
  intros Hgi Hop. assert ((∀ fd, b ≠ READ fd) → ∀ line, spec_read k a (abs s) ≠ Some line) as Hno.
  { intros Hb line. unfold spec_read. rewrite Hop. destruct b; done || by edestruct Hb. }
  destruct b as [f fd|fd|fd|fd]; simpl.
  - wp_pures. eapply wp_conseq; [by eapply wp_open_action|]. intros [] s' w' Hs'. split; [done|]. intros line Hline. by apply Hno in Hline.
  - by eapply wp_read_action.
  - eapply wp_conseq; [by eapply wp_write_action|]. intros [] s' w' Hs'. split; [done|]. intros line Hline. by apply Hno in Hline.
  - eapply wp_conseq; [by eapply wp_close_action|]. intros [] s' w' Hs'. split; [done|]. intros line Hline. by apply Hno in Hline.
Qed.
End Action.

(** The position moves on. *)
Definition stepped s k s' : Prop := length (clients s') = length (clients s) ∧ ∀ j c, clients s !! j = Some c →
  ∃ c', clients s' !! j = Some c' ∧ acts c' = acts c ∧ done c' = done c ∧ acnt c' = if decide (j = k) then acnt c + 1 else acnt c.

Lemma wp_step_action global_i s k c a w : 0 ≤ global_i < max_fd → inv s → clients s !! k = Some c → done c = false →
  acts c !! Z.to_nat (acnt c) = Some a →
  wp (step solve detail global_i (Z.of_nat k)) (λ rc s' w', rc = 1 ∧ inv s' ∧ stepped s k s' ∧
    spec_step k a (abs s) = Some (abs s') ∧
    ∀ line, spec_read k a (abs s) = Some line → solve = true → ∃ l1 l2, stdout w' = l1 ++ line :: l2 ++ stdout w) noexn s w.
Proof.
  intros Hgi Hinv Hc Hd Ha. destruct (Hinv k c Hc) as (cb & Hcb & Hok). pose proof (lookup_lt_Some _ _ _ Hc) as Hk.
  pose proof (lookup_lt_Some _ _ _ Ha) as Hlt. pose proof (ok_acnt _ _ _ _ Hok) as Hcnt.
  unfold step. wp_pures. rewrite <-(upd_id s k c Hc) at 1. apply wp_on_client; [done|]. wp_pures. rewrite Hd.
  destruct (Z.eqb_spec (acnt c) (len (acts c))) as [Heq|]; [unfold len in Heq; lia|].
  wp_pures. rewrite py_index_nonneg by (unfold len in *; lia). simpl. rewrite Ha, (upd_id s k c Hc). wp_pures.
  apply wp_dospace. intros w1 Hw1.
  assert (∀ w2, printed w w2 → wp (do_action solve detail global_i (Z.of_nat k) a) (λ _ s0 w0,
    wp (on_cache (Z.of_nat k) (printstate solve detail (Z.of_nat k));; when (solve && (0 <? detail)) (print "");;
        on_client (Z.of_nat k) (modify (λ c, c <| acnt ::= Z.succ |>));; mret 1)
      (λ rc s' w', rc = 1 ∧ inv s' ∧ stepped s k s' ∧ spec_step k a (abs s) = Some (abs s') ∧
        ∀ line, spec_read k a (abs s) = Some line → solve = true → ∃ l1 l2, stdout w' = l1 ++ line :: l2 ++ stdout w) noexn s0 w0)
    noexn s w2) as Hact.
  { intros w2 [[l2 Hw2] _]. eapply wp_conseq; [by eapply (wp_do_action s k c a cb)|].
    intros [] s3 w3 [(s1 & c1 & -> & Hk1 & Hlike & Hinv1 & Hspec & Hl1 & Hothers) Hread].
    wp_pures. apply wp_on_cache; [done|]. apply wp_printstate. intros w4 Hw4. rewrite cached_id. wp_pures.
    assert (∀ w5, printed w3 w5 → wp (on_client (Z.of_nat k) (modify (λ c, c <| acnt ::= Z.succ |>)))
      (λ _ s' w', 1 = 1 ∧ inv s' ∧ stepped s k s' ∧ spec_step k a (abs s) = Some (abs s') ∧
        ∀ line, spec_read k a (abs s) = Some line → solve = true → ∃ l1 l2, stdout w' = l1 ++ line :: l2 ++ stdout w)
      noexn (upd s1 k c1) w5) as Hlast.
    { intros w5 [[l5 Hw5] _]. apply wp_on_client; [done|]. wp_pures. split_and!; [done|done| |done|].
      - split; [unfold upd; simpl; by rewrite length_insert|]. intros j cj Hj. unfold upd. simpl.
        destruct (decide (j = k)) as [->|Hne].
        + rewrite list_lookup_insert_eq by done. eexists. split; [done|]. destruct Hlike. simplify_eq. simpl.
          split_and!; [done|congruence|lia].
        + rewrite list_lookup_insert_ne by done. destruct (Hothers j cj Hne Hj) as (c' & Hc' & []). eauto.
      - intros line Hline Hs. exists l5, l2. by rewrite Hw5, (Hread line Hline Hs), Hw2. }
    destruct (solve && (0 <? detail)); wp_pures; apply Hlast; [by apply printed_emit|done]. }
  destruct (isset detail 3); wp_pures; (eapply wp_conseq; [apply Hact; by repeat apply printed_emit|]).
  all: intros [] s3 w3 H3; by repeat apply wp_unbind.
Qed.

Lemma wp_step_idle global_i s k c w : inv s → clients s !! k = Some c → acts c !! Z.to_nat (acnt c) = None →
  wp (step solve detail global_i (Z.of_nat k)) (λ rc s' _, s' = upd s k (c <| done := true |>) ∧ rc = if done c then -1 else 0) noexn s w.
Proof.
  intros Hinv Hc Ha. destruct (Hinv k c Hc) as (cb & Hcb & Hok). pose proof (lookup_lt_Some _ _ _ Hc) as Hk.
  pose proof (ok_acnt _ _ _ _ Hok) as Hcnt. apply lookup_ge_None in Ha.
  unfold step. wp_pures. rewrite <-(upd_id s k c Hc) at 1. apply wp_on_client; [done|]. wp_pures. destruct (done c) eqn:Hd.
  - wp_pures. split; [|done]. f_equal. destruct c; simpl in *. by rewrite Hd.
  - destruct (Z.eqb_spec (acnt c) (len (acts c))); [|unfold len in *; lia]. wp_pures. apply wp_on_client; [done|]. by wp_pures.
Qed.
(** A step only prints. *)
Lemma prints_change f g : prints (change f g).
Proof. unfold change, od_lookup. prints_solve. Qed.
Lemma prints_dospace {S} n : prints (dospace (S:=S) n).
Proof. unfold dospace. prints_solve. Qed.
Lemma prints_zassert {S} b msg : prints (S:=S) (zassert b msg).
Proof. unfold zassert. prints_solve. Qed.
#[local] Hint Resolve prints_change prints_dospace prints_zassert : prints.
Lemma prints_on_cache {A} (i : Z) (m : M cache A) : prints m → prints (on_cache i m).
Proof. intros Hm. unfold on_cache, on_client. prints_solve. Qed.
Lemma prints_on_client {A} (i : Z) (m : M client A) : prints m → prints (on_client i m).
Proof. intros Hm. unfold on_client. prints_solve. Qed.
Lemma prints_printstate num : prints (printstate solve detail num).
Proof. unfold printstate. prints_solve. Qed.
Lemma prints_cache_invalidate num f : prints (cache_invalidate solve detail num f).
Proof. pose proof prints_printstate. unfold cache_invalidate. prints_solve; auto. Qed.

Lemma prints_step global_i (i : Z) : prints (step solve detail global_i i).
Proof.
  pose proof prints_printstate. pose proof prints_cache_invalidate.
  assert (∀ f, prints (checkget f)) by (intros; unfold checkget, od_lookup; prints_solve).
  unfold step, do_action, do_read, do_write, do_close, getfile, putfile, server_get, server_put, call_back, getvalue, list_get,
    cache_put, incref, decref, setclean, setvalid, isdirty, checkvalid, cache_get, cache_update, in_cache, fd_lookup, fd_name, od_lookup.
  prints_solve; try (apply prints_on_cache || apply prints_on_client); prints_solve; auto.
Qed.
End Steps.

(** ** Runs *)

Section Runs.
Context (solve : bool) (detail global_i : Z) (Hgi : 0 ≤ global_i < max_fd).
Implicit Types (s : afs) (k : nat) (c : client) (w : world).

(** A client that has come to its end *)
Lemma inv_done s k c : inv s → clients s !! k = Some c → acts c !! Z.to_nat (acnt c) = None → inv (upd s k (c <| done := true |>)).
Proof.
  intros Hinv Hc Ha j cj. unfold upd. simpl. intros [(<- & <- & _)|[Hne Hj]]%list_lookup_insert_Some; [|by apply Hinv].
  destruct (Hinv k c Hc) as (cb & Hcb & Hok). exists cb. split; [done|]. destruct Hok. split; try done.
  intros _. apply lookup_ge_None in Ha. simpl. unfold len in *. lia.
Qed.

(** One step of a client, from any state the invariant describes: the
    client does the next of its actions the way the session semantics says,
    and a read prints the value the session sees; a client at its end changes
    nothing and reports so.  No exception is raised, the other clients keep
    their sessions, and the invariant is kept: in every cache a valid, clean
    copy is the server's contents and the server holds a callback for it. *)
Theorem step_refines_sessions s k c w : inv s → clients s !! k = Some c →
  wp (step solve detail global_i (Z.of_nat k)) (λ rc s' w', inv s' ∧
    match acts c !! Z.to_nat (acnt c) with
    | Some a => rc = 1 ∧ spec_step k a (abs s) = Some (abs s') ∧
        ∀ line, spec_read k a (abs s) = Some line → solve = true → ∃ l1 l2, stdout w' = l1 ++ line :: l2 ++ stdout w
    | None => rc = (if done c then -1 else 0) ∧ abs s' = abs s
    end) noexn s w.
Proof.
  intros Hinv Hc. destruct (acts c !! Z.to_nat (acnt c)) as [a|] eqn:Ha.
  - assert (done c = false) as Hd.
    { destruct (Hinv k c Hc) as (cb & _ & Hok). destruct (done c) eqn:Hd; [|done]. apply (ok_done _ _ _ _ Hok) in Hd.
      rewrite Hd in Ha. apply lookup_lt_Some in Ha. unfold len in Ha. lia. }
    eapply wp_conseq; [by eapply wp_step_action|]. simpl. intros rc s' w' (-> & ? & _ & ? & ?). done.
  - eapply wp_conseq; [by eapply wp_step_idle|]. simpl. intros rc s' w' (-> & ->).
    assert (session_of (c <| done := true |>) = session_of c) as Hses by done.
    split; [by eapply inv_done|split; [done|]].
    rewrite (abs_upd s s) by done. rewrite Hses. unfold abs. simpl. f_equal. apply list_insert_id.
    by rewrite list_lookup_fmap, Hc.
Qed.
(** *** Traces *)

(** The lines the reads of a trace print *)
Fixpoint spec_reads (tr : list (nat * action)) (sp : spec) : list string :=
  match tr with
  | [] => []
  | (k, a) :: tr => option_list (spec_read k a sp) ++ match spec_step k a sp with Some sp' => spec_reads tr sp' | None => [] end
  end.

Lemma spec_exec_cons k a tr sp sp' : spec_step k a sp = Some sp' → spec_exec ((k, a) :: tr) sp = spec_exec tr sp'.
Proof. unfold spec_exec. simpl. by intros ->. Qed.

Lemma spec_exec_none tr : foldl (λ o (p : nat * action), o ≫= spec_step p.1 p.2) None tr = None.
Proof. by induction tr. Qed.

Lemma spec_snoc tr k a sp sp1 : spec_exec tr sp = Some sp1 →
  spec_exec (tr ++ [(k, a)]) sp = spec_step k a sp1 ∧ spec_reads (tr ++ [(k, a)]) sp = spec_reads tr sp ++ option_list (spec_read k a sp1).
Proof.
  revert sp. induction tr as [|[j b] tr IH]; intros sp Hex.
  - injection Hex as ->. split; [done|]. simpl. destruct (spec_step k a sp1); by rewrite app_nil_r.
  - destruct (spec_step j b sp) as [sp2|] eqn:Hst.
    + rewrite (spec_exec_cons _ _ _ _ _ Hst) in Hex. destruct (IH _ Hex) as [H1 H2].
      change ((((j, b) :: tr) ++ [(k, a)])) with ((j, b) :: (tr ++ [(k, a)])). rewrite (spec_exec_cons _ _ _ _ _ Hst).
      split; [done|]. simpl. rewrite Hst, H2. by rewrite (assoc (++)).
    + unfold spec_exec in Hex. simpl in Hex. by rewrite Hst, spec_exec_none in Hex.
Qed.

(** The actions of client [k] in a trace *)
Definition actions_of k (tr : list (nat * action)) : list action := (filter (λ p, p.1 = k) tr).*2.

Lemma actions_of_snoc k j a tr : actions_of k (tr ++ [(j, a)]) = actions_of k tr ++ (if decide (j = k) then [a] else []).
Proof. unfold actions_of. rewrite filter_app, fmap_app, filter_cons, filter_nil. simpl. by case_decide. Qed.

(** The clients have not done anything yet. *)
Definition fresh s : Prop := ∀ k c, clients s !! k = Some c → acnt c = 0 ∧ done c = false.

(** From the fresh state [s0] the run has come to [s] by the trace [tr]. *)
Record ran s0 w0 (tr : list (nat * action)) s w : Prop := {
  r_inv : inv s;
  r_exec : spec_exec tr (abs s0) = Some (abs s);
  r_len : length (clients s) = length (clients s0);
  r_client : ∀ k c0, clients s0 !! k = Some c0 → ∃ c, clients s !! k = Some c ∧ acts c = acts c0 ∧
    actions_of k tr = take (Z.to_nat (acnt c)) (acts c0);
  r_reads : solve = true → spec_reads tr (abs s0) `sublist_of` rev (stdout w);
}.

Lemma ran_start s w : inv s → fresh s → ran s w [] s w.
Proof.
  intros Hinv Hf. split; [done..| |intros _; apply sublist_nil_l]. intros k c0 Hc0. exists c0. split; [done|].
  destruct (Hf k c0 Hc0) as [-> _]. done.
Qed.

Lemma ran_printed s0 w0 tr s w w' : ran s0 w0 tr s w → printed w w' → ran s0 w0 tr s w'.
Proof.
  intros [H1 H2 H3 H4 H5] [[l Hl] _]. split; [done..|]. intros Hs. rewrite Hl, rev_app_distr. apply sublist_inserts_r. auto.
Qed.

(** The clients that are not done, and what they have left to do *)
Definition unfinished c : Z := if done c then 0 else 1.
Definition left_of c : Z := if done c then 0 else len (acts c) - acnt c + 1.
Definition running s : Z := sum_of unfinished (clients s).
Definition work s : Z := sum_of left_of (clients s).

Lemma sum_of_fmap {A B} (f : B → Z) (g : A → B) l : sum_of f (g <$> l) = sum_of (λ x, f (g x)) l.
Proof. induction l as [|x l IH]; [done|]. rewrite fmap_cons, !sum_of_cons. by rewrite IH. Qed.

Lemma sum_stepped (f : client → Z) s s' k c d : clients s !! k = Some c → length (clients s') = length (clients s) →
  (∀ j cj, clients s !! j = Some cj → ∃ c', clients s' !! j = Some c' ∧ f c' = if decide (j = k) then f cj - d else f cj) →
  sum_of f (clients s') = sum_of f (clients s) - d.
Proof.
  intros Hc Hl Hall. assert (f <$> clients s' = <[k := f c - d]> (f <$> clients s)) as Heq.
  { apply list_eq. intros j. rewrite list_lookup_fmap. destruct (clients s !! j) as [cj|] eqn:Hj.
    - destruct (Hall j cj Hj) as (c' & -> & Hf). simpl. rewrite Hf. case_decide as Hjk.
      + subst. simplify_eq. rewrite list_lookup_insert_eq; [done|]. rewrite length_fmap. by eapply lookup_lt_Some.
      + by rewrite list_lookup_insert_ne, list_lookup_fmap, Hj by done.
    - rewrite (lookup_ge_None_2 (clients s')) by (rewrite Hl; by apply lookup_ge_None). symmetry. apply lookup_ge_None.
      rewrite length_insert, length_fmap. by apply lookup_ge_None. }
  assert (∀ l, sum_of f l = sum_of id (f <$> l)) as Hid by (intros l; by rewrite sum_of_fmap).
  rewrite !Hid, Heq, (sum_of_list_update _ _ _ (f c)); [simpl; lia|]. by rewrite list_lookup_fmap, Hc.
Qed.

(** A step of client [k] *)
Lemma wp_ran_step s0 w0 tr s k c w : ran s0 w0 tr s w → clients s !! k = Some c →
  wp (step solve detail global_i (Z.of_nat k)) (λ rc s' w', (∃ tr', ran s0 w0 tr' s' w') ∧ printed w w' ∧
    running s' = (if rc =? 0 then running s - 1 else running s) ∧
    if done c then s' = s else work s' = work s - 1) noexn s w.
Proof.
  intros Hran Hc. pose proof (r_inv _ _ _ _ _ Hran) as Hinv. destruct (acts c !! Z.to_nat (acnt c)) as [a|] eqn:Ha.
  - assert (done c = false) as Hd.
    { destruct (Hinv k c Hc) as (cb & _ & Hok). destruct (done c) eqn:Hd; [|done]. apply (ok_done _ _ _ _ Hok) in Hd.
      rewrite Hd in Ha. apply lookup_lt_Some in Ha. unfold len in Ha. lia. }
    eapply wp_conseq; [apply wp_prints; [apply prints_step|by eapply wp_step_action]|]. simpl.
    intros rc s' w' [(-> & Hinv' & [Hl Hst] & Hspec & Hread) Hpr]. destruct Hran as [_ H2 H3 H4 H5].
    destruct (spec_snoc tr k a _ _ H2) as [He Hr]. split; [exists (tr ++ [(k, a)]); split|]; [done|by rewrite He|congruence| | |].
    + intros j c0 Hj. destruct (H4 j c0 Hj) as (cj & Hcj & Hacts & Htr). destruct (Hst j cj Hcj) as (c' & Hc' & Hacts' & _ & Hcnt).
      exists c'. split; [done|]. split; [congruence|]. rewrite actions_of_snoc, Htr, Hcnt. case_decide as Hjk.
      * subst j. simplify_eq. rewrite decide_True by done. destruct (Hinv k c Hc) as (cb & _ & Hok). pose proof (ok_acnt _ _ _ _ Hok).
        replace (Z.to_nat (acnt c + 1)) with (S (Z.to_nat (acnt c))) by lia. rewrite <-Hacts. by rewrite (take_S_r _ _ _ Ha).
      * rewrite decide_False by congruence. apply app_nil_r.
    + intros Hs. rewrite Hr. destruct (spec_read k a (abs s)) as [line|] eqn:Hline; simpl.
      * destruct (Hread line eq_refl Hs) as (l1 & l2 & ->). rewrite !rev_app_distr. simpl. rewrite rev_app_distr.
        rewrite <-(assoc (++)). apply sublist_app; apply sublist_inserts_r; [by apply H5|done].
      * rewrite app_nil_r. destruct Hpr as [[l ->] _]. rewrite rev_app_distr. apply sublist_inserts_r. auto.
    + split; [done|]. rewrite Hd. split; simpl.
      * unfold running. rewrite (sum_stepped unfinished s s' k c 0); [lia|done..|]. intros j cj Hj.
        destruct (Hst j cj Hj) as (c' & Hc' & _ & Hdj & _). exists c'. split; [done|]. unfold unfinished. rewrite Hdj. case_decide; lia.
      * unfold work. eapply sum_stepped; [done..|]. intros j cj Hj. destruct (Hst j cj Hj) as (c' & Hc' & Haj & Hdj & Hnj).
        exists c'. split; [done|]. unfold left_of. rewrite Hdj, Haj, Hnj. case_decide; [subst j; simplify_eq; rewrite Hd; lia|done].
  - eapply wp_conseq; [apply wp_prints; [apply prints_step|by eapply wp_step_idle]|]. simpl. intros rc s' w' [[-> ->] Hpr].
    assert (session_of (c <| done := true |>) = session_of c) as Hses by done. pose proof (lookup_lt_Some _ _ _ Hc) as Hk.
    assert (acnt c = len (acts c)) as Hcnt.
    { destruct (Hinv k c Hc) as (cb & _ & Hok). pose proof (ok_acnt _ _ _ _ Hok). apply lookup_ge_None in Ha. unfold len in *. lia. }
    destruct Hran as [_ H2 H3 H4 H5]. split; [|split; [done|]].
    + exists tr. eapply ran_printed; [|done]. split; [| |by unfold upd; simpl; rewrite length_insert| |done].
      * by eapply inv_done.
      * rewrite H2, (abs_upd s s), Hses by done. unfold abs. simpl. do 2 f_equal. symmetry. apply list_insert_id.
        by rewrite list_lookup_fmap, Hc.
      * intros j c0 Hj. destruct (H4 j c0 Hj) as (cj & Hcj & Hacts & Htr). unfold upd. simpl.
        destruct (decide (j = k)) as [->|Hne]; [|rewrite list_lookup_insert_ne by done; eauto].
        rewrite list_lookup_insert_eq by done. simplify_eq. eauto.
    + unfold running, work, upd. simpl. rewrite !(sum_of_list_update _ _ _ _ _ Hc). unfold unfinished, left_of. simpl.
      destruct (done c) eqn:Hd; simpl.
      * split; [lia|]. apply (upd_id s k). rewrite Hc. f_equal. destruct c; simpl in *. by subst.
      * rewrite Hcnt. lia.
Qed.
(** *** The schedule

    [ks] are the clients the schedule names, one per character. *)
Definition schedule_of (schedule : string) (ks : list nat) (n : nat) : Prop :=
  Forall2 (λ x k, int_of_str (String x EmptyString) = Some (Z.of_nat k)) (String.list_ascii_of_string schedule) ks ∧
  Forall (λ k, (k < n)%nat) ks.

Definition next_pos (l p : nat) : nat := if Nat.eqb (S p) l then 0%nat else S p.

Lemma length_list_ascii x : length (String.list_ascii_of_string x) = String.length x.
Proof. induction x; simpl; congruence. Qed.

Lemma wp_next_client schedule ks p s w (Q : Z * Z → afs → world → Prop) : schedule_of schedule ks (length (clients s)) →
  clients s ≠ [] → (schedule = "" → rng_ok w) → (schedule ≠ "" → (p < length ks)%nat) →
  (∀ k p' w', (k < length (clients s))%nat → stdout w' = stdout w → (schedule = "" → rng_ok w') →
    (schedule ≠ "" → ks !! p = Some k ∧ p' = next_pos (length ks) p) → Q (Z.of_nat k, Z.of_nat p') s w') →
  wp (next_client schedule (Z.of_nat p)) Q noexn s w.
Proof.
  intros [Hks Hlt] Hne Hrng Hp HQ. unfold next_client. case_bool_decide as Hs; wp_pures.
  - apply wp_rand_int; [unfold len; destruct (clients s); [done|simpl; lia]|auto|]. intros i w' Hi Hw' Hout. wp_pures.
    rewrite py_index_nonneg by done. simpl. destruct (lookup_lt_is_Some_2 (clients s) (Z.to_nat i)) as [c ->]; [unfold len in Hi; lia|].
    wp_pures. pose proof (HQ (Z.to_nat i) p w') as HQ'. rewrite Z2Nat.id in HQ' by lia. apply HQ'; try done. unfold len in Hi; lia.
  - specialize (Hp Hs). pose proof (Forall2_length _ _ _ Hks) as Hl. rewrite length_list_ascii in Hl.
    destruct (lookup_lt_is_Some_2 ks p) as [k Hk]; [done|]. destruct (Forall2_lookup_r _ _ _ _ _ Hks Hk) as (x & Hx & Hxk).
    rewrite py_get_nat, Hx. wp_pures. unfold py_int. wp_pures. rewrite Hxk. wp_pures. rewrite py_get_nat.
    assert (k < length (clients s))%nat as Hkl by exact (Forall_lookup_1 _ _ _ _ Hlt Hk).
    destruct (lookup_lt_is_Some_2 (clients s) k) as [c ->]; [done|]. wp_pures. unfold slen.
    assert ((if Z.of_nat p + 1 =? Z.of_nat (String.length schedule) then 0 else Z.of_nat p + 1) = Z.of_nat (next_pos (length ks) p)) as ->.
    { unfold next_pos. rewrite Hl. destruct (Nat.eqb_spec (S p) (length ks)), (Z.eqb_spec (Z.of_nat p + 1) (Z.of_nat (length ks))); lia. }
    by apply HQ.
Qed.

(** What holds between the rounds; the locals of the loop are the number of
    clients running and the position in the schedule. *)
Definition between s0 w0 schedule (ks : list nat) (loc : Z * Z) s w : Prop := ∃ tr p, loc = (running s, Z.of_nat p) ∧ ran s0 w0 tr s w ∧
  (schedule = "" → rng_ok w) ∧ (schedule ≠ "" → (p < length ks)%nat).

Lemma running_nonneg s : 0 ≤ running s.
Proof. apply sum_of_nonneg. intros c _. unfold unfinished. case_match; lia. Qed.

Lemma wp_round s0 w0 schedule ks loc s w : schedule_of schedule ks (length (clients s0)) → between s0 w0 schedule ks loc s w →
  wp (round solve detail global_i schedule loc) (λ r s' w', match r with
    | inl loc' => between s0 w0 schedule ks loc' s' w' ∧ (schedule ≠ "" → ∃ (p k : nat) c, loc = (running s, Z.of_nat p) ∧
        loc' = (running s', Z.of_nat (next_pos (length ks) p)) ∧ ks !! p = Some k ∧ clients s !! k = Some c ∧
        0 < running s ∧ if done c then s' = s else work s' = work s - 1)
    | inr _ => between s0 w0 schedule ks loc s' w' ∧ running s' = 0
    end) noexn s w.
Proof.
  intros Hsch (tr & p & -> & Hran & Hrng & Hp). unfold round. pose proof (running_nonneg s).
  destruct (Z.ltb_spec 0 (running s)); simpl; wp_pures; [|split; [by exists tr, p|lia]].
  rewrite <-(r_len _ _ _ _ _ Hran) in Hsch.
  eapply wp_next_client; [done|intros Hnil; unfold running in *; rewrite Hnil in *; simpl in *; lia|done|done|].
  intros k p' w1 Hk Hout Hrng1 Hpos. wp_pures. destruct (lookup_lt_is_Some_2 (clients s) k) as [c Hc]; [done|].
  assert (ran s0 w0 tr s w1) as Hran1.
  { destruct Hran as [H1 H2 H3 H4 H5]. split; [done..|]. by rewrite Hout. }
  eapply wp_conseq; [by eapply wp_ran_step|]. simpl. intros rc s' w' ((tr' & Hran') & Hpr & Hrun & Hwork). wp_pures.
  rewrite <-Hrun. split.
  - exists tr', p'. split_and!; [done|done| |].
    + intros Hs. destruct Hpr as (_ & Hr & _). specialize (Hrng1 Hs). intros n. rewrite Hr. apply Hrng1.
    + intros Hs. destruct (Hpos Hs) as [_ ->]. specialize (Hp Hs). unfold next_pos. destruct (Nat.eqb_spec (S p) (length ks)); lia.
  - intros Hs. destruct (Hpos Hs) as [Hkp ->]. exists p, k, c. done.
Qed.
(** The run is over: it was an interleaving [tr] of all the actions of all
    clients, each client's in its order, and all their reads were right. *)
Definition interleaved s0 s w : Prop := inv s ∧ ∃ tr, spec_exec tr (abs s0) = Some (abs s) ∧
  (∀ k c0, clients s0 !! k = Some c0 → actions_of k tr = acts c0) ∧
  (solve = true → spec_reads tr (abs s0) `sublist_of` rev (stdout w)).

Lemma all_done s k c : running s = 0 → clients s !! k = Some c → done c = true.
Proof.
  intros Hr Hc. destruct (done c) eqn:Hd; [done|]. pose proof (running_nonneg (upd s k (c <| done := true |>))) as Hn.
  unfold running, upd in *. simpl in Hn. rewrite (sum_of_list_update _ _ _ _ _ Hc) in Hn. unfold unfinished in Hn at 2 3.
  simpl in Hn. rewrite Hd in Hn. lia.
Qed.

Lemma between_end s0 w0 schedule ks loc s w : between s0 w0 schedule ks loc s w → running s = 0 → interleaved s0 s w.
Proof.
  intros (tr & p & -> & [H1 H2 H3 H4 H5] & _) Hr. split; [done|]. exists tr. split_and!; [done| |done].
  intros k c0 Hc0. destruct (H4 k c0 Hc0) as (c & Hc & Hacts & ->). destruct (H1 k c Hc) as (cb & _ & Hok).
  rewrite (ok_done _ _ _ _ Hok) by by eapply all_done. rewrite Hacts. unfold len. rewrite Nat2Z.id. apply firstn_all.
Qed.

Lemma running_fresh s : fresh s → running s = len (clients s).
Proof.
  intros Hf. unfold running, len. assert (∀ c, c ∈ clients s → done c = false) as Hall.
  { intros c [k Hk]%list_elem_of_lookup. by destruct (Hf k c Hk). }
  induction (clients s) as [|c l IH]; [done|]. rewrite sum_of_cons, IH by (intros; apply Hall; by right).
  unfold unfinished. rewrite Hall by by left. simpl. lia.
Qed.

Lemma between_start schedule ks s w : inv s → fresh s → (schedule = "" → rng_ok w) → (schedule ≠ "" → ks ≠ []) →
  between s w schedule ks (len (clients s), 0) s w.
Proof.
  intros Hinv Hf Hrng Hks. exists [], 0%nat. split_and!; [by rewrite running_fresh|by apply ran_start|done|].
  intros Hs. specialize (Hks Hs). destruct ks; [done|simpl; lia].
Qed.

Lemma schedule_nonempty schedule ks n : schedule_of schedule ks n → schedule ≠ "" → ks ≠ [].
Proof. intros [H _] Hs ->. apply Forall2_nil_inv_r in H. by destruct schedule. Qed.

(** C23: the simulation as a whole: from fresh clients with lists of sessions,
    under a random or a given schedule, no step raises an exception, and when
    the loop ends, all that the clients did is one interleaving of their
    actions that the session semantics runs from the first contents of the
    server to the last, with every read showing the session's value. *)
Theorem run_is_interleaving fuel schedule ks s w : inv s → fresh s → schedule_of schedule ks (length (clients s)) →
  (schedule = "" → rng_ok w) →
  wlp (run solve detail fuel global_i schedule) (λ _ s' w', interleaved s s' w') noexn s w.
Proof.
  intros Hinv Hf Hsch Hrng. unfold run. apply wlp_bind. rewrite wp_get.
  apply (wlp_while (between s w schedule ks)).
  - apply between_start; [done..|]. by eapply schedule_nonempty.
  - intros loc s1 w1 Hb. eapply wp_conseq; [by eapply wp_round|]. simpl. intros [loc'|[]] s2 w2 H2.
    + by destruct H2.
    + destruct H2 as [Hb' Hr]. by eapply between_end.
Qed.
(** *** Termination under a schedule

    How many positions of the schedule are passed over before one of a client
    that is not done, looking at most [f] ahead *)
Definition turn_of_running s (ks : list nat) (p : nat) : bool :=
  match ks !! p ≫= λ k, clients s !! k with Some c => negb (done c) | None => false end.

Fixpoint dist (f : nat) s (ks : list nat) (p : nat) : nat :=
  match f with
  | O => 0
  | S f => if turn_of_running s ks p then 0 else S (dist f s ks (next_pos (length ks) p))
  end.

Lemma dist_le f s ks p : (dist f s ks p ≤ f)%nat.
Proof. revert p. induction f as [|f IH]; intros p; simpl; [done|]. case_match; [lia|]. specialize (IH (next_pos (length ks) p)). lia. Qed.

(** The positions from [p] round to [q] *)
Definition ahead (l p q : nat) : nat := if decide (p ≤ q)%nat then q - p else l - p + q.

Lemma ahead_next l p q : (p < l)%nat → (q < l)%nat → p ≠ q → ahead l p q = S (ahead l (next_pos l p) q).
Proof. intros. unfold ahead, next_pos. destruct (Nat.eqb_spec (S p) l); repeat case_decide; lia. Qed.

Lemma dist_found f m s ks p q : (p < length ks)%nat → (q < length ks)%nat → turn_of_running s ks q = true →
  (ahead (length ks) p q < f)%nat → (dist f s ks p < f)%nat ∧ dist (f + m) s ks p = dist f s ks p.
Proof.
  revert p. induction f as [|f IH]; intros p Hp Hq Hr Ha; [lia|]. simpl.
  destruct (turn_of_running s ks p) eqn:Ht; [lia|]. assert (p ≠ q) as Hne by congruence. rewrite ahead_next in Ha by done.
  destruct (IH (next_pos (length ks) p)) as [H1 H2]; [|done..|lia|lia].
  unfold next_pos. destruct (Nat.eqb_spec (S p) (length ks)); lia.
Qed.

Lemma some_running s : 0 < running s → ∃ k c, clients s !! k = Some c ∧ done c = false.
Proof.
  unfold running. induction (clients s) as [|c l IH]; [simpl; lia|]. rewrite sum_of_cons. unfold unfinished at 1.
  destruct (done c) eqn:Hd; [|intros _; by exists 0%nat, c]. intros Hl. destruct IH as (k & c' & ? & ?); [lia|]. by exists (S k), c'.
Qed.

(** A pass over the schedule, for every action that is left *)
Definition measure (ks : list nat) (loc : Z * Z) s w : nat :=
  (Z.to_nat (work s) * S (length ks) + dist (length ks) s ks (Z.to_nat loc.2))%nat.

Lemma left_nonneg s : inv s → 0 ≤ work s.
Proof.
  intros Hinv. apply sum_of_nonneg. intros c [k Hk]%list_elem_of_lookup. destruct (Hinv k c Hk) as (cb & _ & Hok).
  pose proof (ok_acnt _ _ _ _ Hok). unfold left_of. case_match; lia.
Qed.

Lemma next_pos_lt l p : (p < l)%nat → (next_pos l p < l)%nat.
Proof. unfold next_pos. destruct (Nat.eqb_spec (S p) l); lia. Qed.

(** The turn of a client that is done brings the next one nearer. *)
Lemma dist_next s ks p : (p < length ks)%nat → 0 < running s → (∀ k, (k < length (clients s))%nat → k ∈ ks) →
  turn_of_running s ks p = false → (dist (length ks) s ks (next_pos (length ks) p) < dist (length ks) s ks p)%nat.
Proof.
  intros Hp Hr Hall Ht. destruct (some_running s Hr) as (k & c & Hc & Hd).
  destruct (list_elem_of_lookup_1 ks k) as [q Hq]; [apply Hall; by eapply lookup_lt_Some|]. pose proof (lookup_lt_Some _ _ _ Hq) as Hql.
  assert (turn_of_running s ks q = true) as Htq by (unfold turn_of_running; rewrite Hq; simpl; by rewrite Hc, Hd).
  destruct (length ks) as [|l] eqn:Hl; [lia|]. simpl. rewrite Hl, Ht. assert (p ≠ q) as Hne by congruence.
  pose proof (ahead_next (S l) p q Hp Hql Hne) as Ha. assert (ahead (S l) p q < S l)%nat by (unfold ahead; case_decide; lia).
  destruct (dist_found l 1 s ks (next_pos (S l) p) q) as [H1 H2]; [rewrite Hl; by apply next_pos_lt|by rewrite Hl|done|rewrite Hl; lia|].
  rewrite Nat.add_1_r in H2. simpl in H2. rewrite Hl in H2. lia.
Qed.

(** C24: under a given schedule that names every client the simulation
    terminates: a number of rounds of at most one pass over the schedule for
    every action there is, every end of a client, and one more, finishes all
    clients, without an exception. *)
Theorem schedule_terminates fuel schedule ks s w : inv s → fresh s → schedule_of schedule ks (length (clients s)) → schedule ≠ "" →
  (∀ k, (k < length (clients s))%nat → k ∈ ks) → (Z.to_nat (work s) * S (length ks) + length ks < fuel)%nat →
  wp (run solve detail fuel global_i schedule) (λ _ s' w', interleaved s s' w' ∧ Forall (λ c, done c = true) (clients s')) noexn s w.
Proof.
  intros Hinv Hf Hsch Hs Hall Hfuel. unfold run. wp_pures. apply (wp_while (between s w schedule ks) (measure ks)).
  - apply between_start; [done..|]. by eapply schedule_nonempty.
  - eapply Nat.le_lt_trans; [|exact Hfuel]. apply Nat.add_le_mono_l, dist_le.
  - intros loc s1 w1 Hb. pose proof Hb as (tr & p0 & Hloc & Hran & _ & Hp0). specialize (Hp0 Hs).
    eapply wp_conseq; [by eapply wp_round|]. simpl. intros [loc'|[]] s2 w2.
    + intros [Hb' Hpr]. split; [done|]. destruct (Hpr Hs) as (p & k & c & -> & -> & Hk & Hc & Hr & Hst).
      assert (p = p0) as -> by (injection Hloc; lia). unfold measure. simpl. rewrite !Nat2Z.id.
      pose proof Hb' as (tr' & _ & _ & Hran' & _). pose proof (left_nonneg s2 (r_inv _ _ _ _ _ Hran')) as Hw2.
      destruct (done c) eqn:Hd.
      * subst s2. enough (dist (length ks) s1 ks (next_pos (length ks) p0) < dist (length ks) s1 ks p0)%nat by lia.
        apply dist_next; [done|done| |].
        -- intros j Hj. apply Hall. by rewrite <-(r_len _ _ _ _ _ Hran).
        -- unfold turn_of_running. rewrite Hk. simpl. by rewrite Hc, Hd.
      * pose proof (dist_le (length ks) s2 ks (next_pos (length ks) p0)). replace (Z.to_nat (work s1)) with (S (Z.to_nat (work s2))) by lia.
        lia.
    + intros [Hb' Hr]. split; [by eapply between_end|]. apply Forall_lookup_2. intros k c Hc. by eapply all_done.
Qed.
End Runs.

(** ** The start: legal clients *)

(** A client before its first step, with a legal list of sessions *)
Record started (names : list string) (k : nat) (c : client) : Prop := {
  st_cid : cid c = Z.of_nat k;
  st_acnt : acnt c = 0;
  st_done : done c = false;
  st_items : items (cached c) = [];
  st_legal : legal names (fds c) None (acts c) = true;
}.

Lemma started_inv s : (∀ k c, clients s !! k = Some c → started (contents s).*1 k c) →
  (∀ k, (k < length (clients s))%nat → od_get (name_of (Z.of_nat k)) (callbacks s) = Some []) → inv s ∧ fresh s.
Proof.
  intros Hst Hcb. split; intros k c Hc; destruct (Hst k c Hc) as [H1 H2 H3 H4 H5]; [|done].
  exists []. split; [apply Hcb; by eapply lookup_lt_Some|].
  assert (current c = None) as Hcur by (unfold current; by rewrite H2).
  split; rewrite ?Hcur, ?H2, ?H4; simpl; try done; [unfold len; lia|by rewrite H3].
Qed.

Lemma legal_app names fd o l l' : legal names fd o l = true → legal names fd None l' = true → legal names fd o (l ++ l') = true.
Proof.
  intros Hl Hl'. revert o Hl. induction l as [|a l IH]; intros o Hl; [by destruct o|].
  destruct a, o; simpl in *; try done; repeat (apply andb_true_iff in Hl as [Hl ?]); rewrite ?Hl, ?IH by done; by rewrite ?andb_true_r.
Qed.

Lemma legal_mono names fd fd' o l : fd ⊆ fd' → legal names fd o l = true → legal names fd' o l = true.
Proof.
  intros Hsub. revert o. induction l as [|a l IH]; intros o Hl; [done|].
  destruct a, o; simpl in *; try done; rewrite ?andb_true_iff, ?bool_decide_eq_true in *;
    naive_solver eauto using lookup_weaken.
Qed.

(** *** Random clients *)

Lemma letters_nonempty f n : f ∈ filelist n → ∃ ch, f = String ch EmptyString ∧ is_alpha ch = true.
Proof.
  intros Hf. assert (f ∈ letters) as Hl by (unfold filelist in Hf; by apply elem_of_take in Hf as (i & Hi & _); eapply list_elem_of_lookup_2).
  unfold letters in Hl. apply list_elem_of_fmap in Hl as (k & -> & Hk). eexists. split; [done|]. apply elem_of_seq in Hk.
  unfold is_alpha. rewrite nat_ascii_embedding by lia. destruct (Nat.leb_spec 97 (97 + k)), (Nat.leb_spec (97 + k) 122); lia || by rewrite orb_true_r.
Qed.

(** The descriptors [0 ... n - 1] are in use. *)
Definition fds_upto (n : Z) (m : gmap Z string) : Prop := ∀ i, (0 ≤ i < n → ∃ f, m !! i = Some f ∧ f ≠ "") ∧ (¬ 0 ≤ i < n → m !! i = None).

Lemma wp_fd_alloc f n c (Q : Z → client → world → Prop) E w : fds_upto n (fds c) → 0 ≤ n < max_fd →
  Q n (c <| fds ::= <[n := f]> |>) w → wp (fd_alloc f) Q E c w.
Proof.
  intros Hfd Hn HQ. unfold fd_alloc. wp_pures.
  apply (wp_for_ret (λ pre _ c' w', c' = c ∧ w' = w ∧ len pre ≤ n)).
  - split_and!; [done..|unfold len; simpl; lia].
  - intros pre i post [] c' w' (-> & -> & Hi)%range_split (-> & -> & Hlen). unfold len in Hlen. rewrite length_range in Hlen.
    unfold fd_name. wp_pures. destruct (decide (i = n)) as [->|Hne].
    + rewrite (proj2 (Hfd n)) by lia. destruct (Z.leb_spec 0 n); [|lia]. destruct (Z.ltb_spec n max_fd); [|lia]. simpl. by wp_pures.
    + destruct (proj1 (Hfd i)) as (g & -> & Hg); [lia|]. wp_pures. rewrite bool_decide_false by done. wp_pures.
      split_and!; [done..|]. unfold len. rewrite length_app, length_range. simpl. lia.
  - intros [] c' w' (_ & _ & Hlen). unfold len in Hlen. rewrite length_range in Hlen. unfold max_fd in *. lia.
Qed.

(** The [n]-th session, of a file to read or to write, and a list of them:
    an open, one access and a close, under the number of the session *)
Definition session_acts (n : Z) (x : string * bool) : list action := [OPEN x.1 n; if x.2 then READ n else WRITE n; CLOSE n].
Definition sessions (xs : list (string * bool)) : list action := concat (imap (λ i, session_acts (Z.of_nat i)) xs).
Definition made_of_sessions (names : list string) (n : Z) (l : list action) : Prop :=
  ∃ xs, len xs = n ∧ Forall (λ x, x.1 ∈ names) xs ∧ l = sessions xs.

Lemma made_of_sessions_add names n l x : made_of_sessions names n l → x.1 ∈ names → made_of_sessions names (n + 1) (l ++ session_acts n x).
Proof.
  intros (xs & <- & Hxs & ->) Hx. exists (xs ++ [x]). split_and!.
  - unfold len. rewrite length_app. simpl. lia.
  - by rewrite Forall_app, Forall_singleton.
  - unfold sessions. rewrite imap_app, concat_app. simpl. unfold len. by rewrite Nat.add_0_r.
Qed.

(** A client that makes up its sessions, [n] of them so far *)
Record making (names : list string) (k : nat) (n : Z) (c : client) : Prop := {
  mk_started : started names k c;
  mk_fds : fds_upto n (fds c);
  mk_acts : made_of_sessions names n (acts c);
}.

Lemma wp_random_session numfiles ratio k n c w : 0 < numfiles ≤ 26 → rng_ok w → 0 ≤ n < max_fd → making (filelist numfiles) k n c →
  wp (random_session numfiles ratio) (λ _ c' w', making (filelist numfiles) k (n + 1) c' ∧ rng_ok w') noexn c w.
Proof.
  intros Hnf Hw Hn [[H1 H2 H3 H4 H5] Hfd Hacts]. unfold random_session. wp_pures.
  apply wp_rand_pick; [|done|].
  { unfold filelist. intros Hnil. apply (f_equal length) in Hnil. rewrite length_take in Hnil. change (length letters) with 26%nat in Hnil.
    simpl in Hnil. lia. }
  intros f w1 Hf Hw1 _. unfold rand_lt. wp_pures. eapply wp_fd_alloc; [done..|]. unfold zassert.
  destruct (Z.leb_spec 0 n); [|lia]. simpl. unfold add_acts. wp_pures.
  destruct (letters_nonempty f numfiles Hf) as (ch & Hch & _). assert (f ≠ "") as Hne by by rewrite Hch.
  split; [|intros j; apply Hw1]. split; [split; try done; simpl| |].
  - apply legal_app; [eapply legal_mono; [|done]; apply insert_subseteq; apply (proj2 (Hfd n)); lia|].
    assert (bool_decide (<[n:=f]> (fds c) !! n = Some f ∧ f ≠ "" ∧ 0 ≤ n < max_fd) = true) as Hb.
    { apply bool_decide_true. by rewrite lookup_insert_eq. }
    case_match; simpl; rewrite Hb; by rewrite bool_decide_true.
  - intros i. simpl. destruct (decide (i = n)) as [->|Hin]; [rewrite lookup_insert_eq|rewrite lookup_insert_ne by done].
    + split; [eauto|lia].
    + destruct (Hfd i) as [Ha Hb]. split; intros; [apply Ha|apply Hb]; lia.
  - cbn [acts]. by apply (made_of_sessions_add _ _ _ (f, _) Hacts).
Qed.

Lemma started_new names k : started names k (new_client (Z.of_nat k)).
Proof. by split. Qed.

Lemma wp_client_init_random numfiles ratio numsteps k w : 0 < numfiles ≤ 26 → rng_ok w → 0 ≤ numsteps ≤ max_fd →
  wp (client_init numfiles ratio numsteps "") (λ _ c' w', making (filelist numfiles) k numsteps c' ∧ rng_ok w') noexn
    (new_client (Z.of_nat k)) w.
Proof.
  intros Hnf Hw Hns. unfold client_init. rewrite bool_decide_true by done. wp_pures.
  apply (wp_for (λ pre c' w', making (filelist numfiles) k (len pre) c' ∧ rng_ok w')).
  - split; [|done]. split; [apply started_new| |by exists []]. intros i. split; [unfold len; simpl; lia|done].
  - intros pre i post c' w' (-> & _ & Hi)%range_split [Hm Hw']. unfold len in *. rewrite length_app, length_range in *.
    eapply wp_conseq; [eapply (wp_random_session _ _ k (Z.of_nat (Z.to_nat (i - 0)))); [done..|lia|done]|].
    simpl. intros [] c2 w2 [H1 H2]. split; [|done]. replace (Z.of_nat (Z.to_nat (i - 0) + 1)) with (Z.of_nat (Z.to_nat (i - 0)) + 1) by lia. done.
  - intros c' w' [Hm Hw']. unfold len in Hm. rewrite length_range in Hm. replace (Z.of_nat (Z.to_nat (numsteps - 0))) with numsteps in Hm by lia.
    wp_pures. by split.
Qed.

(** The clients made so far, and nothing else *)
Record made (names : list string) (P : nat → client → Prop) (n : nat) (s : afs) : Prop := {
  md_len : length (clients s) = n;
  md_client : ∀ k c, clients s !! k = Some c → started names k c ∧ P k c;
  md_contents : (contents s).*1 = names;
  md_callbacks : callbacks s = [];
}.

Lemma made_add names P n s c' : made names P n s → started names n c' → P n c' →
  made names P (S n) (s <| clients ::= (.++ [c']) |>).
Proof.
  intros [H1 H2 H3 H4] Hst HP. split; [|intros k c|done..]; simpl.
  - rewrite length_app. simpl. lia.
  - intros [Hc|[Hk Hc]]%lookup_app_Some; [by apply H2|]. apply list_lookup_singleton_Some in Hc as [Hk0 <-].
    replace k with n by lia. done.
Qed.

(** A client is made and joins the others. *)
Lemma wp_add_client names P n numfiles ratio numsteps actions s w (Q : unit → afs → world → Prop) : made names P n s →
  wp (client_init numfiles ratio numsteps actions) (λ _ c' w', started names n c' ∧ P n c' ∧
    ∀ s', made names P (S n) s' → Q tt s' w') noexn (new_client (Z.of_nat n)) w →
  wp (add_client numfiles ratio numsteps (Z.of_nat n) actions) Q noexn s w.
Proof.
  intros Hm Hinit. unfold add_client. wp_pures. pose proof (md_len _ _ _ _ Hm) as Hl.
  eapply (wp_zoom_at _ _ n (new_client (Z.of_nat n))); [simpl; by rewrite lookup_app_r, Hl, Nat.sub_diag by lia|].
  eapply wp_conseq; [exact Hinit|]. simpl. intros [] c' w' (Hst & HP & HQ). apply HQ.
  unfold update. simpl. rewrite insert_app_r_alt, Hl, Nat.sub_diag by lia. by apply made_add.
Qed.

Lemma wp_server_init numfiles w (Q : unit → afs → world → Prop) E :
  (∀ s', made (filelist numfiles) (λ _ _, True) 0 s' → clients s' = [] → Q tt s' w) → wp (server_init numfiles) Q E afs_blank w.
Proof.
  intros HQ. unfold server_init.
  apply (wp_for (λ pre s' w', (contents s').*1 = pre ∧ clients s' = [] ∧ callbacks s' = [] ∧ w' = w)); [done| |].
  - intros pre f post s' w' Hsplit (Hc & Hcl & Hcb & ->). unfold getvalue. wp_pures. simpl. split_and!; [|done..].
    rewrite od_keys_new; [by rewrite Hc|]. apply od_get_None. rewrite Hc.
    assert (NoDup (filelist numfiles)) as Hnd by
      (eapply sublist_NoDup; [|apply sublist_take]; apply (bool_decide_unpack _); vm_compute; done).
    rewrite Hsplit in Hnd. apply NoDup_app in Hnd as (_ & Hd & _). intros Hin. apply (Hd _ Hin). by left.
  - intros s' w' (Hc & Hcl & Hcb & ->). apply HQ; [|done]. split; [by rewrite Hcl| |done..]. rewrite Hcl. by intros k c.
Qed.

Lemma made_impl names (P P' : nat → client → Prop) n s : (∀ k c, P k c → P' k c) → made names P n s → made names P' n s.
Proof. intros HP [H1 H2 H3 H4]. split; [done| |done..]. intros k c Hc. destruct (H2 k c Hc). auto. Qed.

Lemma wp_setclients names P n s w (Q : unit → afs → world → Prop) E : made names P n s →
  (∀ s', inv s' ∧ fresh s' → contents s' = contents s → clients s' = clients s → Q tt s' w) → wp setclients Q E s w.
Proof.
  intros [H1 H2 H3 H4] HQ. unfold setclients. wp_pures.
  apply (wp_for (λ pre s' w', clients s' = clients s ∧ contents s' = contents s ∧ w' = w ∧
    ∀ k, (k < length pre)%nat → od_get (name_of (Z.of_nat k)) (callbacks s') = Some [])).
  - split_and!; [done..|]. simpl. lia.
  - intros pre c post s' w' Hsplit (Hcl & Hco & -> & Hcb). wp_pures. simpl. split_and!; [done..|]. intros k Hk.
    assert (clients s !! length pre = Some c) as Hc by (rewrite Hsplit; by apply list_lookup_middle).
    destruct (H2 _ _ Hc) as [[Hcid _ _ _ _] _]. rewrite od_get_set, Hcid. case_decide as Hn; [done|]. apply Hcb.
    rewrite length_app in Hk. simpl in Hk. destruct (decide (k = length pre)) as [->|]; [done|lia].
  - intros s' w' (Hcl & Hco & -> & Hcb). apply HQ; [|done..]. apply started_inv; rewrite ?Hcl, ?Hco, ?H3; [|done].
    intros k c Hc. by apply H2.
Qed.

(** A loop that only prints *)
Lemma wp_for_print {S A} (l : list A) (f : A → string) (Q : unit → S → world → Prop) E s w :
  (∀ w', printed w w' → Q tt s w') → wp (for_ l (λ x, put_str (f x))) Q E s w.
Proof.
  intros HQ. apply (wp_for (λ _ s' w', s' = s ∧ printed w w')); [done| |intros s' w' [-> Hw]; by apply HQ].
  intros pre x post s' w' _ [-> Hw]. wp_pures. split; [done|]. by apply printed_emit.
Qed.

Lemma wp_opening s w (Q : unit → afs → world → Prop) E : (∀ w', printed w w' → Q tt s w') →
  wp (header;; filestats true) Q E s w.
Proof.
  intros HQ. unfold header, filestats. wp_pures. apply wp_for_print. intros w1 Hw1. wp_pures.
  apply (wp_for (λ _ s' w', s' = s ∧ printed w w')).
  - split; [done|]. apply printed_emit. etrans; [|exact Hw1]. by apply printed_emit.
  - intros pre [f v] post s' w' _ [-> Hw]. wp_pures. split; [done|]. by apply printed_emit.
  - intros s' w' [-> Hw]. by apply HQ.
Qed.

(** What [setup] leaves once the clients are made *)
Lemma wp_setup (P : nat → client → Prop) n numfiles numclients numsteps ratio actions w (Q : unit → afs → world → Prop) :
  0 < numfiles ≤ 26 → 0 ≤ ratio.1 ≤ ratio.2 →
  (∀ s, made (filelist numfiles) P 0 s → clients s = [] →
    wp (make_clients numfiles numclients numsteps ratio actions) (λ _ s' w', made (filelist numfiles) P n s' ∧
      ∀ s2 w2, inv s2 → fresh s2 → (contents s2).*1 = filelist numfiles → length (clients s2) = n →
        (∀ k c, clients s2 !! k = Some c → P k c) → printed w' w2 → Q tt s2 w2) noexn s w) →
  wp (setup numfiles numclients numsteps ratio actions) Q noexn afs_blank w.
Proof.
  intros Hnf Hr Hmake. unfold setup, zassert.
  destruct (Z.ltb_spec 0 numfiles); [|lia]. destruct (Z.leb_spec numfiles 26); [|lia].
  destruct (Z.leb_spec 0 ratio.1); [|lia]. destruct (Z.leb_spec ratio.1 ratio.2); [|lia]. simpl. wp_pures.
  apply wp_server_init. intros s1 Hs1 Hcl1. wp_pures. eapply wp_conseq.
  { apply Hmake; [|done]. destruct Hs1 as [M1 M2 M3 M4]. split; [done| |done..]. rewrite Hcl1. by intros k c. }
  simpl. intros [] s2 w2 [Hm HQ]. rewrite wp_bind. eapply wp_setclients; [done|].
  intros s3 [Hinv Hfresh] Hco Hcl. apply wp_opening.
  intros w3 Hw3. destruct Hm as [M1 M2 M3 M4]. apply HQ; [done..|by rewrite Hco|by rewrite Hcl| |done]. rewrite Hcl. intros k c Hc. by apply M2.
Qed.

(** C26: the random workload is made of sessions: for any numbers of files and
    clients within the limits, and as many steps as there are descriptors,
    the program starts without an exception, and every client has its
    [numsteps] sessions, one after the other, each of an open, a read or
    write, and a close of an existing file, the [i]-th under descriptor [i]. *)
Theorem random_workload_legal numfiles numclients numsteps ratio w : 0 < numfiles ≤ 26 → 0 ≤ ratio.1 ≤ ratio.2 → 0 ≤ numsteps ≤ max_fd →
  rng_ok w →
  wp (setup numfiles numclients numsteps ratio "") (λ _ s w', inv s ∧ fresh s ∧ rng_ok w' ∧
    (contents s).*1 = filelist numfiles ∧ length (clients s) = Z.to_nat numclients ∧
    ∀ k c, clients s !! k = Some c → made_of_sessions (filelist numfiles) numsteps (acts c)) noexn afs_blank w.
Proof.
  intros Hnf Hr Hns Hw.
  apply (wp_setup (λ _ c, made_of_sessions (filelist numfiles) numsteps (acts c)) (Z.to_nat numclients)); [done..|]. intros s Hs Hcl. unfold make_clients.
  rewrite bool_decide_true by done.
  apply (wp_for (λ pre s' w', made (filelist numfiles) (λ _ c, made_of_sessions (filelist numfiles) numsteps (acts c)) (length pre) s' ∧ rng_ok w')); [done| |].
  - intros pre k post s' w' (-> & _ & Hk)%range_split [Hm Hw']. rewrite length_app, length_range in *.
    replace k with (Z.of_nat (Z.to_nat (k - 0))) by lia. set (j := Z.to_nat (k - 0)) in *. clearbody j.
    rewrite Nat.add_1_r. eapply wp_add_client; [done|]. eapply wp_conseq; [by apply (wp_client_init_random _ _ _ j)|].
    simpl. intros [] c' w2 [[Hst _ Hacts] Hw2]. split; [done|]. split; [done|]. intros s2 Hs2.
    by rewrite Z.sub_0_r, Nat2Z.id.
  - intros s' w' [Hm Hw']. rewrite length_range, Z.sub_0_r in Hm. split; [done|].
    intros s2 w2 Hinv Hf Hco Hl HP (_ & Hrng & _). split_and!; try done. intros i. rewrite Hrng. apply Hw'.
Qed.

(** *** Given clients: the text of an action list *)

Definition token (a : action) : string :=
  match a with
  | OPEN f fd => "o" +:+ f +:+ str_of_Z fd
  | READ fd => "r" +:+ str_of_Z fd
  | WRITE fd => "w" +:+ str_of_Z fd
  | CLOSE fd => "c" +:+ str_of_Z fd
  end.
Definition client_text (l : list action) : string := join ":" (token <$> l).

(** Descriptors of one digit, and known files *)
Definition plain (names : list string) (a : action) : Prop :=
  match a with OPEN f fd => f ∈ names ∧ 0 ≤ fd < 10 | READ fd | WRITE fd | CLOSE fd => 0 ≤ fd < 10 end.

Definition opens (l : list action) : list Z := omap (λ a, match a with OPEN _ fd => Some fd | _ => None end) l.
Definition give (m : gmap Z string) (a : action) : gmap Z string := match a with OPEN f fd => <[fd := f]> m | _ => m end.
Definition fds_of (l : list action) : gmap Z string := foldl give ∅ l.

Lemma digit_text fd : 0 ≤ fd < 10 → ∃ d, str_of_Z fd = String d EmptyString ∧ int_of_str (String d EmptyString) = Some fd ∧ is_digit d = true.
Proof.
  intros H. assert (fd ∈ [0; 1; 2; 3; 4; 5; 6; 7; 8; 9]) as Hin by (rewrite !elem_of_cons, elem_of_nil; lia).
  repeat (apply elem_of_cons in Hin as [->|Hin]; [eexists; split; [reflexivity|split; reflexivity]|]). by apply elem_of_nil in Hin.
Qed.

Lemma fds_of_snoc l a : fds_of (l ++ [a]) = give (fds_of l) a.
Proof. unfold fds_of. by rewrite foldl_app. Qed.

Lemma fds_of_None l fd : fd ∉ opens l → fds_of l !! fd = None.
Proof.
  induction l as [|a l IH] using rev_ind; [done|]. unfold opens. rewrite fds_of_snoc, omap_app, not_elem_of_app. intros [H1 H2].
  destruct a; simpl in *; try by apply IH. rewrite lookup_insert_ne; [by apply IH|]. intros ->. apply H2. by left.
Qed.

(** The client after it has read an action *)
Definition give_act (c : client) (a : action) : client := c <| fds ::= λ m, give m a |> <| acts ::= (.++ [a]) |>.

Lemma wp_char_at x i ch c (Q : string → client → world → Prop) E w : String.get i x = Some ch → Q (String ch EmptyString) c w →
  wp (char_at x i) Q E c w.
Proof. unfold char_at. by intros ->. Qed.

Lemma wp_zassert_true {S} (b : bool) msg (t : S) (Q : unit → S → world → Prop) E w : b = true → Q tt t w → wp (zassert b msg) Q E t w.
Proof. intros ->. unfold zassert. simpl. by wp_pures. Qed.

Lemma wp_str_head ch x c (Q : ascii → client → world → Prop) E w : Q ch c w → wp (str_head (String ch x)) Q E c w.
Proof. done. Qed.

Lemma wp_given_action names numfiles a c (Q : unit → client → world → Prop) E w : names = filelist numfiles → plain names a →
  (∀ f fd, a = OPEN f fd → fds c !! fd = None) → Q tt (give_act c a) w → wp (given_action (token a)) Q E c w.
Proof.
  intros -> Hp Hfree HQ. unfold given_action, add_acts, py_int. rewrite wp_bind. destruct a as [f fd|fd|fd|fd]; simpl in Hp.
  1: destruct Hp as [Hf Hp]; destruct (letters_nonempty f _ Hf) as (ch & -> & _).
  all: destruct (digit_text fd Hp) as (d & Hd & Hi & _); unfold token; rewrite Hd.
  2: change ("r" +:+ String d "") with (String "r" (String d "")).
  3: change ("w" +:+ String d "") with (String "w" (String d "")).
  4: change ("c" +:+ String d "") with (String "c" (String d "")).
  1: change ("o" +:+ String ch "" +:+ String d "") with (String "o" (String ch (String d ""))).
  all: apply wp_str_head; cbv zeta; simpl Ascii.eqb; cbv iota; rewrite wp_bind; (apply wp_zassert_true; [done|]); rewrite wp_bind.
  2-4: (eapply wp_char_at; [done|]); wp_pures; rewrite Hi; wp_pures; destruct c; exact HQ.
  eapply wp_char_at; [done|]. rewrite wp_bind. eapply wp_char_at; [done|]. wp_pures. rewrite Hi. unfold fd_alloc_at, fd_name. wp_pures.
  rewrite (Hfree _ _ eq_refl). unfold max_fd. destruct (Z.leb_spec 0 fd); [|lia]. destruct (Z.ltb_spec fd 1024); [|lia].
  simpl. wp_pures. apply wp_zassert_true; [done|]. wp_pures. destruct c. exact HQ.
Qed.

(** The separators do not occur in a token. *)
Lemma token_has names numfiles a x : names = filelist numfiles → plain names a → is_alpha x = false → is_digit x = false →
  str_has x (token a) = false.
Proof.
  intros -> Hp Hx Hdx.
  assert (∀ y z, is_alpha y = true → str_has x (String y z) = str_has x z) as Hal.
  { intros y z Hy. simpl. destruct (Ascii.eqb_spec x y); [congruence|done]. }
  assert (∀ fd, 0 ≤ fd < 10 → str_has x (str_of_Z fd) = false) as Hdig.
  { intros fd Hfd. destruct (digit_text fd Hfd) as (d & -> & _ & Hd). simpl. destruct (Ascii.eqb_spec x d); [congruence|done]. }
  destruct a as [f fd|fd|fd|fd]; simpl in Hp; unfold token.
  - destruct Hp as [Hf Hfd]. destruct (letters_nonempty f _ Hf) as (ch & -> & Hch).
    change (str_has x (String "o" (String ch (str_of_Z fd))) = false). rewrite !Hal by done. auto.
  - change (str_has x (String "r" (str_of_Z fd)) = false). rewrite Hal by done. auto.
  - change (str_has x (String "w" (str_of_Z fd)) = false). rewrite Hal by done. auto.
  - change (str_has x (String "c" (str_of_Z fd)) = false). rewrite Hal by done. auto.
Qed.

Lemma join_nonempty sep x l : x ≠ EmptyString → join sep (x :: l) ≠ EmptyString.
Proof. by destruct x, l. Qed.

Lemma join_has sep l x : str_has x sep = false → Forall (λ y, str_has x y = false) l → str_has x (join sep l) = false.
Proof.
  intros Hs. induction 1 as [|y l Hy Hl IH]; [done|]. destruct l as [|z l]; [done|].
  change (str_has x (y +:+ sep +:+ join sep (z :: l)) = false). by rewrite !str_has_app, Hy, Hs, IH.
Qed.

Lemma token_nonempty a : token a ≠ EmptyString.
Proof. by destruct a. Qed.

(** A client that reads its own text has the actions of the text. *)
Lemma wp_client_init_given numfiles ratio numsteps k l w (Q : unit → client → world → Prop) E : l ≠ [] →
  Forall (plain (filelist numfiles)) l → NoDup (opens l) → legal (filelist numfiles) (fds_of l) None l = true →
  (∀ c w', started (filelist numfiles) k c → acts c = l → Q tt c w') →
  wp (client_init numfiles ratio numsteps (client_text l)) Q E (new_client (Z.of_nat k)) w.
Proof.
  intros Hl Hplain Hnd Hlegal HQ. unfold client_init, client_text. destruct l as [|a0 l0] eqn:Hl0; [done|]. rewrite <-Hl0 in *.
  rewrite bool_decide_false by (rewrite Hl0; apply join_nonempty, token_nonempty).
  assert (Forall (λ a, str_has ":" (token a) = false) l) as Hcol.
  { eapply Forall_impl; [exact Hplain|]. intros a Ha. by eapply token_has. }
  rewrite split_on_join_list; [|by rewrite Hl0|by apply Forall_fmap]. wp_pures.
  apply (wp_for (λ pre c w', ∃ p, pre = token <$> p ∧ p `prefix_of` l ∧ c = (new_client (Z.of_nat k)) <| fds := fds_of p |> <| acts := p |>)).
  - exists []. split_and!; [done|by apply prefix_nil|done].
  - intros pre t post c w' Hsplit (p & -> & [q Hq] & ->). rewrite Hq, fmap_app in Hsplit. apply (inj (app _)) in Hsplit.
    destruct q as [|a q]; [done|]. injection Hsplit as <- _. pose proof Hplain as Hpl. rewrite Hq, Forall_app, Forall_cons in Hpl.
    eapply wp_given_action; [done|apply Hpl| |].
    + intros f fd ->. simpl. apply fds_of_None. rewrite Hq in Hnd. unfold opens in *. rewrite omap_app in Hnd. simpl in Hnd.
      apply NoDup_app in Hnd as (_ & Hd & _). intros Hin. apply (Hd _ Hin). by left.
    + exists (p ++ [a]). split_and!; [by rewrite fmap_app|exists q; by rewrite <-(assoc (++))|]. by rewrite fds_of_snoc.
  - intros c w' (p & Hp & [q Hq] & ->). assert (q = []) as ->.
    { rewrite Hq, fmap_app in Hp. apply (f_equal length) in Hp. rewrite length_app, !length_fmap in Hp. by destruct q; [|simpl in Hp; lia]. }
    rewrite app_nil_r in Hq. subst p. wp_pures. apply HQ; [|done]. by split.
Qed.

(** C25: the clients read back what is written: for every list of action lists
    in which each client opens a descriptor at most once, of one digit, and
    works in sessions on existing files, the program started with the text of
    these lists has clients with exactly these lists, ready to run. *)
Theorem actions_roundtrip numfiles numclients numsteps ratio ll w : 0 < numfiles ≤ 26 → 0 ≤ ratio.1 ≤ ratio.2 → ll ≠ [] →
  Forall (λ l, l ≠ [] ∧ Forall (plain (filelist numfiles)) l ∧ NoDup (opens l) ∧ legal (filelist numfiles) (fds_of l) None l = true) ll →
  wp (setup numfiles numclients numsteps ratio (join "," (client_text <$> ll)))
    (λ _ s _, inv s ∧ fresh s ∧ (contents s).*1 = filelist numfiles ∧ acts <$> clients s = ll) noexn afs_blank w.
Proof.
  intros Hnf Hr Hne Hll. apply (wp_setup (λ k c, ll !! k = Some (acts c)) (length ll)); [done..|]. intros s Hs Hcl. unfold make_clients.
  assert (∀ l, l ∈ ll → client_text l ≠ "" ∧ str_has "," (client_text l) = false) as Htext.
  { intros l Hl. rewrite Forall_forall in Hll. destruct (Hll l Hl) as (H1 & H2 & _). split.
    - unfold client_text. destruct l; [done|]. simpl. apply join_nonempty, token_nonempty.
    - apply join_has; [done|]. apply Forall_fmap. eapply Forall_impl; [exact H2|]. intros a Ha. by eapply token_has. }
  rewrite bool_decide_false.
  2: { destruct ll as [|l ll']; [done|]. simpl. apply join_nonempty, Htext. by left. }
  rewrite split_on_join_list; [|by destruct ll|].
  2: { apply Forall_fmap, Forall_forall. intros l Hl. by apply Htext. }
  rewrite wp_bind.
  apply (wp_for_acc (λ pre i s' w', i = len pre ∧ made (filelist numfiles) (λ k c, ll !! k = Some (acts c)) (length pre) s')); [done| |].
  - intros pre t post i s' w' Hsplit [-> Hm]. unfold len. wp_pures.
    assert ((client_text <$> ll) !! length pre = Some t) as Ht by (rewrite Hsplit; by apply list_lookup_middle).
    rewrite list_lookup_fmap in Ht. apply fmap_Some in Ht as (l & Hl & ->).
    assert (l ∈ ll) as Hin by by eapply list_elem_of_lookup_2. rewrite Forall_forall in Hll. destruct (Hll l Hin) as (H1 & H2 & H3 & H4).
    eapply wp_add_client; [done|]. eapply wp_client_init_given; [done..|]. intros c w2 Hst Hacts.
    split; [done|]. split; [by rewrite Hacts|]. intros s2 Hs2. wp_pures. rewrite length_app, Nat.add_1_r. split; [lia|done].
  - intros i s' w' [_ Hm]. rewrite length_fmap in Hm. wp_pures. split; [done|]. intros s2 w2 Hinv Hf Hco Hlen HP _. split_and!; [done..|].
    apply list_eq. intros k. rewrite list_lookup_fmap. destruct (clients s2 !! k) as [c|] eqn:Hc; simpl; [by rewrite (HP k c Hc)|].
    symmetry. apply lookup_ge_None. apply lookup_ge_None in Hc. lia.
Qed.

(** ** Witnesses *)

Definition demo_world : world := World [] (λ _, 0) 0.
Definition demo : afs :=
  match setup 1 2 1 (1, 2) "oa1:r1:c1,oa1:w1:c1" afs_blank demo_world with Ok _ s _ => s | _ => afs_blank end.

Lemma demo_ok : inv demo ∧ fresh demo.
Proof.
  apply started_inv.
  - intros [|[|k]] c; vm_compute; [intros [= <-]; by split..|done].
  - intros [|[|k]]; vm_compute; [done..|lia].
Qed.

(** The second client's write, after it has opened the file *)
Lemma step_refines_sessions_witness : ∃ s w s' w', step true 0 0 1 demo demo_world = Ok 1 s w ∧
  step true 0 0 1 s w = Ok 1 s' w' ∧ spec_step 1 (WRITE 1) (abs s) = Some (abs s').
Proof.
  assert (∃ c, clients demo !! 1%nat = Some c ∧ acts c !! Z.to_nat (acnt c) = Some (OPEN "a" 1) ∧ acts c !! 1%nat = Some (WRITE 1))
    as (c & Hc & Ha & Ha1) by (eexists; split; [vm_compute; reflexivity|split; reflexivity]).
  pose proof (step_refines_sessions true 0 0 ltac:(unfold max_fd; lia) demo 1 c demo_world (proj1 demo_ok) Hc) as H1.
  destruct (wp_noexn_ok _ _ _ _ H1) as (rc & s & w & Hs & Hinv & Hrest). rewrite Ha in Hrest. destruct Hrest as (-> & _ & _).
  assert (∃ c1, clients s !! 1%nat = Some c1 ∧ acts c1 !! Z.to_nat (acnt c1) = Some (WRITE 1)) as (c1 & Hc1 & Ha2).
  { assert (match step true 0 0 1 demo demo_world with Ok _ s _ =>
      match clients s !! 1%nat with Some c1 => match acts c1 !! Z.to_nat (acnt c1) with Some (WRITE 1) => true | _ => false end | _ => false end
      | _ => false end = true) as Hb by (vm_compute; reflexivity).
    change (Z.of_nat 1) with 1 in Hs. rewrite Hs in Hb. destruct (clients s !! 1%nat) as [c1|]; [|discriminate]. exists c1. split; [reflexivity|].
    destruct (acts c1 !! Z.to_nat (acnt c1)) as [[| |[|[]|]|]|]; try discriminate. reflexivity. }
  pose proof (step_refines_sessions true 0 0 ltac:(unfold max_fd; lia) s 1 c1 w Hinv Hc1) as H2.
  destruct (wp_noexn_ok _ _ _ _ H2) as (rc & s' & w' & Hs' & _ & Hrest). rewrite Ha2 in Hrest. destruct Hrest as (-> & Hspec & _).
  exists s, w, s', w'. split; [exact Hs|]. split; [exact Hs'|exact Hspec].
Defined.

Lemma demo_schedule : schedule_of "011100" [0; 1; 1; 1; 0; 0]%nat (length (clients demo)).
Proof. split; [repeat constructor|]. repeat (constructor; [vm_compute; lia|]). constructor. Qed.

Lemma run_is_interleaving_witness : ∃ s w, run true 7 100 0 "011100" demo demo_world = Ok tt s w ∧ interleaved true demo s w ∧ contents s = [("a", 1)].
Proof.
  pose proof (run_is_interleaving true 7 0 ltac:(unfold max_fd; lia) 100 "011100" _ demo demo_world (proj1 demo_ok) (proj2 demo_ok)
    demo_schedule ltac:(discriminate)) as H.
  assert (match run true 7 100 0 "011100" demo demo_world with Ok _ s _ => bool_decide (contents s = [("a", 1)]) | _ => false end = true)
    as Hb by (vm_compute; reflexivity).
  unfold wlp in H. destruct (run true 7 100 0 "011100" demo demo_world) as [[] s w| |]; [|discriminate..].
  exists s, w. split; [reflexivity|]. split; [exact H|exact (bool_decide_eq_true_1 _ Hb)].
Defined.

Lemma schedule_terminates_witness : work demo = 8 ∧ ∃ s w, run true 7 100 0 "011100" demo demo_world = Ok tt s w ∧
  Forall (λ c, done c = true) (clients s).
Proof.
  split; [vm_compute; reflexivity|].
  assert (∀ k, (k < length (clients demo))%nat → k ∈ [0; 1; 1; 1; 0; 0]%nat) as Hall.
  { intros [|[|k]]; [left|right; left|]. vm_compute. lia. }
  assert (Z.to_nat (work demo) * S (length [0; 1; 1; 1; 0; 0]%nat) + length [0; 1; 1; 1; 0; 0]%nat < 100)%nat as Hfuel by (vm_compute; lia).
  pose proof (schedule_terminates true 7 0 ltac:(unfold max_fd; lia) 100 "011100" _ demo demo_world (proj1 demo_ok) (proj2 demo_ok)
    demo_schedule ltac:(discriminate) Hall Hfuel) as H.
  destruct (wp_noexn_ok _ _ _ _ H) as ([] & s & w & Hs & _ & Hd). exists s, w. split; [exact Hs|exact Hd].
Defined.

Lemma random_workload_legal_witness : ∃ s w, setup 3 2 2 (1, 2) "" afs_blank (world_of [10; 20; 70; 90; 40; 60; 0; 30]) = Ok tt s w ∧
  inv s ∧ length (clients s) = 2%nat ∧ ∀ k c, clients s !! k = Some c → made_of_sessions (filelist 3) 2 (acts c).
Proof.
  assert (rng_ok (world_of [10; 20; 70; 90; 40; 60; 0; 30])) as Hw by (apply world_of_ok; repeat constructor; lia).
  pose proof (random_workload_legal 3 2 2 (1, 2) _ ltac:(lia) ltac:(simpl; lia) ltac:(unfold max_fd; lia) Hw) as H.
  destruct (wp_noexn_ok _ _ _ _ H) as ([] & s & w & Hs & Hinv & _ & _ & _ & Hl & Hacts). exists s, w. split; [exact Hs|]. split; [exact Hinv|split; [exact Hl|exact Hacts]].
Defined.

Definition demo_lists : list (list action) :=
  [[OPEN "a" 1; READ 1; CLOSE 1; OPEN "b" 2; WRITE 2; READ 2; CLOSE 2]; [OPEN "a" 1; WRITE 1; CLOSE 1]].
Lemma actions_roundtrip_witness : join "," (client_text <$> demo_lists) = "oa1:r1:c1:ob2:w2:r2:c2,oa1:w1:c1" ∧
  ∃ s w, setup 2 0 0 (1, 2) "oa1:r1:c1:ob2:w2:r2:c2,oa1:w1:c1" afs_blank demo_world = Ok tt s w ∧ acts <$> clients s = demo_lists.
Proof.
  split; [reflexivity|].
  assert (Forall (λ l, l ≠ [] ∧ Forall (plain (filelist 2)) l ∧ NoDup (opens l) ∧ legal (filelist 2) (fds_of l) None l = true) demo_lists) as Hll.
  { assert ("a" ∈ filelist 2 ∧ "b" ∈ filelist 2) as [Ha Hb] by (split; vm_compute; [left|right; left]).
    repeat (apply Forall_cons; split); [..|constructor];
      (split; [discriminate|split; [|split; [apply (bool_decide_unpack _); vm_compute; done|reflexivity]]]);
      repeat (apply Forall_cons; split); try constructor; simpl; auto; lia. }
  pose proof (actions_roundtrip 2 0 0 (1, 2) demo_lists demo_world ltac:(lia) ltac:(simpl; lia) ltac:(discriminate) Hll) as H.
  destruct (wp_noexn_ok _ _ _ _ H) as ([] & s & w & Hs & _ & _ & _ & Ha). exists s, w. split; [exact Hs|exact Ha].
Defined.

(** ** Examples *)

(** *** The last example of the README, up to the blank space: between the
    callback and its effect the code prints the whole cache once more. *)
Definition chunks (w : world) : list string :=
  filter (λ x, strip x ≠ "") (rev (stdout w)).
Example readme_example :
  match main true 7 100 1 2 1 (1, 2) "oa1:r1:c1,oa1:w1:c1" "011100" false afs_blank (World [] (λ _, 0) 0) with
  | Ok _ s w => drop 5 (strip <$> chunks w) =
      ["file:a contains:0"; "open:a [fd:1]"; "getfile:a c:c0 [0]"; "[a: 0 (v=1,d=0,r=1)]";
       "open:a [fd:1]"; "getfile:a c:c1 [0]"; "[a: 0 (v=1,d=0,r=1)]"; "write:1 0 -> 1"; "[a: 1 (v=1,d=1,r=1)]";
       "close:1"; "putfile:a c:c1 [1]"; "callback: c:c0 file:a";
       "invalidate file:a cache: {'a': {'data': 0, 'dirty': False, 'refcnt': 1, 'valid': True}}";
       "invalidate a"; "[a: 0 (v=0,d=0,r=1)]"; "[a: 1 (v=1,d=0,r=0)]";
       "read:1 -> 0"; "[a: 0 (v=0,d=0,r=1)]"; "close:1"; "file:a contains:1"]
  | _ => False
  end.
Proof. vm_compute. reflexivity. Qed.

(** A client may open a file twice; when a callback comes in between, the
    second open replaces the copy: the client's own write is lost, the count
    of opens starts again and ends below zero. *)
Example reopened_copy :
  match main true 0 100 1 2 1 (1, 2) "oa1:w1:oa2:c1:c2,oa1:w1:c1" "001110000" false afs_blank (World [] (λ _, 0) 0) with
  | Ok _ s w => contents s = [("a", 2)] ∧ (λ c, (λ p, refcnt p.2) <$> items (cached c)) <$> clients s = [[-1]; [0]]
  | _ => False
  end.
Proof. vm_compute. auto. Qed.
