(* ===== verification/Belady.v ===== *)
(** * Demand paging, and why the farthest future use is the page to replace

    The abstract machine behind [Paging]: a cache holds a set of at most [C]
    pages; a page is loaded when it is referenced, and only when the cache is
    full another one leaves it. *)
From S2P Require Import Prelude.

Section Belady.
Context (C : nat).
Implicit Types (T : gset Z) (xs : list Z) (a b r v : Z).

(** [demand T xs n]: from the cache [T] the references [xs] can be served
    with [n] misses. *)
Inductive demand : gset Z → list Z → nat → Prop :=
| demand_nil T : demand T [] 0
| demand_hit T r xs n : r ∈ T → demand T xs n → demand T (r :: xs) n
| demand_fill T r xs n : r ∉ T → (size T < C)%nat → demand ({[r]} ∪ T) xs n → demand T (r :: xs) (S n)
| demand_evict T r v xs n : r ∉ T → (C ≤ size T)%nat → v ∈ T → demand ({[r]} ∪ (T ∖ {[v]})) xs n → demand T (r :: xs) (S n).

(** The distance of the next reference to [a], or the length of the future *)
Fixpoint next_use xs a : nat :=
  match xs with
  | [] => 0
  | r :: xs => if decide (r = a) then 0 else S (next_use xs a)
  end.

Lemma next_use_bound xs a : (next_use xs a ≤ length xs)%nat.
Proof. induction xs as [|r xs IH]; simpl; [lia|]. case_decide; lia. Qed.

(** The ways to serve a reference that misses *)
Lemma demand_miss T r xs n : r ∉ T → demand T (r :: xs) n → ∃ m, n = S m ∧
  ((size T < C)%nat ∧ demand ({[r]} ∪ T) xs m ∨ (C ≤ size T)%nat ∧ ∃ v, v ∈ T ∧ demand ({[r]} ∪ (T ∖ {[v]})) xs m).
Proof. intros Hr Hd. inversion Hd; subst; [done| |]; eauto 10. Qed.

Lemma demand_hit_inv T r xs n : r ∈ T → demand T (r :: xs) n → demand T xs n.
Proof. intros Hr Hd. by inversion Hd; subst. Qed.

(** In a full cache a page is replaced at every miss. *)
Lemma demand_full_miss T r xs n : r ∉ T → (C ≤ size T)%nat → demand T (r :: xs) n →
  ∃ m v, n = S m ∧ v ∈ T ∧ demand ({[r]} ∪ (T ∖ {[v]})) xs m.
Proof.
  intros Hr Hs Hd. destruct (demand_miss _ _ _ _ Hr Hd) as (m & -> & [[? _]|(_ & v & ? & ?)]); [lia|eauto].
Qed.

Lemma size_add T a : a ∉ T → size ({[a]} ∪ T) = S (size T).
Proof. intros. by rewrite size_union, size_singleton by set_solver. Qed.

(** Two full caches that differ in one page: [a] and [b] *)
Section Exchange.
Context (T : gset Z) (a b r v : Z) (Ha : a ∉ T) (Hb : b ∉ T) (Hab : a ≠ b) (HrT : r ∉ T).

(** The replacement of [v] in one, seen from the other *)
Lemma exchange_evict : v ∈ T → r ≠ b → let T' := {[r]} ∪ (T ∖ {[v]}) in
  ({[r]} ∪ (({[b]} ∪ T) ∖ {[v]})) = ({[b]} ∪ T') ∧ ({[r]} ∪ (({[a]} ∪ T) ∖ {[v]})) = ({[a]} ∪ T') ∧
  b ∉ T' ∧ (r ≠ a → a ∉ T' ∧ size T' = size T).
Proof.
  intros Hv Hrb T'. split_and!; [set_solver..|]. intros Hra. split; [set_solver|]. unfold T'.
  rewrite size_add by set_solver. rewrite size_difference by set_solver. rewrite size_singleton.
  assert (size T ≠ 0%nat) by (intros Hn%size_empty_inv; set_solver). lia.
Qed.
End Exchange.

(** One page for another costs at most one miss. *)
Lemma demand_exchange xs : ∀ T a b n, a ∉ T → b ∉ T → (C ≤ S (size T))%nat → demand ({[b]} ∪ T) xs n →
  ∃ n', (n' ≤ S n)%nat ∧ demand ({[a]} ∪ T) xs n'.
Proof.
  induction xs as [|r xs IH]; intros T a b n Ha Hb Hs Hd.
  { inversion Hd; subst. exists 0%nat. split; [lia|constructor]. }
  destruct (decide (a = b)) as [->|Hab]; [by exists n; auto|].
  destruct (decide (r ∈ T)) as [HrT|HrT].
  { apply demand_hit_inv in Hd; [|set_solver]. destruct (IH T a b n) as (n' & ? & ?); [done..|].
    exists n'. split; [done|]. apply demand_hit; [set_solver|done]. }
  destruct (decide (r = b)) as [->|Hrb].
  { apply demand_hit_inv in Hd; [|set_solver]. exists (S n). split; [done|]. apply (demand_evict _ _ a); [set_solver|by rewrite size_add|set_solver|].
    by replace ({[b]} ∪ ({[a]} ∪ T) ∖ {[a]}) with ({[b]} ∪ T) by set_solver. }
  apply demand_full_miss in Hd as (m & v & -> & Hv & Hd); [|set_solver|by rewrite size_add].
  destruct (decide (r = a)) as [->|Hra].
  - destruct (decide (v = b)) as [->|Hvb].
    + replace ({[a]} ∪ ({[b]} ∪ T) ∖ {[b]}) with ({[a]} ∪ T) in Hd by set_solver. exists m. split; [lia|].
      apply demand_hit; [set_solver|done].
    + replace ({[a]} ∪ ({[b]} ∪ T) ∖ {[v]}) with ({[b]} ∪ ({[a]} ∪ T ∖ {[v]})) in Hd by set_solver.
      destruct (IH ({[a]} ∪ T ∖ {[v]}) v b m) as (n' & Hn' & Hd'); [set_solver..| |done|].
      { rewrite size_add by set_solver. rewrite size_difference, size_singleton by set_solver. lia. }
      exists n'. split; [lia|]. apply demand_hit; [set_solver|].
      replace ({[a]} ∪ T) with ({[v]} ∪ ({[a]} ∪ T ∖ {[v]})); [done|]. rewrite (assoc_L (∪)), (comm_L (∪) {[v]}), <-(assoc_L (∪)).
      f_equal. rewrite <-union_difference_L; [done|set_solver].
  - destruct (decide (v = b)) as [->|Hvb].
    + replace ({[r]} ∪ ({[b]} ∪ T) ∖ {[b]}) with ({[r]} ∪ T) in Hd by set_solver. exists (S m). split; [lia|].
      apply (demand_evict _ _ a); [set_solver|by rewrite size_add|set_solver|].
      by replace ({[r]} ∪ ({[a]} ∪ T) ∖ {[a]}) with ({[r]} ∪ T) by set_solver.
    + assert (v ∈ T) as HvT by set_solver. destruct (exchange_evict T a b r v) as (H1 & H2 & H3 & H4); [done..|].
      destruct (H4 Hra) as [H5 H6]. rewrite H1 in Hd. destruct (IH _ a b m H5 H3 ltac:(by rewrite H6) Hd) as (n' & Hn' & Hd').
      exists (S n'). split; [lia|]. apply (demand_evict _ _ v); [set_solver|by rewrite size_add|set_solver|]. by rewrite H2.
Qed.

(** The page that is needed sooner is the better one to have. *)
Lemma demand_sooner xs : ∀ T a b n, a ∉ T → b ∉ T → (C ≤ S (size T))%nat → (next_use xs a ≤ next_use xs b)%nat →
  demand ({[b]} ∪ T) xs n → ∃ n', (n' ≤ n)%nat ∧ demand ({[a]} ∪ T) xs n'.
Proof.
  induction xs as [|r xs IH]; intros T a b n Ha Hb Hs Hnext Hd.
  { inversion Hd; subst. exists 0%nat. split; [lia|constructor]. }
  destruct (decide (a = b)) as [->|Hab]; [by exists n; auto|].
  destruct (decide (r ∈ T)) as [HrT|HrT].
  { apply demand_hit_inv in Hd; [|set_solver]. simpl in Hnext. rewrite !decide_False in Hnext by set_solver.
    destruct (IH T a b n) as (n' & ? & ?); [done..|lia|done|]. exists n'. split; [done|]. apply demand_hit; [set_solver|done]. }
  destruct (decide (r = b)) as [->|Hrb].
  { simpl in Hnext. destruct (decide (b = a)), (decide (b = b)); [congruence..|lia|congruence]. }
  apply demand_full_miss in Hd as (m & v & -> & Hv & Hd); [|set_solver|by rewrite size_add].
  destruct (decide (r = a)) as [->|Hra].
  - destruct (decide (v = b)) as [->|Hvb].
    + replace ({[a]} ∪ ({[b]} ∪ T) ∖ {[b]}) with ({[a]} ∪ T) in Hd by set_solver. exists m. split; [lia|].
      apply demand_hit; [set_solver|done].
    + replace ({[a]} ∪ ({[b]} ∪ T) ∖ {[v]}) with ({[b]} ∪ ({[a]} ∪ T ∖ {[v]})) in Hd by set_solver.
      destruct (demand_exchange xs ({[a]} ∪ T ∖ {[v]}) v b m) as (n' & Hn' & Hd'); [set_solver..| |done|].
      { rewrite size_add by set_solver. rewrite size_difference, size_singleton by set_solver. lia. }
      exists n'. split; [lia|]. apply demand_hit; [set_solver|].
      replace ({[a]} ∪ T) with ({[v]} ∪ ({[a]} ∪ T ∖ {[v]})); [done|]. rewrite (assoc_L (∪)), (comm_L (∪) {[v]}), <-(assoc_L (∪)).
      f_equal. rewrite <-union_difference_L; [done|set_solver].
  - simpl in Hnext. rewrite !decide_False in Hnext by done. destruct (decide (v = b)) as [->|Hvb].
    + replace ({[r]} ∪ ({[b]} ∪ T) ∖ {[b]}) with ({[r]} ∪ T) in Hd by set_solver. exists (S m). split; [done|].
      apply (demand_evict _ _ a); [set_solver|by rewrite size_add|set_solver|].
      by replace ({[r]} ∪ ({[a]} ∪ T) ∖ {[a]}) with ({[r]} ∪ T) by set_solver.
    + assert (v ∈ T) as HvT by set_solver. destruct (exchange_evict T a b r v) as (H1 & H2 & H3 & H4); [done..|].
      destruct (H4 Hra) as [H5 H6]. rewrite H1 in Hd.
      destruct (IH _ a b m H5 H3 ltac:(by rewrite H6) ltac:(lia) Hd) as (n' & Hn' & Hd').
      exists (S n'). split; [lia|]. apply (demand_evict _ _ v); [set_solver|by rewrite size_add|set_solver|]. by rewrite H2.
Qed.

(** [farthest T xs n]: the run of [xs] from [T] in which the page replaced is
    always one whose next reference is farthest has [n] misses. *)
Inductive farthest : gset Z → list Z → nat → Prop :=
| farthest_nil T : farthest T [] 0
| farthest_hit T r xs n : r ∈ T → farthest T xs n → farthest T (r :: xs) n
| farthest_fill T r xs n : r ∉ T → (size T < C)%nat → farthest ({[r]} ∪ T) xs n → farthest T (r :: xs) (S n)
| farthest_evict T r v xs n : r ∉ T → (C ≤ size T)%nat → v ∈ T → (∀ e, e ∈ T → (next_use xs e ≤ next_use xs v)%nat) →
    farthest ({[r]} ∪ (T ∖ {[v]})) xs n → farthest T (r :: xs) (S n).

Lemma farthest_demand T xs n : farthest T xs n → demand T xs n.
Proof. induction 1; [constructor|by apply demand_hit|by apply demand_fill|by eapply demand_evict]. Qed.

(** Replacing [w] in place of [v] when [w] is needed later *)
Lemma demand_replace_later T r v w xs n : r ∉ T → v ∈ T → w ∈ T → (C ≤ size T)%nat → (next_use xs v ≤ next_use xs w)%nat →
  demand ({[r]} ∪ (T ∖ {[v]})) xs n → ∃ n', (n' ≤ n)%nat ∧ demand ({[r]} ∪ (T ∖ {[w]})) xs n'.
Proof.
  intros Hr Hv Hw Hs Hn Hd. destruct (decide (v = w)) as [->|Hvw]; [by exists n|].
  assert (T = {[v]} ∪ ({[w]} ∪ (T ∖ {[v; w]}))) as HT.
  { apply set_eq. intros x. destruct (decide (x = v)), (decide (x = w)); set_solver. }
  assert (size T = S (S (size (T ∖ {[v; w]})))) as Hsz by (rewrite HT at 1; rewrite !size_add by set_solver; done).
  replace ({[r]} ∪ (T ∖ {[v]})) with ({[w]} ∪ ({[r]} ∪ (T ∖ {[v; w]}))) in Hd
    by (apply set_eq; intros x; destruct (decide (x = v)), (decide (x = w)); set_solver).
  replace ({[r]} ∪ (T ∖ {[w]})) with ({[v]} ∪ ({[r]} ∪ (T ∖ {[v; w]})))
    by (apply set_eq; intros x; destruct (decide (x = v)), (decide (x = w)); set_solver).
  apply (demand_sooner _ _ v w n); [set_solver..|rewrite size_add by set_solver; lia|done|done].
Qed.

(** Belady: no way to serve the references has fewer misses. *)
Lemma farthest_minimal T xs n : farthest T xs n → ∀ m, demand T xs m → (n ≤ m)%nat.
Proof.
  induction 1 as [T|T r xs n Hr _ IH|T r xs n Hr Hs _ IH|T r v xs n Hr Hs Hv Hfar _ IH]; intros m Hd.
  - lia.
  - apply IH. by apply demand_hit_inv in Hd.
  - destruct (demand_miss _ _ _ _ Hr Hd) as (k & -> & [[_ Hk]|[? _]]); [|lia]. apply IH in Hk. lia.
  - destruct (demand_full_miss _ _ _ _ Hr Hs Hd) as (k & e & -> & He & Hk).
    destruct (demand_replace_later T r e v xs k) as (k' & Hle & Hk'); auto. apply IH in Hk'. lia.
Qed.
End Belady.
