(* ===== verification/Paging.v ===== *)
(** * Page replacement: [vm-beyondphys-policy/paging-policy.py]

    A page cache of a fixed size under the policies FIFO, LRU, MRU, RAND,
    CLOCK, OPT and UNOPT. *)
From S2P Require Import Prelude PyStr PyRandom PyFloat Belady.
Open Scope Z_scope.

(** ** The program *)

Inductive policy := FIFO | LRU | MRU | RAND | CLOCK | OPT | UNOPT.
#[export] Instance policy_eq_dec : EqDecision policy.
Proof. solve_decision. Defined.

Definition policy_of_string (x : string) : option policy :=
  if bool_decide (x = "FIFO") then Some FIFO else if bool_decide (x = "LRU") then Some LRU
  else if bool_decide (x = "MRU") then Some MRU else if bool_decide (x = "RAND") then Some RAND
  else if bool_decide (x = "CLOCK") then Some CLOCK else if bool_decide (x = "OPT") then Some OPT
  else if bool_decide (x = "UNOPT") then Some UNOPT else None.

(** [leftStr] and [riteStr] *)
Definition labels (p : policy) : string * string :=
  match p with
  | FIFO => ("FirstIn", "Lastin ")
  | LRU | MRU => ("LRU", "MRU")
  | _ => ("Left ", "Right")
  end.

Record pager := Pager {
  count : Z;
  memory : list Z;
  hits : Z;
  miss : Z;
  ref : gmap Z Z;
}.
#[export] Instance pager_settable : Settable pager := λ s, Pager (count s) (memory s) (hits s) (miss s) (ref s).
Definition pager_init : pager := Pager 0 [] 0 0 ∅.

(** An element of [addrList]: a number, or a piece of the option's text *)
Definition int_of (a : Z + string) : M pager Z := match a with inl n => mret n | inr x => py_int x end.

Definition hfunc (index : Z) : string := if index =? -1 then "MISS" else "HIT ".
Definition vfunc (victim : Z) : string := if victim =? -1 then "-" else str_of_Z victim.
Definition list_text (l : list Z) : string := "[" +:+ join ", " (str_of_Z <$> l) +:+ "]".

(** [memory.index(n)], and [memory.remove(n)] *)
Fixpoint index_of (n : Z) (l : list Z) : option Z :=
  match l with [] => None | x :: l => if x =? n then Some 0 else Z.succ <$> index_of n l end.
Fixpoint remove_first (n : Z) (l : list Z) : list Z :=
  match l with [] => [] | x :: l => if x =? n then l else x :: remove_first n l end.

(** [victim = memory.pop(i)] *)
Definition pop (i : Z) : M pager Z := s ← get; r ← list_pop (memory s) i; memory <~ r.2;; mret r.1.

Section Pager.
Context (p : policy) (cachesize clockbits : Z) (addrList : list (Z + string)).

(** The position of the first reference to [page] after [addrIndex], or the
    length of the list *)
Definition whenReferenced (addrIndex page : Z) : M pager Z :=
  r ← for_ret (range (addrIndex + 1) (len addrList)) tt (λ _ futureIdx,
    a ← list_get addrList futureIdx;
    futurePage ← int_of a;
    mret (if page =? futurePage then inr futureIdx else inl tt));
  mret (match r with inr i => i | inl _ => len addrList end).

(** The scans of OPT and UNOPT: [(limit, replaceIdx)], updated where [better]
    says so *)
Definition scan (better : Z → Z → bool) (start addrIndex : Z) : M pager Z :=
  s ← get;
  r ← for_acc (range 0 (count s)) (start, -1) (λ b pageIndex,
    page ← list_get (memory s) pageIndex;
    t ← whenReferenced addrIndex page;
    mret (if better t b.1 then (t, pageIndex) else b));
  mret r.2.

Definition clock_victim (fuel : nat) : M pager Z :=
  s ← get;
  victim ← while_ fuel tt (λ _,
    i ← rand_int (count s);
    s ← get;
    page ← list_get (memory s) i;
    r ← dict_get (ref s) page;
    if 1 <=? r then modify (λ s, s <| ref ::= <[page := r - 1]> |>);; mret (inl tt)
    else modify (λ s, s <| memory ::= remove_first page |>);; mret (inr page));
  s ← get;
  dict_get (ref s) victim;;
  modify (λ s, s <| ref ::= delete victim |>);;
  mret victim.

Definition replace (fuel : nat) (addrIndex : Z) : M pager Z :=
  s ← get;
  match p with
  | FIFO | LRU => pop 0
  | MRU => pop (count s - 1)
  | RAND => i ← rand_int (count s); pop i
  | CLOCK => clock_victim fuel
  | OPT => i ← scan (λ t limit, limit <=? t) (-1) addrIndex; pop i
  | UNOPT => i ← scan (λ t limit, t <? limit) (len addrList + 1) addrIndex; pop i
  end.

(** Looking the page up: its index, or -1 *)
Definition look_up (n : Z) : M pager Z :=
  s ← get;
  match index_of n (memory s) with
  | Some idx =>
      modify (λ s, s <| hits ::= Z.succ |>);;
      when (bool_decide (p = LRU ∨ p = MRU)) (modify (λ s, s <| memory ::= λ l, remove_first n l ++ [n] |>));;
      mret idx
  | None => modify (λ s, s <| miss ::= Z.succ |>);; mret (-1)
  end.

(** A miss: the page that is replaced, or -1 *)
Definition load_page (fuel : nat) (addrIndex n : Z) : M pager Z :=
  s ← get;
  victim ← (if count s =? cachesize then replace fuel addrIndex
            else modify (λ s, s <| count ::= Z.succ |>);; mret (-1));
  modify (λ s, s <| memory ::= (.++ [n]) |>);;
  s ← get;
  when (negb (victim =? -1)) (passert (negb (bool_decide (victim ∈ memory s))));;
  mret victim.

Definition touch (n : Z) : M pager unit :=
  s ← get;
  match ref s !! n with
  | None => modify (λ s, s <| ref ::= <[n := 1]> |>)
  | Some r => modify (λ s, s <| ref ::= <[n := Z.min (r + 1) clockbits]> |>)
  end.

(** The body of the loop over [addrList]; the local is [addrIndex]. *)
Definition access (fuel : nat) (notrace : bool) (addrIndex : Z) (nStr : Z + string) : M pager Z :=
  n ← int_of nStr;
  idx ← look_up n;
  victim ← (if idx =? -1 then load_page fuel addrIndex n else mret (-1));
  touch n;;
  s ← get;
  when (negb notrace)
    (print ("Access: " +:+ str_of_Z n +:+ "  " +:+ hfunc idx +:+ " " +:+ (labels p).1 +:+ " -> " +:+ rjust 12 (list_text (memory s)) +:+
            " <- " +:+ (labels p).2 +:+ " Replaced:" +:+ vfunc victim +:+ " [Hits:" +:+ str_of_Z (hits s) +:+ " Misses:" +:+
            str_of_Z (miss s) +:+ "]"));;
  mret (addrIndex + 1).

Definition simulate (fuel : nat) (notrace : bool) : M pager unit :=
  for_acc addrList 0 (access fuel notrace);; mret tt.

Definition finalstats : M pager unit :=
  print "";;
  s ← get;
  rate ← f_div (f_mul (f_of_Z 100) (f_of_Z (hits s))) (f_add (f_of_Z (hits s)) (f_of_Z (miss s)));
  print ("FINALSTATS hits " +:+ str_of_Z (hits s) +:+ "   misses " +:+ str_of_Z (miss s) +:+ "   hitrate " +:+ fmt_f 2 rate);;
  print "".
End Pager.

(** [addrList]: the lines of a file, random pages, or the pieces of the option *)
Definition addr_list (addressFile : option (list string)) (addresses : string) (numaddrs maxpage : Z) : M pager (list (Z + string)) :=
  match addressFile with
  | Some lines => for_acc lines [] (λ l line, n ← py_int line; mret (l ++ [inl n]))
  | None =>
      if bool_decide (addresses = "-1") then for_acc (range 0 numaddrs) [] (λ l _, n ← rand_int maxpage; mret (l ++ [inl n]))
      else mret (inr <$> split_on "," addresses)
  end.

Definition questions (polname : string) (cachesize : Z) (addrList : list (Z + string)) : M pager unit :=
  print ("Assuming a replacement policy of " +:+ polname +:+ ", and a cache of size " +:+ str_of_Z cachesize +:+ " pages,");;
  print "figure out whether each of the following page references hit or miss";;
  print ("in the page cache." +:+ nl);;
  for_ addrList (λ a, n ← int_of a; print ("Access: " +:+ str_of_Z n +:+ "  Hit/Miss?  State of Memory?"));;
  print "".

(** The options, as they are printed first *)
Definition banner (addresses filename : string) (numaddrs : Z) (polname : string) (clockbits cachesize maxpage seed : Z) (notrace : bool) : list string :=
  ["ARG addresses " +:+ addresses; "ARG addressfile " +:+ filename; "ARG numaddrs " +:+ str_of_Z numaddrs; "ARG policy " +:+ polname;
   "ARG clockbits " +:+ str_of_Z clockbits; "ARG cachesize " +:+ str_of_Z cachesize; "ARG maxpage " +:+ str_of_Z maxpage;
   "ARG seed " +:+ str_of_Z seed; "ARG notrace " +:+ str_of_bool notrace; ""].

(** [lines] are those of the file named [file], if one is named. *)
Definition main (fuel : nat) (file : string) (lines : list string) (addresses : string) (numaddrs maxpage seed : Z) (polname : string)
    (cachesize clockbits : Z) (notrace solve : bool) : M pager unit :=
  for_ (banner addresses file numaddrs polname clockbits cachesize maxpage seed notrace) print;;
  addrList ← addr_list (if bool_decide (file = "") then None else Some lines) addresses numaddrs maxpage;
  if negb solve then questions polname cachesize addrList
  else
    when (negb notrace) (print ("Solving..." +:+ nl));;
    match policy_of_string polname with
    | None => print ("Policy " +:+ polname +:+ " is not yet implemented");; raise (SystemExit 1)
    | Some p => simulate p cachesize clockbits addrList fuel notrace;; finalstats
    end.

(** ** The abstract policies

    [fut] is what will be referenced after the page at hand. *)

(** The position in the full memory [l] whose page [p] may replace: OPT takes
    the last of the pages needed farthest in the future, UNOPT the first of
    those needed soonest. *)
Definition chosen (p : policy) (fut : list Z) (l : list Z) (k : nat) : Prop :=
  match p with
  | FIFO | LRU => k = 0%nat
  | MRU => S k = length l
  | RAND | CLOCK => True
  | OPT => ∃ x, l !! k = Some x ∧ ∀ j y, l !! j = Some y →
      (next_use fut y ≤ next_use fut x)%nat ∧ ((k < j)%nat → (next_use fut y < next_use fut x)%nat)
  | UNOPT => ∃ x, l !! k = Some x ∧ ∀ j y, l !! j = Some y →
      (next_use fut x ≤ next_use fut y)%nat ∧ ((j < k)%nat → (next_use fut x < next_use fut y)%nat)
  end.

(** One reference: the memory before and after, and the misses *)
Inductive mem_step (p : policy) (C : nat) (n : Z) (fut l : list Z) : list Z → nat → Prop :=
| step_hit : n ∈ l → mem_step p C n fut l (if bool_decide (p = LRU ∨ p = MRU) then remove_first n l ++ [n] else l) 0
| step_fill : n ∉ l → (length l < C)%nat → mem_step p C n fut l (l ++ [n]) 1
| step_evict k : n ∉ l → length l = C → (k < C)%nat → chosen p fut l k → mem_step p C n fut l (delete k l ++ [n]) 1.

Inductive mem_run (p : policy) (C : nat) : list Z → list Z → list Z → nat → Prop :=
| run_nil l : mem_run p C l [] l 0
| run_cons n fut l l1 l2 m1 m2 : mem_step p C n fut l l1 m1 → mem_run p C l1 fut l2 m2 → mem_run p C l (n :: fut) l2 (m1 + m2).

(** The numbers in the option *)
Definition address (a : Z + string) : option Z := match a with inl n => Some n | inr x => int_of_str x end.

Lemma int_of_address a : int_of a = of_option ValueError (address a).
Proof. by destruct a. Qed.

(** *** Lists *)

Lemma index_of_None n l : index_of n l = None → n ∉ l.
Proof.
  induction l as [|x l IH]; simpl; [intros _; apply not_elem_of_nil|]. destruct (Z.eqb_spec x n); [done|]. intros Hn%fmap_None. apply not_elem_of_cons. auto.
Qed.

Lemma index_of_Some n l i : index_of n l = Some i → 0 ≤ i ∧ n ∈ l.
Proof.
  revert i. induction l as [|x l IH]; intros i; simpl; [done|]. destruct (Z.eqb_spec x n) as [->|].
  { intros [= <-]. split; [lia|by left]. }
  intros (j & Hj & ->)%fmap_Some. destruct (IH _ Hj). split; [lia|by right].
Qed.

Lemma remove_first_lookup n l (k : nat) : NoDup l → l !! k = Some n → remove_first n l = delete k l.
Proof.
  revert k. induction l as [|x l IH]; intros k Hl Hk; [done|]. apply NoDup_cons in Hl as [Hx Hl].
  destruct k as [|k]; simpl in *; [simplify_eq; by rewrite Z.eqb_refl|].
  destruct (Z.eqb_spec x n) as [->|]; [by destruct Hx; eapply list_elem_of_lookup_2|]. by rewrite (IH k).
Qed.

Lemma remove_first_perm n l : n ∈ l → l ≡ₚ n :: remove_first n l.
Proof.
  induction l as [|x l IH]; [by intros ?%elem_of_nil|]. simpl. destruct (Z.eqb_spec x n) as [->|]; [done|].
  intros [->|Hn]%elem_of_cons; [done|]. rewrite (IH Hn) at 1. constructor.
Qed.

Lemma delete_perm' (l : list Z) k x : l !! k = Some x → l ≡ₚ x :: delete k l.
Proof. intros. by apply delete_Permutation. Qed.

(** A new page at the end *)
Lemma NoDup_add (l : list Z) n : NoDup l → n ∉ l → NoDup (l ++ [n]).
Proof. intros ? Hn. apply NoDup_app. split_and!; [done|set_solver|apply NoDup_singleton]. Qed.

Section Steps.
Context (p : policy) (C : nat).

Lemma mem_step_inv n fut l l' m : mem_step p C n fut l l' m → NoDup l → (length l ≤ C)%nat →
  NoDup l' ∧ (length l' ≤ C)%nat ∧ n ∈ l' ∧ (m ≤ 1)%nat.
Proof.
  intros Hs Hl HC. destruct Hs as [Hn|Hn Hlt|k Hn Hlen Hk _].
  - case_bool_decide; [|by auto]. pose proof (remove_first_perm _ _ Hn) as Hp. rewrite Hp in Hl, HC. apply NoDup_cons in Hl as [? ?].
    split_and!; [by apply NoDup_add|rewrite length_app; simpl in *; lia|set_solver|lia].
  - split_and!; [by apply NoDup_add|rewrite length_app; simpl; lia|set_solver|lia].
  - destruct (lookup_lt_is_Some_2 l k) as [x Hx]; [lia|]. pose proof (delete_perm' _ _ _ Hx) as Hp.
    rewrite Hp in Hl, HC. apply NoDup_cons in Hl as [? ?].
    split_and!; [apply NoDup_add; [done|]|rewrite length_app; simpl in *; lia|set_solver|lia]. intros ?. apply Hn. rewrite Hp. by right.
Qed.
End Steps.

(** ** The program runs the abstract policies *)

(** At most [B] references are counted for each page in memory. *)
Definition refs_ok (B : Z) (s : pager) : Prop := ∀ page, page ∈ memory s → ∃ r, ref s !! page = Some r ∧ r ≤ B.

(** The state after [done] references *)
Record pager_ok (C B done : Z) (s : pager) : Prop := {
  ok_nodup : NoDup (memory s);
  ok_count : count s = len (memory s);
  ok_size : count s ≤ C;
  ok_refs : refs_ok B s;
  ok_total : hits s + miss s = done;
  ok_hits : 0 ≤ hits s;
}.

Section Scan.
Context (addrList : list (Z + string)) (xs : list Z) (Hxs : mapM address addrList = Some xs).

Lemma addr_at i x : xs !! i = Some x → ∃ a, addrList !! i = Some a ∧ address a = Some x.
Proof. intros Hx. apply mapM_Some in Hxs. by apply (Forall2_lookup_r _ _ _ _ _ Hxs Hx). Qed.

Lemma addr_length : length addrList = length xs.
Proof. apply mapM_Some in Hxs. by apply Forall2_length in Hxs. Qed.

(** The next reference to [page] after [i] *)
Definition next_at (i : nat) (page : Z) : Z := Z.of_nat (S i + next_use (drop (S i) xs) page).

Lemma whenReferenced_eq i page s w : (i < length xs)%nat → whenReferenced addrList (Z.of_nat i) page s w = Ok (next_at i page) s w.
Proof.
  intros Hi. unfold whenReferenced, next_at. replace (Z.of_nat i + 1) with (Z.of_nat (S i)) by lia.
  assert (∀ m j, (j + m = length xs)%nat → ∃ r : () + Z, for_ret (range (Z.of_nat j) (len addrList)) tt (λ (_ : ()) (futureIdx : Z),
      a ← list_get addrList futureIdx; futurePage ← int_of a; mret (if page =? futurePage then inr futureIdx else inl tt)) s w = Ok r s w ∧
    match r with inr i => i | inl _ => len addrList end = Z.of_nat (j + next_use (drop j xs) page)) as Hgen.
  { induction m as [|m IH]; intros j Hj.
    - exists (inl tt). unfold len. rewrite addr_length, range_nil, drop_ge by lia. split; [done|]. simpl. lia.
    - destruct (lookup_lt_is_Some_2 xs j) as [x Hx]; [lia|]. destruct (addr_at _ _ Hx) as (a & Ha & Hax).
      rewrite range_cons by (unfold len; rewrite addr_length; lia). rewrite (drop_S _ _ _ Hx). cbn [for_ret next_use].
      unfold mbind, M_bind. erewrite list_get_nat by done. cbn -[range int_of next_use]. rewrite int_of_address, Hax. cbn -[range next_use].
      destruct (Z.eqb_spec page x) as [->|].
      + exists (inr (Z.of_nat j)). split; [done|]. rewrite decide_True by done. lia.
      + rewrite decide_False by done. destruct (IH (S j)) as (r & Hr & Hn); [lia|]. exists r.
        replace (Z.of_nat j + 1) with (Z.of_nat (S j)) by lia. split; [exact Hr|]. rewrite Hn. lia. }
  destruct (Hgen (length xs - S i)%nat (S i)) as (r & Hr & Hn); [lia|].
  unfold mbind at 1, M_bind at 1. rewrite Hr, <-Hn. done.
Qed.

Lemma wp_whenReferenced i page Q E s w : (i < length xs)%nat → wp (whenReferenced addrList (Z.of_nat i) page) Q E s w = Q (next_at i page) s w.
Proof. intros Hi. unfold wp. by rewrite whenReferenced_eq. Qed.

(** What the scans find, for a strict or a non-strict comparison *)
Lemma scan_spec better start i s w (Q : Z → pager → world → Prop) :
  (i < length xs)%nat → count s = len (memory s) → memory s ≠ [] →
  (∀ page, page ∈ memory s → better (next_at i page) start = true) →
  (∀ a b c, better a b = true → better b c = true → better a c = true) →
  (∀ a b c, better b a = false → better c a = true → better c b = true) →
  (∀ k x, memory s !! k = Some x →
    (∀ j y, memory s !! j = Some y → ((j < k)%nat → better (next_at i x) (next_at i y) = true) ∧
                                    ((k < j)%nat → better (next_at i y) (next_at i x) = false)) → Q (Z.of_nat k) s w) →
  wp (scan addrList better start (Z.of_nat i)) Q noexn s w.
Proof.
  intros Hi Hcount Hne Hstart Htrans Hskip HQ. unfold scan. wp_pures.
  apply (wp_for_acc (λ pre b s' w', s' = s ∧ w' = w ∧
    ((pre = [] ∧ b = (start, -1)) ∨ ∃ k x, memory s !! k = Some x ∧ (k < length pre)%nat ∧ b = (next_at i x, Z.of_nat k) ∧
      ∀ j y, (j < length pre)%nat → memory s !! j = Some y → ((j < k)%nat → better (next_at i x) (next_at i y) = true) ∧
        ((k < j)%nat → better (next_at i y) (next_at i x) = false)))); [by auto| |].
  - intros pre z post b s' w' Hr (-> & -> & Hb). apply range_split in Hr as (Hpre & -> & Hz).
    assert (∃ j, z = Z.of_nat j ∧ length pre = j) as (j & -> & Hlen).
    { exists (Z.to_nat z). rewrite Hpre, length_range. lia. }
    destruct (lookup_lt_is_Some_2 (memory s) j) as [y Hy]; [unfold len in *; lia|].
    wp_pures. rewrite py_get_nat, Hy. wp_pures. rewrite wp_whenReferenced by done. wp_pures. rewrite length_app, Hlen.
    split; [done|]. split; [done|]. right. destruct Hb as [[-> ->]|(k & x & Hx & Hk & -> & Hbest)]; simpl in *.
    + subst j. rewrite Hstart by by eapply list_elem_of_lookup_2. exists 0%nat, y. split_and!; [done|lia|done|]. lia.
    + rewrite Hlen in *. destruct (better (next_at i y) (next_at i x)) eqn:Hyx.
      * exists j, y. split_and!; [done|lia|done|]. intros j' y' Hj' Hy'. split; [|lia]. intros Hlt.
        destruct (Hbest j' y' Hlt Hy') as [Hlo Hhi]. destruct (decide (j' = k)) as [->|]; [by simplify_eq|].
        destruct (decide (j' < k)%nat); [eauto|]. apply (Hskip (next_at i x)); [apply Hhi; lia|done].
      * exists k, x. split_and!; [done|lia|done|]. intros j' y' Hj' Hy'. destruct (decide (j' = j)) as [->|]; [|apply Hbest; [lia|done]].
        simplify_eq. split; [lia|done].
  - intros b s' w' (-> & -> & Hb). rewrite length_range in Hb. replace (Z.to_nat (count s - 0)) with (length (memory s)) in Hb by (unfold len in *; lia).
    destruct Hb as [[Hnil _]|(k & x & Hx & Hk & -> & Hbest)].
    + destruct (memory s); [done|]. rewrite range_cons in Hnil by (unfold len in *; simpl in *; lia). done.
    + apply (HQ k x Hx). intros j y Hy. apply Hbest; [by eapply lookup_lt_Some|done].
Qed.
End Scan.

(** [v], at position [k], leaves the memory of [s]. *)
Definition evicted (B : Z) (s : pager) (k : nat) (v : Z) (s' : pager) : Prop :=
  memory s !! k = Some v ∧ memory s' = delete k (memory s) ∧ count s' = count s ∧ hits s' = hits s ∧ miss s' = miss s ∧ refs_ok B s'.

Lemma delete_subset (l : list Z) k x : x ∈ delete k l → x ∈ l.
Proof. intros Hx. eapply sublist_subseteq; [apply sublist_delete|done]. Qed.

Lemma refs_ok_delete B s s' k : refs_ok B s → memory s' = delete k (memory s) → ref s' = ref s → refs_ok B s'.
Proof. intros Hr Hm He page Hp. rewrite He. rewrite Hm in Hp. apply Hr. by eapply delete_subset. Qed.

Lemma pop_spec B k v s (Q : Z → pager → world → Prop) E w :
  refs_ok B s → memory s !! k = Some v → (∀ s', evicted B s k v s' → Q v s' w) → wp (pop (Z.of_nat k)) Q E s w.
Proof.
  intros Hr Hk HQ. unfold pop. wp_pures. rewrite py_index_nat, decide_True by by eapply lookup_lt_Some. simpl. rewrite Hk. simpl. wp_pures.
  apply HQ. split_and!; try done. by apply (refs_ok_delete _ s _ k).
Qed.

(** The references counted for the pages in memory *)
Definition counted (s : pager) : Z := sum_of (λ page, Z.max 0 (default 0 (ref s !! page))) (memory s).

Lemma counted_bound B s : 0 ≤ B → refs_ok B s → 0 ≤ counted s ≤ len (memory s) * B.
Proof.
  intros HB Hr. unfold counted. split; [apply sum_of_nonneg; lia|].
  trans (sum_of (λ _, B) (memory s)).
  - apply sum_of_le. intros page Hp. destruct (Hr _ Hp) as (r & -> & ?). simpl. lia.
  - unfold len. clear Hr. induction (memory s) as [|x l IH]; [simpl; lia|]. rewrite sum_of_cons. simpl length. lia.
Qed.

(** CLOCK ends: each draw uses up one counted reference, or finds a victim. *)
Lemma clock_victim_spec B fuel s w (Q : Z → pager → world → Prop) :
  0 ≤ B → NoDup (memory s) → count s = len (memory s) → memory s ≠ [] → refs_ok B s → rng_ok w → count s * B < Z.of_nat fuel →
  (∀ k v s' w', evicted B s k v s' → rng_ok w' → Q v s' w') → wp (clock_victim fuel) Q noexn s w.
Proof.
  intros HB Hnd Hc Hne Hr Hw Hf HQ. unfold clock_victim. wp_pures.
  pose (same s' := memory s' = memory s ∧ count s' = count s ∧ hits s' = hits s ∧ miss s' = miss s).
  apply (wp_while (λ _ s' w', same s' ∧ refs_ok B s' ∧ rng_ok w') (λ _ s' _, Z.to_nat (counted s'))).
  { unfold same. auto. }
  { pose proof (counted_bound B s HB Hr). lia. }
  intros _ s1 w1 ((Hm & Hc1 & Hh & Hmi) & Hr1 & Hw1). wp_pures. apply wp_rand_int; [destruct (memory s); [done|unfold len in Hc; simpl in Hc; lia]|done|].
  intros z w2 Hz Hw2 _. wp_pures. destruct (lookup_lt_is_Some_2 (memory s) (Z.to_nat z)) as [x Hx]; [unfold len in *; lia|].
  replace z with (Z.of_nat (Z.to_nat z)) by lia. rewrite py_get_nat, Hm, Hx. wp_pures.
  assert (x ∈ memory s) as Hin by by eapply list_elem_of_lookup_2.
  destruct (Hr1 x) as (r & Hrx & Hrb); [by rewrite Hm|]. rewrite Hrx. destruct (Z.leb_spec 1 r); wp_pures.
  - split; [split; [done|split; [|done]]|].
    + intros page Hp. simpl in *. destruct (decide (page = x)) as [->|]; simplify_map_eq; [eexists; split; [done|lia]|by apply Hr1].
    + apply Z2Nat.inj_lt; [apply sum_of_nonneg; lia..|]. unfold counted. simpl. rewrite Hm.
      rewrite (sum_of_update (λ page, Z.max 0 (default 0 (ref s1 !! page))) _ _ x); [|done|done|].
      * rewrite lookup_insert, decide_True, Hrx by done. simpl. lia.
      * intros y Hy. by rewrite lookup_insert_ne.
  - change (ref (s1 <| memory ::= remove_first x |>)) with (ref s1). rewrite Hrx. apply (HQ (Z.to_nat z)); [|done]. split_and!; [done|simpl; rewrite Hm; by apply remove_first_lookup|done..|].
    intros page Hp. simpl in *. rewrite Hm, (remove_first_lookup x _ (Z.to_nat z)) in Hp by done.
    destruct (decide (page = x)) as [->|].
    + pose proof (delete_perm' _ _ _ Hx) as Hperm. rewrite Hperm in Hnd. by apply NoDup_cons in Hnd as [? _].
    + rewrite lookup_delete_ne by done. apply Hr1. rewrite Hm. by eapply delete_subset.
Qed.

Section Replace.
Context (p : policy) (cachesize clockbits : Z) (addrList : list (Z + string)) (xs : list Z) (Hxs : mapM address addrList = Some xs).
Implicit Types (s : pager) (w : world).
Let B := Z.max 1 clockbits.

(** The scans, on the whole list, compare as [chosen] does on the future. *)
Lemma wp_scan_pop q better start i s w (Q : Z → pager → world → Prop) :
  (i < length xs)%nat → count s = len (memory s) → memory s ≠ [] → refs_ok B s →
  (better = (λ t b, b <=? t) ∧ start = -1 ∧ q = OPT ∨ better = (λ t b, t <? b) ∧ start = len addrList + 1 ∧ q = UNOPT) →
  (∀ k v s', chosen q (drop (S i) xs) (memory s) k → evicted B s k v s' → Q v s' w) →
  wp (z ← scan addrList better start (Z.of_nat i); pop z) Q noexn s w.
Proof.
  intros Hi Hc Hne Hr Hcase HQ. rewrite wp_bind. apply (scan_spec addrList xs Hxs); [done..| | | |].
  - intros page _. assert (0 ≤ next_at xs i page ≤ len addrList).
    { unfold next_at, len. rewrite (addr_length _ _ Hxs). pose proof (next_use_bound (drop (S i) xs) page). rewrite length_drop in *. lia. }
    destruct Hcase as [(-> & -> & _)|(-> & -> & _)]; simpl; lia.
  - destruct Hcase as [(-> & _)|(-> & _)]; intros a b c; simpl; lia.
  - destruct Hcase as [(-> & _)|(-> & _)]; intros a b c; simpl; lia.
  - intros k x Hx Hbest. apply (pop_spec B k x); [done..|]. intros s'. apply HQ.
    destruct Hcase as [(-> & -> & ->)|(-> & -> & ->)]; exists x; (split; [done|]); intros j y Hy;
      destruct (Hbest j y Hy) as [Hlo Hhi]; unfold next_at in *; cbv beta in Hlo, Hhi.
    + setoid_rewrite Z.leb_le in Hlo. setoid_rewrite Z.leb_gt in Hhi.
      destruct (decide (j = k)) as [->|]; [simplify_eq; lia|]. destruct (decide (j < k)%nat); [|assert (k < j)%nat by lia]; lia.
    + setoid_rewrite Z.ltb_lt in Hlo. setoid_rewrite Z.ltb_ge in Hhi.
      destruct (decide (j = k)) as [->|]; [simplify_eq; lia|]. destruct (decide (j < k)%nat); [|assert (k < j)%nat by lia]; lia.
Qed.

Lemma replace_spec fuel i s w (Q : Z → pager → world → Prop) :
  (i < length xs)%nat → NoDup (memory s) → count s = len (memory s) → memory s ≠ [] → refs_ok B s → rng_ok w →
  count s * B < Z.of_nat fuel →
  (∀ k v s' w', chosen p (drop (S i) xs) (memory s) k → evicted B s k v s' → rng_ok w' → Q v s' w') →
  wp (replace p addrList fuel (Z.of_nat i)) Q noexn s w.
Proof.
  intros Hi Hnd Hc Hne Hr Hw Hf HQ. unfold replace. rewrite wp_bind, wp_get.
  assert (0 < len (memory s)) as Hpos by (destruct (memory s); [done|unfold len; simpl; lia]).
  destruct (lookup_lt_is_Some_2 (memory s) 0) as [v0 Hv0]; [unfold len in *; lia|].
  destruct (lookup_lt_is_Some_2 (memory s) (length (memory s) - 1)) as [v1 Hv1]; [unfold len in *; lia|].
  destruct p.
  - apply (pop_spec B 0 v0); [done..|]. intros s' ?. by apply (HQ 0%nat).
  - apply (pop_spec B 0 v0); [done..|]. intros s' ?. by apply (HQ 0%nat).
  - replace (count s - 1) with (Z.of_nat (length (memory s) - 1)) by (unfold len in *; lia).
    apply (pop_spec B _ v1); [done..|]. intros s' ?. apply (HQ (length (memory s) - 1)%nat); [unfold len in *; simpl; lia|done..].
  - rewrite wp_bind. apply wp_rand_int; [lia|done|]. intros z w' Hz Hw' _.
    destruct (lookup_lt_is_Some_2 (memory s) (Z.to_nat z)) as [v Hv]; [unfold len in *; lia|].
    replace z with (Z.of_nat (Z.to_nat z)) by lia. apply (pop_spec B _ v); [done..|]. intros s' ?. by apply (HQ (Z.to_nat z)).
  - apply (clock_victim_spec B); [lia|done..|]. intros k v s' w' ? ?. by apply (HQ k).
  - apply (wp_scan_pop OPT _ _ i); [done..|by left|]. intros k v s' ? ?. by apply (HQ k).
  - apply (wp_scan_pop UNOPT _ _ i); [done..|by right|]. intros k v s' ? ?. by apply (HQ k).
Qed.

(** The pages in memory, [n] apart, have their counts. *)
Definition refs_but (n : Z) (s : pager) : Prop := ∀ page, page ∈ memory s → page ≠ n → ∃ r, ref s !! page = Some r ∧ r ≤ B.

Lemma touch_spec n s (Q : unit → pager → world → Prop) E w :
  refs_but n s → (∀ f, refs_ok B (s <| ref ::= f |>) → Q tt (s <| ref ::= f |>) w) → wp (touch clockbits n) Q E s w.
Proof.
  intros Hr HQ. unfold touch. wp_pures. assert (∀ x, x ≤ B → refs_ok B (s <| ref ::= <[n := x]> |>)) as Hins.
  { intros x Hx page Hp. simpl. destruct (decide (page = n)) as [->|]; simplify_map_eq; [by eexists|by apply Hr]. }
  destruct (ref s !! n); wp_pures; apply HQ; apply Hins; unfold B; lia.
Qed.

Lemma load_page_spec fuel i n s w (Q : Z → pager → world → Prop) :
  (i < length xs)%nat → 0 < cachesize → NoDup (memory s) → count s = len (memory s) → count s ≤ cachesize → refs_ok B s → rng_ok w →
  n ∉ memory s → cachesize * B < Z.of_nat fuel →
  (∀ v s' w', mem_step p (Z.to_nat cachesize) n (drop (S i) xs) (memory s) (memory s') 1 → count s' = len (memory s') →
    hits s' = hits s → miss s' = miss s → refs_but n s' → rng_ok w' → Q v s' w') →
  wp (load_page p cachesize addrList fuel (Z.of_nat i) n) Q noexn s w.
Proof.
  intros Hi HC Hnd Hc Hle Hr Hw Hn Hf HQ. unfold load_page. rewrite wp_bind, wp_get, wp_bind.
  destruct (Z.eqb_spec (count s) cachesize) as [Hfull|Hroom].
  - apply (replace_spec fuel i); [done..| |done|done|by rewrite Hfull|].
    { intros He. rewrite He in Hc. unfold len in Hc. simpl in Hc. lia. }
    intros k v s1 w1 Hch (Hk & Hm1 & Hc1 & Hh1 & Hmi1 & Hr1) Hw1. wp_pures.
    pose proof (delete_perm' _ _ _ Hk) as Hp. assert (k < length (memory s))%nat by by eapply lookup_lt_Some.
    match goal with |- context [bool_decide ?P] => rewrite (bool_decide_false P) end.
    2: { simpl. rewrite Hm1. rewrite Hp in Hnd, Hn. apply NoDup_cons in Hnd as [? _]. set_solver. }
    assert (Q v (s1 <| memory ::= (.++ [n]) |>) w1); [|by destruct (negb (v =? -1))].
    apply HQ; simpl; rewrite ?Hm1; [by constructor 3 with (k := k); [|unfold len in *; lia..|]| |done|done| |done].
    + unfold len in *. rewrite length_app, length_delete by done. simpl. lia.
    + intros page Hpage Hne. simpl in *. apply Hr1. set_solver.
  - wp_pures. apply HQ; simpl; [apply step_fill; [done|unfold len in *; lia]| |done|done| |done].
    + unfold len in *. rewrite length_app. simpl. lia.
    + intros page Hpage Hne. simpl in *. apply Hr. set_solver.
Qed.

Lemma access_spec fuel notrace i n a s w (Q : Z → pager → world → Prop) :
  (i < length xs)%nat → 0 < cachesize → pager_ok cachesize B (Z.of_nat i) s → address a = Some n → rng_ok w → cachesize * B < Z.of_nat fuel →
  (∀ m s' w', mem_step p (Z.to_nat cachesize) n (drop (S i) xs) (memory s) (memory s') m → miss s' = miss s + Z.of_nat m →
    pager_ok cachesize B (Z.of_nat (S i)) s' → rng_ok w' → Q (Z.of_nat (S i)) s' w') →
  wp (access p cachesize clockbits addrList fuel notrace (Z.of_nat i) a) Q noexn s w.
Proof.
  intros Hi HC Hok Ha Hw Hf HQ. destruct Hok as [Hnd Hc Hle Hr Ht Hh].
  assert (∀ m s1 w1, mem_step p (Z.to_nat cachesize) n (drop (S i) xs) (memory s) (memory s1) m → miss s1 = miss s + Z.of_nat m →
    count s1 = len (memory s1) → hits s1 + miss s1 = hits s + miss s + 1 → 0 ≤ hits s1 → refs_but n s1 → rng_ok w1 → ∀ x,
    wp (touch clockbits n) (λ _ s w, wp (s ← get; when (negb notrace) (print (x s));; mret (Z.of_nat i + 1)) Q noexn s w) noexn s1 w1) as Hend.
  { intros m s1 w1 Hs Hmi Hc1 Ht1 Hh1 Hr1 Hw1 x. apply touch_spec; [done|]. intros f Hf1. wp_pures.
    destruct (mem_step_inv _ _ _ _ _ _ _ Hs Hnd) as (? & ? & _); [unfold len in *; lia|].
    replace (Z.of_nat i + 1) with (Z.of_nat (S i)) by lia.
    assert (∀ w2, rng_ok w2 → Q (Z.of_nat (S i)) (s1 <| ref ::= f |>) w2); [|destruct notrace; simpl; auto].
    intros w2 Hw2. apply (HQ m); [done..| |done]. split; simpl; [done|done|unfold len in *; lia|done|lia|done]. }
  unfold access. rewrite wp_bind, int_of_address, Ha. cbn -[look_up load_page touch]. rewrite wp_ret, wp_bind. unfold look_up. wp_pures.
  destruct (index_of n (memory s)) as [idx|] eqn:Hidx.
  - apply index_of_Some in Hidx as [Hidx Hn]. wp_pures. rewrite (proj2 (Z.eqb_neq idx (-1))) by lia. wp_pures.
    pose proof (step_hit p (Z.to_nat cachesize) n (drop (S i) xs) (memory s) Hn) as Hs. revert Hs.
    pose proof (remove_first_perm _ _ Hn) as Hp. destruct (bool_decide (p = LRU ∨ p = MRU)); intros Hs.
    + apply (Hend 0%nat); simpl; [done|lia| |lia|lia| |done].
      * apply Permutation_length in Hp. unfold len in *. rewrite Hc, length_app. simpl in *. lia.
      * intros page Hpage Hne. simpl in *. apply Hr. rewrite Hp. set_solver.
    + apply (Hend 0%nat); simpl; [done|lia|done|lia|lia| |done]. intros page Hpage _. by apply Hr.
  - apply index_of_None in Hidx. wp_pures. apply (load_page_spec fuel i); [done..|].
    intros v s1 w1 Hs Hc1 Hh1 Hmi1 Hr1 Hw1. simpl in *. rewrite wp_bind. apply (Hend 1%nat); [done|lia|done|lia|lia|done..].
Qed.
End Replace.

(** ** Whole runs *)
Section Runs.
Context (p : policy) (cachesize clockbits : Z) (addrList : list (Z + string)) (xs : list Z) (fuel : nat) (notrace : bool).
Context (Hxs : mapM address addrList = Some xs) (HC : 0 < cachesize) (Hf : cachesize * Z.max 1 clockbits < Z.of_nat fuel).

Lemma accesses_spec m : ∀ i s w, (i + m = length xs)%nat → pager_ok cachesize (Z.max 1 clockbits) (Z.of_nat i) s → rng_ok w →
  wp (for_acc (drop i addrList) (Z.of_nat i) (access p cachesize clockbits addrList fuel notrace))
     (λ _ s' _, ∃ k, mem_run p (Z.to_nat cachesize) (memory s) (drop i xs) (memory s') k ∧ miss s' = miss s + Z.of_nat k ∧
        pager_ok cachesize (Z.max 1 clockbits) (len xs) s') noexn s w.
Proof.
  induction m as [|m IH]; intros i s w Hi Hok Hw.
  { rewrite !drop_ge by (rewrite ?(addr_length _ _ Hxs); lia). exists 0%nat. split_and!; [constructor|lia|].
    unfold len. by replace (length xs) with i by lia. }
  destruct (lookup_lt_is_Some_2 xs i) as [n Hn]; [lia|]. destruct (addr_at _ _ Hxs _ _ Hn) as (a & Ha & Han).
  rewrite (drop_S addrList _ _ Ha), (drop_S xs _ _ Hn). cbn [for_acc]. rewrite wp_bind.
  apply (access_spec _ _ _ addrList xs Hxs fuel notrace i n); [lia|done..|].
  intros k s1 w1 Hs Hmi Hok1 Hw1. eapply wp_conseq; [apply IH; [lia|done..]|].
  intros _ s2 _ (k' & Hrun & Hmi2 & Hok2). exists (k + k')%nat. split_and!; [by econstructor|lia|done].
Qed.

Lemma simulate_spec w : rng_ok w → wp (simulate p cachesize clockbits addrList fuel notrace)
  (λ _ s _, ∃ k, mem_run p (Z.to_nat cachesize) [] xs (memory s) k ∧ miss s = Z.of_nat k ∧ pager_ok cachesize (Z.max 1 clockbits) (len xs) s)
  noexn pager_init w.
Proof.
  intros Hw. unfold simulate. rewrite wp_bind. eapply wp_conseq.
  - apply (accesses_spec (length xs) 0 pager_init w); [done| |done].
    split; simpl; [constructor|done|lia| |done|lia]. intros page Hp. by apply elem_of_nil in Hp.
  - intros _ s w1 (k & Hrun & Hmi & Hok). exists k. split_and!; [by rewrite drop_0 in Hrun|simpl in Hmi; lia|done].
Qed.
End Runs.

Lemma mem_run_last p C l xs l' m x : mem_run p C l xs l' m → NoDup l → (length l ≤ C)%nat → last xs = Some x → x ∈ l'.
Proof.
  induction 1 as [l|n fut l l1 l2 m1 m2 Hs Hrun IH]; intros Hnd HC Hlast; [done|].
  destruct (mem_step_inv _ _ _ _ _ _ _ Hs Hnd HC) as (? & ? & Hin & _).
  destruct fut as [|y fut]; [|by apply IH]. simpl in Hlast. simplify_eq. by inversion Hrun; subst.
Qed.

(** *** As sets of pages *)
Section Sets.
Context (C : nat) (l : list Z) (Hl : NoDup l).

Lemma set_of_size : size (list_to_set l : gset Z) = length l.
Proof. by apply size_list_to_set. Qed.

Lemma set_of_delete k v n : l !! k = Some v → (list_to_set (delete k l ++ [n]) : gset Z) = {[n]} ∪ (list_to_set l ∖ {[v]}).
Proof.
  intros Hk. pose proof (delete_perm' _ _ _ Hk) as Hp. assert (v ∉ delete k l) as Hv.
  { rewrite Hp in Hl. by apply NoDup_cons in Hl as [? _]. }
  rewrite list_to_set_app_L. apply set_eq. intros x. rewrite elem_of_union, !elem_of_list_to_set, elem_of_union, elem_of_difference, !elem_of_list_to_set.
  assert (x ∈ l ↔ x = v ∨ x ∈ delete k l) as -> by (remember (delete k l) as q; rewrite Hp; apply elem_of_cons). set_solver.
Qed.

Lemma set_of_hit p n : n ∈ l → (list_to_set (if bool_decide (p = LRU ∨ p = MRU) then remove_first n l ++ [n] else l) : gset Z) = list_to_set l.
Proof.
  intros Hn. case_bool_decide; [|done]. apply set_eq. intros x. rewrite !elem_of_list_to_set. pose proof (remove_first_perm _ _ Hn) as Hp.
  assert (x ∈ l ↔ x = n ∨ x ∈ remove_first n l) as -> by (remember (remove_first n l) as q; rewrite Hp; apply elem_of_cons). set_solver.
Qed.
End Sets.

Lemma mem_run_demand p C l xs l' m : mem_run p C l xs l' m → NoDup l → (length l ≤ C)%nat → demand C (list_to_set l) xs m.
Proof.
  induction 1 as [l|n fut l l1 l2 m1 m2 Hs _ IH]; intros Hnd HC; [constructor|].
  destruct (mem_step_inv _ _ _ _ _ _ _ Hs Hnd HC) as (Hnd1 & HC1 & _ & _). specialize (IH Hnd1 HC1).
  destruct Hs as [Hn|Hn Hlt|k Hn Hlen Hk _]; simpl.
  - apply demand_hit; [by apply elem_of_list_to_set|]. by rewrite set_of_hit in IH.
  - apply demand_fill; [by rewrite elem_of_list_to_set|by rewrite set_of_size|].
    rewrite list_to_set_app_L in IH. by replace ({[n]} ∪ list_to_set l) with (list_to_set l ∪ list_to_set [n] : gset Z) by set_solver.
  - destruct (lookup_lt_is_Some_2 l k) as [v Hv]; [lia|].
    apply (demand_evict _ _ _ v); [by rewrite elem_of_list_to_set|rewrite set_of_size by done; lia| |by rewrite <-set_of_delete with (k := k)].
    apply elem_of_list_to_set. by eapply list_elem_of_lookup_2.
Qed.

Lemma mem_run_farthest C l xs l' m : mem_run OPT C l xs l' m → NoDup l → (length l ≤ C)%nat → farthest C (list_to_set l) xs m.
Proof.
  induction 1 as [l|n fut l l1 l2 m1 m2 Hs _ IH]; intros Hnd HC; [constructor|].
  destruct (mem_step_inv _ _ _ _ _ _ _ Hs Hnd HC) as (Hnd1 & HC1 & _ & _). specialize (IH Hnd1 HC1).
  destruct Hs as [Hn|Hn Hlt|k Hn Hlen Hk (v & Hv & Hfar)]; simpl.
  - apply farthest_hit; [by apply elem_of_list_to_set|done].
  - apply farthest_fill; [by rewrite elem_of_list_to_set|by rewrite set_of_size|].
    rewrite list_to_set_app_L in IH. by replace ({[n]} ∪ list_to_set l) with (list_to_set l ∪ list_to_set [n] : gset Z) by set_solver.
  - apply (farthest_evict _ _ _ v); [by rewrite elem_of_list_to_set|rewrite set_of_size by done; lia| | |by rewrite <-set_of_delete with (k := k)].
    + apply elem_of_list_to_set. by eapply list_elem_of_lookup_2.
    + intros e [j Hj]%elem_of_list_to_set%list_elem_of_lookup_1. by apply (Hfar j).
Qed.

(** *** LRU and the size of the cache

    A larger LRU cache holds what a smaller one holds, as its recent end. *)
Lemma lru_step_inclusion C C' n fut pre l l1 m l1' m' :
  (0 < C)%nat → (C ≤ C')%nat → NoDup (pre ++ l) → (length l ≤ C)%nat → (length l < C → pre = [])%nat →
  mem_step LRU C n fut l l1 m → mem_step LRU C' n fut (pre ++ l) l1' m' →
  ∃ pre1, l1' = pre1 ++ l1 ∧ (length l1 < C → pre1 = [])%nat ∧ (m' ≤ m)%nat.
Proof.
  intros HC HCC Hnd Hl Hpre Hs Hs'. apply NoDup_app in Hnd as Hnd'. destruct Hnd' as (Hndp & Hdis & Hndl).
  assert (∀ q, n ∉ q → remove_first n (q ++ l) = q ++ remove_first n l) as Hskip.
  { induction q as [|x q IH]; intros Hq; [done|]. apply not_elem_of_cons in Hq as [? ?]. simpl.
    destruct (Z.eqb_spec x n); [congruence|]. by rewrite IH. }
  assert (∀ q, n ∈ q → remove_first n (q ++ l) = remove_first n q ++ l) as Hfirst.
  { induction q as [|x q IH]; intros Hq; [by apply elem_of_nil in Hq|]. simpl.
    destruct (Z.eqb_spec x n); [done|]. apply elem_of_cons in Hq as [->|Hq]; [done|]. by rewrite IH. }
  assert ((0 < length l)%nat → ∃ x l0, l = x :: l0) as Hcons by (destruct l; simpl; [lia|eauto]).
  inversion Hs as [Hn|Hn Hlt|k Hn Hlen Hk Hch]; subst; simpl in *.
  - assert (n ∉ pre) as Hnp by set_solver. inversion Hs' as [Hn'|Hn'|? Hn']; subst; [|set_solver..].
    rewrite ?bool_decide_true by auto. exists pre. rewrite Hskip, <-(assoc (++)) by done. split_and!; [done| |lia].
    intros Hlt. apply Hpre. rewrite length_app in Hlt. apply remove_first_perm, Permutation_length in Hn. simpl in *. lia.
  - rewrite Hpre in * by done. inversion Hs' as [Hn'|Hn' Hlt'|? Hn' Hlen']; subst; simpl in *; [done| |lia].
    exists []. split_and!; [done|done|lia].
  - subst k. destruct Hcons as (x & l0 & ->); [lia|]. simpl in *.
    inversion Hs' as [Hn'|Hn' Hlt'|k' Hn' Hlen' Hk' Hch']; subst; simpl in *.
    + assert (n ∈ pre) as Hnp by set_solver. rewrite ?bool_decide_true by auto.
      exists (remove_first n pre ++ [x]). rewrite Hfirst by done. rewrite <-!(assoc (++)). split_and!; [done| |lia].
      rewrite length_app. simpl. lia.
    + exists (pre ++ [x]). rewrite <-!(assoc (++)). split_and!; [done|rewrite length_app; simpl; lia|lia].
    + subst k'. destruct pre as [|y pre]; simpl in *.
      * exists []. split_and!; [done|done|lia].
      * exists (pre ++ [x]). rewrite <-!(assoc (++)). split_and!; [done|rewrite length_app; simpl; lia|lia].
Qed.

Lemma lru_run_inclusion C C' xs : ∀ pre l l1 m l1' m',
  (0 < C)%nat → (C ≤ C')%nat → NoDup (pre ++ l) → (length (pre ++ l) ≤ C')%nat → (length l ≤ C)%nat → (length l < C → pre = [])%nat →
  mem_run LRU C l xs l1 m → mem_run LRU C' (pre ++ l) xs l1' m' → ∃ pre1, l1' = pre1 ++ l1 ∧ (m' ≤ m)%nat.
Proof.
  induction xs as [|n xs IH]; intros pre l l1 m l1' m' HC HCC Hnd Hlen' Hlen Hpre Hrun Hrun'.
  { inversion Hrun; inversion Hrun'; subst. eauto. }
  inversion Hrun as [|? ? ? l2 ? k1 k2 Hs Hr]; subst. inversion Hrun' as [|? ? ? l2' ? k1' k2' Hs' Hr']; subst.
  destruct (lru_step_inclusion C C' n xs pre l l2 k1 l2' k1') as (pre2 & -> & Hpre2 & Hk); [done..|].
  apply NoDup_app in Hnd as Hndl. destruct Hndl as (_ & _ & Hndl).
  destruct (mem_step_inv _ _ _ _ _ _ _ Hs' Hnd Hlen') as (Hnd2 & Hl2' & _).
  destruct (mem_step_inv _ _ _ _ _ _ _ Hs Hndl Hlen) as (_ & Hl2 & _).
  destruct (IH pre2 l2 l1 k2 l1' k2') as (pre1 & ? & ?); [done..|]. exists pre1. split; [done|lia].
Qed.

(** ** The theorems *)

(** C27: for every policy, a cache of at least one page and any list of
    numbers, the simulation completes: no exception, no failed assertion, and
    CLOCK's search ends within [cachesize * max(1, clockbits)] draws.  The
    memory goes through the steps of the abstract policy, misses are counted
    as there, no page is in memory twice, the cache is never exceeded, each
    reference is a hit or a miss, and the page referenced last is in memory. *)
Theorem policies_sound p cachesize clockbits addrList xs fuel notrace w :
  0 < cachesize → mapM address addrList = Some xs → cachesize * Z.max 1 clockbits < Z.of_nat fuel → rng_ok w →
  wp (simulate p cachesize clockbits addrList fuel notrace) (λ _ s _,
    mem_run p (Z.to_nat cachesize) [] xs (memory s) (Z.to_nat (miss s)) ∧ NoDup (memory s) ∧ len (memory s) ≤ cachesize ∧
    hits s + miss s = len xs ∧ 0 ≤ hits s ∧ 0 ≤ miss s ∧ (∀ x, last xs = Some x → x ∈ memory s)) noexn pager_init w.
Proof.
  intros HC Hxs Hf Hw. eapply wp_conseq; [by apply (simulate_spec p _ _ _ xs)|]. intros _ s _ (k & Hrun & Hmi & Hok).
  destruct Hok as [Hnd Hc Hle _ Ht Hh]. rewrite Hmi, Nat2Z.id. split_and!; [done..|lia|lia|lia|lia|].
  intros x. eapply mem_run_last; [done|constructor|simpl; lia].
Qed.

(** C28: OPT is optimal: on the same references and with the same cache, no
    policy, whatever it draws, has fewer misses than OPT. *)
Theorem opt_is_optimal cachesize clockbits addrList xs fuel notrace w :
  0 < cachesize → mapM address addrList = Some xs → cachesize * Z.max 1 clockbits < Z.of_nat fuel → rng_ok w →
  wp (simulate OPT cachesize clockbits addrList fuel notrace) (λ _ s _,
    ∀ p notrace' w', rng_ok w' →
      wp (simulate p cachesize clockbits addrList fuel notrace') (λ _ s' _, miss s ≤ miss s') noexn pager_init w') noexn pager_init w.
Proof.
  intros HC Hxs Hf Hw. eapply wp_conseq; [by apply (simulate_spec OPT _ _ _ xs)|]. intros _ s _ (k & Hrun & Hmi & _) p nt w' Hw'.
  eapply wp_conseq; [by apply (simulate_spec p _ _ _ xs)|]. intros _ s' _ (k' & Hrun' & Hmi' & _). rewrite Hmi, Hmi'.
  apply mem_run_farthest in Hrun; [|constructor|simpl; lia]. apply mem_run_demand in Hrun'; [|constructor|simpl; lia].
  apply inj_le. by eapply farthest_minimal.
Qed.

(** C29: LRU has no anomaly: with a larger cache the memory keeps what a
    smaller cache keeps, in the same order and as its recent end, and there
    are no more misses. *)
Theorem lru_inclusion cachesize cachesize' clockbits addrList xs fuel fuel' notrace notrace' w w' :
  0 < cachesize → cachesize ≤ cachesize' → mapM address addrList = Some xs → rng_ok w → rng_ok w' →
  cachesize * Z.max 1 clockbits < Z.of_nat fuel → cachesize' * Z.max 1 clockbits < Z.of_nat fuel' →
  wp (simulate LRU cachesize clockbits addrList fuel notrace) (λ _ s _,
    wp (simulate LRU cachesize' clockbits addrList fuel' notrace') (λ _ s' _,
      miss s' ≤ miss s ∧ ∃ older, memory s' = older ++ memory s) noexn pager_init w') noexn pager_init w.
Proof.
  intros HC HCC Hxs Hw Hw' Hf Hf'. eapply wp_conseq; [by apply (simulate_spec LRU _ _ _ xs)|]. intros _ s _ (k & Hrun & Hmi & _).
  eapply wp_conseq; [apply (simulate_spec LRU _ _ _ xs); [done|lia|done..]|]. intros _ s' _ (k' & Hrun' & Hmi' & _). rewrite Hmi, Hmi'.
  destruct (lru_run_inclusion (Z.to_nat cachesize) (Z.to_nat cachesize') xs [] [] (memory s) k (memory s') k') as (pre & ? & ?);
    [lia|lia|constructor|simpl; lia..|done|done|done|].
  split; [lia|by exists pre].
Qed.

(** The lines of a file are read as numbers, or the first that is none ends
    the program. *)
Lemma read_lines lines pre s w : for_acc lines (inl <$> pre) (λ l line, n ← py_int line; mret (l ++ [inl n])) s w =
  match mapM int_of_str lines with Some xs => Ok (inl <$> pre ++ xs : list (Z + string)) s w | None => Raise (S:=pager) ValueError s w end.
Proof.
  revert pre. induction lines as [|x lines IH]; intros pre.
  { change (mapM int_of_str []) with (Some [] : option (list Z)). cbv beta iota. by rewrite app_nil_r. }
  simpl. change (py_int (S:=pager) x) with (of_option (St:=pager) ValueError (int_of_str x)).
  destruct (int_of_str x) as [n|]; [|done]. unfold mbind at 1, M_bind at 1. simpl.
  unfold mbind at 1, M_bind at 1. simpl. replace ((inl <$> pre) ++ [inl n]) with (inl <$> pre ++ [n] : list (Z + string)) by by rewrite fmap_app.
  rewrite IH. destruct (mapM int_of_str lines); simpl; [|done]. by rewrite <-(assoc (++)).
Qed.

Lemma for_prints l s w : for_ l print s w = Ok tt s (World (reverse ((λ x, x +:+ nl) <$> l) ++ stdout w) (rng w) (rpos w)) :> res pager unit.
Proof.
  revert w. induction l as [|x l IH]; intros w; [by destruct w|]. simpl. unfold mbind, M_bind. simpl. rewrite IH. simpl.
  by rewrite reverse_cons, <-(assoc (++)).
Qed.

(** C30: the ways the program fails on the addresses of a file: at a line that
    is not a number it raises [ValueError] with nothing but the options
    printed, a policy with another name ends the program with status 1, and an
    empty file makes the hit rate a division by zero. *)
Theorem paging_errors file lines addresses numaddrs maxpage seed polname cachesize clockbits notrace fuel w : file ≠ "" →
  let run := main fuel file lines addresses numaddrs maxpage seed polname cachesize clockbits notrace true in
  (mapM int_of_str lines = None → ∃ w', run pager_init w = Raise ValueError pager_init w' ∧ rpos w' = rpos w ∧
    shown (banner addresses file numaddrs polname clockbits cachesize maxpage seed notrace) w w') ∧
  (is_Some (mapM int_of_str lines) → policy_of_string polname = None →
    wp run (λ _ _ _, False) (λ e s _, e = SystemExit 1 ∧ s = pager_init) pager_init w) ∧
  (lines = [] → is_Some (policy_of_string polname) →
    wp run (λ _ _ _, False) (λ e s _, e = ZeroDivisionError ∧ s = pager_init) pager_init w).
Proof.
  intros Hfile run. pose proof (read_lines lines []) as Hread. simpl in Hread.
  set (ls := banner addresses file numaddrs polname clockbits cachesize maxpage seed notrace).
  set (w1 := World (reverse ((λ x, x +:+ nl) <$> ls) ++ stdout w) (rng w) (rpos w)).
  assert (run pager_init w = (addrList ← addr_list (Some lines) addresses numaddrs maxpage;
    when (negb notrace) (print ("Solving..." +:+ nl));;
    match policy_of_string polname with
    | None => print ("Policy " +:+ polname +:+ " is not yet implemented");; raise (SystemExit 1)
    | Some p => simulate p cachesize clockbits addrList fuel notrace;; finalstats
    end) pager_init w1) as Hrun.
  { unfold run, main. rewrite bool_decide_false by done. cbn [negb]. fold ls.
    unfold mbind at 1, M_bind at 1. by rewrite for_prints. }
  unfold addr_list, mbind at 1, M_bind at 1 in Hrun. rewrite Hread in Hrun. split; [|split].
  - intros Hnone. rewrite Hnone in Hrun. exists w1. by split_and!.
  - intros [xs Hsome] Hpol. unfold wp. rewrite Hrun, Hsome, Hpol. by destruct notrace.
  - intros -> [p Hpol]. unfold wp. rewrite Hrun. simpl. rewrite Hpol. by destruct notrace.
Qed.

(** *** Witnesses: 1, 2, 3, 1, 2 in two page frames *)

Lemma policies_sound_witness :
  wp (simulate CLOCK 2 1 (inr <$> ["1"; "2"; "3"; "1"; "2"]) 10 true) (λ _ s _,
    mem_run CLOCK 2 [] [1; 2; 3; 1; 2] (memory s) (Z.to_nat (miss s)) ∧ NoDup (memory s) ∧ len (memory s) ≤ 2 ∧
    hits s + miss s = len [1; 2; 3; 1; 2] ∧ 0 ≤ hits s ∧ 0 ≤ miss s ∧ (∀ x, last [1; 2; 3; 1; 2] = Some x → x ∈ memory s))
    noexn pager_init (world_of [30; 80]).
Proof. apply (policies_sound CLOCK 2 1 _ [1; 2; 3; 1; 2]); [lia|reflexivity|simpl; lia|apply world_of_ok; repeat constructor; lia]. Defined.

Lemma opt_is_optimal_witness :
  wp (simulate OPT 2 1 (inr <$> ["1"; "2"; "3"; "1"; "2"]) 10 true) (λ _ s _,
    ∀ p notrace' w', rng_ok w' →
      wp (simulate p 2 1 (inr <$> ["1"; "2"; "3"; "1"; "2"]) 10 notrace') (λ _ s' _, miss s ≤ miss s') noexn pager_init w')
    noexn pager_init (world_of []).
Proof. apply (opt_is_optimal 2 1 _ [1; 2; 3; 1; 2]); [lia|reflexivity|simpl; lia|apply world_of_ok; repeat constructor]. Defined.

Lemma lru_inclusion_witness :
  wp (simulate LRU 2 1 (inr <$> ["1"; "2"; "3"; "1"; "2"]) 10 true) (λ _ s _,
    wp (simulate LRU 3 1 (inr <$> ["1"; "2"; "3"; "1"; "2"]) 10 true) (λ _ s' _,
      miss s' ≤ miss s ∧ ∃ older, memory s' = older ++ memory s) noexn pager_init (world_of [])) noexn pager_init (world_of []).
Proof.
  apply (lru_inclusion 2 3 1 _ [1; 2; 3; 1; 2]); [lia|lia|reflexivity|apply world_of_ok; repeat constructor..|simpl; lia|simpl; lia].
Defined.

Lemma paging_errors_witness :
  (∃ w', main 10 "refs" ["1"; "x"] "-1" 10 10 0 "FIFO" 3 2 true true pager_init (world_of []) = Raise ValueError pager_init w') ∧
  wp (main 10 "refs" ["1"; "2"] "-1" 10 10 0 "LIFO" 3 2 true true) (λ _ _ _, False) (λ e s _, e = SystemExit 1 ∧ s = pager_init)
    pager_init (world_of []) ∧
  wp (main 10 "refs" [] "-1" 10 10 0 "FIFO" 3 2 true true) (λ _ _ _, False) (λ e s _, e = ZeroDivisionError ∧ s = pager_init)
    pager_init (world_of []).
Proof.
  split; [|split].
  - destruct (proj1 (paging_errors "refs" ["1"; "x"] "-1" 10 10 0 "FIFO" 3 2 true 10 (world_of []) ltac:(discriminate)) eq_refl) as (w' & H & _).
    exists w'. exact H.
  - apply (paging_errors "refs" ["1"; "2"] "-1" 10 10 0 "LIFO" 3 2 true 10 (world_of [])); [discriminate|vm_compute; by eexists|reflexivity].
  - apply (paging_errors "refs" [] "-1" 10 10 0 "FIFO" 3 2 true 10 (world_of [])); [discriminate|reflexivity|vm_compute; by eexists].
Defined.

(** *** FIFO has Belady's anomaly: more frames, more misses. *)
Definition misses (p : policy) (cachesize : Z) (addresses : list string) : option Z :=
  match simulate p cachesize 2 (inr <$> addresses) 100 true pager_init (world_of []) with Ok _ s _ => Some (miss s) | _ => None end.

Example fifo_anomaly : let refs := ["1"; "2"; "3"; "4"; "1"; "2"; "5"; "1"; "2"; "3"; "4"; "5"] in
  misses FIFO 3 refs = Some 9 ∧ misses FIFO 4 refs = Some 10 ∧ misses LRU 3 refs = Some 10 ∧ misses LRU 4 refs = Some 8 ∧ misses OPT 3 refs = Some 7.
Proof. vm_compute. done. Qed.
