(* ===== verification/Translate.v ===== *)
(** * Address translation: [vm-mechanism/relocation.py],
    [vm-segmentation/segmentation.py], [vm-paging/paging-linear-translate.py]

    Three programs that set up the registers or the page table of a small
    machine and translate a trace of virtual addresses: base and bounds, two
    segments, and a linear page table.  They keep no state but their local
    variables and print their answers. *)
From S2P Require Import Prelude PyStr PyRandom.
Open Scope Z_scope.

(** ** Shared *)

Section Shared.
Context {St : Type}.

(** Sizes with a suffix: [16], [64k], [32m], [1g] *)
Definition convert (size : string) : M St Z :=
  let length := String.length size in
  lastchar ← of_option IndexError (String.get (length - 1) size);
  let front := String.substring 0 (length - 1) size in
  if bool_decide (lastchar ∈ ["k"; "K"]%char) then n ← py_int front; mret (n * 1024)
  else if bool_decide (lastchar ∈ ["m"; "M"]%char) then n ← py_int front; mret (n * (1024 * 1024))
  else if bool_decide (lastchar ∈ ["g"; "G"]%char) then n ← py_int front; mret (n * (1024 * 1024 * 1024))
  else py_int size.

Definition abort_if (condition : bool) (message : string) : M St unit :=
  when condition (print ("Error: " +:+ message);; raise (SystemExit 1)).

(** [int(n/4.0 + (n/4.0 * random.random()))]: the doubles are multiples of
    [2^-55] *)
Definition draw_quarter (n : Z) : M St Z :=
  k ← random;
  let q a := round53 (a * 2 ^ 53 + round53 (k * a)) / 2 ^ 55 in
  mret (if 0 <=? n then q n else - q (- n)).

(** The virtual addresses: drawn, or the texts of the option *)
Definition addr_list (addresses : string) (num asize : Z) : M St (list (Z + string)) :=
  if bool_decide (addresses = "-1") then
    for_acc (range 0 num) [] (λ l _, n ← draw_below asize; mret (l ++ [inl n]))
  else mret (inr <$> split_on "," addresses).
Definition addr_int (a : Z + string) : M St Z := match a with inl n => mret n | inr x => py_int x end.

(** An address as the lines show it *)
Definition va_text (i vaddr : Z) : string :=
  "  VA " +:+ fmt_d 2 i +:+ ": 0x" +:+ fmt_x 8 vaddr +:+ " (decimal: " +:+ fmt_d 4 vaddr +:+ ") --> ".
Definition pa_text (paddr : Z) : string := "0x" +:+ fmt_x 8 paddr +:+ " (decimal: " +:+ fmt_d 4 paddr +:+ ")".
End Shared.

(** ** Base and bounds *)

Module Relocation.

Record config := Config { asize : string; psize : string; num : Z; base : string; limit : string; solve : bool }.

Definition registers (cfg : config) (fuel : nat) : M unit (Z * (Z * Z)) :=
  asize ← convert (asize cfg);
  psize ← convert (psize cfg);
  abort_if (psize <=? 1) "must specify a non-zero physical memory size.";;
  abort_if (asize =? 0) "must specify a non-zero address-space size.";;
  abort_if (psize <=? asize) "physical memory size must be GREATER than address space size (for this simulation)";;
  limit ← convert (limit cfg);
  base ← convert (base cfg);
  limit ← (if limit =? -1 then draw_quarter asize else mret limit);
  base ← (if base =? -1 then
            draw_until fuel psize (λ base, base + limit <? psize)
          else mret base);
  print "Base-and-Bounds register information:";;
  print "";;
  print ("  Base   : 0x" +:+ fmt_x 8 base +:+ " (decimal " +:+ str_of_Z base +:+ ")");;
  print ("  Limit  : " +:+ str_of_Z limit);;
  print "";;
  when (psize <? base + limit)
    (print "Error: address space does not fit into physical memory with those base/bounds values.";;
     print ("Base + Limit: " +:+ str_of_Z (base + limit) +:+ "   Psize: " +:+ str_of_Z psize);;
     raise (SystemExit 1));;
  mret (asize, (base, limit)).

Definition translate (base limit vaddr : Z) : option Z := if limit <=? vaddr then None else Some (vaddr + base).

Definition answer (base limit i vaddr : Z) : string :=
  va_text i vaddr +:+ match translate base limit vaddr with
                      | None => "SEGMENTATION VIOLATION"
                      | Some paddr => "VALID: " +:+ pa_text paddr
                      end.

Definition explain : M unit unit :=
  print "For each virtual address, either write down the physical address it translates to";;
  print "OR write down that it is an out-of-bounds address (a segmentation violation). For";;
  print "this problem, you should assume a simple virtual address space of a given size.";;
  print "".

Definition main (cfg : config) (fuel : nat) : M unit unit :=
  '(asize, (base, limit)) ← registers cfg fuel;
  print "Virtual Address Trace";;
  for_ (range 0 (num cfg)) (λ i,
    vaddr ← draw_below asize;
    print (if solve cfg then answer base limit i vaddr else va_text i vaddr +:+ "PA or segmentation violation?"));;
  print "";;
  when (negb (solve cfg)) explain.
End Relocation.

(** ** Segmentation *)

Module Segmentation.

Record config := Config {
  addresses : string;
  asize : string;
  psize : string;
  num : Z;
  base0 : string;
  len0 : string;
  base1 : string;
  len1 : string;
  solve : bool;
}.

(** The segment registers: segment 0 grows up from [b0]; segment 1 grows down
    from [b1 + l1], so [b1] is its lowest address. *)
Record segments := Segments { b0 : Z; l0 : Z; b1 : Z; l1 : Z }.

(** The sizes of the address space and of the memory, and the registers *)
Definition registers (cfg : config) (fuel : nat) : M unit (Z * (Z * segments)) :=
  asize ← convert (asize cfg);
  psize ← convert (psize cfg);
  abort_if (psize <=? 4) "must specify a bigger physical memory size";;
  abort_if (asize =? 0) "must specify a non-zero address-space size";;
  abort_if (psize <=? asize) "physical memory size > address space size (for this simulation)";;
  len0 ← convert (len0 cfg);
  len1 ← convert (len1 cfg);
  base0 ← convert (base0 cfg);
  base1 ← convert (base1 cfg);
  len0 ← (if len0 =? -1 then draw_quarter asize else mret len0);
  len1 ← (if len1 =? -1 then draw_quarter asize else mret len1);
  when ((base0 =? -1) || (base1 =? -1))
    (abort_if (psize <=? 2 * asize) "physical memory must be 2x GREATER than address space size (if randomly generating base registers)");;
  base0 ← (if base0 =? -1 then
             draw_until fuel psize (λ base0, base0 + len0 <? psize)
           else mret base0);
  base1 ← (if base1 =? -1 then
             draw_until fuel psize (λ base1,
               (base1 + len1 <? psize) && ((base0 + len0 <? base1) || (base1 + len1 <? base0)))
           else mret (base1 - len1));
  abort_if (psize <? base0 + len0 - 1) "seg0 is not in physical memory";;
  abort_if (psize <? base1) "seg1 is not in physical memory";;
  abort_if (asize <? 2 * len0) "length0 register is too large for this address space";;
  abort_if (asize <? 2 * len1) "length1 register is too large for this address space";;
  mret (asize, (psize, Segments base0 len0 base1 len1)).

Definition print_registers (s : segments) : M unit unit :=
  print "Segment register information:";;
  print "";;
  print ("  Segment 0 base  (grows positive) : 0x" +:+ fmt_x 8 (b0 s) +:+ " (decimal " +:+ str_of_Z (b0 s) +:+ ")");;
  print ("  Segment 0 limit                  : " +:+ str_of_Z (l0 s));;
  print "";;
  print ("  Segment 1 base  (grows negative) : 0x" +:+ fmt_x 8 (b1 s + l1 s) +:+ " (decimal " +:+ str_of_Z (b1 s + l1 s) +:+ ")");;
  print ("  Segment 1 limit                  : " +:+ str_of_Z (l1 s));;
  print "".

(** The segment of an address, and its physical address unless it is a violation *)
Definition translate (asize : Z) (s : segments) (vaddr : Z) : Z * option Z :=
  if asize <=? 2 * vaddr then
    let paddr := b1 s + l1 s + (vaddr - asize) in
    (1, if paddr <? b1 s then None else Some paddr)
  else (0, if l0 s <=? vaddr then None else Some (vaddr + b0 s)).

Definition answer (asize : Z) (s : segments) (i vaddr : Z) : string :=
  let '(seg, r) := translate asize s vaddr in
  va_text i vaddr +:+ match r with
                      | None => "SEGMENTATION VIOLATION (SEG" +:+ str_of_Z seg +:+ ")"
                      | Some paddr => "VALID in SEG" +:+ str_of_Z seg +:+ ": " +:+ pa_text paddr
                      end.

Definition trace_one (cfg : config) (asize : Z) (s : segments) (i : Z) (vstr : Z + string) : M unit Z :=
  vaddr ← addr_int vstr;
  when ((vaddr <? 0) || (asize <=? vaddr))
    (print ("Error: virtual address " +:+ str_of_Z vaddr +:+ " cannot be generated in an address space of size " +:+ str_of_Z asize);;
     raise (SystemExit 1));;
  print (if solve cfg then answer asize s i vaddr else va_text i vaddr +:+ "PA or segmentation violation?");;
  mret (i + 1).

Definition explain : M unit unit :=
  print "For each virtual address, either write down the physical address it translates to";;
  print "OR write down that it is an out-of-bounds address (a segmentation violation). For";;
  print "this problem, you should assume a simple address space with two segments: the top";;
  print "bit of the virtual address can thus be used to check whether the virtual address";;
  print "is in segment 0 (topbit=0) or segment 1 (topbit=1). Note that the base/limit pairs";;
  print "given to you grow in different directions, depending on the segment, i.e., segment 0";;
  print "grows in the positive direction, whereas segment 1 in the negative. ";;
  print "".

Definition main (cfg : config) (fuel : nat) : M unit unit :=
  '(asize, (_, s)) ← registers cfg fuel;
  print_registers s;;
  abort_if ((b1 s <? l0 s + b0 s) && (b0 s <? b1 s)) "segments overlap in physical memory";;
  addrList ← addr_list (addresses cfg) (num cfg) asize;
  print "Virtual Address Trace";;
  for_acc addrList 0 (trace_one cfg asize s);;
  print "";;
  when (negb (solve cfg)) explain.
End Segmentation.

(** ** A linear page table *)

Module LinearPaging.

Record config := Config {
  addresses : string;
  asize : string;
  psize : string;
  pagesize : string;
  num : Z;
  used : Z;
  verbose : bool;
  solve : bool;
}.

Definition error (msg : string) : M unit unit := print ("Error in argument: " +:+ msg);; raise (SystemExit 1).
Definition mustbepowerof2 (bits size : Z) (msg : string) : M unit unit := when (negb (2 ^ bits =? size)) (error msg).

(** The quotient of the doubles is an integer just when the one of the
    integers is, for sizes below [2^30]. *)
Definition mustbemultipleof (bignum num : Z) (msg : string) : M unit unit :=
  r ← py_mod bignum num; when (negb (r =? 0)) (error msg).

(** [int(math.log(float(size))/math.log(2.0))].  A wrong result for a size that
    is no power of two is as good as any: [mustbepowerof2] refuses it. *)
Definition log2 (size : Z) : M unit Z := if size <=? 0 then raise ValueError else mret (Z.log2 size).

(** The page table, [-1] for an invalid page; [pagebits] and [asize] *)
Record table := Table { pt : list Z; pagebits : Z; size : Z; frames : Z }.

Definition sizes (cfg : config) : M unit (Z * (Z * Z)) :=
  asize ← convert (asize cfg);
  psize ← convert (psize cfg);
  pagesize ← convert (pagesize cfg);
  abort_if (psize <=? 1) "must specify a non-zero physical memory size.";;
  abort_if (asize <? 1) "must specify a non-zero address-space size.";;
  abort_if (psize <=? asize) "physical memory size must be GREATER than address space size (for this simulation)";;
  gigabyte ← convert "1g";
  abort_if ((gigabyte <=? psize) || (gigabyte <=? asize)) "must use smaller sizes (less than 1 GB) for this simulation.";;
  mustbemultipleof asize pagesize "address space must be a multiple of the pagesize";;
  mustbemultipleof psize pagesize "physical memory must be a multiple of the pagesize";;
  mret (asize, (psize, pagesize)).

(** [random.random() * 100.0 > 100.0 - float(used)] *)
Definition draw_used (used : Z) : M unit bool :=
  k ← random; mret ((100 - used) * 2 ^ 53 <? round53 (k * 100)).

(** One entry: a page that is not used yet, or invalid; [insert] is at the end *)
Definition make_entry (cfg : config) (fuel : nat) (pages : Z) (st : list Z * list Z) (v : Z) : M unit (list Z * list Z) :=
  let put x : M unit unit := put_str (if verbose cfg then "  [" +:+ fmt_d 8 v +:+ "]  " else "  ");; print ("0x" +:+ fmt_x 8 x) in
  while_ fuel tt (λ _,
    valid ← draw_used (used cfg);
    if (valid : bool) then
      u ← draw_below pages;
      b ← list_get st.1 u;
      if b =? 0 then
        used' ← list_set st.1 u 1;
        put (Z.lor 0x80000000 u);;
        mret (inr (used', st.2 ++ [u]))
      else mret (inl tt)
    else put 0;; mret (inr (st.1, st.2 ++ [-1]))).

Definition intro : M unit unit :=
  print "";;
  print "The format of the page table is simple:";;
  print "The high-order (left-most) bit is the VALID bit.";;
  print "  If the bit is 1, the rest of the entry is the PFN.";;
  print "  If the bit is 0, the page is not valid.";;
  print "Use verbose mode (-v) if you want to print the VPN # by";;
  print "each entry of the page table.";;
  print "".

Definition make_table (cfg : config) (fuel : nat) : M unit table :=
  '(asize, (psize, pagesize)) ← sizes cfg;
  let pages := int_div psize pagesize in
  let vpages := int_div asize pagesize in
  vabits ← log2 asize;
  mustbepowerof2 vabits asize "address space must be a power of 2";;
  pagebits ← log2 pagesize;
  mustbepowerof2 pagebits pagesize "page size must be a power of 2";;
  intro;;
  print "Page Table (from entry 0 down to the max size)";;
  st ← for_acc (range 0 vpages) (replicate (Z.to_nat pages) 0, [] : list Z) (make_entry cfg fuel pages);
  print "";;
  mret (Table st.2 pagebits asize pages).

Definition pagemask (t : table) : Z := Z.shiftl 1 (pagebits t) - 1.
Definition vpnmask (t : table) : Z := Z.land 0xFFFFFFFF (Z.lnot (pagemask t)).
Definition vpn_of (t : table) (vaddr : Z) : Z := Z.shiftr (Z.land vaddr (vpnmask t)) (pagebits t).

Definition translate (t : table) (vaddr : Z) : M unit (option Z) :=
  pfn ← list_get (pt t) (vpn_of t vaddr);
  mret (if pfn <? 0 then None else Some (Z.lor (Z.shiftl pfn (pagebits t)) (Z.land vaddr (pagemask t)))).

Definition va_text (vaddr : Z) : string := "  VA 0x" +:+ fmt_x 8 vaddr +:+ " (decimal: " +:+ fmt_d 8 vaddr +:+ ") --> ".
Definition answer (t : table) (vaddr : Z) (r : option Z) : string :=
  va_text vaddr +:+ match r with
                    | None => " Invalid (VPN " +:+ str_of_Z (vpn_of t vaddr) +:+ " not valid)"
                    | Some paddr => fmt_x 8 paddr +:+ " (decimal " +:+ fmt_d 8 paddr +:+ ") [VPN " +:+ str_of_Z (vpn_of t vaddr) +:+ "]"
                    end.

Definition trace_one (cfg : config) (t : table) (vStr : Z + string) : M unit unit :=
  vaddr ← addr_int vStr;
  if solve cfg then r ← translate t vaddr; print (answer t vaddr r)
  else print (va_text vaddr +:+ "PA or invalid address?").

Definition explain : M unit unit :=
  print "For each virtual address, write down the physical address it translates to";;
  print "OR write down that it is an out-of-bounds address (e.g., segfault).";;
  print "".

Definition main (cfg : config) (fuel : nat) : M unit unit :=
  t ← make_table cfg fuel;
  addrList ← addr_list (addresses cfg) (num cfg) (size t);
  print "Virtual Address Trace";;
  for_ addrList (trace_one cfg t);;
  print "";;
  when (negb (solve cfg)) explain.
End LinearPaging.

(** ** Draws *)

(** Rounding does not cross a multiple of [2^53] that is not too large. *)
Lemma round53_between a p : 0 ≤ a ≤ 2 ^ 52 →
  (p ≤ a * 2 ^ 53 → round53 p ≤ a * 2 ^ 53) ∧ (a * 2 ^ 53 ≤ p → a * 2 ^ 53 ≤ round53 p).
Proof.
  intros Ha. unfold round53. destruct (Z.ltb_spec p (2 ^ 53)) as [|Hp]; [done|].
  assert (0 < p) by lia. destruct (Z.log2_spec p) as [Hl1 Hl2]; [done|].
  assert (53 ≤ Z.log2 p) by (apply Z.log2_le_pow2; lia).
  set (u := 2 ^ (Z.log2 p - 52)). assert (0 < u) by (apply Z.pow_pos_nonneg; lia).
  assert (p = u * (p / u) + p mod u) as Hdm by (apply Z.div_mod; lia).
  pose proof (Z.mod_pos_bound p u ltac:(lia)) as Hmb.
  assert (2 ^ 52 ≤ p / u) as Hq.
  { apply Z.div_le_lower_bound; [done|]. unfold u. rewrite <-Z.pow_add_r by lia. etransitivity; [|exact Hl1].
    apply Z.pow_le_mono_r; lia. }
  set (q := p / u) in *. assert (∃ d, 0 ≤ d ≤ 1 ∧
    (if 2 * (p mod u) <? u then q else if u <? 2 * (p mod u) then q + 1 else if Z.even q then q else q + 1) = q + d ∧
    (p mod u = 0 → d = 0)) as (d & Hd & -> & Hd0).
  { destruct (Z.ltb_spec (2 * (p mod u)) u); [exists 0; lia|].
    destruct (Z.ltb_spec u (2 * (p mod u))); [exists 1; lia|]. destruct (Z.even q); [exists 0|exists 1]; lia. }
  destruct (decide (Z.log2 p ≤ 105)) as [Hsmall|Hbig].
  - assert ((u | a * 2 ^ 53)) as [c Hc].
    { exists (a * 2 ^ (105 - Z.log2 p)). unfold u. rewrite <-Z.mul_assoc, <-Z.pow_add_r by lia. do 2 f_equal. lia. }
    rewrite Hc. split; intros Hle; apply Z.mul_le_mono_nonneg_r; try lia.
    + destruct (decide (d = 0)); [|assert (q < c) by nia; lia]. nia.
    + assert (c < q + 1) by nia. lia.
  - assert (2 ^ 53 < u) by (unfold u; apply Z.pow_lt_mono_r; lia).
    assert (2 ^ 53 * 2 ^ 52 < u * q) by nia. assert (0 ≤ d * u) by nia. split; intros; lia.
Qed.

Lemma round53_monus n k : 0 ≤ n ≤ 2 ^ 51 → 0 ≤ k < 2 ^ 53 →
  n / 4 ≤ round53 (n * 2 ^ 53 + round53 (k * n)) / 2 ^ 55 ∧ 2 * (round53 (n * 2 ^ 53 + round53 (k * n)) / 2 ^ 55) ≤ n.
Proof.
  intros Hn Hk. assert (0 ≤ round53 (k * n) ≤ n * 2 ^ 53) as Hr.
  { split; [apply round53_nonneg; nia|]. apply round53_between; nia. }
  destruct (round53_between n (n * 2 ^ 53 + round53 (k * n))) as [_ H1]; [lia|].
  destruct (round53_between (2 * n) (n * 2 ^ 53 + round53 (k * n))) as [H2 _]; [lia|].
  specialize (H1 ltac:(lia)). specialize (H2 ltac:(lia)).
  set (p := round53 (n * 2 ^ 53 + _)) in *. split.
  - replace (n / 4) with (n * 2 ^ 53 / 2 ^ 55) by (replace (2 ^ 55) with (4 * 2 ^ 53) by done; by rewrite Z.div_mul_cancel_r).
    apply Z.div_le_mono; lia.
  - pose proof (Z.mul_div_le p (2 ^ 55)). lia.
Qed.

Section DrawRules.
Context {St : Type}.

Lemma wp_draw_quarter n (Q : Z → St → world → Prop) E s w : 0 ≤ n ≤ 2 ^ 51 → rng_ok w →
  (∀ q w', n / 4 ≤ q → 2 * q ≤ n → rng w' = rng w → stdout w' = stdout w → Q q s w') → wp (draw_quarter n) Q E s w.
Proof.
  intros Hn Hw HQ. unfold draw_quarter. wp_pures. destruct (Z.leb_spec 0 n); [|lia].
  destruct (round53_monus n _ Hn (Hw (rpos w))). by apply HQ.
Qed.

Lemma wp_addr_list num A (Q : list (Z + string) → St → world → Prop) E s w : 0 < A → rng_ok w →
  (∀ vs w', length vs = Z.to_nat num → Forall (λ v, 0 ≤ v < A) vs → rng w' = rng w → stdout w' = stdout w →
    Q (inl <$> vs) s w') →
  wp (addr_list "-1" num A) Q E s w.
Proof.
  intros HA Hw HQ. unfold addr_list. rewrite bool_decide_true by done.
  apply (wp_for_acc (λ pre l s' w', ∃ vs, s' = s ∧ l = inl <$> vs ∧ length vs = length pre ∧ Forall (λ v, 0 ≤ v < A) vs ∧
    rng w' = rng w ∧ stdout w' = stdout w)); [by exists []| |].
  - intros pre i post l s' w' _ (vs & -> & -> & Hlen & Hvs & Hr & Ho). wp_pures.
    apply wp_draw_below; [lia|by eapply rng_ok_rng|]. intros v w'' Hv Hr' Ho'. wp_pures.
    exists (vs ++ [v]). rewrite fmap_app, !length_app, Hlen. split_and!; [done|done|done| |congruence..].
    by rewrite Forall_app, Forall_singleton.
  - intros l s' w' (vs & -> & -> & Hlen & Hvs & Hr & Ho). apply HQ; [|done..].
    rewrite Hlen. unfold range. rewrite length_seqZ. lia.
Qed.
End DrawRules.

(** ** Base and bounds *)

Lemma relocation_translate base limit psize vaddr : 0 ≤ base → base + limit ≤ psize → 0 ≤ vaddr →
  match Relocation.translate base limit vaddr with
  | Some paddr => vaddr < limit ∧ paddr = base + vaddr ∧ paddr < psize
  | None => limit ≤ vaddr
  end.
Proof. unfold Relocation.translate. destruct (Z.leb_spec limit vaddr); lia. Qed.

(** ** Two segments *)

Module SegmentationFacts.
Import Segmentation.

(** Both segments lie in memory, apart from each other, and each takes at most
    half of the address space. *)
Definition placed (asize psize : Z) (s : segments) : Prop :=
  (0 ≤ b0 s ∧ b0 s + l0 s < psize) ∧ (0 ≤ b1 s ∧ b1 s + l1 s < psize) ∧
  (b0 s + l0 s < b1 s ∨ b1 s + l1 s < b0 s) ∧
  (asize / 4 ≤ l0 s ∧ 2 * l0 s ≤ asize) ∧ (asize / 4 ≤ l1 s ∧ 2 * l1 s ≤ asize).

(** The bytes of the address space that have a place: the first [l0] and the
    last [l1]. *)
Definition mapped (asize : Z) (s : segments) (vaddr : Z) : Prop := vaddr < l0 s ∨ asize - l1 s ≤ vaddr.

Lemma translate_placed asize psize s vaddr : placed asize psize s → 0 ≤ vaddr < asize →
  match (translate asize s vaddr).2 with
  | Some paddr => mapped asize s vaddr ∧
      (vaddr < l0 s ∧ paddr = b0 s + vaddr ∨ asize - l1 s ≤ vaddr ∧ paddr = b1 s + (vaddr - (asize - l1 s)))
  | None => ¬ mapped asize s vaddr
  end.
Proof.
  unfold placed, mapped, translate. intros Hp Hv. destruct (Z.leb_spec asize (2 * vaddr)); simpl.
  - destruct (Z.ltb_spec (b1 s + l1 s + (vaddr - asize)) (b1 s)); lia.
  - destruct (Z.leb_spec (l0 s) vaddr); lia.
Qed.

(** The options of a random placement *)
Definition random_registers (cfg : config) : Prop :=
  base0 cfg = "-1" ∧ len0 cfg = "-1" ∧ base1 cfg = "-1" ∧ len1 cfg = "-1".

Section Run.
Context (cfg : config) (A P : Z) (fuel N : nat).
Hypothesis Hcfg : random_registers cfg.
Hypothesis HA : ∀ w, convert (asize cfg) tt w = Ok A tt w.
Hypothesis HP : ∀ w, convert (psize cfg) tt w = Ok P tt w.
Hypothesis HA1 : 1 ≤ A ≤ 2 ^ 51.
Hypothesis HP4 : 4 < P.
Hypothesis HAP : 2 * A < P.
Hypothesis Hfuel : (N ≤ fuel)%nat.

Lemma wp_registers w (Q : Z * (Z * segments) → unit → world → Prop) : rng_ok w → spread P 1 N w →
  (∀ s w', placed A P s → rng w' = rng w → stdout w' = stdout w → Q (A, (P, s)) tt w') →
  wp (registers cfg fuel) Q noexn tt w.
Proof.
  intros Hw Hs HQ. destruct Hcfg as (Hb0 & Hl0 & Hb1 & Hl1).
  assert (∀ x (Q : Z → unit → world → Prop) E w, convert "-1" tt w = Ok x tt w → wp (convert "-1") Q E tt w = Q x tt w) as Hm1.
  { intros x Q' E' w' Hx. unfold wp. by rewrite Hx. }
  assert (0 ≤ A / 4) by (apply Z.div_pos; lia).
  unfold registers. wp_pures. unfold wp at 1. rewrite HA. wp_pures. unfold wp at 1. rewrite HP.
  unfold abort_if. wp_pures. destruct (Z.leb_spec P 4); [lia|]. destruct (Z.eqb_spec A 0); [lia|].
  destruct (Z.leb_spec P A); [lia|]. rewrite Hb0, Hl0, Hb1, Hl1.
  do 4 (rewrite (Hm1 (-1)) by reflexivity; wp_pures). simpl (-1 =? -1). wp_pures.
  apply wp_draw_quarter; [lia|done|]. intros q0 w1 H0a H0b Hr1 Ho1. wp_pures.
  apply wp_draw_quarter; [lia|by eapply rng_ok_rng|]. intros q1 w2 H1a H1b Hr2 Ho2. wp_pures.
  simpl (_ || _). wp_pures. destruct (Z.leb_spec P (2 * A)); [lia|].
  assert (rng w2 = rng w) as Hr2' by congruence.
  eapply (wp_draw_until _ _ N _ _ _ _ _ 0);
    [lia|by eapply rng_ok_rng|by eapply spread_rng|done|lia|apply Z.ltb_lt; lia|].
  intros base0 w3 Hbase0 Hacc0%Z.ltb_lt Hr3 Ho3. wp_pures. assert (rng w3 = rng w) as Hr3' by congruence.
  eapply (wp_draw_until _ _ N _ _ _ _ _ (if q1 <? base0 then 0 else base0 + q0 + 1));
    [lia|by eapply rng_ok_rng|by eapply spread_rng|done|destruct (Z.ltb_spec q1 base0); lia|destruct (Z.ltb_spec q1 base0); lia|].
  intros base1 w4 Hbase1 Hacc1 Hr4 Ho4. wp_pures.
  destruct (Z.ltb_spec P (base0 + q0 - 1)); [lia|]. destruct (Z.ltb_spec P base1); [lia|].
  destruct (Z.ltb_spec A (2 * q0)); [lia|]. destruct (Z.ltb_spec A (2 * q1)); [lia|]. wp_pures.
  apply HQ; [|congruence..]. unfold placed. simpl. lia.
Qed.

Definition register_lines (s : segments) : list string :=
  ["Segment register information:"; "";
   "  Segment 0 base  (grows positive) : 0x" +:+ fmt_x 8 (b0 s) +:+ " (decimal " +:+ str_of_Z (b0 s) +:+ ")";
   "  Segment 0 limit                  : " +:+ str_of_Z (l0 s); "";
   "  Segment 1 base  (grows negative) : 0x" +:+ fmt_x 8 (b1 s + l1 s) +:+ " (decimal " +:+ str_of_Z (b1 s + l1 s) +:+ ")";
   "  Segment 1 limit                  : " +:+ str_of_Z (l1 s); ""].

Definition answers (s : segments) (vs : list Z) : list string := imap (λ i v, answer A s (Z.of_nat i) v) vs.

Lemma wp_trace s vs w Q : solve cfg = true → Forall (λ v, 0 ≤ v < A) vs →
  (∀ w', shown (answers s vs) w w' → rng w' = rng w → Q (Z.of_nat (length vs)) tt w') →
  wp (for_acc (inl <$> vs) 0 (trace_one cfg A s)) Q noexn tt w.
Proof.
  intros Hsolve Hvs HQ.
  apply (wp_for_acc (λ pre i _ w', ∃ n, pre = inl <$> take n vs ∧ i = Z.of_nat (length pre) ∧
    shown (answers s (take n vs)) w w' ∧ rng w' = rng w)); [by exists 0%nat| |].
  - intros pre x post i [] w' Hl (n & Hpre & -> & Hsh & Hr).
    assert ((inl <$> vs : list (Z + string)) !! length pre = Some x) as Hx by (rewrite Hl; by apply list_lookup_middle).
    rewrite list_lookup_fmap in Hx. destruct (vs !! length pre) as [v|] eqn:Hv; [|done]. injection Hx as <-.
    assert (take n vs = take (length pre) vs) as Htake.
    { rewrite Hpre, length_fmap, length_take. destruct (decide (n ≤ length vs)%nat); [f_equal; lia|].
      rewrite !take_ge by lia. done. }
    rewrite Forall_lookup in Hvs. pose proof (Hvs _ _ Hv) as Hb. unfold trace_one, addr_int. wp_pures.
    destruct (Z.ltb_spec v 0); [lia|]. destruct (Z.leb_spec A v); [lia|]. simpl. rewrite Hsolve. wp_pures.
    exists (S (length pre)). rewrite (take_S_r _ _ v), <-Htake, fmap_app, <-Hpre by done. split_and!; [done| | |done].
    + rewrite length_app. simpl. lia.
    + unfold answers. rewrite imap_app. simpl. rewrite Nat.add_0_r. 
      replace (length (take n vs)) with (length pre) by (by rewrite Hpre, length_fmap). by apply shown_emit.
  - intros i [] w' (n & Hpre & -> & Hsh & Hr). rewrite length_fmap in *. apply (inj (fmap inl)) in Hpre.
    rewrite <-Hpre in Hsh. by apply HQ.
Qed.
End Run.

(** C37: with both segments left to chance and an address space of less than
    half of the memory, the program ends without an error whatever is drawn,
    provided the draws do not avoid a position for ever.  The registers it
    prints describe two segments in memory that do not meet, each between a
    quarter and a half of the address space; each of the addresses it draws
    lies in the address space and gets the printed answer, valid just for the
    first [l0] and the last [l1] addresses; a physical address lies in memory
    and no two virtual addresses share one. *)
Theorem segmentation_correct cfg A P fuel N w :
  random_registers cfg → addresses cfg = "-1" → solve cfg = true →
  (∀ w, convert (asize cfg) tt w = Ok A tt w) → (∀ w, convert (psize cfg) tt w = Ok P tt w) →
  1 ≤ A ≤ 2 ^ 51 → 4 < P → 2 * A < P → (N ≤ fuel)%nat → rng_ok w → spread P 1 N w →
  wp (main cfg fuel) (λ _ _ w', ∃ s vs,
    placed A P s ∧ length vs = Z.to_nat (num cfg) ∧ Forall (λ v, 0 ≤ v < A) vs ∧
    shown (register_lines s ++ "Virtual Address Trace" :: answers A s vs ++ [""]) w w' ∧
    (∀ v, 0 ≤ v < A → is_Some (translate A s v).2 ↔ mapped A s v) ∧
    (∀ v paddr, 0 ≤ v < A → (translate A s v).2 = Some paddr → 0 ≤ paddr < P) ∧
    (∀ v v' paddr, 0 ≤ v < A → 0 ≤ v' < A →
      (translate A s v).2 = Some paddr → (translate A s v').2 = Some paddr → v = v')) noexn tt w.
Proof.
  intros Hcfg Ha Hsolve HA HP HA1 HP4 HAP Hfuel Hw Hs. unfold main. wp_pures.
  eapply (wp_registers cfg A P fuel N); [done..|]. intros s w1 Hpl Hr1 Ho1.
  unfold print_registers. wp_pures. unfold abort_if. wp_pures.
  assert ((b1 s <? l0 s + b0 s) && (b0 s <? b1 s) = false) as -> by (unfold placed in Hpl; assert (0 ≤ A / 4) by (apply Z.div_pos; lia); lia).
  wp_pures. rewrite Ha. apply wp_addr_list; [lia|by eapply rng_ok_rng|]. intros vs w2 Hlen Hvs Hr2 Ho2. wp_pures.
  eapply wp_trace; [done..|]. intros w3 Hsh Hr3. wp_pures. rewrite Hsolve. simpl. wp_pures.
  exists s, vs. pose proof (λ v, translate_placed A P s v Hpl) as Ht. split_and!; [done..| | | |].
  - unfold shown in *. simpl. rewrite Hsh. simpl. rewrite Ho2. simpl. rewrite Ho1.
    rewrite fmap_app, !reverse_cons, reverse_app. simpl. by rewrite <-!app_assoc.
  - intros v Hv. specialize (Ht v Hv). destruct (translate A s v) as [seg [p|]]; simpl in *; [naive_solver|].
    split; [by intros []|done].
  - intros v p Hv Hp. specialize (Ht v Hv). rewrite Hp in Ht. unfold placed in Hpl. lia.
  - intros v v' p Hv Hv' Hp Hp'. pose proof (Ht v Hv) as H1. pose proof (Ht v' Hv') as H2. rewrite Hp in H1. rewrite Hp' in H2.
    unfold placed in Hpl. lia.
Qed.

Definition default : config := Config "-1" "1k" "16k" 5 "-1" "-1" "-1" "-1" true.

Lemma segmentation_correct_witness : ∃ Q, wp (main default (Z.to_nat (2 ^ 14))) Q noexn tt (counting 1 14).
Proof.
  eexists. apply (segmentation_correct default 1024 16384 _ (Z.to_nat (2 ^ 14)));
    [repeat split|reflexivity..|lia|lia|lia|done|apply counting_ok; lia|].
  apply (counting_spread 1 14 14); lia.
Defined.
End SegmentationFacts.

(** ** The linear page table *)

(** The page number of a 32-bit address *)
Lemma vpn_bits v y : 0 ≤ y → 0 ≤ v < 2 ^ 32 →
  Z.shiftr (Z.land v (Z.land 0xFFFFFFFF (Z.lnot (Z.shiftl 1 y - 1)))) y = v / 2 ^ y.
Proof.
  intros Hy Hv. rewrite <-Z.shiftr_div_pow2 by done. apply Z.bits_inj'. intros n Hn.
  rewrite !Z.shiftr_spec, !Z.land_spec, Z.lnot_spec by lia.
  change (Z.shiftl 1 y - 1) with (Z.ones y).
  rewrite Z.ones_spec_high by lia. change 0xFFFFFFFF with (Z.ones 32).
  destruct (decide (n + y < 32)).
  - rewrite Z.ones_spec_low by lia. apply andb_true_r.
  - rewrite <-(Z.mod_small v (2 ^ 32)), Z.mod_pow2_bits_high by lia. done.
Qed.

Module LinearFacts.
Import LinearPaging.

(** Each page of the address space has an entry, and no frame has two pages. *)
Definition table_ok (vpages pages : Z) (pt : list Z) : Prop :=
  len pt = vpages ∧ Forall (λ pfn, -1 ≤ pfn < pages) pt ∧
  (∀ i j pfn, pt !! i = Some pfn → pt !! j = Some pfn → 0 ≤ pfn → i = j).

(** What the translation is to be: the frame takes the place of the page *)
Definition physical (t : table) (vaddr : Z) : option Z :=
  pfn ← pt t !! Z.to_nat (vaddr / 2 ^ pagebits t);
  if pfn <? 0 then None else Some (pfn * 2 ^ pagebits t + vaddr mod 2 ^ pagebits t).

Lemma wp_translate t vaddr (Q : option Z → unit → world → Prop) E s w :
  0 ≤ pagebits t → 0 ≤ vaddr < 2 ^ 32 → vaddr / 2 ^ pagebits t < len (pt t) →
  Q (physical t vaddr) s w → wp (translate t vaddr) Q E s w.
Proof.
  intros Hb Hv Hlt HQ. unfold translate, vpn_of, vpnmask, pagemask. wp_pures. rewrite vpn_bits by done.
  assert (0 < 2 ^ pagebits t) by (apply Z.pow_pos_nonneg; lia).
  rewrite py_index_nonneg by (split; [apply Z.div_pos; lia|done]). simpl. unfold physical in HQ.
  destruct (pt t !! Z.to_nat (vaddr / 2 ^ pagebits t)) as [pfn|] eqn:Hpt; simpl in *.
  - wp_pures. rewrite land_low by done.
    by rewrite lor_shiftl_low by (try done; by apply Z.mod_pos_bound).
  - apply lookup_ge_None_1 in Hpt. unfold len in Hlt. assert (0 ≤ vaddr / 2 ^ pagebits t) by (apply Z.div_pos; lia). lia.
Qed.

(** *** Building the table *)

Section Table.
Context (cfg : config) (fuel N : nat) (pages : Z).
Hypothesis Hfuel : (N ≤ fuel)%nat.

(** [used] marks the frames that the table has so far. *)
Definition building (st : list Z * list Z) : Prop :=
  len st.1 = pages ∧ (∀ u, 0 ≤ u < pages → st.1 !! Z.to_nat u = Some (if bool_decide (u ∈ st.2) then 1 else 0)) ∧
  table_ok (len st.2) pages st.2.

Lemma free_frame st : building st → len st.2 < pages → ∃ u, 0 ≤ u < pages ∧ u ∉ st.2.
Proof.
  intros Hb Hlt. destruct (decide (Forall (λ u, u ∈ st.2) (range 0 pages))) as [Hall|Hex].
  - exfalso. rewrite Forall_forall in Hall. assert (range 0 pages ⊆+ st.2) as Hsub.
    { apply NoDup_submseteq; [apply NoDup_seqZ|done]. }
    apply submseteq_length in Hsub. unfold range, len in *. rewrite length_seqZ in Hsub. lia.
  - apply not_Forall_Exists in Hex; [|apply _]. apply Exists_exists in Hex as (u & Hu & Hnot).
    exists u. by apply elem_of_range in Hu.
Qed.

Lemma building_put st u : building st → 0 ≤ u < pages → u ∉ st.2 → building (<[Z.to_nat u := 1]> st.1, st.2 ++ [u]).
Proof.
  intros (Hlen & Hused & Hok & Hall & Hinj) Hu Hnot. split_and!; simpl.
  - unfold len. by rewrite length_insert.
  - intros x Hx. destruct (decide (x = u)) as [->|Hne].
    + rewrite list_lookup_insert_eq by (unfold len in *; lia). rewrite bool_decide_true; [done|set_solver].
    + rewrite list_lookup_insert_ne, Hused by lia. f_equal.
      rewrite (bool_decide_ext (x ∈ st.2 ++ [u]) (x ∈ st.2)); [done|set_solver].
  - split_and!; [done|apply Forall_app; split; [done|apply Forall_singleton; lia]|].
    intros i j x Hi Hj Hx. rewrite lookup_app_Some, list_lookup_singleton_Some in Hi, Hj.
    destruct Hi as [Hi|(? & ? & <-)], Hj as [Hj|(? & ? & Hxj)]; [by eapply Hinj| | |lia].
    + subst. destruct Hnot. by eapply list_elem_of_lookup_2.
    + destruct Hnot. by eapply list_elem_of_lookup_2.
Qed.

Lemma building_skip st : building st → building (st.1, st.2 ++ [-1]).
Proof.
  intros (Hlen & Hused & Hok & Hall & Hinj). assert (0 ≤ pages) by (rewrite <-Hlen; unfold len; lia).
  split_and!; simpl; [done| |].
  - intros x Hx. rewrite Hused by done. f_equal. rewrite (bool_decide_ext (x ∈ st.2 ++ [-1]) (x ∈ st.2)); [done|].
    rewrite elem_of_app, list_elem_of_singleton. intuition lia.
  - split_and!; [done|apply Forall_app; split; [done|apply Forall_singleton; lia]|].
    intros i j x Hi Hj Hx. rewrite lookup_app_Some, list_lookup_singleton_Some in Hi, Hj.
    destruct Hi as [Hi|(? & ? & ?)], Hj as [Hj|(? & ? & ?)]; [by eapply Hinj|lia..].
Qed.

(** An entry is found: each round ends the search or is one of the draws of a
    frame that [spread] speaks of. *)
Lemma wp_make_entry st v w (Q : list Z * list Z → unit → world → Prop) :
  building st → len st.2 < pages → rng_ok w → spread pages 2 N w →
  (∀ st' w', building st' → len st'.2 = len st.2 + 1 → rng w' = rng w → Q st' tt w') →
  wp (make_entry cfg fuel pages st v) Q noexn tt w.
Proof.
  intros Hb Hlt Hw Hs HQ. destruct (free_frame st Hb Hlt) as (u & Hu & Hfree).
  assert (0 < pages) by lia. destruct (Hs (S (rpos w)) u Hu) as (k & Hk & Hdraw).
  unfold make_entry. apply (wp_while_bound (λ m _ _ w', rng w' = rng w ∧ (rpos w' + 2 * m = rpos w + 2 * k)%nat) _ _ _ _ k);
    [done|lia|].
  intros m [] [] w' [Hr Hp]. unfold draw_used. wp_pures. destruct ((100 - used cfg) * 2 ^ 53 <? _).
  2: { wp_pures. apply HQ; [by apply building_skip|unfold len; simpl; rewrite length_app; simpl; lia|done]. }
  wp_pures. unfold draw_below. destruct (Z.leb_spec 0 pages); [|lia]. wp_pures. cbn [drawn rng rpos]. rewrite Hr.
  set (x := int_scaled pages _). assert (0 ≤ x < pages) as Hx by (by apply int_scaled_bounds).
  pose proof Hb as (Hlen & Hused & _). rewrite py_index_nonneg by lia. simpl. rewrite Hused by done. wp_pures.
  case_bool_decide as Hin; simpl; wp_pures.
  - destruct m as [|m]; [|exists m; split; [lia|]; simpl; split; [done|lia]].
    exfalso. rewrite Nat.mul_0_r, Nat.add_0_r in Hp. subst x. rewrite Hp in Hin. simpl in Hin, Hdraw.
    rewrite Hdraw in Hin. done.
  - rewrite py_index_nonneg by lia. simpl. wp_pures.
    apply HQ; [by apply building_put|unfold len; simpl; rewrite length_app; simpl; lia|done].
Qed.
End Table.

Section Run.
Context (cfg : config) (fuel N : nat) (F x y : Z).
Hypothesis Hfuel : (N ≤ fuel)%nat.
Hypothesis Hasize : ∀ w, convert (asize cfg) tt w = Ok (2 ^ (x + y)) tt w.
Hypothesis Hpsize : ∀ w, convert (psize cfg) tt w = Ok (F * 2 ^ y) tt w.
Hypothesis Hpagesize : ∀ w, convert (pagesize cfg) tt w = Ok (2 ^ y) tt w.
Hypothesis Hx : 0 ≤ x.
Hypothesis Hy : 0 ≤ y.
Hypothesis HF : 2 ^ x < F.
Hypothesis Hsmall : F * 2 ^ y < 2 ^ 30.

Lemma sizes_pos : 0 < 2 ^ x ∧ 0 < 2 ^ y ∧ 2 ^ (x + y) = 2 ^ x * 2 ^ y ∧ 2 ^ (x + y) < F * 2 ^ y.
Proof using Hx Hy HF.
  clear Hfuel. assert (0 < 2 ^ x) by (apply Z.pow_pos_nonneg; lia). assert (0 < 2 ^ y) by (apply Z.pow_pos_nonneg; lia).
  rewrite Z.pow_add_r by done. split_and!; [done..|]. by apply Z.mul_lt_mono_pos_r.
Qed.

Lemma wp_sizes w (Q : Z * (Z * Z) → unit → world → Prop) :
  Q (2 ^ (x + y), (F * 2 ^ y, 2 ^ y)) tt w → wp (sizes cfg) Q noexn tt w.
Proof.
  intros HQ. destruct sizes_pos as (Hpx & Hpy & Hxy & Hlt).
  unfold sizes, abort_if, mustbemultipleof, py_mod. wp_pures. unfold wp at 1. rewrite Hasize. wp_pures. unfold wp at 1.
  rewrite Hpsize. wp_pures. unfold wp at 1. rewrite Hpagesize.
  destruct (Z.leb_spec (F * 2 ^ y) 1); [nia|]. destruct (Z.ltb_spec (2 ^ (x + y)) 1); [lia|].
  destruct (Z.leb_spec (F * 2 ^ y) (2 ^ (x + y))); [lia|]. wp_pures.
  unfold wp at 1. replace (convert "1g" tt w) with (Ok (2 ^ 30) tt w) by done. wp_pures.
  destruct (Z.leb_spec (2 ^ 30) (F * 2 ^ y)); [lia|]. destruct (Z.leb_spec (2 ^ 30) (2 ^ (x + y))); [lia|]. simpl. wp_pures.
  destruct (Z.eqb_spec (2 ^ y) 0); [lia|]. wp_pures. rewrite Hxy, !Z.mod_mul by lia. simpl. wp_pures.
  by rewrite <-Hxy.
Qed.

Lemma wp_make_table w (Q : table → unit → world → Prop) : rng_ok w → spread F 2 N w →
  (∀ t w', table_ok (2 ^ x) F (pt t) → pagebits t = y → size t = 2 ^ (x + y) → rng w' = rng w → Q t tt w') →
  wp (make_table cfg fuel) Q noexn tt w.
Proof.
  intros Hw Hs HQ. destruct sizes_pos as (Hpx & Hpy & Hxy & Hlt). unfold make_table, log2, mustbepowerof2, intro. wp_pures.
  apply wp_sizes. wp_pures. assert (0 < F) by lia.
  destruct (Z.leb_spec (2 ^ (x + y)) 0); [lia|]. wp_pures. rewrite Z.log2_pow2, Z.eqb_refl by lia. simpl. wp_pures.
  destruct (Z.leb_spec (2 ^ y) 0); [lia|]. wp_pures. rewrite Z.log2_pow2, Z.eqb_refl by lia. simpl. wp_pures.
  unfold int_div. rewrite Hxy, !Z.quot_mul by lia.
  apply (wp_for_acc (λ pre st _ w', building F st ∧ len st.2 = len pre ∧ rng w' = rng w)).
  - split_and!; [|done|done]. split_and!; simpl.
    + unfold len. rewrite length_replicate. lia.
    + intros u Hu. by rewrite lookup_replicate_2 by lia.
    + by split_and!.
  - intros pre v post st [] w' Hr (Hb & Hlen & Hrng).
    assert (len pre < 2 ^ x) as Hpre.
    { assert (len (range 0 (2 ^ x)) = 2 ^ x) as Hl by (unfold len, range; rewrite length_seqZ; lia).
      rewrite Hr in Hl. unfold len in *. rewrite length_app in Hl. simpl in Hl. lia. }
    eapply (wp_make_entry _ _ N); [done|done|lia|by eapply rng_ok_rng|by eapply spread_rng|].
    intros st' w'' Hb' Hlen' Hrng'. split_and!; [done| |congruence]. unfold len in *. rewrite length_app. simpl. lia.
  - intros st [] w' ((_ & _ & Hok & Hall & Hinj) & Hlen & Hrng). wp_pures. apply HQ; simpl; [|done..].
    split_and!; [|done..]. rewrite Hlen. unfold len, range. rewrite length_seqZ. lia.
Qed.
End Run.

Lemma wp_linear_trace cfg t vs w Q : solve cfg = true → 0 ≤ pagebits t →
  Forall (λ v, 0 ≤ v < 2 ^ 32 ∧ v / 2 ^ pagebits t < len (pt t)) vs →
  (∀ w', shown ((λ v, answer t v (physical t v)) <$> vs) w w' → Q tt tt w') →
  wp (for_ (inl <$> vs) (trace_one cfg t)) Q noexn tt w.
Proof.
  intros Hsolve Hb Hvs. revert w. induction Hvs as [|v vs [Hv Hlt] Hvs IH]; intros w HQ; [by apply HQ|].
  rewrite fmap_cons. cbn [for_]. rewrite wp_bind. unfold trace_one at 1, addr_int. wp_pures. rewrite Hsolve. wp_pures.
  apply wp_translate; [done..|]. wp_pures. apply IH. intros w' Hsh. apply HQ. unfold shown in *. simpl in *. by rewrite Hsh, reverse_cons, <-app_assoc.
Qed.

Lemma physical_Some t V F vaddr paddr : table_ok V F (pt t) → 0 ≤ pagebits t → 0 ≤ vaddr → physical t vaddr = Some paddr →
  ∃ pfn, pt t !! Z.to_nat (vaddr / 2 ^ pagebits t) = Some pfn ∧ 0 ≤ pfn < F ∧
    paddr = pfn * 2 ^ pagebits t + vaddr mod 2 ^ pagebits t.
Proof.
  intros (_ & Hall & _) Hb Hv Hp. unfold physical in Hp. apply bind_Some in Hp as (pfn & Hpfn & Hp).
  destruct (Z.ltb_spec pfn 0) as [|Hpos]; [done|]. injection Hp as <-. exists pfn. split; [done|].
  rewrite Forall_lookup in Hall. specialize (Hall _ _ Hpfn). simpl in Hall. lia.
Qed.

Lemma physical_inj t V F v v' paddr : table_ok V F (pt t) → 0 ≤ pagebits t → 0 ≤ v → 0 ≤ v' →
  physical t v = Some paddr → physical t v' = Some paddr → v = v'.
Proof.
  intros Hok Hb Hv Hv' Hp Hp'. assert (0 < 2 ^ pagebits t) as Hy by (apply Z.pow_pos_nonneg; lia).
  apply (physical_Some _ V F) in Hp as (f & Hf & Hfb & ->); [|done..].
  apply (physical_Some _ V F) in Hp' as (f' & Hf' & Hfb' & Heq); [|done..].
  set (G := 2 ^ pagebits t) in *.
  pose proof (Z.mod_pos_bound v G Hy). pose proof (Z.mod_pos_bound v' G Hy).
  assert (f = f') as <- by nia. assert (v mod G = v' mod G) as Hmod by lia.
  destruct Hok as (_ & _ & Hinj). pose proof (Hinj _ _ _ Hf Hf' ltac:(lia)) as Hpage.
  assert (0 ≤ v / G) by (apply Z.div_pos; lia). assert (0 ≤ v' / G) by (apply Z.div_pos; lia).
  rewrite (Z.div_mod v G), (Z.div_mod v' G) by lia. f_equal; [f_equal; lia|done].
Qed.

(** C38: With drawn addresses, sizes that are powers of two (an address space of [2 ^ x] pages of [2 ^ y] bytes, [F] frames of memory, more
    frames than pages) and a generator that reaches every frame, paging-linear-translate.py ends; its page table has an entry for each virtual page, the
    valid ones hold distinct frames below [F], and it answers every address with the physical one of the table, or as invalid: a physical
    address lies inside the memory and no two virtual addresses share one. *)
Theorem linear_paging_correct cfg F x y fuel N w :
  addresses cfg = "-1" → solve cfg = true →
  (∀ w, convert (asize cfg) tt w = Ok (2 ^ (x + y)) tt w) → (∀ w, convert (psize cfg) tt w = Ok (F * 2 ^ y) tt w) →
  (∀ w, convert (pagesize cfg) tt w = Ok (2 ^ y) tt w) →
  0 ≤ x → 0 ≤ y → 2 ^ x < F → F * 2 ^ y < 2 ^ 30 → (N ≤ fuel)%nat → rng_ok w → spread F 2 N w →
  wp (main cfg fuel) (λ _ _ w', ∃ t vs w1,
    make_table cfg fuel tt w = Ok t tt w1 ∧ pagebits t = y ∧ table_ok (2 ^ x) F (pt t) ∧
    length vs = Z.to_nat (num cfg) ∧ Forall (λ v, 0 ≤ v < 2 ^ (x + y)) vs ∧
    shown ("Virtual Address Trace" :: ((λ v, answer t v (physical t v)) <$> vs) ++ [""]) w1 w' ∧
    (∀ v paddr, 0 ≤ v < 2 ^ (x + y) → physical t v = Some paddr → 0 ≤ paddr < F * 2 ^ y) ∧
    (∀ v v' paddr, 0 ≤ v < 2 ^ (x + y) → 0 ≤ v' < 2 ^ (x + y) →
      physical t v = Some paddr → physical t v' = Some paddr → v = v')) noexn tt w.
Proof.
  intros Ha Hsolve HA HP HG Hx Hy HF Hsmall Hfuel Hw Hs.
  destruct (sizes_pos F x y) as (Hpx & Hpy & Hxy & Hlt); [done..|].
  unfold main. wp_pures.
  assert (wp (make_table cfg fuel) (λ t _ w', table_ok (2 ^ x) F (pt t) ∧ pagebits t = y ∧ size t = 2 ^ (x + y) ∧ rng w' = rng w) noexn tt w) as Hmk.
  { eapply wp_make_table; [done..|]. by intros. }
  unfold wp in Hmk |- * at 1. destruct (make_table cfg fuel tt w) as [t [] w1| |]; [|done..].
  destruct Hmk as (Hok & Hb & Hsz & Hr). wp_pures. rewrite Ha, Hsz.
  apply wp_addr_list; [lia|by eapply rng_ok_rng|]. intros vs w2 Hlen Hvs Hr2 Ho2. wp_pures.
  pose proof Hok as (Hl & _).
  apply wp_linear_trace; [done|lia| |].
  { eapply Forall_impl; [exact Hvs|]. intros v Hv. simpl in Hv. rewrite Hb, Hl. split; [lia|]. apply Z.div_lt_upper_bound; lia. }
  intros w3 Hsh. wp_pures. rewrite Hsolve. simpl. wp_pures. exists t, vs, w1. split_and!; try done.
  - unfold shown in *. simpl. rewrite Hsh. simpl. rewrite Ho2. rewrite fmap_app, reverse_cons, reverse_app. simpl. by rewrite <-app_assoc.
  - intros v p Hv Hp. apply (physical_Some _ (2 ^ x) F) in Hp as (pfn & _ & Hpfn & ->); [|done|lia..].
    rewrite Hb. pose proof (Z.mod_pos_bound v (2 ^ y) Hpy). nia.
  - intros v v' p Hv Hv' Hp Hp'. by eapply (physical_inj t (2 ^ x) F); [|lia..| |].
Qed.

Definition default : config := Config "-1" "16k" "64k" "4k" 5 50 false true.

Lemma linear_paging_correct_witness : ∃ Q, wp (main default (Z.to_nat (2 ^ 5))) Q noexn tt (counting 2 5).
Proof.
  eexists. apply (linear_paging_correct default 16 2 12 _ (Z.to_nat (2 ^ 5)));
    [reflexivity..|lia|lia|lia|lia|done|apply counting_ok; lia|].
  apply (counting_spread 2 4 5); lia.
Defined.
End LinearFacts.

(** ** The runs of the READMEs: the draws of seed 0, and the ends of the outputs *)

Definition seed0 : world := World []
  (λ n, nth n [7605875871743422; 6827046333291546; 3788172029424828; 2332114760278739; 4605153289279239; 3647322461062558;
    7059830067021045; 2731998160291574; 4292803730252926; 5254638271008637; 8179553702752115; 4545815071595972;
    2538569622034820; 6807679064415056] 0) 0.
Example relocation_readme :
  last_lines 10 (Relocation.main (Relocation.Config "1k" "16k" 5 "-1" "-1" true) 9 tt seed0) =
  Some (String.concat nl ["  Base   : 0x00003082 (decimal 12418)"; "  Limit  : 472"; ""; "Virtual Address Trace";
    "  VA  0: 0x000001ae (decimal:  430) --> VALID: 0x00003230 (decimal: 12848)";
    "  VA  1: 0x00000109 (decimal:  265) --> VALID: 0x0000318b (decimal: 12683)";
    "  VA  2: 0x0000020b (decimal:  523) --> SEGMENTATION VIOLATION";
    "  VA  3: 0x0000019e (decimal:  414) --> VALID: 0x00003220 (decimal: 12832)";
    "  VA  4: 0x00000322 (decimal:  802) --> SEGMENTATION VIOLATION"; ""; ""]).
Proof. vm_compute. reflexivity. Qed.

Example segmentation_readme :
  last_lines 7 (Segmentation.main SegmentationFacts.default 9 tt seed0) =
  Some (String.concat nl ["Virtual Address Trace";
    "  VA  0: 0x0000020b (decimal:  523) --> SEGMENTATION VIOLATION (SEG1)";
    "  VA  1: 0x0000019e (decimal:  414) --> VALID in SEG0: 0x00001c88 (decimal: 7304)";
    "  VA  2: 0x00000322 (decimal:  802) --> VALID in SEG1: 0x00001176 (decimal: 4470)";
    "  VA  3: 0x00000136 (decimal:  310) --> VALID in SEG0: 0x00001c20 (decimal: 7200)";
    "  VA  4: 0x000001e8 (decimal:  488) --> SEGMENTATION VIOLATION (SEG0)"; ""; ""]).
Proof. vm_compute. reflexivity. Qed.

Example linear_paging_readme :
  last_lines 16 (LinearPaging.main LinearFacts.default 9 tt seed0) =
  Some (String.concat nl ["  0x8000000c"; "  0x00000000"; "  0x00000000"; "  0x80000006"; ""; "Virtual Address Trace";
    "  VA 0x00003229 (decimal:    12841) --> 00006229 (decimal    25129) [VPN 3]";
    "  VA 0x00001369 (decimal:     4969) -->  Invalid (VPN 1 not valid)";
    "  VA 0x00001e80 (decimal:     7808) -->  Invalid (VPN 1 not valid)";
    "  VA 0x00002556 (decimal:     9558) -->  Invalid (VPN 2 not valid)";
    "  VA 0x00003a1e (decimal:    14878) --> 00006a1e (decimal    27166) [VPN 3]"; ""; ""]).
Proof. vm_compute. reflexivity. Qed.

(** Registers that pass the checks but are not [placed]: the last byte of
    segment 0 is past the memory, and segment 1 overlaps it from below. *)
Example segments_misplaced :
  last_lines 7 (Segmentation.main (Segmentation.Config "511,255,768" "1k" "16k" 5 "15873" "512" "16384" "512" true) 9 tt seed0) =
  Some (String.concat nl ["  Segment 1 limit                  : 512"; ""; "Virtual Address Trace";
    "  VA  0: 0x000001ff (decimal:  511) --> VALID in SEG0: 0x00004000 (decimal: 16384)";
    "  VA  1: 0x000000ff (decimal:  255) --> VALID in SEG0: 0x00003f00 (decimal: 16128)";
    "  VA  2: 0x00000300 (decimal:  768) --> VALID in SEG1: 0x00003f00 (decimal: 16128)"; ""; ""]).
Proof. vm_compute. reflexivity. Qed.

(** Segment 1 wholly past the memory *)
Example segment1_outside :
  last_lines 4 (Segmentation.main (Segmentation.Config "512,1023" "1k" "16k" 5 "0" "512" "16896" "512" true) 9 tt seed0) =
  Some (String.concat nl ["Virtual Address Trace";
    "  VA  0: 0x00000200 (decimal:  512) --> VALID in SEG1: 0x00004000 (decimal: 16384)";
    "  VA  1: 0x000003ff (decimal: 1023) --> VALID in SEG1: 0x000041ff (decimal: 16895)"; ""; ""]).
Proof. vm_compute. reflexivity. Qed.

(** The linear page table does not check the addresses it is given. *)
Example linear_address_unchecked :
  (∃ s w, LinearPaging.main (LinearPaging.Config "16384" "16k" "64k" "4k" 5 50 false true) 9 tt seed0 = Raise IndexError s w).
Proof. vm_compute. eexists _, _. reflexivity. Qed.
