(* ===== verification/MultiLevel.v ===== *)
(** * Multi-level page tables: [vm-smalltables/paging-multilevel-translate.py]

    The class [OS]: a physical memory of 128 pages of 32 bytes in which a page
    directory, the pages of the page table and the pages of a process are put
    at random; the walk of the table; and the main program, which prints the
    memory and translates random addresses.  The functions [convert] and
    [roundup] of the script are never called; its last line, [exit(0)], is left
    out. *)
From S2P Require Import Prelude PyStr PyRandom.
Open Scope Z_scope.

(** ** The class *)

Record os := OS {
  usedPages : list Z;
  usedPagesCount : Z;
  memory : list Z;
  pdbr : gmap Z Z;
}.
#[export] Instance os_settable : Settable os :=
  λ o, OS (usedPages o) (usedPagesCount o) (memory o) (pdbr o).

Definition pageSize : Z := 32.
Definition physPages : Z := 128.
Definition physMem : Z := pageSize * physPages.
Definition vaPages : Z := 1024.
Definition pageBits : Z := 5.
Definition maxPageCount : Z := int_div physMem pageSize.

Definition os_init : os := OS (replicate (Z.to_nat maxPageCount) 0) 0 (replicate (Z.to_nat physMem) 0) ∅.

Definition PDE_MASK : Z := 0x7c00.
Definition PDE_SHIFT : Z := 10.
Definition PTE_MASK : Z := 0x03e0.
Definition PTE_SHIFT : Z := 5.
Definition OFFSET_MASK : Z := 0x1f.

(** [x = int(random.random() * n); while busy(x): x = int(random.random() * n)] *)
Definition draw_while (fuel : nat) (n : Z) (busy : Z → M os bool) : M os Z :=
  x ← rand_int n;
  while_ fuel x (λ x, b ← busy x; if (b : bool) then y ← rand_int n; mret (inl y) else mret (inr x)).

Definition findFree (fuel : nat) : M os Z :=
  s ← get;
  passert (usedPagesCount s <? maxPageCount);;
  look ← draw_while fuel maxPageCount (λ look, u ← list_get (usedPages s) look; mret (u =? 1));
  usedPagesCount <~ usedPagesCount s + 1;;
  used ← list_set (usedPages s) look 1;
  usedPages <~ used;;
  mret look.

(** [self.memory[i] = v] *)
Definition poke (i v : Z) : M os unit := s ← get; m ← list_set (memory s) i v; memory <~ m.
Definition peek (i : Z) : M os Z := s ← get; list_get (memory s) i.

Definition initPageDir (whichPage : Z) : M os unit :=
  let whichByte := Z.shiftl whichPage pageBits in
  for_ (range whichByte (whichByte + pageSize)) (λ i, poke i 0x7f).
Definition initPageTablePage : Z → M os unit := initPageDir.

(** The valid bit and the frame of an entry *)
Definition pte_valid (pte : Z) : Z := Z.shiftr (Z.land pte 0x80) 7.
Definition pte_pfn (pte : Z) : Z := Z.land pte 0x7f.

Definition entry_line (head what pfn : string) (bits pte : Z) : string :=
  head +:+ what +:+ " index:0x" +:+ fmt_x 0 bits +:+ " [decimal " +:+ str_of_Z bits +:+ "] " +:+ what +:+
  " contents:0x" +:+ fmt_x 0 pte +:+ " (valid " +:+ str_of_Z (pte_valid pte) +:+ ", " +:+ pfn +:+ " 0x" +:+ fmt_x 2 (pte_pfn pte) +:+
  " [decimal " +:+ str_of_Z (pte_pfn pte) +:+ "])".
Definition pte_line : Z → Z → string := entry_line "    --> " "pte" "pfn".
Definition pde_line : Z → Z → string := entry_line "  --> " "pde" "pfn".

Definition getPageTableEntry (virtualAddr ptePage : Z) (printStuff : bool) : M os (Z * (Z * Z)) :=
  let pteBits := Z.shiftr (Z.land virtualAddr PTE_MASK) PTE_SHIFT in
  let pteAddr := Z.lor (Z.shiftl ptePage pageBits) pteBits in
  pte ← peek pteAddr;
  when printStuff (print (pte_line pteBits pte));;
  mret (pte_valid pte, (pte_pfn pte, pteAddr)).

Definition getPageDirEntry (pid virtualAddr : Z) (printStuff : bool) : M os (Z * (Z * Z)) :=
  s ← get;
  pageDir ← dict_get (pdbr s) pid;
  let pdeBits := Z.shiftr (Z.land virtualAddr PDE_MASK) PDE_SHIFT in
  let pdeAddr := Z.lor (Z.shiftl pageDir pageBits) pdeBits in
  pde ← peek pdeAddr;
  when printStuff (print (pde_line pdeBits pde));;
  mret (pte_valid pde, (pte_pfn pde, pdeAddr)).

Definition setPageTableEntry (pteAddr physicalPage : Z) : M os unit := poke pteAddr (Z.lor 0x80 physicalPage).
Definition setPageDirEntry (pdeAddr physicalPage : Z) : M os unit := poke pdeAddr (Z.lor 0x80 physicalPage).

Definition allocVirtualPage (fuel : nat) (pid virtualPage physicalPage : Z) : M os unit :=
  let virtualAddr := Z.shiftl virtualPage pageBits in
  '(valid, (ptPtr, pdeAddr)) ← getPageDirEntry pid virtualAddr false;
  ptePage ← (if valid =? 0 then
               passert (ptPtr =? 127);;
               ptePage ← findFree fuel;
               setPageDirEntry pdeAddr ptePage;;
               initPageTablePage ptePage;;
               mret ptePage
             else mret ptPtr);
  '(valid, (pfn, pteAddr)) ← getPageTableEntry virtualAddr ptePage false;
  passert (valid =? 0);;
  passert (pfn =? 127);;
  setPageTableEntry pteAddr physicalPage.

(** The address, [-1] for a fault on the directory or [-2] for one on the table *)
Definition translate (pid virtualAddr : Z) : M os Z :=
  '(valid, (ptPtr, pdeAddr)) ← getPageDirEntry pid virtualAddr true;
  if valid =? 1 then
    '(valid, (pfn, pteAddr)) ← getPageTableEntry virtualAddr ptPtr true;
    if valid =? 1 then mret (Z.lor (Z.shiftl pfn pageBits) (Z.land virtualAddr OFFSET_MASK))
    else mret (-2)
  else mret (-1).

Definition fillPage (whichPage : Z) : M os unit :=
  for_ (range 0 pageSize) (λ j, v ← rand_int 31; poke (whichPage * pageSize + j) v).

(** One round of the loop of [procAlloc]: [used] is the dict of the pages that
    are allocated, here the list of its keys whose value is 1. *)
Definition alloc_page (fuel : nat) (pid : Z) (allocatedVPs : list Z) : M os (list Z) :=
  vp ← draw_while fuel vaPages (λ vp, mret (bool_decide (vp ∈ allocatedVPs)));
  passert (negb (bool_decide (vp ∈ allocatedVPs)));;
  pp ← findFree fuel;
  allocVirtualPage fuel pid vp pp;;
  fillPage pp;;
  mret (allocatedVPs ++ [vp]).

Definition procAlloc (fuel : nat) (pid numPages : Z) : M os (list Z) :=
  pageDir ← findFree fuel;
  modify (λ s, s <| pdbr ::= <[pid := pageDir]> |>);;
  initPageDir pageDir;;
  for_acc (range 0 numPages) [] (λ allocatedVPs _, alloc_page fuel pid allocatedVPs).

Definition dumpPage (whichPage : Z) : M os unit :=
  for_ (range 0 pageSize) (λ j, v ← peek (whichPage * pageSize + j); put_str (str_of_Z v));;
  print "".

Definition memoryDump : M os unit :=
  for_ (range 0 (int_div physMem pageSize)) (λ i,
    put_str ("page " +:+ fmt_d 3 i +:+ ":");;
    for_ (range 0 pageSize) (λ j, v ← peek (i * pageSize + j); put_str (fmt_x 2 v));;
    print "").

Definition getPDBR (pid : Z) : M os Z := s ← get; dict_get (pdbr s) pid.
Definition getValue (addr : Z) : M os Z := peek addr.

(** ** The main program *)

Record config := Config { allocated : Z; num : Z; solve : bool }.

(** An address: any, or in one of the pages allocated.  [random.random() *
    1024 * 32] is exact. *)
Definition draw_address (used : list Z) (i : Z) : M os Z :=
  k ← random;
  if (50 * 2 ^ 53 <? round53 (k * 100)) || (len used <=? i) then rand_int (1024 * 32)
  else
    u ← list_get used i;
    o ← rand_int 32;
    mret (Z.lor (Z.shiftl u 5) o).

Definition va_line (vaddr : Z) : string := "Virtual Address " +:+ fmt_x 4 vaddr +:+ ":".

Definition answer (r value : Z) : string :=
  if -1 <? r then "      --> Translates to Physical Address 0x" +:+ fmt_x 3 r +:+ " --> Value: " +:+ fmt_x 2 value
  else if r =? -1 then "      --> Fault (page directory entry not valid)"
  else "      --> Fault (page table entry not valid)".

Definition trace_one (cfg : config) (used : list Z) (i : Z) : M os unit :=
  vaddr ← draw_address used i;
  if solve cfg then
    print (va_line vaddr);;
    r ← translate 1 vaddr;
    value ← (if -1 <? r then getValue r else mret 0);
    print (answer r value)
  else print (va_line vaddr +:+ " Translates To What Physical Address (And Fetches what Value)? Or Fault?").

Definition main (cfg : config) (fuel : nat) : M os unit :=
  used ← procAlloc fuel 1 (allocated cfg);
  memoryDump;;
  d ← getPDBR 1;
  print (nl +:+ "PDBR: " +:+ str_of_Z d +:+ "  (decimal) [This means the page directory is held in this page]" +:+ nl);;
  for_ (range 0 (num cfg)) (trace_one cfg used);;
  print "".

(** ** The page tables in memory

    Who owns each frame in use: the directory, the table page of one entry of
    the directory, a page of the process, or nobody yet who was allocated it. *)
Inductive role := Dir | Table (i : Z) | Page (v : Z) | Spare.

(** The abstract tables: a directory of table pages, and the frames of the
    virtual pages *)
Record tables := Tables { owner : gmap Z role; dirs : gmap Z Z; frame_of : gmap Z Z }.
#[export] Instance tables_settable : Settable tables := λ t, Tables (owner t) (dirs t) (frame_of t).

(** An entry of either kind of table *)
Definition pte_of (f : option Z) : Z := from_option (λ f, 128 + f) 127 f.

(** The bytes of a frame *)
Definition byte (m : list Z) (f j : Z) : option Z := m !! Z.to_nat (f * 32 + j).

Definition contents (t : tables) (m : list Z) (f : Z) : Prop :=
  ∀ j, 0 ≤ j < 32 → match owner t !! f with
                     | Some Dir => byte m f j = Some (pte_of (dirs t !! j))
                     | Some (Table i) => byte m f j = Some (pte_of (frame_of t !! (i * 32 + j)))
                     | _ => ∃ b, byte m f j = Some b ∧ 0 ≤ b < 31
                     end.

Record inv (t : tables) (d : Z) (s : os) : Prop := {
  i_len : len (memory s) = 4096 ∧ len (usedPages s) = 128;
  i_count : usedPagesCount s = Z.of_nat (size (owner t));
  i_used f : 0 ≤ f < 128 → usedPages s !! Z.to_nat f = Some (if owner t !! f is Some _ then 1 else 0);
  i_range f r : owner t !! f = Some r → 0 ≤ f < 128;
  i_pdbr : pdbr s !! 1 = Some d;
  i_dir f : owner t !! f = Some Dir ↔ f = d;
  i_table i f : dirs t !! i = Some f ↔ owner t !! f = Some (Table i);
  i_page v f : frame_of t !! v = Some f ↔ owner t !! f = Some (Page v);
  i_dom i f : dirs t !! i = Some f → 0 ≤ i < 32;
  i_walk v f : frame_of t !! v = Some f → 0 ≤ v < 1024 ∧ is_Some (dirs t !! (v / 32));
  i_mem f : 0 ≤ f < 128 → contents t (memory s) f;
}.

(** ** Writing bytes *)

Lemma byte_in m f j : len m = 4096 → 0 ≤ f < 128 → 0 ≤ j < 32 → is_Some (byte m f j).
Proof. intros Hl Hf Hj. apply lookup_lt_is_Some. unfold len in Hl. lia. Qed.

Lemma byte_set m f j v f' j' : len m = 4096 → 0 ≤ f < 128 → 0 ≤ j < 32 → 0 ≤ f' → 0 ≤ j' < 32 →
  byte (<[Z.to_nat (f * 32 + j) := v]> m) f' j' = if bool_decide (f' = f ∧ j' = j) then Some v else byte m f' j'.
Proof.
  intros Hl Hf Hj Hf' Hj'. unfold byte, len in *. case_bool_decide as He.
  - destruct He as [-> ->]. apply list_lookup_insert_eq. lia.
  - apply list_lookup_insert_ne. intros Heq. apply He. lia.
Qed.

Lemma wp_poke a v (Q : unit → os → world → Prop) E s w : 0 ≤ a < len (memory s) →
  Q tt (s <| memory := <[Z.to_nat a := v]> (memory s) |>) w → wp (poke a v) Q E s w.
Proof. intros Ha HQ. unfold poke. wp_pures. by rewrite py_index_nonneg. Qed.

Lemma wp_peek f j b (Q : Z → os → world → Prop) E s w : byte (memory s) f j = Some b → 0 ≤ f → 0 ≤ j →
  Q b s w → wp (peek (f * 32 + j)) Q E s w.
Proof.
  intros Hb Hf Hj HQ. unfold peek. wp_pures. unfold byte in Hb. pose proof (lookup_lt_Some _ _ _ Hb).
  rewrite py_index_nonneg by (unfold len; lia). simpl. by rewrite Hb.
Qed.

(** A loop that writes every byte of a frame leaves the others. *)
Definition same_but (f : Z) (m m' : list Z) : Prop := len m' = len m ∧ ∀ f' j, 0 ≤ f' → f' ≠ f → 0 ≤ j < 32 → byte m' f' j = byte m f' j.

Lemma wp_initPageDir f (Q : unit → os → world → Prop) E s w : len (memory s) = 4096 → 0 ≤ f < 128 →
  (∀ m, same_but f (memory s) m → (∀ j, 0 ≤ j < 32 → byte m f j = Some 127) → Q tt (s <| memory := m |>) w) →
  wp (initPageDir f) Q E s w.
Proof.
  intros Hl Hf HQ. unfold initPageDir. rewrite Z.shiftl_mul_pow2 by done. change (2 ^ pageBits) with 32. unfold pageSize.
  apply (wp_for (λ pre s' w', w' = w ∧ ∃ m, s' = s <| memory := m |> ∧ same_but f (memory s) m ∧
    ∀ j, 0 ≤ j < len pre → byte m f j = Some 127)).
  - split; [done|]. exists (memory s). split; [by destruct s|]. split; [done|]. unfold len. simpl. lia.
  - intros pre i post s' w' Hr (-> & m & -> & [Hl' Hs] & Hd). apply range_split in Hr as (-> & _ & Hi).
    assert (len (range (f * 32) i) = i - f * 32) as Hlen by (unfold len; rewrite length_range; lia). rewrite Hlen in Hd.
    apply wp_poke; [cbn; lia|]. split; [done|]. eexists. split; [done|]. cbn.
    assert (i = f * 32 + (i - f * 32)) as Hii by lia. rewrite Hii. rewrite <-Hl' in Hl. split; [split|].
    + unfold len. by rewrite length_insert.
    + intros f' j Hf' Hne Hj. rewrite byte_set by (try done; lia). rewrite bool_decide_false by lia. by apply Hs.
    + intros j Hj. unfold len in Hj. rewrite length_app, length_range in Hj. simpl in Hj.
      rewrite byte_set by (try done; lia). case_bool_decide; [done|]. apply Hd. lia.
  - intros s' w' (-> & m & -> & Hs & Hd). apply HQ; [done|]. intros j Hj. apply Hd. unfold len. rewrite length_range. lia.
Qed.

Lemma wp_fillPage f (Q : unit → os → world → Prop) E s w : len (memory s) = 4096 → 0 ≤ f < 128 → rng_ok w →
  (∀ m w', same_but f (memory s) m → (∀ j, 0 ≤ j < 32 → ∃ b, byte m f j = Some b ∧ 0 ≤ b < 31) →
    rng w' = rng w → stdout w' = stdout w → Q tt (s <| memory := m |>) w') →
  wp (fillPage f) Q E s w.
Proof.
  intros Hl Hf Hw HQ. unfold fillPage. change pageSize with 32.
  apply (wp_for (λ pre s' w', (rng w' = rng w ∧ stdout w' = stdout w) ∧ ∃ m, s' = s <| memory := m |> ∧ same_but f (memory s) m ∧
    ∀ j, 0 ≤ j < len pre → ∃ b, byte m f j = Some b ∧ 0 ≤ b < 31)).
  - split; [done|]. exists (memory s). split; [by destruct s|]. split; [done|]. unfold len. simpl. lia.
  - intros pre i post s' w' Hr ([Hr' Ho] & m & -> & [Hl' Hs] & Hd). apply range_split in Hr as (-> & _ & Hi).
    unfold rand_int. wp_pures. rewrite Hr'. pose proof (int_scaled_bounds 31 (rng w (rpos w')) ltac:(lia) (Hw _)) as Hv.
    rewrite <-Hl' in Hl. apply wp_poke; [cbn; lia|]. split; [done|]. eexists. split; [done|]. cbn. split; [split|].
    + unfold len. by rewrite length_insert.
    + intros f' j Hf' Hne Hj. rewrite byte_set by (try done; lia). rewrite bool_decide_false by lia. by apply Hs.
    + intros j Hj. unfold len in Hj, Hd. rewrite length_app, length_range in Hj. rewrite length_range in Hd. simpl in Hj.
      rewrite byte_set by (try done; lia). case_bool_decide; [eauto|]. apply Hd. lia.
  - intros s' w' ([Hr Ho] & m & -> & Hs & Hd). apply HQ; [done| |done..]. intros j Hj. apply Hd. unfold len. rewrite length_range. lia.
Qed.

(** ** Finding a free frame *)

Lemma wp_draw_while fuel n N busy (p : Z → bool) v (Q : Z → os → world → Prop) E s w :
  0 < n → rng_ok w → spread n 1 N w → (N ≤ fuel)%nat → (∀ v w', 0 ≤ v < n → busy v s w' = Ok (p v) s w') →
  0 ≤ v < n → p v = false →
  (∀ v w', 0 ≤ v < n → p v = false → rng w' = rng w → stdout w' = stdout w → Q v s w') →
  wp (draw_while fuel n busy) Q E s w.
Proof.
  intros Hn Hw Hs Hfuel Hbusy Hv Hp HQ. destruct (Hs (rpos w) v Hv) as (k & Hk & Hdraw). rewrite Nat.mul_1_l in Hdraw.
  unfold draw_while, rand_int. wp_pures.
  apply (wp_while_bound (λ m x s' w', s' = s ∧ rng w' = rng w ∧ stdout w' = stdout w ∧ 0 ≤ x < n ∧
    ∃ q, x = int_scaled n (rng w q) ∧ rpos w' = S q ∧ (q + m = rpos w + k)%nat) _ _ _ _ k).
  - destruct (int_scaled_bounds n (rng w (rpos w)) Hn (Hw _)). split_and!; [done..|]. by exists (rpos w).
  - lia.
  - intros m x s' w' (-> & Hr & Ho & Hx & q & Hq & Hpos & Hm). wp_pures. unfold wp at 1. rewrite Hbusy by done.
    destruct (p x) eqn:Hpx; wp_pures; [|by apply HQ].
    destruct m as [|m]; [rewrite Nat.add_0_r in Hm; congruence|].
    exists m. split; [lia|]. rewrite Hr, Hpos. destruct (int_scaled_bounds n (rng w (S q)) Hn (Hw _)).
    split_and!; [done..|]. exists (S q). cbn. rewrite Hpos. split_and!; [done..|]. lia.
Qed.

Lemma size_range_le {A} (m : gmap Z A) n : 0 ≤ n → (∀ i x, m !! i = Some x → 0 ≤ i < n) → Z.of_nat (size m) ≤ n.
Proof.
  intros Hn Hm. rewrite <-size_dom. assert (dom m ⊆ list_to_set (C := gset Z) (range 0 n)) as Hsub%subseteq_size.
  { intros i [x Hi]%elem_of_dom. apply elem_of_list_to_set, elem_of_range. by eapply Hm. }
  rewrite size_list_to_set, length_range in Hsub by apply NoDup_range. lia.
Qed.

Lemma size_range_free {A} (m : gmap Z A) n : Z.of_nat (size m) < n → ∃ i, 0 ≤ i < n ∧ m !! i = None.
Proof.
  intros Hlt. destruct (decide (Forall (λ i, is_Some (m !! i)) (range 0 n))) as [Hall|Hex].
  - exfalso. assert (list_to_set (C := gset Z) (range 0 n) ⊆ dom m) as Hsub%subseteq_size.
    { intros i Hi%elem_of_list_to_set. apply elem_of_dom. rewrite Forall_forall in Hall. by apply Hall. }
    rewrite size_list_to_set, length_range, size_dom in Hsub by apply NoDup_range. lia.
  - apply not_Forall_Exists in Hex; [|apply _]. apply Exists_exists in Hex as (i & Hi%elem_of_range & Hno).
    exists i. split; [done|]. by apply eq_None_not_Some.
Qed.

(** [findFree] on any state whose used list is that of [o] *)
Lemma wp_findFree fuel N (o : gmap Z role) (Q : Z → os → world → Prop) E s w :
  rng_ok w → spread 128 1 N w → (N ≤ fuel)%nat → len (usedPages s) = 128 → usedPagesCount s = Z.of_nat (size o) →
  (∀ f, 0 ≤ f < 128 → usedPages s !! Z.to_nat f = Some (if o !! f is Some _ then 1 else 0)) → Z.of_nat (size o) < 128 →
  (∀ f w', 0 ≤ f < 128 → o !! f = None → rng w' = rng w → stdout w' = stdout w →
    Q f (s <| usedPagesCount := usedPagesCount s + 1 |> <| usedPages := <[Z.to_nat f := 1]> (usedPages s) |>) w') →
  wp (findFree fuel) Q E s w.
Proof.
  intros Hw Hs Hfuel Hl Hc Hu Hsz HQ. destruct (size_range_free o 128 Hsz) as (f & Hf & Hfree).
  unfold findFree. wp_pures. change maxPageCount with 128. destruct (Z.ltb_spec (usedPagesCount s) 128); [|lia].
  apply (wp_draw_while _ _ N _ (λ f, (if o !! f is Some _ then 1 else 0) =? 1) f); [done..| |done|by rewrite Hfree|].
  - intros v w' Hv. unfold list_get. rewrite py_index_nonneg by lia. simpl. by rewrite Hu.
  - intros g w' Hg Hbusy Hr Ho. wp_pures. rewrite py_index_nonneg by (cbn; lia). simpl. wp_pures.
    apply HQ; [done| |done..]. by destruct (o !! g).
Qed.

(** *** The empty memory *)

Lemma os_init_byte f j : 0 ≤ f < 128 → 0 ≤ j < 32 → byte (memory os_init) f j = Some 0.
Proof. intros Hf Hj. unfold byte, os_init. cbn [memory]. apply lookup_replicate_2. change (Z.to_nat physMem) with (Z.to_nat 4096). lia. Qed.

Lemma inv_spare t d s f : inv t d s → 0 ≤ f < 128 → owner t !! f = None →
  inv (t <| owner := <[f := Spare]> (owner t) |>) d
    (s <| usedPagesCount := usedPagesCount s + 1 |> <| usedPages := <[Z.to_nat f := 1]> (usedPages s) |>).
Proof.
  intros Hi Hf Hfree. destruct (Hi) as [[Hlm Hlu] Hc Hu Hrange Hp Hdir Ht Hpg Hdom Hwalk Hmem]. split; cbn.
  - split; [done|]. unfold len. by rewrite length_insert.
  - rewrite map_size_insert_None by done. lia.
  - intros g Hg. destruct (decide (g = f)) as [->|Hne].
    + rewrite list_lookup_insert_eq by (unfold len in Hlu; lia). by rewrite lookup_insert_eq.
    + rewrite list_lookup_insert_ne, lookup_insert_ne by lia. by apply Hu.
  - intros g r. rewrite lookup_insert_Some. intros [[<- _]|[_ Hg]]; [done|by eapply Hrange].
  - done.
  - intros g. rewrite lookup_insert_Some, <-Hdir. naive_solver congruence.
  - intros i g. rewrite lookup_insert_Some, Ht. naive_solver congruence.
  - intros v g. rewrite lookup_insert_Some, Hpg. naive_solver congruence.
  - done.
  - done.
  - intros g Hg j Hj. specialize (Hmem g Hg j Hj). cbn. destruct (decide (g = f)) as [->|Hne].
    + rewrite lookup_insert_eq. by rewrite Hfree in Hmem.
    + by rewrite lookup_insert_ne.
Qed.

(** ** Walking the tables *)

Lemma pte_of_fields (o : option Z) : (∀ f, o = Some f → 0 ≤ f < 128) →
  pte_valid (pte_of o) = (if o is Some _ then 1 else 0) ∧ pte_pfn (pte_of o) = default 127 o.
Proof.
  intros Ho. unfold pte_valid, pte_pfn. change 0x80 with (Z.shiftl (Z.ones 1) 7). change 0x7f with (Z.ones 7).
  rewrite field_bits, Z.land_ones by done. destruct o as [f|]; [|done]. specialize (Ho f eq_refl). simpl.
  rewrite (Z.add_comm 128 f), <-(Z.mul_1_l 128). change 128 with (2 ^ 7) in Ho |- *.
  rewrite Z.div_add, Z.mod_add, (Z.div_small f), (Z.mod_small f) by done. done.
Qed.

Lemma page_bits v : 0 ≤ v < 2 ^ 15 →
  Z.shiftr (Z.land v PDE_MASK) PDE_SHIFT = v / 1024 ∧ Z.shiftr (Z.land v PTE_MASK) PTE_SHIFT = v / 32 mod 32 ∧
  Z.land v OFFSET_MASK = v mod 32.
Proof.
  intros Hv. unfold PDE_MASK, PTE_MASK, OFFSET_MASK. change 0x7c00 with (Z.shiftl (Z.ones 5) 10).
  change 0x03e0 with (Z.shiftl (Z.ones 5) 5). change 0x1f with (Z.ones 5). rewrite !field_bits, Z.land_ones by done.
  split_and!; [|done..]. apply Z.mod_small. split; [apply Z.div_pos; lia|]. apply Z.div_lt_upper_bound; lia.
Qed.

Lemma page_and_offset f j : 0 ≤ j < 32 → Z.lor (Z.shiftl f pageBits) j = f * 32 + j.
Proof. intros Hj. by rewrite lor_shiftl_low. Qed.

(** The index of a page in the directory and in its table page *)
Lemma page_index v : 0 ≤ v < 2 ^ 15 → 0 ≤ v / 1024 < 32 ∧ 0 ≤ v / 32 mod 32 < 32 ∧ v / 32 / 32 = v / 1024 ∧
  v / 1024 * 32 + v / 32 mod 32 = v / 32.
Proof.
  intros Hv. destruct (Z.mod_pos_bound (v / 32) 32 ltac:(lia)). pose proof (Z.div_mod (v / 32) 32 ltac:(lia)) as Hdm.
  rewrite Z.div_div in Hdm |- * by done. change (32 * 32) with 1024 in *.
  assert (0 ≤ v / 1024) by (apply Z.div_pos; lia). assert (v / 1024 < 32) by (apply Z.div_lt_upper_bound; lia).
  split_and!; [done..|lia].
Qed.

Section Walk.
Context (t : tables) (d : Z) (s : os).
Hypothesis Hi : inv t d s.

Lemma inv_dir : owner t !! d = Some Dir ∧ 0 ≤ d < 128.
Proof. assert (owner t !! d = Some Dir) as Hd by by apply (i_dir _ _ _ Hi). split; [done|]. by eapply (i_range _ _ _ Hi). Qed.

Lemma inv_table i f : dirs t !! i = Some f → owner t !! f = Some (Table i) ∧ 0 ≤ f < 128 ∧ 0 ≤ i < 32.
Proof.
  intros Hf. pose proof (i_dom _ _ _ Hi _ _ Hf). apply (i_table _ _ _ Hi) in Hf.
  split; [done|]. split; [by eapply (i_range _ _ _ Hi)|done].
Qed.

Lemma inv_page v f : frame_of t !! v = Some f → owner t !! f = Some (Page v) ∧ 0 ≤ f < 128.
Proof. intros Hf. apply (i_page _ _ _ Hi) in Hf. split; [done|]. by eapply (i_range _ _ _ Hi). Qed.

Lemma inv_frame v f : frame_of t !! v = Some f → 0 ≤ f < 128.
Proof. by intros [_ ?]%inv_page. Qed.

Definition pde (v : Z) : Z := pte_of (dirs t !! (v / 1024)).
Definition pte (v : Z) : Z := pte_of (frame_of t !! (v / 32)).

Lemma wp_getPageDirEntry v (b : bool) (Q : Z * (Z * Z) → os → world → Prop) E w : 0 ≤ v < 2 ^ 15 →
  Q ((if dirs t !! (v / 1024) is Some _ then 1 else 0), (default 127 (dirs t !! (v / 1024)), d * 32 + v / 1024)) s
    (if b then emit (pde_line (v / 1024) (pde v) +:+ nl) w else w) →
  wp (getPageDirEntry 1 v b) Q E s w.
Proof.
  intros Hv HQ. unfold getPageDirEntry. wp_pures. rewrite (i_pdbr _ _ _ Hi). wp_pures.
  destruct (page_bits v Hv) as (-> & _ & _). destruct (page_index v Hv) as (Hx & _).
  destruct inv_dir as [Hd Hrange]. rewrite page_and_offset by done.
  pose proof (i_mem _ _ _ Hi d Hrange _ Hx) as Hm. rewrite Hd in Hm.
  eapply wp_peek; [done|lia..|]. fold (pde v). destruct (pte_of_fields (dirs t !! (v / 1024))) as [Hvalid Hpfn].
  { intros f Hf. by apply inv_table in Hf as (_ & ? & _). }
  fold (pde v) in Hvalid, Hpfn. destruct b; wp_pures; by rewrite Hvalid, Hpfn.
Qed.

Lemma wp_getPageTableEntry v f (b : bool) (Q : Z * (Z * Z) → os → world → Prop) E w : 0 ≤ v < 2 ^ 15 → dirs t !! (v / 1024) = Some f →
  Q ((if frame_of t !! (v / 32) is Some _ then 1 else 0), (default 127 (frame_of t !! (v / 32)), f * 32 + v / 32 mod 32)) s
    (if b then emit (pte_line (v / 32 mod 32) (pte v) +:+ nl) w else w) →
  wp (getPageTableEntry v f b) Q E s w.
Proof.
  intros Hv Hf HQ. unfold getPageTableEntry. destruct (page_bits v Hv) as (_ & -> & _).
  destruct (page_index v Hv) as (_ & Hx & _ & Hvp). apply inv_table in Hf as (Ho & Hrange & _).
  rewrite page_and_offset by done. wp_pures.
  pose proof (i_mem _ _ _ Hi f Hrange _ Hx) as Hm. rewrite Ho, Hvp in Hm.
  eapply wp_peek; [done|lia..|]. fold (pte v). destruct (pte_of_fields (frame_of t !! (v / 32))) as [Hvalid Hpfn].
  { apply inv_frame. }
  fold (pte v) in Hvalid, Hpfn. destruct b; wp_pures; by rewrite Hvalid, Hpfn.
Qed.

(** What a translation is to print and to answer *)
Definition walk (v : Z) : list string :=
  pde_line (v / 1024) (pde v) :: if dirs t !! (v / 1024) is Some _ then [pte_line (v / 32 mod 32) (pte v)] else [].
Definition physical (v : Z) : Z :=
  match dirs t !! (v / 1024), frame_of t !! (v / 32) with
  | None, _ => -1
  | _, None => -2
  | _, Some f => f * 32 + v mod 32
  end.

Lemma wp_translate_walk v (Q : Z → os → world → Prop) E w : 0 ≤ v < 2 ^ 15 →
  (∀ w', shown (walk v) w w' → rng w' = rng w → rpos w' = rpos w → Q (physical v) s w') → wp (translate 1 v) Q E s w.
Proof.
  intros Hv HQ. unfold translate. rewrite wp_bind. apply wp_getPageDirEntry; [done|]. unfold physical, walk in HQ.
  destruct (dirs t !! (v / 1024)) as [f|] eqn:Hf; simpl in *; wp_pures; [|by apply HQ].
  apply wp_getPageTableEntry; [done|done|]. destruct (frame_of t !! (v / 32)) as [g|]; simpl; wp_pures; [|by apply HQ].
  destruct (page_bits v Hv) as (_ & _ & ->). rewrite page_and_offset by (apply Z.mod_pos_bound; lia). by apply HQ.
Qed.
End Walk.

(** ** Allocation *)

(** A spare frame is given to [r]: the frames of the other owners stay the same, *)
Lemma reowned_other (o : gmap Z role) f r r' g : o !! f = Some Spare → r' ≠ r → r' ≠ Spare →
  <[f := r]> o !! g = Some r' ↔ o !! g = Some r'.
Proof.
  intros Hf Hr Hs. rewrite lookup_insert_Some. split; [by intros [[_ Heq]|[_ ?]]|].
  intros Hg. right. split; [congruence|done].
Qed.

(** and a table that names the frames of [c] gets a new entry. *)
Lemma reowned_new (o : gmap Z role) (m : gmap Z Z) (c : Z → role) i f : Inj (=) (=) c → o !! f = Some Spare → (∀ k, c k ≠ Spare) →
  (∀ k g, m !! k = Some g ↔ o !! g = Some (c k)) → m !! i = None →
  ∀ k g, <[i := f]> m !! k = Some g ↔ <[f := c i]> o !! g = Some (c k).
Proof.
  intros Hc Hf Hci Hm Hi k g. rewrite !lookup_insert_Some, Hm. split.
  - intros [[<- <-]|[Hk Hg]]; [by left|]. right. split; [|done]. intros <-.
    rewrite Hf in Hg. injection Hg as Hg. by destruct (Hci k).
  - intros [[<- Heq]|[Hne Hg]]; [left; by apply (inj c) in Heq|]. right. split; [|done]. intros <-. apply Hm in Hg. congruence.
Qed.

Section Alloc.
Context (t : tables) (d : Z) (s : os) (f : Z).
Hypothesis Hi : inv t d s.
Hypothesis Hspare : owner t !! f = Some Spare.

(** A spare frame gets an owner: what does not depend on the memory. *)
Lemma spare_taken r : Z.of_nat (size (<[f:=r]> (owner t))) = Z.of_nat (size (owner t)) ∧ 0 ≤ f < 128 ∧ f ≠ d ∧
  (∀ g, (if <[f:=r]> (owner t) !! g is Some _ then 1 else 0) = if owner t !! g is Some _ then 1 else 0 : Z).
Proof.
  destruct (inv_dir _ _ _ Hi) as [Hd _]. split_and!.
  - by rewrite map_size_insert_Some by by eauto.
  - by eapply (i_range _ _ _ Hi).
  - by eapply (i_range _ _ _ Hi).
  - congruence.
  - intros g. destruct (decide (g = f)) as [->|Hne]; [by rewrite lookup_insert_eq, Hspare|by rewrite lookup_insert_ne].
Qed.

Lemma inv_new_table i m : dirs t !! i = None → 0 ≤ i < 32 →
  same_but f (<[Z.to_nat (d * 32 + i) := 128 + f]> (memory s)) m → (∀ j, 0 ≤ j < 32 → byte m f j = Some 127) →
  inv (t <| owner ::= <[f := Table i]> |> <| dirs ::= <[i := f]> |>) d (s <| memory := m |>).
Proof.
  intros Hnone Hix [Hlen Hsame] Hnew. destruct (spare_taken (Table i)) as (Hsz & Hf & Hfd & Hused).
  destruct (inv_dir _ _ _ Hi) as [Hd Hdr]. destruct (Hi) as [[Hlm Hlu] Hc Hu Hrange Hp Hdir Ht Hpg Hdom Hwalk Hmem].
  split; cbn; [split; [|done]|lia| | |done| | | | | |].
  - rewrite Hlen. unfold len. by rewrite length_insert.
  - intros g Hg. by rewrite Hused, Hu.
  - intros g r. rewrite lookup_insert_Some. intros [[<- _]|[_ Hg]]; [done|by eapply Hrange].
  - intros g. by rewrite reowned_other.
  - apply (reowned_new _ _ Table); by try intros ? ? [=].
  - intros v g. by rewrite reowned_other.
  - intros k g. rewrite lookup_insert_Some. intros [[<- _]|[_ Hg]]; [done|by eapply Hdom].
  - intros v g Hv. destruct (Hwalk _ _ Hv) as [Hr Hs]. split; [done|]. rewrite lookup_insert_is_Some'. by right.
  - intros g Hg j Hj. cbn. destruct (decide (g = f)) as [->|Hne].
    + rewrite lookup_insert_eq, Hnew by done. destruct (frame_of t !! (i * 32 + j)) as [h|] eqn:Hh; [|done].
      destruct (Hwalk _ _ Hh) as [_ [x Hx]]. rewrite Z.div_add_l, (Z.div_small j), Z.add_0_r in Hx by lia. congruence.
    + rewrite lookup_insert_ne, Hsame by (done || lia). specialize (Hmem g Hg j Hj). rewrite byte_set by (done || lia).
      case_bool_decide as Hgd; [destruct Hgd as [-> ->]; by rewrite Hd, lookup_insert_eq|].
      destruct (owner t !! g) as [[]|] eqn:Hg'; try done. apply Hdir in Hg'. rewrite lookup_insert_ne; [done|]. intros <-. by apply Hgd.
Qed.

Lemma inv_new_page v g : frame_of t !! v = None → 0 ≤ v < 1024 → dirs t !! (v / 32) = Some g →
  inv (t <| owner ::= <[f := Page v]> |> <| frame_of ::= <[v := f]> |>) d
    (s <| memory := <[Z.to_nat (g * 32 + v mod 32) := 128 + f]> (memory s) |>).
Proof.
  intros Hnone Hv Hg. destruct (spare_taken (Page v)) as (Hsz & Hf & Hfd & Hused).
  destruct (inv_table _ _ _ Hi _ _ Hg) as (Hgo & Hgr & _).
  destruct (Hi) as [[Hlm Hlu] Hc Hu Hrange Hp Hdir Ht Hpg Hdom Hwalk Hmem].
  pose proof (Z.mod_pos_bound v 32 ltac:(lia)) as Hvm. pose proof (Z.div_mod v 32 ltac:(lia)) as Hdm.
  split; cbn; [split; [|done]|lia| | |done| | | |done| |].
  - unfold len. by rewrite length_insert.
  - intros h Hh. by rewrite Hused, Hu.
  - intros h r. rewrite lookup_insert_Some. intros [[<- _]|[_ Hh]]; [done|by eapply Hrange].
  - intros h. by rewrite reowned_other.
  - intros k h. by rewrite reowned_other.
  - apply (reowned_new _ _ Page); by try intros ? ? [=].
  - intros u h. rewrite lookup_insert_Some. intros [[<- _]|[_ Hh]]; [by eauto|by eapply Hwalk].
  - intros h Hh j Hj. cbn. specialize (Hmem h Hh j Hj). rewrite byte_set by (done || lia).
    destruct (decide (h = f)) as [->|Hne].
    + rewrite lookup_insert_eq. rewrite Hspare in Hmem. rewrite bool_decide_false; [done|]. intros [-> _]. congruence.
    + rewrite lookup_insert_ne by done. case_bool_decide as Hhg.
      * destruct Hhg as [-> ->]. rewrite Hgo. replace (v / 32 * 32 + v mod 32) with v by lia. by rewrite lookup_insert_eq.
      * destruct (owner t !! h) as [[|k| |]|] eqn:Hho; try done. rewrite lookup_insert_ne; [done|]. intros Hvk. apply Hhg.
        apply Ht in Hho. assert (v / 32 = k ∧ v mod 32 = j) as [<- <-] by lia. split; congruence.
Qed.
End Alloc.

Lemma inv_filled t d s f v m : inv t d s → owner t !! f = Some (Page v) → same_but f (memory s) m →
  (∀ j, 0 ≤ j < 32 → ∃ b, byte m f j = Some b ∧ 0 ≤ b < 31) → inv t d (s <| memory := m |>).
Proof.
  intros Hi Ho [Hlen Hsame] Hnew. destruct (Hi) as [[Hlm Hlu] Hc Hu Hrange Hp Hdir Ht Hpg Hdom Hwalk Hmem].
  split; cbn; try done; [by rewrite Hlen|].
  intros g Hg j Hj. destruct (decide (g = f)) as [->|Hne]; [rewrite Ho; by apply Hnew|].
  specialize (Hmem g Hg j Hj). by rewrite Hsame by (done || lia).
Qed.

(** *** The steps of an allocation *)

Section Steps.
Context (fuel N : nat) (d : Z).
Hypothesis Hfuel : (N ≤ fuel)%nat.

Lemma wp_find_spare t s w (Q : Z → os → world → Prop) : inv t d s → rng_ok w → spread 128 1 N w → Z.of_nat (size (owner t)) < 128 →
  (∀ f s' w', owner t !! f = None → inv (t <| owner ::= <[f := Spare]> |>) d s' → rng w' = rng w → stdout w' = stdout w → memory s' = memory s → Q f s' w') →
  wp (findFree fuel) Q noexn s w.
Proof.
  intros Hi Hw Hs Hsz HQ. destruct (i_len _ _ _ Hi) as [_ Hlu].
  apply (wp_findFree fuel N (owner t)); [done..|apply (i_count _ _ _ Hi)|apply (i_used _ _ _ Hi)|done|].
  intros f w' Hf Hfree Hr Ho. apply HQ; [done|by apply inv_spare|done..].
Qed.

(** What an allocation of the page [v] in the frame [f] does to the tables *)
Record allocated_page (t t' : tables) (v f : Z) : Prop := {
  a_frame : frame_of t' = <[v := f]> (frame_of t);
  a_dirs i : is_Some (dirs t' !! i) ↔ i = v / 32 ∨ is_Some (dirs t !! i);
  a_owner : owner t' !! f = Some (Page v);
  a_size : Z.of_nat (size (owner t')) + Z.of_nat (size (dirs t)) = Z.of_nat (size (owner t)) + Z.of_nat (size (dirs t'));
}.

(** The last step: the entry of the page, once its table page is there *)
Lemma wp_setPage t s v f g w (Q : unit → os → world → Prop) : inv t d s → owner t !! f = Some Spare → 0 ≤ v < 1024 →
  frame_of t !! v = None → dirs t !! (v / 32) = Some g →
  (∀ t' s', inv t' d s' → allocated_page t t' v f → dirs t' = dirs t → Q tt s' w) →
  wp ('(valid, (pfn, pteAddr)) ← getPageTableEntry (Z.shiftl v pageBits) g false;
      passert (valid =? 0);; passert (pfn =? 127);; setPageTableEntry pteAddr f) Q noexn s w.
Proof.
  intros Hi Hf Hv Hnone Hg HQ. destruct (inv_table _ _ _ Hi _ _ Hg) as (_ & Hgr & _).
  destruct (spare_taken _ _ _ _ Hi Hf (Page v)) as (Hsz & Hfr & _).
  pose proof (Z.mod_pos_bound v 32 ltac:(lia)). rewrite Z.shiftl_mul_pow2 by done. change (2 ^ pageBits) with 32.
  assert (v * 32 / 1024 = v / 32) as Hvi by (change 1024 with (32 * 32); by rewrite Z.div_mul_cancel_r).
  rewrite wp_bind. eapply (wp_getPageTableEntry _ _ _ Hi); [lia|by rewrite Hvi|]. rewrite Z.div_mul, Hnone by done. cbn. wp_pures.
  unfold setPageTableEntry. apply wp_poke; [destruct (i_len _ _ _ Hi) as [-> _]; lia|].
  replace (Z.lor 128 f) with (128 + f) by (change 128 with (Z.shiftl 1 7) at 2; by rewrite lor_shiftl_low).
  eapply HQ; [by apply inv_new_page|split; cbn|done].
  - done.
  - intros i. split; [by right|]. intros [->|?]; by eauto.
  - apply lookup_insert_eq.
  - lia.
Qed.

Lemma wp_allocVirtualPage t s v f w (Q : unit → os → world → Prop) : inv t d s → owner t !! f = Some Spare → 0 ≤ v < 1024 →
  frame_of t !! v = None → rng_ok w → spread 128 1 N w → (dirs t !! (v / 32) = None → Z.of_nat (size (owner t)) < 128) →
  (∀ t' s' w', inv t' d s' → allocated_page t t' v f → rng w' = rng w → stdout w' = stdout w → Q tt s' w') →
  wp (allocVirtualPage fuel 1 v f) Q noexn s w.
Proof.
  intros Hi Hf Hv Hnone Hw Hs Hsz HQ. unfold allocVirtualPage. rewrite wp_bind.
  assert (Z.shiftl v pageBits = v * 32) as Hvs by (by rewrite Z.shiftl_mul_pow2).
  assert (v * 32 / 1024 = v / 32) as Hvi by (change 1024 with (32 * 32); by rewrite Z.div_mul_cancel_r).
  apply (wp_getPageDirEntry _ _ _ Hi); [lia|]. rewrite Hvs, Hvi. destruct (dirs t !! (v / 32)) as [g|] eqn:Hg; cbn.
  { rewrite wp_bind, wp_ret, <-Hvs. eapply wp_setPage; [done..|]. intros. by eapply HQ. }
  rewrite !wp_bind, wp_ret, wp_bind.
  eapply wp_find_spare; [done..|by apply Hsz|]. intros g s' w' Hfree Hi' Hr Ho Hmem. rewrite wp_bind. unfold setPageDirEntry.
  destruct (inv_dir _ _ _ Hi) as [_ Hdr]. destruct (i_len _ _ _ Hi') as [Hlm _].
  assert (0 ≤ v / 32 < 32) as Hvr by (split; [apply Z.div_pos; lia|apply Z.div_lt_upper_bound; lia]).
  apply wp_poke; [lia|]. rewrite wp_bind. assert (0 ≤ g < 128) as Hgr by (eapply (i_range _ _ _ Hi'); apply lookup_insert_eq).
  apply wp_initPageDir; [cbn; unfold len; by rewrite length_insert|done|]. intros m Hm Hnew. rewrite wp_ret.
  replace (Z.lor 128 g) with (128 + g) in Hm by (change 128 with (Z.shiftl 1 7) at 2; by rewrite lor_shiftl_low).
  pose proof (inv_new_table _ _ _ g Hi' (lookup_insert_eq _ _ _) (v / 32) m Hg Hvr Hm Hnew) as Hi2.
  rewrite <-Hvs. assert (f ≠ g) as Hfg by congruence. eapply wp_setPage; [exact Hi2|cbn; by rewrite !lookup_insert_ne by done|done|done|cbn; apply lookup_insert_eq|].
  intros t3 s3 Hi3 [Hfr Hd Hown Hsize] Hdirs. eapply HQ; [done| |done..]. rewrite Hdirs in *. cbn in *. split; cbn; try done.
  - intros i. rewrite Hdirs, lookup_insert_is_Some'. naive_solver.
  - rewrite Hdirs. assert (size (<[v / 32 := g]> (dirs t)) = S (size (dirs t))) as Hd1 by by apply map_size_insert_None.
    assert (size (<[g := Spare]> (owner t)) = S (size (owner t))) as Ho1 by by apply map_size_insert_None.
    rewrite (map_size_insert_Some g) in Hsize by (rewrite lookup_insert_eq; eauto). lia.
Qed.
End Steps.

(** *** A whole process *)

(** The pages of [vps] are mapped, and nothing else is in use. *)
Record mapped (t : tables) (d : Z) (vps : list Z) (s : os) : Prop := {
  m_inv : inv t d s;
  m_nodup : NoDup vps;
  m_pages v : v ∈ vps ↔ is_Some (frame_of t !! v);
  m_dirs i : is_Some (dirs t !! i) ↔ ∃ v, v ∈ vps ∧ v / 32 = i;
  m_size : Z.of_nat (size (owner t)) = 1 + Z.of_nat (size (dirs t)) + len vps;
}.

Lemma mapped_count t d vps s : mapped t d vps s → Z.of_nat (size (frame_of t)) = len vps ∧ Z.of_nat (size (dirs t)) ≤ 32.
Proof.
  intros [Hi Hnd Hp Hd Hs]. split.
  - assert (dom (frame_of t) = list_to_set (C := gset Z) vps) as Hdom.
    { apply set_eq. intros v. by rewrite elem_of_dom, elem_of_list_to_set, Hp. }
    rewrite <-size_dom, Hdom, size_list_to_set by done. done.
  - apply size_range_le; [done|]. intros i f. apply (i_dom _ _ _ Hi).
Qed.

Section Process.
Context (fuel N : nat) (w0 : world).
Hypothesis Hfuel : (N ≤ fuel)%nat.
Hypothesis Hw0 : rng_ok w0.
Hypothesis Hframes : spread 128 1 N w0.
Hypothesis Hpages : spread 1024 1 N w0.

Definition follows (w : world) : Prop := rng w = rng w0 ∧ stdout w = stdout w0.

Lemma wp_alloc_page t d vps s w (Q : list Z → os → world → Prop) : mapped t d vps s → len vps < 95 → follows w →
  (∀ t' v s' w', 0 ≤ v < 1024 → mapped t' d (vps ++ [v]) s' → follows w' → Q (vps ++ [v]) s' w') →
  wp (alloc_page fuel 1 vps) Q noexn s w.
Proof.
  intros Hm Hlt [Hr Ho] HQ. destruct (mapped_count _ _ _ _ Hm) as [Hcount Hd32].
  destruct (size_range_free (frame_of t) 1024) as (v0 & Hv0 & Hnone0); [lia|]. destruct Hm as [Hi Hnd Hp Hd Hs].
  unfold alloc_page. rewrite wp_bind. eapply (wp_draw_while _ 1024 N _ (λ v, bool_decide (v ∈ vps)) v0);
    [done|by eapply rng_ok_rng|by eapply spread_rng|done|done|done| |].
  { apply bool_decide_eq_false. rewrite Hp, Hnone0. by intros [? ?]. }
  intros v w1 Hv Hfree Hr1 Ho1. rewrite wp_bind, wp_passert, Hfree. cbn [negb]. apply bool_decide_eq_false in Hfree.
  assert (frame_of t !! v = None) as Hnone by (apply eq_None_not_Some; by rewrite <-Hp).
  rewrite wp_bind. eapply (wp_find_spare fuel N); [done|exact Hi|apply (rng_ok_rng w0); [congruence|done]|apply (spread_rng _ _ _ w0); [congruence|done]|lia|].
  intros f s2 w2 Hff Hi2 Hr2 Ho2 _. rewrite wp_bind.
  eapply (wp_allocVirtualPage fuel N); [done|exact Hi2|cbn; apply lookup_insert_eq|done|done|apply (rng_ok_rng w0); [congruence|done]|apply (spread_rng _ _ _ w0); [congruence|done]| |].
  { cbn. intros Hdn. rewrite map_size_insert_None by done. assert (Z.of_nat (size (<[v / 32 := 0]> (dirs t))) ≤ 32) as H32.
    { apply size_range_le; [done|]. intros i x. rewrite lookup_insert_Some. intros [[<- _]|[_ Hx]]; [|by eapply (i_dom _ _ _ Hi)].
      split; [apply Z.div_pos; lia|apply Z.div_lt_upper_bound; lia]. }
    rewrite map_size_insert_None in H32 by done. lia. }
  intros t3 s3 w3 Hi3 [Hfr Hdr Hown Hsz] Hr3 Ho3. cbn in Hfr, Hdr, Hsz. rewrite map_size_insert_None in Hsz by done.
  rewrite wp_bind. pose proof (i_range _ _ _ Hi3 _ _ Hown) as Hfrange. pose proof (proj1 (i_len _ _ _ Hi3)) as Hl3.
  apply wp_fillPage; [done..|apply (rng_ok_rng w0); [congruence|done]|]. intros m w4 Hsame Hnew Hr4 Ho4. rewrite wp_ret.
  apply (HQ t3); [done| |split; congruence]. split; [by eapply inv_filled|..].
  - apply NoDup_app. split_and!; [done| |by apply NoDup_singleton]. intros x Hx ->%list_elem_of_singleton. done.
  - intros x. rewrite elem_of_app, list_elem_of_singleton, Hfr, lookup_insert_is_Some', Hp. naive_solver.
  - intros i. rewrite Hdr, Hd. setoid_rewrite elem_of_app. setoid_rewrite list_elem_of_singleton. naive_solver.
  - unfold len. rewrite length_app. simpl. unfold len in Hs. lia.
Qed.

Lemma inv_fresh d m : 0 ≤ d < 128 → same_but d (memory os_init) m → (∀ j, 0 ≤ j < 32 → byte m d j = Some 127) →
  inv (Tables {[d := Dir]} ∅ ∅) d
    (os_init <| usedPagesCount := 1 |> <| usedPages := <[Z.to_nat d := 1]> (usedPages os_init) |> <| pdbr := {[1 := d]} |> <| memory := m |>).
Proof.
  intros Hd [Hlen Hsame] Hnew. split; cbn -[os_init]; try done; try (intros *; by rewrite lookup_empty).
  - split; [done|]. unfold len. by rewrite length_insert.
  - by rewrite map_size_singleton.
  - intros f Hf. destruct (decide (f = d)) as [->|Hne].
    + rewrite lookup_singleton_eq. apply list_lookup_insert_eq. change (length (usedPages os_init)) with 128%nat. lia.
    + rewrite lookup_singleton_ne, list_lookup_insert_ne by (done || lia). apply lookup_replicate_2. change (Z.to_nat maxPageCount) with (Z.to_nat 128). lia.
  - intros f r [<- _]%lookup_singleton_Some. done.
  - intros f. rewrite lookup_singleton_Some. split; [by intros [-> _]|by intros ->].
  - intros i f. rewrite lookup_empty, lookup_singleton_Some. split; [done|by intros [_ ?]].
  - intros v f. rewrite lookup_empty, lookup_singleton_Some. split; [done|by intros [_ ?]].
  - intros f Hf j Hj. cbn [owner dirs frame_of]. destruct (decide (f = d)) as [->|Hne].
    + rewrite lookup_singleton_eq, lookup_empty. by apply Hnew.
    + rewrite lookup_singleton_ne, Hsame, os_init_byte by (done || lia). by exists 0.
Qed.

Lemma wp_procAlloc n (Q : list Z → os → world → Prop) : 0 ≤ n ≤ 95 →
  (∀ t d vps s w, mapped t d vps s → len vps = n → Forall (λ v, 0 ≤ v < 1024) vps → follows w → Q vps s w) →
  wp (procAlloc fuel 1 n) Q noexn os_init w0.
Proof.
  intros Hn HQ. unfold procAlloc. rewrite wp_bind. apply (wp_findFree fuel N ∅); try done.
  { intros f Hf. rewrite lookup_empty. apply lookup_replicate_2. change (Z.to_nat maxPageCount) with (Z.to_nat 128). lia. }
  intros d w1 Hd _ Hr1 Ho1. rewrite wp_bind, wp_modify, wp_bind. apply wp_initPageDir; [done..|].
  intros m Hsame Hnew.
  apply (wp_for_acc (λ pre vps s w, ∃ t, mapped t d vps s ∧ len vps = len pre ∧ Forall (λ v, 0 ≤ v < 1024) vps ∧ follows w)).
  - exists (Tables {[d := Dir]} ∅ ∅). split; [|done]. split; cbn [owner dirs frame_of].
    + by apply inv_fresh.
    + constructor.
    + intros v. rewrite lookup_empty. split; [by intros ?%elem_of_nil|by intros [? ?]].
    + intros i. rewrite lookup_empty. split; [by intros [? ?]|by intros (? & ?%elem_of_nil & _)].
    + by rewrite map_size_singleton, map_size_empty.
  - intros pre x post vps s w Hrange (t & Hm & Hlen & Hall & Hf). apply range_split in Hrange as (-> & _ & Hx).
    assert (len vps = x) as Hlx by (rewrite Hlen; unfold len; rewrite length_range; lia).
    eapply wp_alloc_page; [done|lia|done|]. intros t' v s' w' Hv Hm' Hf'. exists t'. split_and!; [done| | |done].
    + unfold len in *. rewrite !length_app, !length_range in *. simpl. lia.
    + apply Forall_app. by rewrite Forall_singleton.
  - intros vps s w (t & Hm & Hlen & Hall & Hf). eapply HQ; [done| |done..]. rewrite Hlen. unfold len. rewrite length_range. lia.
Qed.
End Process.

(** ** The whole program *)

(** What is printed for an address *)
Definition report (t : tables) (s : os) (v : Z) : list string :=
  va_line v :: walk t v ++ [answer (physical t v) (default 0 (memory s !! Z.to_nat (physical t v)))].

Definition pdbr_line (d : Z) : string :=
  nl +:+ "PDBR: " +:+ str_of_Z d +:+ "  (decimal) [This means the page directory is held in this page]" +:+ nl.

(** The fault of an address whose page is not mapped *)
Definition fault (vps : list Z) (v : Z) : Z := if bool_decide (Exists (λ p, p / 32 = v / 1024) vps) then -2 else -1.

Section Program.
Context (t : tables) (d : Z) (vps : list Z) (s : os).
Hypothesis Hm : mapped t d vps s.

Lemma physical_page v : 0 ≤ v < 2 ^ 15 → v / 32 ∈ vps → ∃ f, frame_of t !! (v / 32) = Some f ∧ physical t v = f * 32 + v mod 32 ∧
  0 ≤ f < 128 ∧ 0 ≤ physical t v < 4096 ∧ ∃ b, memory s !! Z.to_nat (physical t v) = Some b ∧ 0 ≤ b < 31.
Proof.
  intros Hv Hin. destruct Hm as [Hi _ Hp Hd _]. destruct (page_index v Hv) as (_ & _ & Hvi & _).
  apply Hp in Hin as Hf. destruct Hf as [f Hf]. assert (is_Some (dirs t !! (v / 1024))) as [g Hg] by (apply Hd; eauto).
  exists f. unfold physical. rewrite Hg, Hf. destruct (inv_page _ _ _ Hi _ _ Hf) as [Ho Hfr].
  pose proof (Z.mod_pos_bound v 32 ltac:(lia)) as Hvm. pose proof (i_mem _ _ _ Hi f Hfr _ Hvm) as Hb. rewrite Ho in Hb.
  split_and!; [done|done|lia..|done].
Qed.

Lemma physical_fault v : 0 ≤ v < 2 ^ 15 → v / 32 ∉ vps → physical t v = fault vps v.
Proof.
  intros Hv Hout. destruct Hm as [Hi _ Hp Hd _].
  assert (frame_of t !! (v / 32) = None) as Hnone by (apply eq_None_not_Some; by rewrite <-Hp).
  unfold physical, fault. rewrite Hnone. case_bool_decide as Hex.
  - apply Exists_exists in Hex. assert (is_Some (dirs t !! (v / 1024))) as [g Hg] by (apply Hd; naive_solver). by rewrite Hg.
  - destruct (dirs t !! (v / 1024)) as [g|] eqn:Hg; [|done]. destruct Hex. apply Exists_exists. apply Hd. by exists g.
Qed.

Lemma page_address_inj v v' : 0 ≤ v < 2 ^ 15 → 0 ≤ v' < 2 ^ 15 → v / 32 ∈ vps → v' / 32 ∈ vps → physical t v = physical t v' → v = v'.
Proof.
  intros Hv Hv' Hin Hin' Heq. destruct (physical_page v Hv Hin) as (f & Hf & Hp & _).
  destruct (physical_page v' Hv' Hin') as (f' & Hf' & Hp' & _). rewrite Hp, Hp' in Heq.
  pose proof (Z.mod_pos_bound v 32 ltac:(lia)). pose proof (Z.mod_pos_bound v' 32 ltac:(lia)).
  assert (f = f' ∧ v mod 32 = v' mod 32) as [<- Hmod] by lia. destruct Hm as [Hi _ _ _ _].
  apply (inv_page _ _ _ Hi) in Hf as [Ho _], Hf' as [Ho' _]. assert (v / 32 = v' / 32) as Hpage by congruence.
  rewrite (Z.div_mod v 32), (Z.div_mod v' 32) by lia. congruence.
Qed.

Lemma wp_draw_address i w (Q : Z → os → world → Prop) : Forall (λ v, 0 ≤ v < 1024) vps → 0 ≤ i → rng_ok w →
  (∀ v w', 0 ≤ v < 2 ^ 15 → rng w' = rng w → stdout w' = stdout w → Q v s w') → wp (draw_address vps i) Q noexn s w.
Proof.
  intros Hall Hi Hw HQ. unfold draw_address, rand_int. wp_pures. destruct (_ || _) eqn:Hc; wp_pures.
  { apply HQ; [|done..]. apply (int_scaled_bounds (1024 * 32)); [lia|apply Hw]. }
  apply orb_false_iff in Hc as [_ Hlt%Z.leb_gt]. rewrite py_index_nonneg by lia. cbn [mbind option_bind].
  destruct (lookup_lt_is_Some_2 vps (Z.to_nat i)) as [u Hu]; [unfold len in Hlt; lia|]. rewrite Hu. wp_pures.
  rewrite Forall_lookup in Hall. specialize (Hall _ _ Hu). cbn in Hall. cbn [drawn rng rpos].
  pose proof (int_scaled_bounds 32 (rng w (S (rpos w))) ltac:(lia) (Hw _)) as Ho.
  rewrite lor_shiftl_low by done. apply HQ; [|done..]. change (2 ^ 5) with 32. change (2 ^ 15) with 32768. simpl in *. lia.
Qed.

Lemma wp_trace_one cfg i w (Q : unit → os → world → Prop) : solve cfg = true → Forall (λ v, 0 ≤ v < 1024) vps → 0 ≤ i → rng_ok w →
  (∀ v w', 0 ≤ v < 2 ^ 15 → rng w' = rng w → shown (report t s v) w w' → Q tt s w') → wp (trace_one cfg vps i) Q noexn s w.
Proof.
  intros Hsolve Hall Hi Hw HQ. unfold trace_one. rewrite wp_bind. apply wp_draw_address; [done..|].
  intros v w1 Hv Hr Ho. rewrite Hsolve. wp_pures. pose proof (m_inv _ _ _ _ Hm) as Hinv.
  apply (wp_translate_walk _ _ _ Hinv); [done|]. intros w2 Hsh Hr2 _. cbn [emit rng] in Hr2.
  assert (wp (if -1 <? physical t v then getValue (physical t v) else mret 0)
    (λ b s' w', s' = s ∧ w' = w2 ∧
      answer (physical t v) b = answer (physical t v) (default 0 (memory s !! Z.to_nat (physical t v)))) noexn s w2) as Hval.
  { destruct (decide (v / 32 ∈ vps)) as [Hin|Hout].
    - destruct (physical_page v Hv Hin) as (f & _ & _ & _ & Hrange & b & Hb & _). destruct (Z.ltb_spec (-1) (physical t v)); [|lia].
      unfold getValue, peek. wp_pures. destruct (i_len _ _ _ Hinv) as [Hl _]. rewrite py_index_nonneg by lia. simpl. by rewrite Hb.
    - rewrite (physical_fault v Hv Hout). unfold fault. by case_bool_decide. }
  wp_pures. eapply wp_conseq; [exact Hval|]. intros b s' w' (-> & -> & Hb). wp_pures. eapply (HQ v); [done|cbn; congruence|].
  unfold report. rewrite Hb. apply (shown_emit (va_line v :: walk t v)). unfold shown in *. rewrite Hsh, fmap_cons, reverse_cons. cbn [emit stdout].
  by rewrite Ho, <-app_assoc.
Qed.

Lemma wp_memoryDump w (Q : unit → os → world → Prop) : (∀ w', rng w' = rng w → Q tt s w') → wp memoryDump Q noexn s w.
Proof.
  intros HQ. destruct (i_len _ _ _ (m_inv _ _ _ _ Hm)) as [Hl _]. unfold memoryDump. change (int_div physMem pageSize) with 128.
  apply (wp_for (λ _ s' w', s' = s ∧ rng w' = rng w)); [done| |by intros s' w' [-> ?]; apply HQ].
  intros pre i post s' w' Hr%range_split [-> Hw']. wp_pures.
  apply (wp_for (λ _ s' w', s' = s ∧ rng w' = rng w)); [done| |intros s' w1 [-> ?]; by wp_pures].
  intros pre' j post' s' w1 Hr'%range_split [-> Hw1]. change pageSize with 32 in Hr'. rewrite wp_bind. unfold pageSize.
  destruct (byte_in (memory s) i j) as [b Hb]; [done|lia..|]. eapply wp_peek; [exact Hb|lia..|]. by wp_pures.
Qed.
End Program.

(** C40: When at most 95 pages are allocated and the generator reaches every frame and page, the program ends without an error. Its memory then
    holds a two-level page table of exactly the pages drawn, and every address, of those it draws and reports or of any other, goes through
    the table as it should: one in a mapped page to the same offset of a frame of the process, no two of them to the same place, where a
    byte of the page is read; another one faults at the directory or at the table, depending on whether a page near it is mapped. *)
Theorem multilevel_correct cfg fuel N w :
  solve cfg = true → 0 ≤ allocated cfg ≤ 95 → (N ≤ fuel)%nat → rng_ok w → spread 128 1 N w → spread 1024 1 N w →
  wp (main cfg fuel) (λ _ s w', ∃ t d vps vs w1,
    (vps ← procAlloc fuel 1 (allocated cfg); memoryDump;; mret vps) os_init w = Ok vps s w1 ∧
    mapped t d vps s ∧ len vps = allocated cfg ∧ length vs = Z.to_nat (num cfg) ∧ Forall (λ v, 0 ≤ v < 2 ^ 15) vs ∧
    shown (pdbr_line d :: concat (report t s <$> vs) ++ [""]) w1 w' ∧
    (∀ v, 0 ≤ v < 2 ^ 15 → if bool_decide (v / 32 ∈ vps) then
        0 ≤ physical t v < 4096 ∧ physical t v mod 32 = v mod 32 ∧ ∃ b, memory s !! Z.to_nat (physical t v) = Some b ∧ 0 ≤ b < 31
      else physical t v = fault vps v) ∧
    (∀ v v', 0 ≤ v < 2 ^ 15 → 0 ≤ v' < 2 ^ 15 → v / 32 ∈ vps → v' / 32 ∈ vps → physical t v = physical t v' → v = v')) noexn os_init w.
Proof.
  intros Hsolve Hn Hfuel Hw Hframes Hpages. unfold main.
  assert (wp (vps ← procAlloc fuel 1 (allocated cfg); memoryDump;; mret vps) (λ vps s w1, ∃ t d,
    mapped t d vps s ∧ len vps = allocated cfg ∧ Forall (λ v, 0 ≤ v < 1024) vps ∧ rng w1 = rng w) noexn os_init w) as Hsetup.
  { rewrite wp_bind. apply (wp_procAlloc fuel N); [done..|]. intros t d vps s w1 Hm Hlen Hall [Hr _]. rewrite wp_bind.
    eapply wp_memoryDump; [done|]. intros w2 Hr2. rewrite wp_ret. exists t, d. split_and!; [done..|congruence]. }
  destruct (wp_noexn_ok _ _ _ _ Hsetup) as (vps & s & w1 & Hrun & t & d & Hm & Hlen & Hall & Hr).
  apply bind_Ok in Hrun as Hrun1. destruct Hrun1 as (vps' & s1 & w0 & Halloc & Hrest).
  apply bind_Ok in Hrest as ([] & s2 & w2 & Hdump & [= -> -> ->]).
  rewrite wp_bind. unfold wp at 1. rewrite Halloc, wp_bind. unfold wp at 1. rewrite Hdump.
  unfold getPDBR. rewrite wp_bind, wp_bind, wp_get, wp_dict_get, (i_pdbr _ _ _ (m_inv _ _ _ _ Hm)), wp_bind, wp_print, wp_bind.
  apply (wp_for (λ pre s' w', s' = s ∧ rng w' = rng w ∧ ∃ vs, length vs = length pre ∧ Forall (λ v, 0 ≤ v < 2 ^ 15) vs ∧
    shown (pdbr_line d :: concat (report t s <$> vs)) w1 w')).
  - split_and!; [done..|]. exists []. split_and!; [done..|]. apply (shown_emit []). apply shown_refl.
  - intros pre i post s' w' Hi%range_split (-> & Hr' & vs & Hl & Hvs & Hsh).
    eapply wp_trace_one; [done..|lia|by eapply rng_ok_rng|]. intros v w2 Hv Hr2 Hsh2. split_and!; [done|congruence|].
    exists (vs ++ [v]). rewrite fmap_app, concat_app, !length_app, Hl. split_and!; [done| |].
    + apply Forall_app. by rewrite Forall_singleton.
    + simpl. rewrite app_nil_r, app_comm_cons. by eapply shown_trans.
  - intros s' w' (-> & Hr' & vs & Hl & Hvs & Hsh). rewrite wp_print. exists t, d, vps, vs, w1.
    split_and!; [done|done|done| |done| | |].
    + rewrite Hl, length_range. lia.
    + rewrite app_comm_cons. apply (shown_emit _ ""), Hsh.
    + intros v Hv. case_bool_decide as Hin; [|by eapply physical_fault].
      destruct (physical_page _ _ _ _ Hm v Hv Hin) as (f & _ & Hp & _ & Hrange & Hb). split_and!; [lia|lia| |done].
      rewrite Hp, Z.add_comm, Z.mod_add by done. by rewrite Z.mod_mod.
    + by eapply page_address_inj.
Qed.

Lemma multilevel_correct_witness : ∃ Q, wp (main (Config 64 10 true) (Z.to_nat (2 ^ 10))) Q noexn os_init (counting 1 10).
Proof.
  eexists. apply (multilevel_correct (Config 64 10 true) _ (Z.to_nat (2 ^ 10)));
    [reflexivity|cbn; lia|lia|apply counting_ok; lia|apply (counting_spread 1 7 10); lia|apply (counting_spread 1 10 10); lia].
Defined.

(** ** Two runs *)

Definition draws : world :=
  world_of ([3; 50; 14; 5] ++ replicate 38 5 ++ [20; 30; 40; 50; 60]).
Example multilevel_run :
  last_lines 9 (main (Config 2 2 true) 2000 os_init draws) =
  Some (String.concat nl ["Virtual Address 3fe0:";
    "  --> pde index:0xf [decimal 15] pde contents:0x86 (valid 1, pfn 0x06 [decimal 6])";
    "    --> pte index:0x1f [decimal 31] pte contents:0x91 (valid 1, pfn 0x11 [decimal 17])";
    "      --> Translates to Physical Address 0x220 --> Value: 01"; "Virtual Address 0660:";
    "  --> pde index:0x1 [decimal 1] pde contents:0xa6 (valid 1, pfn 0x26 [decimal 38])";
    "    --> pte index:0x13 [decimal 19] pte contents:0x99 (valid 1, pfn 0x19 [decimal 25])";
    "      --> Translates to Physical Address 0x320 --> Value: 0c"; ""; ""]).
Proof. vm_compute. reflexivity. Qed.

(** One page more than the theorem allows: the memory is full when all 32
    pages of the table are in use. *)
Example too_many_pages :
  match main (Config 96 0 true) 2000 os_init (counting 1 10) with
  | Raise AssertionError s _ => usedPagesCount s = 128
  | _ => False
  end.
Proof. vm_compute. reflexivity. Qed.
