(* ===== verification/Ffs.v ===== *)
(** * The fast file system's allocator: [file-ffs/ffs.py]

    Groups of inodes and data blocks; the policies that place a new inode and
    its blocks in a group, deletion, the verifier, the allocation map and the
    spans. *)
From S2P Require Import Prelude PyStr PyFloat PyDict.
Open Scope Z_scope.

(** ** The file system *)

(** The options the constructor keeps *)
Record config := Config {
  num_groups : Z;
  blocks_per_group : Z;
  inodes_per_group : Z;
  large_file_exception : Z;
  spread_inodes : bool;
  contig_allocation_policy : Z;
  spread_data_blocks : bool;
  allocate_faraway : Z;
  show_block_addresses : bool;
  do_per_file_stats : bool;
  show_file_ops : bool;
  compute : bool;
}.

(** A bitmap per group: [None] is BITMAP_FREE, and a used entry holds the
    number of the inode that uses it. *)
Abbreviation bitmap := (list (list (option Z))).

Record fs := Fs {
  data_bitmap : bitmap;
  inode_bitmap : bitmap;
  total_data_free : Z;
  total_inodes_free : Z;
  dir_data : gmap Z (list (string * Z));
  inode_type : gmap Z string;
  inode_blocks : gmap Z (list Z);
  name_to_inode_map : odict string Z;
  symbol_map : gmap Z string;
  used_symbols : list string;
  available_symbols : list string;
  show_symbol_map : bool;
}.
#[export] Instance fs_settable : Settable fs := λ s,
  Fs (data_bitmap s) (inode_bitmap s) (total_data_free s) (total_inodes_free s) (dir_data s) (inode_type s) (inode_blocks s)
     (name_to_inode_map s) (symbol_map s) (used_symbols s) (available_symbols s) (show_symbol_map s).

(** [bitmap[g][i]], and its assignment *)
Definition bm_get (bm : bitmap) (g i : Z) : M fs (option Z) := row ← list_get bm g; list_get row i.
Definition bm_set (bm : bitmap) (g i : Z) (v : option Z) : M fs bitmap :=
  row ← list_get bm g; row ← list_set row i v; list_set bm g row.

(** [range(a, b, step)] *)
Definition range_step (a b step : Z) : M fs (list Z) :=
  if step =? 0 then raise ValueError
  else mret ((λ i, a + step * i) <$> range 0 (if 0 <? step then (b - a + step - 1) / step else (a - b - step - 1) / - step)).

Definition symbols : list string :=
  ["a";"b";"c";"d";"e";"f";"g";"h";"i";"j";"k";"l";"m";"n";"o";"p";"q";"r";"s";"t";"u";"v";"w";"x";"y";"z";
   "A";"B";"C";"D";"E";"F";"G";"H";"I";"J";"K";"L";"M";"O";"P";"Q";"R";"S";"T";"U";"V";"W";"X";"Y";"Z";
   "0";"1";"2";"3";"4";"5";"6";"7";"8";"9";"!";"@";"#";"%";"^";"&";"*";"(";")";"[";"]";"{";"}";"/";".";"<";">";"|"].

(** [path.rfind('/')], and [path[0:n]], [path[n:]] for [0 <= n] *)
Fixpoint rfind_slash (s : string) : option Z :=
  match s with
  | EmptyString => None
  | String c s =>
      match rfind_slash s with
      | Some i => Some (i + 1)
      | None => if Ascii.eqb c "/" then Some 0 else None
      end
  end.
Fixpoint str_take (n : nat) (s : string) : string :=
  match n, s with S n, String c s => String c (str_take n s) | _, _ => EmptyString end.
Fixpoint str_drop (n : nat) (s : string) : string :=
  match n, s with S n, String _ s => str_drop n s | _, _ => s end.

(** The local variables of [allocate_blocks] *)
Record cursor := Cursor {
  allocated : list (Z * Z);
  index : Z;
  allocated_in_group : Z;
  current_group : Z;
  chunks_free : Z;
}.

Section Ffs.
Context (cfg : config).
Abbreviation num_groups := (num_groups cfg).
Abbreviation blocks_per_group := (blocks_per_group cfg).
Abbreviation inodes_per_group := (inodes_per_group cfg).

Definition group_size : Z := inodes_per_group + blocks_per_group.

Definition vprint (msg : string) : M fs unit := when (show_file_ops cfg) (put_str msg).

(** *** Names *)

Definition get_parent (path : string) : string * string :=
  match rfind_slash path with
  | Some 0 => ("/", str_drop 1 path)
  | Some i => (str_take (Z.to_nat i) path, str_drop (Z.to_nat (i + 1)) path)
  | None => (str_take (String.length path - 1) path, path)
  end.

Definition name_to_inode (path : string) : M fs Z :=
  s ← get; mret (default (-1) (od_get path (name_to_inode_map s))).

Definition set_name_to_inode (path : string) (inode_num : Z) : M fs unit :=
  s ← get;
  if od_mem path (name_to_inode_map s) then
    print "abort: path already in mapping (internal error)";; raise (SystemExit 1)
  else modify (λ s, s <| name_to_inode_map ::= od_set path inode_num |>).

(** *** Symbols *)

Definition allocate_symbol (inode_number : Z) (suggested_name : string) : M fs unit :=
  s ← get;
  choice ← (if negb (bool_decide (suggested_name ∈ used_symbols s)) && bool_decide (suggested_name ∈ available_symbols s)
            then mret suggested_name
            else passert (0 <? len (available_symbols s));; list_get (available_symbols s) 0);
  modify (λ s, s <| used_symbols ::= (.++ [choice]) |>);;
  l ← py_remove choice (available_symbols s);
  available_symbols <~ l;;
  modify (λ s, s <| symbol_map ::= <[inode_number := choice]> |>).

Definition free_symbol (inode_number : Z) : M fs unit :=
  s ← get;
  symbol ← dict_get (symbol_map s) inode_number;
  modify (λ s, s <| symbol_map ::= delete inode_number |>);;
  l ← py_remove symbol (used_symbols s);
  used_symbols <~ l;;
  modify (λ s, s <| available_symbols ::= (.++ [symbol]) |>).

Definition get_symbol (inode_number : Z) : M fs string := s ← get; dict_get (symbol_map s) inode_number.

(** *** The constructor *)

Definition fs_blank (show_map : bool) : fs :=
  Fs (replicate (Z.to_nat num_groups) (replicate (Z.to_nat blocks_per_group) None))
     (replicate (Z.to_nat num_groups) (replicate (Z.to_nat inodes_per_group) None))
     (blocks_per_group * num_groups) (inodes_per_group * num_groups) ∅ ∅ ∅ [] ∅ [] symbols show_map.

Definition fs_init : M fs unit :=
  s ← get;
  bm ← bm_set (inode_bitmap s) 0 0 (Some 0);
  inode_bitmap <~ bm;;
  bm ← bm_set (data_bitmap s) 0 0 (Some 0);
  data_bitmap <~ bm;;
  allocate_symbol 0 "/";;
  modify (λ s, s <| total_data_free ::= λ n, n - 1 |>);;
  modify (λ s, s <| total_inodes_free ::= λ n, n - 1 |>);;
  modify (λ s, s <| dir_data ::= <[0 := [(".", 0); ("..", 0)]]> |>);;
  modify (λ s, s <| inode_type ::= <[0 := "directory"]> |>);;
  modify (λ s, s <| inode_blocks ::= <[0 := [0]]> |>);;
  modify (λ s, s <| name_to_inode_map ::= od_set "/" 0 |>).

(** *** Free counts and the choice of a group *)

Definition get_free_count (row : list (option Z)) : Z := sum_of (λ b, if bool_decide (b = None) then 1 else 0) row.
Definition get_free_inode_count (g : Z) : M fs Z := s ← get; row ← list_get (inode_bitmap s) g; mret (get_free_count row).
Definition get_free_data_count (g : Z) : M fs Z := s ← get; row ← list_get (data_bitmap s) g; mret (get_free_count row).

Definition find_most_free_inodes (starting_point : Z) : M fs Z :=
  let look := λ (b : Z * Z) g, n ← get_free_inode_count g; mret (if b.1 <? n then (n, g) else b) in
  b ← for_acc (range starting_point num_groups) (0, -1) look;
  b ← for_acc (range 0 starting_point) b look;
  mret b.2.

Definition find_free_inodes_in_range (group how_many : Z) : M fs Z :=
  for_acc (range group (group + how_many)) 0 (λ sum_free g,
    g_curr ← py_mod g num_groups;
    n ← get_free_inode_count g_curr;
    mret (sum_free + n)).

Definition find_most_free_inodes_multiple (starting_point how_many : Z) : M fs Z :=
  let look := λ (b : Z * Z) g, n ← find_free_inodes_in_range g how_many; mret (if b.1 <? n then (n, g) else b) in
  r ← range_step starting_point num_groups how_many;
  b ← for_acc r (0, -1) look;
  r ← range_step 0 starting_point how_many;
  b ← for_acc r b look;
  passert (negb (b.2 =? -1));;
  mret b.2.

Definition find_free_inodes_near (target_group : Z) : M fs Z :=
  grower ← py_mod (target_group + 1) num_groups;
  shrinker ← py_mod (target_group - 1) num_groups;
  r ← for_ret (range 0 (num_groups - 1)) (grower, shrinker) (λ (l : Z * Z) i,
    p ← (if i mod 2 =? 0 then g ← py_mod (l.1 + 1) num_groups; mret (l.1, (g, l.2))
         else k ← py_mod (l.2 - 1) num_groups; mret (l.2, (l.1, k)));
    n ← get_free_inode_count p.1;
    mret (if 0 <? n then inr p.1 else inl p.2));
  mret (match r with inr g => g | inl _ => 1 end).

Definition pick_group (parent filename type : string) : M fs Z :=
  if bool_decide (type = "regular") && negb (spread_inodes cfg) then
    parent_inode_number ← name_to_inode parent;
    (if inodes_per_group =? 0 then raise ZeroDivisionError else mret tt);;
    let target_group := int_div parent_inode_number inodes_per_group in
    num_free_inodes ← get_free_inode_count target_group;
    if num_free_inodes =? 0 then find_free_inodes_near target_group else mret target_group
  else if bool_decide (type = "directory") || spread_inodes cfg then
    find_most_free_inodes_multiple 0 (allocate_faraway cfg)
  else
    print ("abort: bad file type [" +:+ type +:+ "] (internal error)");; raise (SystemExit 1).

Definition find_min_data_usage : M fs Z :=
  b ← for_acc (range 0 num_groups) (0, -1) (λ (b : Z * Z) g,
    data_free ← get_free_data_count g; mret (if b.1 <? data_free then (data_free, g) else b));
  mret b.2.

(** *** Data blocks *)

Definition range_free (group index needed chunks_free : Z) : M fs bool :=
  let chunks_free := if needed <? chunks_free then needed else chunks_free in
  if blocks_per_group <=? index + chunks_free - 1 then mret false
  else
    r ← for_ret (range index (index + chunks_free)) tt (λ (_ : unit) i,
      s ← get; b ← bm_get (data_bitmap s) group i; mret (if bool_decide (b = None) then inl tt else inr tt));
    mret (match r with inl _ => true | inr _ => false end).

(** The body of the [while] of [allocate_blocks] *)
Definition allocate_round (target_group size inode_number : Z) (c : cursor) : M fs (cursor + list (Z * Z)) :=
  free ← range_free (current_group c) (index c) (size - len (allocated c)) (chunks_free c);
  r ← (if (free : bool) then
         s ← get;
         b ← bm_get (data_bitmap s) (current_group c) (index c);
         passert (bool_decide (b = None));;
         bm ← bm_set (data_bitmap s) (current_group c) (index c) (Some inode_number);
         data_bitmap <~ bm;;
         mret (allocated c ++ [(current_group c, index c)], allocated_in_group c + 1)
       else mret (allocated c, allocated_in_group c));
  let index := index c + 1 in
  if len r.1 =? size then mret (inr r.1)
  else if (index =? blocks_per_group) || ((0 <? large_file_exception cfg) && (r.2 =? large_file_exception cfg)) then
    g ← py_mod (current_group c + 1) num_groups;
    mret (inl (Cursor r.1 0 0 g (if g =? target_group then 1 else chunks_free c)))
  else mret (inl (Cursor r.1 index r.2 (current_group c) (chunks_free c))).

Definition allocate_blocks (fuel : nat) (target_group size inode_number : Z) : M fs (list (Z * Z)) :=
  s ← get;
  passert (size <=? total_data_free s);;
  while_ fuel (Cursor [] 0 0 target_group (contig_allocation_policy cfg)) (allocate_round target_group size inode_number).

(** *** Inodes *)

Definition find_free_inode (group : Z) : M fs Z :=
  r ← for_ret (range 0 inodes_per_group) tt (λ (_ : unit) i,
    s ← get; b ← bm_get (inode_bitmap s) group i; mret (if bool_decide (b = None) then inr i else inl tt));
  match r with
  | inr i => mret i
  | inl _ => vprint "[cannot find free inode]";; mret (-1)
  end.

Definition mark_inode_used (group inode_index : Z) : M fs unit :=
  s ← get;
  bm ← bm_set (inode_bitmap s) group inode_index (Some (inode_index + group * inodes_per_group));
  inode_bitmap <~ bm.

(** *** Creating and deleting *)

Definition do_create (fuel : nat) (path : string) (size : Z) (type : string) : M fs Z :=
  let '(parent, filename) := get_parent path in
  s ← get;
  if total_inodes_free s =? 0 then vprint "[out of inodes]";; mret (-1)
  else if total_data_free s <? size then vprint "[out of disk space]";; mret (-1)
  else
    parent_inode_number ← name_to_inode parent;
    if parent_inode_number =? -1 then vprint ("[failed to find parent " +:+ parent +:+ "]");; mret (-1)
    else
      entries ← dict_get (dir_data s) parent_inode_number;
      if existsb (λ e, bool_decide (e.1 = filename)) entries then
        vprint ("[file " +:+ filename +:+ " already exists in dir " +:+ parent +:+ "]");; mret (-1)
      else
        group ← pick_group parent filename type;
        inode_index ← find_free_inode group;
        let inode_number := inode_index + group * inodes_per_group in
        allocated ← (if spread_data_blocks cfg then
                       dest ← find_min_data_usage;
                       print ("target alloc " +:+ str_of_Z dest);;
                       allocate_blocks fuel dest size inode_number
                     else allocate_blocks fuel group size inode_number);
        if len allocated =? 0 then mret (-1)
        else
          mark_inode_used group inode_index;;
          s ← get;
          entries ← dict_get (dir_data s) parent_inode_number;
          modify (λ s, s <| dir_data ::= <[parent_inode_number := entries ++ [(filename, inode_number)]]> |>);;
          modify (λ s, s <| inode_type ::= <[inode_number := type]> |>);;
          modify (λ s, s <| inode_blocks ::= <[inode_number := (λ p : Z * Z, p.2 + p.1 * blocks_per_group) <$> allocated]> |>);;
          set_name_to_inode path inode_number;;
          allocate_symbol inode_number filename;;
          when (bool_decide (type = "directory"))
            (modify (λ s, s <| dir_data ::= <[inode_number := [(".", 0); ("..", 0)]]> |>));;
          modify (λ s, s <| total_inodes_free ::= λ n, n - 1 |>);;
          modify (λ s, s <| total_data_free ::= λ n, n - size |>);;
          mret 0.

Definition do_delete (path : string) : M fs Z :=
  let '(parent, filename) := get_parent path in
  parent_inode_number ← name_to_inode parent;
  if parent_inode_number =? -1 then vprint ("[cannot find parent inode " +:+ parent +:+ "]");; mret (-1)
  else
    s ← get;
    entries ← dict_get (dir_data s) parent_inode_number;
    match list_find (λ e : string * Z, e.1 = filename) entries with
    | None => vprint ("[cannot find " +:+ filename +:+ " in dir " +:+ parent +:+ "]");; mret (-1)
    | Some (_, (name, inode_number)) =>
        type ← dict_get (inode_type s) inode_number;
        if bool_decide (type = "directory") then vprint "[cannot delete directories]";; mret (-1)
        else
          entries ← py_remove (name, inode_number) entries;
          modify (λ s, s <| dir_data ::= <[parent_inode_number := entries]> |>);;
          blocks ← dict_get (inode_blocks s) inode_number;
          for_ blocks (λ b,
            data_index ← py_mod b num_groups;
            s ← get;
            bm ← bm_set (data_bitmap s) (int_div b num_groups) data_index None;
            data_bitmap <~ bm);;
          inode_index ← py_mod inode_number num_groups;
          s ← get;
          bm ← bm_set (inode_bitmap s) (int_div inode_number num_groups) inode_index None;
          inode_bitmap <~ bm;;
          free_symbol inode_number;;
          s ← get;
          od_lookup (name_to_inode_map s) path;;
          modify (λ s, s <| name_to_inode_map ::= od_del path |>);;
          modify (λ s, s <| total_inodes_free ::= Z.succ |>);;
          modify (λ s, s <| total_data_free ::= λ n, n + len blocks |>);;
          modify (λ s, s <| inode_type ::= <[inode_number := ""]> |>);;
          modify (λ s, s <| inode_blocks ::= <[inode_number := []]> |>);;
          mret 0
    end.

Definition print_success_or_fail (rc : Z) : M fs unit :=
  when (show_file_ops cfg) (print (if rc =? 0 then "success" else "failed")).

(** *** The verifier *)

Definition used_in (bm : bitmap) (g per_group n : Z) : M fs Z :=
  for_acc (range 0 per_group) n (λ n i, b ← bm_get bm g i; mret (if bool_decide (b = None) then n else n + 1)).

Definition do_verify : M fs unit :=
  s ← get;
  used ← for_acc (range 0 num_groups) (0, 0) (λ (n : Z * Z) g,
    data_used ← used_in (data_bitmap s) g blocks_per_group n.1;
    inodes_used ← used_in (inode_bitmap s) g inodes_per_group n.2;
    mret (data_used, inodes_used));
  passert (used.1 + total_data_free s =? num_groups * blocks_per_group);;
  passert (used.2 + total_inodes_free s =? num_groups * inodes_per_group);;
  for_ (name_to_inode_map s) (λ f : string * Z,
    blocks ← dict_get (inode_blocks s) f.2;
    for_ blocks (λ b,
      data_index ← py_mod b blocks_per_group;
      owner ← bm_get (data_bitmap s) (int_div b blocks_per_group) data_index;
      passert (bool_decide (owner = Some f.2)))).

(** *** The commands *)

Definition create (fuel : nat) (path : string) (size : Z) : M fs Z :=
  vprint ("op create " +:+ path +:+ " [size:" +:+ str_of_Z size +:+ "] ->");;
  rc ← do_create fuel path size "regular";
  print_success_or_fail rc;;
  mret rc.

Definition mkdir (fuel : nat) (path : string) : M fs Z :=
  vprint ("op mkdir " +:+ path +:+ " ->");;
  rc ← do_create fuel path 1 "directory";
  print_success_or_fail rc;;
  mret rc.

Definition delete_ (path : string) : M fs unit :=
  vprint ("op delete " +:+ path +:+ " ->");;
  rc ← do_delete path;
  print_success_or_fail rc.

(** *** The allocation map *)

Definition list_to_string (row : list (option Z)) : M fs string :=
  for_acc (range 0 (len row)) "" (λ out i,
    let out := if (0 <? i) && (i mod 10 =? 0) then out +:+ " " else out in
    b ← list_get row i;
    match b with
    | None => mret (out +:+ "-")
    | Some inode_number => x ← get_symbol inode_number; mret (out +:+ x)
    end).

(** [counter] and [value] of the loop *)
Definition do_numeric_header (power_level how_many : Z) : M fs unit :=
  let power := 10 ^ power_level in
  r ← for_acc (range 0 how_many) ("", (0, 0)) (λ (b : string * (Z * Z)) i,
    let out := (if (0 <? i) && (i mod 10 =? 0) then b.1 +:+ " " else b.1) +:+ str_of_Z (b.2.2 mod 10) in
    let counter := b.2.1 + 1 in
    mret (out, if counter =? power then (0, b.2.2 + 1) else (counter, b.2.2)));
  put_str r.1.

Definition ljust (w : Z) (x : string) : string := x +:+ str_mul " " (w - slen x).

Definition dump_header : M fs unit :=
  let inode_power := slen (str_of_Z inodes_per_group) - 1 in
  let data_power := slen (str_of_Z blocks_per_group) - 1 in
  let top := if data_power <? inode_power then inode_power else data_power in
  for_ ((λ i, top - i) <$> range 0 (top + 1)) (λ max_power,
    put_str "     ";;
    (if max_power <=? inode_power then do_numeric_header max_power inodes_per_group else put_str (str_mul " " inodes_per_group));;
    (if max_power <=? data_power then do_numeric_header max_power blocks_per_group else put_str (str_mul " " inodes_per_group));;
    print "");;
  put_str (nl +:+ "group " +:+ str_take (Z.to_nat inodes_per_group) "inodes");;
  print (str_mul " " (inodes_per_group - 6) +:+ "data").

Definition dump_groups : M fs unit :=
  for_acc (range 0 num_groups) 0 (λ count i,
    (if compute cfg then
       s ← get;
       irow ← list_get (inode_bitmap s) i;
       inodes ← list_to_string irow;
       drow ← list_get (data_bitmap s) i;
       blocks ← list_to_string drow;
       put_str ("  " +:+ fmt_d 3 i +:+ " " +:+ inodes +:+ " " +:+ blocks);;
       if show_block_addresses cfg then print ("  [" +:+ fmt_d 4 count +:+ "-" +:+ fmt_d 4 (count + group_size - 1) +:+ "]") else print ""
     else print ("  " +:+ fmt_d 3 i +:+ " " +:+ str_mul "?" inodes_per_group +:+ " " +:+ str_mul "?" blocks_per_group));;
    mret (count + group_size));;
  mret tt.

Definition dump_symbols : M fs unit :=
  put_str (nl +:+ "symbol  inode#  filename     filetype ");;
  (if do_per_file_stats cfg then print "  block_addresses" else print "");;
  s ← get;
  for_ (stable_sort String.leb (name_to_inode_map s).*1) (λ name,
    inode_number ← od_lookup (name_to_inode_map s) name;
    file_type ← dict_get (inode_type s) inode_number;
    symbol ← get_symbol inode_number;
    put_str (ljust 6 symbol +:+ "  " +:+ fmt_d 6 inode_number +:+ "  " +:+ ljust 11 name +:+ "  " +:+ ljust 10 file_type +:+ " ");;
    (if do_per_file_stats cfg then
       blocks ← dict_get (inode_blocks s) inode_number;
       for_ blocks (λ b, put_str (str_of_Z b +:+ " "));;
       print ""
     else print ""));;
  print "".

Definition dump : M fs unit :=
  print "";;
  print ("num_groups:       " +:+ str_of_Z num_groups);;
  print ("inodes_per_group: " +:+ str_of_Z inodes_per_group);;
  print ("blocks_per_group: " +:+ str_of_Z blocks_per_group);;
  print "";;
  s ← get;
  print ("free data blocks: " +:+ str_of_Z (total_data_free s) +:+ " (of " +:+ str_of_Z (num_groups * blocks_per_group) +:+ ")");;
  print ("free inodes:      " +:+ str_of_Z (total_inodes_free s) +:+ " (of " +:+ str_of_Z (num_groups * inodes_per_group) +:+ ")");;
  print "";;
  print ("spread inodes?    " +:+ str_of_bool (spread_inodes cfg));;
  print ("spread data?      " +:+ str_of_bool (spread_data_blocks cfg));;
  print ("contig alloc:     " +:+ str_of_Z (contig_allocation_policy cfg));;
  print "";;
  dump_header;;
  dump_groups;;
  when (do_per_file_stats cfg) (show_symbol_map <~ true);;
  s ← get;
  if show_symbol_map s then dump_symbols else print "".

(** *** Reading the commands: the lines of the file *)

Definition command (fuel : nat) (line : string) : M fs unit :=
  match split_ws line with
  | [] => mret tt
  | op :: args =>
      (if bool_decide (op = "file") then
         match args with
         | [name; size] => size ← py_int size; create fuel name size;; mret tt
         | _ => raise AssertionError
         end
       else if bool_decide (op = "dir") then
         match args with [name] => mkdir fuel name;; mret tt | _ => raise AssertionError end
       else if bool_decide (op = "delete") then
         match args with [name] => delete_ name | _ => raise AssertionError end
       else if bool_decide (op = "dump") then
         match args with [] => dump | _ => raise AssertionError end
       else print ("command not recognized " +:+ op);; raise (SystemExit 1));;
      do_verify
  end.

Definition read_input (fuel : nat) (lines : list string) : M fs unit := for_ lines (command fuel).

(** *** Spans: how far a file's parts are from each other *)

Definition get_spans (path : string) : M fs (Z * (Z * Z * Z)) :=
  inode_number ← name_to_inode path;
  inode_index ← py_mod inode_number inodes_per_group;
  let inode_address := inode_index + int_div inode_number inodes_per_group * group_size in
  s ← get;
  data_blocks ← dict_get (inode_blocks s) inode_number;
  r ← for_acc data_blocks (1 + num_groups * group_size, -1) (λ (b : Z * Z) d,
    data_index ← py_mod d blocks_per_group;
    let data_address := data_index + int_div d blocks_per_group * group_size + inodes_per_group in
    mret (if data_address <? b.1 then data_address else b.1, if b.2 <? data_address then data_address else b.2));
  mret (inode_number, (inode_address, r.1, r.2)).

(** [span_results], [filespan_sum] and [filespan_cnt] *)
Definition file_spans : M fs (gmap Z (Z * Z * Z) * Z * Z) :=
  s ← get;
  for_acc (name_to_inode_map s).*1 (∅, 0, 0) (λ (b : gmap Z (Z * Z * Z) * Z * Z) f,
    x ← get_spans f;
    let '(inode_number, (inode_address, min_address, max_address)) := x in
    type ← dict_get (inode_type s) inode_number;
    if bool_decide (type = "directory") then mret b
    else
      let abs_min := if inode_address <? min_address then inode_address else min_address in
      let abs_max := if max_address <? inode_address then inode_address else max_address in
      let file_span := abs_max - abs_min in
      passert (bool_decide (b.1.1 !! inode_number = None));;
      print ("  file: " +:+ rjust 10 f +:+ "  filespan: " +:+ (if compute cfg then fmt_d 3 file_span else "?"));;
      mret (<[inode_number := (inode_address, min_address, max_address)]> b.1.1, b.1.2 + file_span, b.2 + 1)).

(** [dirspan_sum] and [dirspan_cnt] *)
Definition dir_spans (span_results : gmap Z (Z * Z * Z)) : M fs (Z * Z) :=
  s ← get;
  for_acc (name_to_inode_map s).*1 (0, 0) (λ (b : Z * Z) f,
    x ← get_spans f;
    let '(inode_number, (inode_address, min_address, max_address)) := x in
    type ← dict_get (inode_type s) inode_number;
    if negb (bool_decide (type = "directory")) then mret b
    else
      entries ← dict_get (dir_data s) inode_number;
      all ← for_acc entries [inode_address; min_address; max_address] (λ l (e : string * Z),
        if bool_decide (e.1 = ".") || bool_decide (e.1 = "..") then mret l
        else
          type ← dict_get (inode_type s) e.2;
          if bool_decide (type = "directory") then mret l
          else r ← dict_get span_results e.2; mret (l ++ [r.1.1; r.1.2; r.2]));
      let sorted := stable_sort Z.leb all in
      last ← list_get sorted (len sorted - 1);
      first ← list_get sorted 0;
      let dirspan := last - first in
      print ("  dir:  " +:+ rjust 10 f +:+ "  dirspan: " +:+ (if compute cfg then fmt_d 3 dirspan else "?"));;
      mret (b.1 + dirspan, b.2 + 1)).

Definition span_average (what : string) (sum cnt : Z) : M fs unit :=
  avg ← f_div (f_of_Z sum) (f_of_Z cnt);
  print ("               avg  " +:+ what +:+ ": " +:+ (if compute cfg then rjust 6 (rjust 3 (fmt_f 2 avg)) else "?")).

Definition do_all_spans : M fs unit :=
  print "span: files";;
  r ← file_spans;
  when (0 <? r.2) (span_average "filespan" r.1.2 r.2);;
  print (nl +:+ "span: directories");;
  d ← dir_spans r.1.1;
  span_average "dirspan" d.1 d.2;;
  print "".

Definition main (fuel : nat) (lines : list string) (show_spans : bool) : M fs unit :=
  fs_init;;
  read_input fuel lines;;
  dump;;
  when show_spans do_all_spans.
End Ffs.

(** ** Bitmaps as maps from global numbers

    Entry [i] of group [g] has the number [i + g * per], as in the program;
    [owner] is the inode that uses it. *)
Definition owner (bm : bitmap) (per q : Z) : option Z := default None (bm !! Z.to_nat (q / per) ≫= (.!! Z.to_nat (q mod per))).

(** [n] groups of [per] entries *)
Definition shape (n per : Z) (bm : bitmap) : Prop := len bm = n ∧ ∀ row, row ∈ bm → len row = per.

Definition free_entries (n per : Z) (bm : bitmap) : list Z := filter (λ q, owner bm per q = None) (range 0 (n * per)).

Definition bm_update (g i : Z) (v : option Z) (bm : bitmap) : bitmap := alter (λ row, <[Z.to_nat i := v]> row) (Z.to_nat g) bm.

Lemma list_get_Z {A} (l : list A) i x : 0 ≤ i → l !! Z.to_nat i = Some x → list_get (S:=fs) l i = mret x.
Proof. intros Hi Hx. rewrite <-(Z2Nat.id i) by done. by apply list_get_nat. Qed.

Section Bitmaps.
Context (n per : Z) (Hper : 0 < per).
Implicit Types (bm : bitmap) (g i q : Z).

Lemma number_split g i : 0 ≤ i < per → (i + g * per) / per = g ∧ (i + g * per) mod per = i.
Proof. intros Hi. rewrite Z.div_add, Z.mod_add by lia. rewrite Z.div_small, Z.mod_small by lia. lia. Qed.

Lemma number_bounds g i : 0 ≤ g < n → 0 ≤ i < per → 0 ≤ i + g * per < n * per.
Proof. nia. Qed.

Lemma number_join q : 0 ≤ q < n * per → 0 ≤ q / per < n ∧ 0 ≤ q mod per < per ∧ q mod per + q / per * per = q.
Proof.
  intros Hq. pose proof (Z.mod_pos_bound q per). pose proof (Z.div_mod q per).
  split_and!; [apply Z.div_pos; lia|apply Z.div_lt_upper_bound; lia|lia..].
Qed.

Lemma shape_row bm g : shape n per bm → 0 ≤ g < n → ∃ row, bm !! Z.to_nat g = Some row ∧ len row = per ∧
  ∀ i, 0 ≤ i < per → row !! Z.to_nat i = Some (owner bm per (i + g * per)).
Proof.
  intros [Hn Hrow] Hg. destruct (lookup_lt_is_Some_2 bm (Z.to_nat g)) as [row Hr]; [unfold len in *; lia|].
  assert (len row = per) as Hlen by (apply Hrow; by eapply list_elem_of_lookup_2). exists row. split_and!; [done..|].
  intros i Hi. unfold owner. destruct (number_split g i Hi) as [-> ->].
  rewrite Hr. simpl.
  destruct (lookup_lt_is_Some_2 row (Z.to_nat i)) as [v ->]; [unfold len in *; lia|done].
Qed.

Lemma bm_get_eq bm g i : shape n per bm → 0 ≤ g < n → 0 ≤ i < per → bm_get bm g i = mret (owner bm per (i + g * per)).
Proof.
  intros Hs Hg Hi. destruct (shape_row bm g Hs Hg) as (row & Hr & _ & Hi'). unfold bm_get.
  rewrite (list_get_Z _ _ _ (proj1 Hg) Hr). exact (list_get_Z _ _ _ (proj1 Hi) (Hi' i Hi)).
Qed.

Lemma bm_set_eq bm g i v : shape n per bm → 0 ≤ g < n → 0 ≤ i < per → bm_set bm g i v = mret (bm_update g i v bm).
Proof.
  intros Hs Hg Hi. destruct (shape_row bm g Hs Hg) as (row & Hr & Hlen & _). unfold bm_set.
  rewrite (list_get_Z _ _ _ (proj1 Hg) Hr). destruct Hs as [Hn _].
  unfold mbind, M_bind. simpl. unfold list_set, bm_update.
  rewrite (py_index_nonneg row), (py_index_nonneg bm) by (unfold len in *; lia). simpl.
  f_equal. apply list_eq. intros k. rewrite list_lookup_alter. destruct (decide (k = Z.to_nat g)) as [->|Hk].
  - rewrite list_lookup_insert, decide_True by (split; [done|unfold len in *; lia]). by rewrite decide_True, Hr by done.
  - rewrite list_lookup_insert_ne by done. by rewrite decide_False.
Qed.

Lemma shape_update bm g i v : shape n per bm → shape n per (bm_update g i v bm).
Proof.
  intros [Hn Hrow]. unfold bm_update. split; [unfold len in *; by rewrite length_alter|].
  intros row [k Hk]%list_elem_of_lookup_1. rewrite list_lookup_alter in Hk. case_decide; [|apply Hrow; by eapply list_elem_of_lookup_2].
  apply fmap_Some in Hk as (row' & Hr & ->). unfold len. rewrite length_insert. apply Hrow. by eapply list_elem_of_lookup_2.
Qed.

Lemma owner_update bm g i v q : shape n per bm → 0 ≤ g < n → 0 ≤ i < per → 0 ≤ q < n * per →
  owner (bm_update g i v bm) per q = if decide (q = i + g * per) then v else owner bm per q.
Proof.
  intros Hs Hg Hi Hq. destruct (shape_row bm g Hs Hg) as (row & Hr & Hlen & _).
  destruct (number_join q Hq) as (Hqg & Hqi & Hqe). unfold owner, bm_update. rewrite list_lookup_alter. destruct (decide (q = i + g * per)) as [Hd|Hd].
  - rewrite Hd. destruct (number_split g i Hi) as [-> ->]. rewrite decide_True, Hr by done. simpl.
    rewrite list_lookup_insert, decide_True by (split; [done|unfold len in *; lia]). done.
  - case_decide as Hgg; [|done]. assert (q / per = g) as Hqd by lia. rewrite Hqd, Hr. simpl.
    rewrite list_lookup_insert_ne; [done|]. intros Heq. apply Hd. assert (q mod per = i) by lia. congruence.
Qed.

Lemma elem_of_free bm q : q ∈ free_entries n per bm ↔ 0 ≤ q < n * per ∧ owner bm per q = None.
Proof. unfold free_entries. rewrite list_elem_of_filter, elem_of_range. tauto. Qed.

Lemma NoDup_free bm : NoDup (free_entries n per bm).
Proof. apply NoDup_filter, NoDup_range. Qed.

(** Taking free entries *)
Lemma free_taken bm bm' qs (f : Z → option Z) : NoDup qs → (∀ q, q ∈ qs → q ∈ free_entries n per bm) → (∀ q, q ∈ qs → f q ≠ None) →
  (∀ q, 0 ≤ q < n * per → owner bm' per q = if decide (q ∈ qs) then f q else owner bm per q) →
  len (free_entries n per bm) = len qs + len (free_entries n per bm').
Proof.
  intros Hnd Hqs Hf Hbm. unfold len. rewrite <-Nat2Z.inj_add, <-length_app. f_equal. apply Permutation_length, NoDup_Permutation.
  - apply NoDup_free.
  - apply NoDup_app. split_and!; [done| |apply NoDup_free]. intros q Hq [Hr Hn]%elem_of_free. rewrite Hbm, decide_True in Hn by done. by destruct (Hf q).
  - intros q. rewrite elem_of_app. split.
    + intros Hq. destruct (decide (q ∈ qs)); [by left|right]. apply elem_of_free in Hq as [Hr Hn]. apply elem_of_free. by rewrite Hbm, decide_False.
    + intros [Hq|Hq]; [by apply Hqs|]. apply elem_of_free in Hq as [Hr Hn]. rewrite Hbm in Hn by done. case_decide as Hd; [by destruct (Hf q)|]. by apply elem_of_free.
Qed.

(** While fewer than all free entries are taken, one is left. *)
Lemma free_left bm qs : len qs < len (free_entries n per bm) → ∃ q, q ∈ free_entries n per bm ∧ q ∉ qs.
Proof.
  intros Hlt. destruct (filter (λ q, q ∉ qs) (free_entries n per bm)) as [|q l] eqn:Hf.
  - exfalso. assert (free_entries n per bm ⊆+ qs) as Hsub%submseteq_length; [|unfold len in *; lia].
    apply NoDup_submseteq; [apply NoDup_free|]. intros q Hq. destruct (decide (q ∈ qs)) as [|Hn]; [done|].
    assert (q ∈ filter (λ q, q ∉ qs) (free_entries n per bm)) as Hin by by apply list_elem_of_filter. rewrite Hf in Hin. by apply elem_of_nil in Hin.
  - exists q. assert (q ∈ filter (λ q, q ∉ qs) (free_entries n per bm)) as Hin by (rewrite Hf; left). apply list_elem_of_filter in Hin. tauto.
Qed.
End Bitmaps.

(** ** Allocating blocks *)
Section Allocate.
Context (cfg : config).
Abbreviation n := (num_groups cfg).
Abbreviation b := (blocks_per_group cfg).
Context (Hn : 0 < n) (Hb : 0 < b) (Hcontig : 1 ≤ contig_allocation_policy cfg).
Implicit Types (s : fs) (w : world) (g i q : Z).

Lemma range_free_spec g i needed chunks s w (Q : bool → fs → world → Prop) :
  shape n b (data_bitmap s) → 0 ≤ g < n → 0 ≤ i < b → 1 ≤ needed → 1 ≤ chunks →
  (∀ r, (r = true → owner (data_bitmap s) b (i + g * b) = None) →
        (r = false → chunks = 1 → owner (data_bitmap s) b (i + g * b) ≠ None) → Q r s w) →
  wp (range_free cfg g i needed chunks) Q noexn s w.
Proof.
  intros Hs Hg Hi Hneed Hch HQ. unfold range_free. set (ch := if needed <? chunks then needed else chunks).
  assert (1 ≤ ch ∧ (chunks = 1 → ch = 1)) as [Hch1 Hch2] by (unfold ch; destruct (Z.ltb_spec needed chunks); lia).
  destruct (Z.leb_spec b (i + ch - 1)) as [Hout|Hin].
  { rewrite wp_ret. apply HQ; [done|]. intros _ H1%Hch2. lia. }
  rewrite wp_bind. apply (wp_for_ret (λ pre _ s' w', s' = s ∧ w' = w ∧ ∀ x, x ∈ pre → owner (data_bitmap s) b (x + g * b) = None)).
  - split_and!; [done..|]. intros x Hx. by apply elem_of_nil in Hx.
  - intros pre x post _ s' w' Hr (-> & -> & Hpre). apply range_split in Hr as (_ & _ & Hx).
    wp_pures. rewrite (bm_get_eq n b Hb) by (done || lia). wp_pures. case_bool_decide as Hx'; wp_pures.
    + split_and!; [done..|]. intros y [?| ->%list_elem_of_singleton]%elem_of_app; auto.
    + apply HQ; [done|]. intros _ H1%Hch2. replace i with x by lia. done.
  - intros _ s' w' (-> & -> & Hall). rewrite wp_ret. apply HQ; [|done]. intros _. apply Hall. apply elem_of_range. lia.
Qed.

(** The blocks handed out so far are used by the inode; nothing else has
    changed. *)
Record taken (s : fs) (ino : Z) (l : list (Z * Z)) (s' : fs) : Prop := {
  taken_state : s' = s <| data_bitmap := data_bitmap s' |>;
  taken_shape : shape n b (data_bitmap s');
  taken_pos : ∀ p, p ∈ l → 0 ≤ p.1 < n ∧ 0 ≤ p.2 < b;
  taken_nodup : NoDup ((λ p : Z * Z, p.2 + p.1 * b) <$> l);
  taken_free : ∀ q, q ∈ (λ p : Z * Z, p.2 + p.1 * b) <$> l → q ∈ free_entries n b (data_bitmap s);
  taken_owner : ∀ q, 0 ≤ q < n * b → owner (data_bitmap s') b q =
    if decide (q ∈ (λ p : Z * Z, p.2 + p.1 * b) <$> l) then Some ino else owner (data_bitmap s) b q;
}.

Lemma taken_nil s ino : shape n b (data_bitmap s) → taken s ino [] s.
Proof.
  intros Hs. split; [by destruct s|done| |constructor| |].
  - intros p Hp. by apply elem_of_nil in Hp.
  - intros q Hq. by apply elem_of_nil in Hq.
  - intros q _. rewrite decide_False; [done|]. apply not_elem_of_nil.
Qed.

Lemma taken_snoc s ino l s1 g i : taken s ino l s1 → 0 ≤ g < n → 0 ≤ i < b → owner (data_bitmap s1) b (i + g * b) = None →
  taken s ino (l ++ [(g, i)]) (s1 <| data_bitmap := bm_update g i (Some ino) (data_bitmap s1) |>).
Proof.
  intros [Hst Hsh Hpos Hnd Hfree Hown] Hg Hi Hnone. pose proof (number_bounds n b Hb g i Hg Hi) as Hq.
  rewrite Hown in Hnone by done. case_decide as Hin; [done|].
  split; simpl; [by rewrite Hst|by apply shape_update| | | |].
  - intros p [?| ->%list_elem_of_singleton]%elem_of_app; auto.
  - rewrite fmap_app. apply NoDup_app. split_and!; [done| |apply NoDup_singleton]. intros x Hx. simpl. rewrite list_elem_of_singleton. by intros ->.
  - intros q. rewrite fmap_app, elem_of_app. simpl. rewrite list_elem_of_singleton. intros [?| ->]; [auto|]. by apply elem_of_free.
  - intros q Hqr. rewrite (owner_update n b Hb) by done. rewrite fmap_app. simpl. destruct (decide (q = i + g * b)) as [->|Hne].
    + rewrite decide_True; [done|]. apply elem_of_app. right. by left.
    + rewrite Hown by done. destruct (decide (q ∈ (λ p : Z * Z, p.2 + p.1 * b) <$> l)) as [Hd|Hd].
      * rewrite decide_True; [done|]. apply elem_of_app. by left.
      * rewrite decide_False; [done|]. rewrite elem_of_app, list_elem_of_singleton. naive_solver.
Qed.

(** A free block, and its distance from the cursor *)
Lemma taken_left s ino l s' : taken s ino l s' → len l < len (free_entries n b (data_bitmap s)) →
  ∀ pos, ∃ d, 0 ≤ d < n * b ∧ owner (data_bitmap s') b ((pos + d) mod (n * b)) = None.
Proof.
  intros [_ _ _ _ _ Hown] Hlt pos. destruct (free_left n b (data_bitmap s) ((λ p : Z * Z, p.2 + p.1 * b) <$> l)) as (q & Hq & Hnq).
  { unfold len in *. by rewrite length_fmap. }
  apply elem_of_free in Hq as [Hr Hq]. exists ((q - pos) mod (n * b)). split; [apply Z.mod_pos_bound; lia|].
  rewrite Z.add_mod_idemp_r by lia. replace (pos + (q - pos)) with q by lia. rewrite Z.mod_small by done.
  by rewrite Hown, decide_False.
Qed.

(** *** The loop

    Until the cursor is back at the group it started from, each iteration
    moves it on.  From then on any free block will do, and [d] counts the
    iterations to one of them. *)
Section Loop.
Context (s0 : fs) (target size ino : Z) (Ht : 0 ≤ target < n) (Hsize : size ≤ len (free_entries n b (data_bitmap s0))).

Definition moving (m : Z) (c : cursor) (s : fs) : Prop :=
  (chunks_free c = 1 ∧ ∃ d, 0 ≤ d < n * b ∧ owner (data_bitmap s) b ((index c + current_group c * b + d) mod (n * b)) = None ∧
     m = (size - len (allocated c)) * (n * b + 1) + d) ∨
  (∃ k, 0 ≤ k < n ∧ current_group c = (target + k) mod n ∧ m = (size + 1) * (n * b + 1) + (n - k) * b - index c).

Definition alloc_inv (m : nat) (c : cursor) (s : fs) (w : world) (w0 : world) : Prop :=
  w = w0 ∧ taken s0 ino (allocated c) s ∧ len (allocated c) < size ∧ 0 ≤ index c < b ∧ 0 ≤ current_group c < n ∧ 1 ≤ chunks_free c ∧
  (0 < large_file_exception cfg → allocated_in_group c < large_file_exception cfg) ∧ moving (Z.of_nat m) c s.

(** The next position, in the group or at the start of the next one *)
Lemma next_position g i d : 0 ≤ g < n → 0 ≤ i < b → i + 1 = b →
  (0 + (g + 1) mod n * b + d) mod (n * b) = (i + g * b + 1 + d) mod (n * b).
Proof.
  intros Hg Hi He. replace (i + g * b + 1 + d) with ((g + 1) * b + d) by lia.
  rewrite (Z.div_mod (g + 1) n) at 2 by lia.
  replace ((n * ((g + 1) / n) + (g + 1) mod n) * b + d) with (0 + (g + 1) mod n * b + d + ((g + 1) / n) * (n * b)) by lia.
  by rewrite Z.mod_add by lia.
Qed.

Lemma wp_range_free_taken c s w w0 m (Q : bool → fs → world → Prop) : alloc_inv m c s w w0 →
  (∀ r, (r = true → owner (data_bitmap s) b (index c + current_group c * b) = None) →
        (r = false → chunks_free c = 1 → owner (data_bitmap s) b (index c + current_group c * b) ≠ None) → Q r s w) →
  wp (range_free cfg (current_group c) (index c) (size - len (allocated c)) (chunks_free c)) Q noexn s w.
Proof.
  intros (-> & Ht' & Hlen & Hi & Hg & Hch & _ & _) HQ. apply range_free_spec; [by destruct Ht'|lia..|done].
Qed.

(** The cursor after an iteration: one further, or in the next group, which is
    not before the end of this one unless a block was allocated. *)
Definition moved (c c' : cursor) : Prop :=
  (index c' = index c + 1 ∧ current_group c' = current_group c ∧ chunks_free c' = chunks_free c) ∨
  (index c' = 0 ∧ current_group c' = (current_group c + 1) mod n ∧ (len (allocated c') = len (allocated c) → index c + 1 = b) ∧
   chunks_free c' = if (current_group c + 1) mod n =? target then 1 else chunks_free c).

Lemma moving_first m c c' s' k : 0 ≤ index c < b → taken s0 ino (allocated c') s' → 0 ≤ len (allocated c') < size → moved c c' →
  0 ≤ k < n → current_group c = (target + k) mod n → m = (size + 1) * (n * b + 1) + (n - k) * b - index c →
  ∃ m', 0 ≤ m' < m ∧ moving m' c' s'.
Proof.
  intros Hi Hst Hlen [(Hi' & Hg' & Hc')|(Hi' & Hg' & _ & Hc')] Hk Hg Hm.
  - exists (m - 1). split; [nia|]. right. exists k. split_and!; [lia..|congruence|lia].
  - rewrite Hg in Hg', Hc'. assert (((target + k) mod n + 1) mod n = (target + (k + 1)) mod n) as He.
    { rewrite Z.add_mod_idemp_l by lia. f_equal. lia. }
    rewrite He in Hg', Hc'. destruct (Z.eqb_spec ((target + (k + 1)) mod n) target) as [Hback|Hon].
    + destruct (taken_left s0 ino (allocated c') s' Hst ltac:(lia) (index c' + current_group c' * b)) as (d & Hd & Hfree).
      exists ((size - len (allocated c')) * (n * b + 1) + d). split; [nia|]. left. split; [done|]. by exists d.
    + assert (k + 1 < n). { destruct (decide (k + 1 = n)) as [Hkn|]; [|lia]. destruct Hon. rewrite Hkn. rewrite <-(Z.mul_1_l n) at 1.
        rewrite Z.mod_add by lia. by apply Z.mod_small. }
      exists (m - b + index c). split; [nia|]. right. exists (k + 1). split_and!; [lia..|done|lia].
Qed.

Lemma moving_second m c s c' s' d : 0 ≤ index c < b → 0 ≤ current_group c < n → taken s0 ino (allocated c') s' →
  len (allocated c) ≤ len (allocated c') < size → moved c c' → chunks_free c = 1 →
  (len (allocated c') = len (allocated c) → s' = s ∧ owner (data_bitmap s) b (index c + current_group c * b) ≠ None) →
  0 ≤ d < n * b → owner (data_bitmap s) b ((index c + current_group c * b + d) mod (n * b)) = None →
  m = (size - len (allocated c)) * (n * b + 1) + d → ∃ m', 0 ≤ m' < m ∧ moving m' c' s'.
Proof.
  intros Hi Hg Hst Hlen Hmv Hch Hsame Hd Hfree Hm.
  assert (chunks_free c' = 1) as Hch'. { destruct Hmv as [(_ & _ & ->)|(_ & _ & _ & ->)]; [done|]. by case_match. }
  destruct (decide (len (allocated c') = len (allocated c))) as [He|Hne].
  - destruct (Hsame He) as [-> Hused]. assert (d ≠ 0) as Hd0.
    { intros ->. rewrite Z.add_0_r, Z.mod_small in Hfree by (apply number_bounds; lia). done. }
    exists (m - 1). split; [nia|]. left. split; [done|]. exists (d - 1). split_and!; [lia..| |rewrite He; lia].
    rewrite <-Hfree. f_equal. destruct Hmv as [(-> & -> & _)|(-> & -> & Hend & _)]; [f_equal; lia|].
    rewrite (next_position _ (index c)) by auto. f_equal. lia.
  - destruct (taken_left s0 ino (allocated c') s' Hst ltac:(lia) (index c' + current_group c' * b)) as (d' & Hd' & Hfree').
    exists ((size - len (allocated c')) * (n * b + 1) + d'). split; [nia|]. left. split; [done|]. by exists d'.
Qed.

Lemma moving_step m c s c' s' w w0 : alloc_inv m c s w w0 → taken s0 ino (allocated c') s' → len (allocated c) ≤ len (allocated c') < size →
  moved c c' → (len (allocated c') = len (allocated c) → s' = s ∧
    (chunks_free c = 1 → owner (data_bitmap s) b (index c + current_group c * b) ≠ None)) →
  (index c + 1 = b → index c' = 0) → (0 < large_file_exception cfg → allocated_in_group c' < large_file_exception cfg) →
  ∃ m', (m' < m)%nat ∧ alloc_inv m' c' s' w0 w0.
Proof.
  intros (-> & Hst & Hlen & Hi & Hg & Hch & _ & Hmov) Hst' Hlen' Hmv Hsame Hend Hlarge.
  assert (∃ m', 0 ≤ m' < Z.of_nat m ∧ moving m' c' s') as (m' & Hm' & Hmov').
  { destruct Hmov as [(Hone & d & Hd & Hfree & Hm)|(k & Hk & Hgk & Hm)].
    - eapply moving_second; eauto. intros He. destruct (Hsame He). eauto.
    - eapply (moving_first (Z.of_nat m) c c'); eauto. unfold len in *. lia. }
  exists (Z.to_nat m'). split; [lia|]. split; [done|]. split; [done|]. split; [lia|]. rewrite Z2Nat.id by lia.
  destruct Hmv as [(Hi' & Hg' & Hc')|(Hi' & Hg' & _ & Hc')]; rewrite Hg', Hc'.
  - split_and!; [lia| |lia..|done|done]. assert (index c + 1 ≠ b) by (intros He%Hend; lia). lia.
  - pose proof (Z.mod_pos_bound (current_group c + 1) n Hn). split_and!; [lia..| |done|done]. case_match; lia.
Qed.

(** What follows the attempt at the cursor *)
Lemma allocate_advance m c s w w0 (r : list (Z * Z) * Z) s' :
  alloc_inv m c s w w0 → taken s0 ino r.1 s' → len (allocated c) ≤ len r.1 ≤ size →
  (len r.1 = len (allocated c) ∧ s' = s ∧ r.2 = allocated_in_group c ∧
     (chunks_free c = 1 → owner (data_bitmap s) b (index c + current_group c * b) ≠ None) ∨
   len r.1 = len (allocated c) + 1 ∧ r.2 = allocated_in_group c + 1) →
  wp (if len r.1 =? size then mret (inr r.1)
      else if (index c + 1 =? b) || ((0 <? large_file_exception cfg) && (r.2 =? large_file_exception cfg)) then
        g ← py_mod (current_group c + 1) n;
        mret (inl (Cursor r.1 0 0 g (if g =? target then 1 else chunks_free c)))
      else mret (inl (Cursor r.1 (index c + 1) r.2 (current_group c) (chunks_free c))))
    (λ r s' w', match r with
     | inl c' => ∃ m', (m' < m)%nat ∧ alloc_inv m' c' s' w' w0
     | inr l => w' = w0 ∧ taken s0 ino l s' ∧ len l = size
     end) noexn s' w0.
Proof.
  intros Hinv Hst' Hlen Hcase. destruct (Hinv) as (-> & _ & Hlt & Hi & Hg & _ & Hlarge & _).
  destruct (Z.eqb_spec (len r.1) size) as [Hdone|Hmore]; [by rewrite wp_ret|].
  assert (len r.1 = len (allocated c) → s' = s ∧ (chunks_free c = 1 → owner (data_bitmap s) b (index c + current_group c * b) ≠ None)) as Hsame.
  { intros He. destruct Hcase as [(_ & ? & _ & ?)|[? _]]; [done|lia]. }
  destruct ((index c + 1 =? b) || _) eqn:Hjump.
  - unfold py_mod. rewrite (proj2 (Z.eqb_neq n 0)) by lia. wp_pures. eapply moving_step; [done|done|simpl; lia| |done|done|simpl; lia].
    right. simpl. split_and!; [done..| |done]. intros He. destruct Hcase as [(_ & _ & Hr & _)|[? _]]; [|lia].
    apply orb_true_iff in Hjump as [?%Z.eqb_eq|[?%Z.ltb_lt ?%Z.eqb_eq]%andb_true_iff]; [done|]. specialize (Hlarge ltac:(done)). lia.
  - apply orb_false_iff in Hjump as [Hend%Z.eqb_neq Hfull]. wp_pures. eapply moving_step; [done|done|simpl; lia|by left|done|simpl; lia|].
    simpl. intros HL. specialize (Hlarge HL). apply andb_false_iff in Hfull as [?%Z.ltb_ge|?%Z.eqb_neq]; lia.
Qed.

Lemma allocate_round_spec m c s w w0 : alloc_inv m c s w w0 →
  wp (allocate_round cfg target size ino c) (λ r s' w', match r with
    | inl c' => ∃ m', (m' < m)%nat ∧ alloc_inv m' c' s' w' w0
    | inr l => w' = w0 ∧ taken s0 ino l s' ∧ len l = size
    end) noexn s w.
Proof.
  intros Hinv. unfold allocate_round. rewrite wp_bind. apply (wp_range_free_taken c s w w0 m); [done|]. intros free Htrue Hfalse.
  destruct (Hinv) as (-> & Hst & Hlen & Hi & Hg & Hch & _). rewrite wp_bind. destruct free.
  - rewrite wp_bind, wp_get. pose proof (taken_shape _ _ _ _ Hst) as Hsh. specialize (Htrue eq_refl).
    rewrite (bm_get_eq n b Hb), (bm_set_eq n b Hb) by done. rewrite Htrue. wp_pures.
    apply (allocate_advance m c s w0 w0 (allocated c ++ [(current_group c, index c)], allocated_in_group c + 1)); [done|by apply taken_snoc|simpl; unfold len in *; rewrite length_app; simpl; lia|].
    right. simpl. unfold len. rewrite length_app. simpl. lia.
  - rewrite wp_ret. apply (allocate_advance m c s w0 w0 (_, _)); [done|done|simpl; lia|]. left. simpl. auto.
Qed.

(** [allocate_blocks] returns [size] free blocks, which are now the inode's. *)
Lemma allocate_blocks_spec fuel w : shape n b (data_bitmap s0) → 1 ≤ size → total_data_free s0 = len (free_entries n b (data_bitmap s0)) →
  (size + 2) * (n * b + 1) ≤ Z.of_nat fuel →
  wp (allocate_blocks cfg fuel target size ino) (λ l s' w', w' = w ∧ taken s0 ino l s' ∧ len l = size) noexn s0 w.
Proof.
  intros Hsh Hsz Htot Hfuel. unfold allocate_blocks. wp_pures. rewrite Htot, (proj2 (Z.leb_le _ _)) by done. wp_pures.
  apply (wp_while_bound (λ m c s w', alloc_inv m c s w' w) _ _ _ _ (Z.to_nat ((size + 1) * (n * b + 1) + n * b))); [|nia|].
  - pose proof (taken_nil s0 ino Hsh). split_and!; simpl; [done|done|unfold len; simpl; lia|lia..|].
    right. exists 0. simpl. rewrite Z.add_0_r, Z.mod_small by done. split_and!; [lia..|done|]. nia.
  - intros m c s w' Hinv. by apply allocate_round_spec.
Qed.
End Loop.
End Allocate.

(** ** The choice of a group *)

(** The free entries of a group *)
Definition frees (bm : bitmap) (g : Z) : Z := get_free_count (default [] (bm !! Z.to_nat g)).

Lemma get_free_count_pos row : 0 ≤ get_free_count row ∧ (0 < get_free_count row ↔ ∃ i, row !! i = Some None).
Proof.
  unfold get_free_count. induction row as [|x row [IH1 IH2]]; [simpl; split; [lia|]; split; [lia|intros [i Hi]; done]|].
  rewrite sum_of_cons. case_bool_decide as Hx; (split; [lia|]).
  - split; [intros _; exists 0%nat; by rewrite Hx|lia].
  - rewrite Z.add_0_l, IH2. split; [intros [i Hi]; by exists (S i)|]. intros [[|i] Hi]; [by simplify_eq/=|by exists i].
Qed.

Lemma frees_pos n per bm g : 0 < per → shape n per bm → 0 ≤ g < n →
  0 ≤ frees bm g ∧ (0 < frees bm g ↔ ∃ i, 0 ≤ i < per ∧ owner bm per (i + g * per) = None).
Proof.
  intros Hper Hs Hg. destruct (shape_row n per Hper bm g Hs Hg) as (row & Hr & Hlen & Hrow). unfold frees. rewrite Hr. simpl.
  destruct (get_free_count_pos row) as [H1 H2]. split; [done|]. rewrite H2. split.
  - intros [i Hi]. exists (Z.of_nat i). pose proof (lookup_lt_Some _ _ _ Hi). assert (0 ≤ Z.of_nat i < per) as Hi' by (unfold len in *; lia).
    split; [done|]. pose proof (Hrow _ Hi') as He. rewrite Nat2Z.id, Hi in He. by simplify_eq.
  - intros (i & Hi & Ho). exists (Z.to_nat i). by rewrite Hrow, Ho.
Qed.

Lemma frees_some n per bm : 0 < per → shape n per bm → 0 < len (free_entries n per bm) → ∃ g, 0 ≤ g < n ∧ 0 < frees bm g.
Proof.
  intros Hper Hs Hpos. destruct (free_entries n per bm) as [|q l] eqn:Hf; [unfold len in Hpos; simpl in Hpos; lia|].
  assert (q ∈ free_entries n per bm) as [Hq Ho]%elem_of_free by (rewrite Hf; left).
  destruct (number_join n per Hper q Hq) as (Hg & Hi & Hj). exists (q / per). split; [done|].
  apply (frees_pos n per bm _ Hper Hs Hg). exists (q mod per). split; [done|]. by rewrite Hj.
Qed.

Section Groups.
Context (cfg : config).
Abbreviation n := (num_groups cfg).
Abbreviation ip := (inodes_per_group cfg).
Abbreviation b := (blocks_per_group cfg).
Context (Hn : 0 < n) (Hip : 0 < ip) (Hb : 0 < b).
Implicit Types (s : fs) (w : world) (g i q : Z).

Lemma wp_get_free_inode_count g s w Q E : shape n ip (inode_bitmap s) → 0 ≤ g < n →
  wp (get_free_inode_count g) Q E s w = Q (frees (inode_bitmap s) g) s w.
Proof.
  intros Hs Hg. destruct (shape_row n ip Hip _ g Hs Hg) as (row & Hr & _). unfold get_free_inode_count, frees. rewrite wp_bind, wp_get.
  rewrite (list_get_Z _ _ _ (proj1 Hg) Hr), Hr. done.
Qed.

Lemma wp_get_free_data_count g s w Q E : shape n b (data_bitmap s) → 0 ≤ g < n →
  wp (get_free_data_count g) Q E s w = Q (frees (data_bitmap s) g) s w.
Proof.
  intros Hs Hg. destruct (shape_row n b Hb _ g Hs Hg) as (row & Hr & _). unfold get_free_data_count, frees. rewrite wp_bind, wp_get.
  rewrite (list_get_Z _ _ _ (proj1 Hg) Hr), Hr. done.
Qed.

(** The scans keep the first group with the most of what [f] counts. *)
Lemma wp_max_scan (f : Z → Z) (body : Z * Z → Z → M fs (Z * Z)) s w (Q : Z * Z → fs → world → Prop) :
  (∀ p g (R : Z * Z → fs → world → Prop), 0 ≤ g < n → R (if p.1 <? f g then (f g, g) else p) s w → wp (body p g) R noexn s w) →
  (∃ g, 0 ≤ g < n ∧ 0 < f g) →
  (∀ g, 0 ≤ g < n → 0 < f g → (∀ g', 0 ≤ g' < n → f g' ≤ f g) → Q (f g, g) s w) →
  wp (for_acc (range 0 n) (0, -1) body) Q noexn s w.
Proof.
  intros Hbody (g0 & Hg0 & Hf0) HQ.
  apply (wp_for_acc (λ pre p s' w', s' = s ∧ w' = w ∧ 0 ≤ p.1 ∧ (∀ g, g ∈ pre → f g ≤ p.1) ∧ (0 < p.1 → p = (f p.2, p.2) ∧ 0 ≤ p.2 < n))).
  - split_and!; simpl; [done..|lia| |lia]. intros g Hg. by apply elem_of_nil in Hg.
  - intros pre g post p s' w' Hr (-> & -> & Hp & Hpre & Hbest). apply range_split in Hr as (_ & _ & Hg). apply Hbody; [done|].
    destruct (Z.ltb_spec p.1 (f g)); simpl; split_and!; try done; try lia.
    + intros x [Hx%Hpre| ->%list_elem_of_singleton]%elem_of_app; lia.
    + intros x [Hx%Hpre| ->%list_elem_of_singleton]%elem_of_app; lia.
  - intros p s' w' (-> & -> & Hp & Hall & Hbest). assert (∀ g, 0 ≤ g < n → f g ≤ p.1) as Hmax by (intros; by apply Hall, elem_of_range).
    specialize (Hmax g0 Hg0) as Hpos. destruct (Hbest ltac:(lia)) as [He Hr]. assert (p.1 = f p.2) as Hp2 by by rewrite He at 1.
    rewrite He. apply HQ; [done|lia|]. intros g' Hg'. specialize (Hmax g' Hg'). lia.
Qed.

Lemma find_min_data_usage_spec s w (Q : Z → fs → world → Prop) : shape n b (data_bitmap s) → 0 < len (free_entries n b (data_bitmap s)) →
  (∀ g, 0 ≤ g < n → (∀ g', 0 ≤ g' < n → frees (data_bitmap s) g' ≤ frees (data_bitmap s) g) → Q g s w) →
  wp (find_min_data_usage cfg) Q noexn s w.
Proof.
  intros Hs Hfree HQ. unfold find_min_data_usage. rewrite wp_bind. apply (wp_max_scan (frees (data_bitmap s))).
  - intros p g R Hg HR. rewrite wp_bind, wp_get_free_data_count by done. done.
  - by apply frees_some with (per := b).
  - intros g Hg _ Hmax. rewrite wp_ret. by apply HQ.
Qed.

Lemma range_step_1 k : range_step 0 k 1 = mret (range 0 k).
Proof.
  unfold range_step. change (1 =? 0) with false. change (0 <? 1) with true. cbv iota. f_equal.
  rewrite Z.div_1_r. replace (k - 0 + 1 - 1) with k by lia. rewrite <-(list_fmap_id (range 0 k)) at 2. apply list_fmap_ext. intros. unfold id. lia.
Qed.

Lemma find_most_free_inodes_multiple_spec s w (Q : Z → fs → world → Prop) :
  shape n ip (inode_bitmap s) → 0 < len (free_entries n ip (inode_bitmap s)) →
  (∀ g, 0 ≤ g < n → 0 < frees (inode_bitmap s) g → (∀ g', 0 ≤ g' < n → frees (inode_bitmap s) g' ≤ frees (inode_bitmap s) g) → Q g s w) →
  wp (find_most_free_inodes_multiple cfg 0 1) Q noexn s w.
Proof.
  intros Hs Hfree HQ. unfold find_most_free_inodes_multiple. rewrite !range_step_1. cbv zeta. wp_pures. apply (wp_max_scan (frees (inode_bitmap s))).
  - intros p g R Hg HR. rewrite wp_bind. unfold find_free_inodes_in_range. rewrite range_cons, range_nil by lia. cbn [for_acc].
    rewrite !wp_bind. unfold py_mod. rewrite (proj2 (Z.eqb_neq n 0)) by lia. rewrite wp_ret, wp_bind.
    rewrite wp_get_free_inode_count by (done || by apply Z.mod_pos_bound). rewrite !wp_ret, Z.mod_small by done. done.
  - by apply frees_some with (per := ip).
  - intros g Hg Hpos Hmax. rewrite range_nil by lia. rewrite wp_bind, wp_ret. cbn [for_acc]. wp_pures. rewrite (proj2 (Z.eqb_neq g (-1))) by lia. by apply HQ.
Qed.

(** *** Near another group: alternately above and below, further and further *)

Definition visit (t i : Z) : Z := if i mod 2 =? 0 then (t + 1 + i / 2) mod n else (t - 1 - i / 2) mod n.

Lemma visit_all t g : 0 ≤ t < n → 0 ≤ g < n → g ≠ t → ∃ i, 0 ≤ i < n - 1 ∧ visit t i = g.
Proof.
  intros Ht Hg Hne. pose proof (Z.mod_pos_bound (g - t) n Hn) as Hd. set (d := (g - t) mod n) in *.
  assert ((t + d) mod n = g) as Hgd. { unfold d. rewrite Z.add_mod_idemp_r by lia. replace (t + (g - t)) with g by lia. by apply Z.mod_small. }
  assert (d ≠ 0) as Hd0. { intros He. rewrite He, Z.add_0_r, Z.mod_small in Hgd by done. done. }
  destruct (decide (2 * d ≤ n)) as [Hle|Hgt].
  - exists (2 * (d - 1)). split; [lia|]. unfold visit. rewrite (Z.mul_comm 2), Z.mod_mul, Z.div_mul by lia. simpl. rewrite <-Hgd. f_equal. lia.
  - exists (2 * (n - d) - 1). split; [lia|]. unfold visit. replace (2 * (n - d) - 1) with (1 + (n - d - 1) * 2) by lia.
    rewrite Z.mod_add, Z.div_add by lia. simpl. rewrite <-Hgd. change (1 / 2) with 0.
    replace (t - 1 - (0 + (n - d - 1))) with (t + d + (-1) * n) by lia. apply Z.mod_add. lia.
Qed.

Lemma find_free_inodes_near_spec t s w (Q : Z → fs → world → Prop) :
  shape n ip (inode_bitmap s) → 0 ≤ t < n → frees (inode_bitmap s) t = 0 → 0 < len (free_entries n ip (inode_bitmap s)) →
  (∀ g, 0 ≤ g < n → 0 < frees (inode_bitmap s) g → Q g s w) → wp (find_free_inodes_near cfg t) Q noexn s w.
Proof.
  intros Hs Ht Hzero Hfree HQ. unfold find_free_inodes_near, py_mod. rewrite (proj2 (Z.eqb_neq n 0)) by lia. rewrite !wp_bind, wp_ret, wp_bind, wp_ret, wp_bind.
  apply (wp_for_ret (λ pre l s' w', s' = s ∧ w' = w ∧ (∀ j, j ∈ pre → frees (inode_bitmap s) (visit t j) = 0) ∧
    l = ((t + 1 + (len pre + 1) / 2) mod n, (t - 1 - len pre / 2) mod n))).
  - split_and!; [done..| |change (len []) with 0; change ((0 + 1) / 2) with 0; change (0 / 2) with 0; by rewrite Z.add_0_r, Z.sub_0_r].
    intros j Hj. by apply elem_of_nil in Hj.
  - intros pre i post l s' w' Hr (-> & -> & Hpre & ->). apply range_split in Hr as (Hrange & _ & Hi).
    assert (len pre = i) as Hlen by (rewrite Hrange; unfold len; rewrite length_range; lia). rewrite Hlen. cbn [fst snd].
    set (next := if i mod 2 =? 0 then _ else _).
    assert (next = mret (visit t i, ((t + 1 + (i + 1 + 1) / 2) mod n, (t - 1 - (i + 1) / 2) mod n))) as ->.
    { unfold next, visit. pose proof (Z.mod_pos_bound i 2 ltac:(lia)). destruct (Z.eqb_spec (i mod 2) 0) as [He|Ho].
      - unfold mbind, M_bind. simpl. unfold mret, M_ret.
        assert ((i + 1) / 2 = i / 2) as -> by (symmetry; apply Z.div_unique with (r := 1); [lia|]; pose proof (Z.div_mod i 2); lia).
        assert ((i + 1 + 1) / 2 = i / 2 + 1) as -> by (replace (i + 1 + 1) with (i + 1 * 2) by lia; apply Z.div_add; lia).
        rewrite Z.add_mod_idemp_l by lia. by replace (t + 1 + i / 2 + 1) with (t + 1 + (i / 2 + 1)) by lia.
      - unfold mbind, M_bind. simpl. unfold mret, M_ret. assert (i mod 2 = 1) by lia.
        assert ((i + 1) / 2 = i / 2 + 1) as -> by (symmetry; apply Z.div_unique with (r := 0); [lia|]; pose proof (Z.div_mod i 2); lia).
        assert ((i + 1 + 1) / 2 = i / 2 + 1) as -> by (replace (i + 1 + 1) with (i + 1 * 2) by lia; apply Z.div_add; lia).
        rewrite Zminus_mod_idemp_l. by replace (t - 1 - i / 2 - 1) with (t - 1 - (i / 2 + 1)) by lia. }
    wp_pures. assert (0 ≤ visit t i < n) by (unfold visit; case_match; by apply Z.mod_pos_bound).
    rewrite wp_get_free_inode_count by done. wp_pures.
    destruct (Z.ltb_spec 0 (frees (inode_bitmap s) (visit t i))) as [Hpos|Hno]; wp_pures; [by apply HQ|].
    assert (len (pre ++ [i]) = i + 1) as -> by (unfold len in *; rewrite length_app; simpl length; lia). split_and!; [done..| |done].
    intros j [Hj| ->%list_elem_of_singleton]%elem_of_app; [by apply Hpre|].
    pose proof (proj1 (frees_pos n ip (inode_bitmap s) (visit t i) Hip Hs ltac:(done))). lia.
  - intros l s' w' (-> & -> & Hall & _). exfalso. destruct (frees_some n ip _ Hip Hs Hfree) as (g & Hg & Hpos).
    assert (g ≠ t) by (intros ->; lia). destruct (visit_all t g Ht Hg ltac:(done)) as (i & Hi & Hv).
    rewrite <-Hv, Hall in Hpos; [lia|]. by apply elem_of_range.
Qed.

Lemma find_free_inode_spec g s w (Q : Z → fs → world → Prop) : shape n ip (inode_bitmap s) → 0 ≤ g < n → 0 < frees (inode_bitmap s) g →
  (∀ i, 0 ≤ i < ip → owner (inode_bitmap s) ip (i + g * ip) = None → Q i s w) → wp (find_free_inode cfg g) Q noexn s w.
Proof.
  intros Hs Hg Hpos HQ. unfold find_free_inode. rewrite wp_bind.
  apply (wp_for_ret (λ pre _ s' w', s' = s ∧ w' = w ∧ ∀ i, i ∈ pre → owner (inode_bitmap s) ip (i + g * ip) ≠ None)).
  - split_and!; [done..|]. intros i Hi. by apply elem_of_nil in Hi.
  - intros pre i post _ s' w' Hr (-> & -> & Hpre). apply range_split in Hr as (_ & _ & Hi). rewrite wp_bind, wp_get, wp_bind.
    rewrite (bm_get_eq n ip Hip), wp_ret by done. case_bool_decide as Hfree; rewrite ?wp_ret; [by apply HQ|].
    split_and!; [done..|]. intros j [?| ->%list_elem_of_singleton]%elem_of_app; auto.
  - intros _ s' w' (-> & -> & Hall). exfalso. apply (frees_pos n ip _ g Hip Hs Hg) in Hpos as (i & Hi & Hfree). by apply (Hall i); [apply elem_of_range|].
Qed.

(** Where the policy puts an inode: a file near its directory, a directory
    where most inodes are free, and everything so with [spread_inodes] *)
Definition placed (s : fs) (type : string) (parent_inode g : Z) : Prop :=
  if bool_decide (type = "regular") && negb (spread_inodes cfg)
  then 0 < frees (inode_bitmap s) (parent_inode / ip) → g = parent_inode / ip
  else ∀ g', 0 ≤ g' < n → frees (inode_bitmap s) g' ≤ frees (inode_bitmap s) g.

Lemma pick_group_spec parent filename type p s w (Q : Z → fs → world → Prop) :
  shape n ip (inode_bitmap s) → 0 < len (free_entries n ip (inode_bitmap s)) → allocate_faraway cfg = 1 →
  od_get parent (name_to_inode_map s) = Some p → 0 ≤ p < n * ip → type = "regular" ∨ type = "directory" →
  (∀ g, 0 ≤ g < n → 0 < frees (inode_bitmap s) g → placed s type p g → Q g s w) → wp (pick_group cfg parent filename type) Q noexn s w.
Proof.
  intros Hs Hfree Hfar Hparent Hp Htype HQ. unfold pick_group, placed in *. destruct (number_join n ip Hip p Hp) as (Hg & _).
  destruct (bool_decide (type = "regular") && negb (spread_inodes cfg)) eqn:Hcase.
  - unfold name_to_inode. wp_pures. rewrite Hparent. rewrite (proj2 (Z.eqb_neq ip 0)) by lia. wp_pures. simpl default.
    replace (int_div p ip) with (p / ip) by (unfold int_div; rewrite Z.quot_div_nonneg; lia).
    rewrite wp_get_free_inode_count by done. pose proof (proj1 (frees_pos n ip _ _ Hip Hs Hg)).
    destruct (Z.eqb_spec (frees (inode_bitmap s) (p / ip)) 0) as [Hz|Hnz].
    + apply find_free_inodes_near_spec; [done..|]. intros g Hg' Hpos. apply HQ; [done..|]. lia.
    + wp_pures. apply HQ; [done|lia|done].
  - assert (bool_decide (type = "directory") || spread_inodes cfg = true) as ->.
    { destruct Htype as [-> | ->]; [|done]. by destruct (spread_inodes cfg). }
    rewrite Hfar. by apply find_most_free_inodes_multiple_spec.
Qed.
End Groups.

(** The defaults of the options, with the answers shown *)
Definition default_config : config := Config 10 30 10 30 false 1 false 1 false false false true.
