(* ===== verification/FfsCreate.v ===== *)
(** * Creating files in the fast file system

    The consistency of the file system of [Ffs], which the program's verifier
    checks in part, and what creating a file or directory does to it. *)
From S2P Require Import Prelude PyStr PyFloat PyDict Ffs.
Open Scope Z_scope.

Section Consistency.
Context (cfg : config).
Abbreviation n := (num_groups cfg).
Abbreviation ip := (inodes_per_group cfg).
Abbreviation b := (blocks_per_group cfg).
Context (Hn : 0 < n) (Hip : 0 < ip) (Hb : 0 < b).
Implicit Types (s : fs) (w : world) (ino q : Z).

(** The names and numbers in use *)
Definition inodes (s : fs) : list Z := (name_to_inode_map s).*2.

Set Implicit Arguments.

(** What is kept for an inode with a name *)
Record file_ok (s : fs) (ino : Z) : Prop := {
  file_range : 0 ≤ ino < n * ip;
  file_inode : owner (inode_bitmap s) ip ino = Some ino;
  file_type : inode_type s !! ino = Some "regular" ∨ inode_type s !! ino = Some "directory" ∧ is_Some (dir_data s !! ino);
  file_symbol : is_Some (symbol_map s !! ino);
  file_blocks : ∃ bs, inode_blocks s !! ino = Some bs ∧ NoDup bs ∧ ∀ q, q ∈ bs → 0 ≤ q < n * b ∧ owner (data_bitmap s) b q = Some ino;
}.

Record inv (s : fs) : Prop := {
  inv_data : shape n b (data_bitmap s);
  inv_inode : shape n ip (inode_bitmap s);
  inv_data_free : total_data_free s = len (free_entries n b (data_bitmap s));
  inv_inodes_free : total_inodes_free s = len (free_entries n ip (inode_bitmap s));
  inv_names : NoDup (name_to_inode_map s).*1;
  inv_inodes : NoDup (inodes s);
  inv_file : ∀ f ino, (f, ino) ∈ name_to_inode_map s → file_ok s ino;
  inv_data_owner : ∀ q ino, 0 ≤ q < n * b → owner (data_bitmap s) b q = Some ino → ino ∈ inodes s ∧ ∃ bs, inode_blocks s !! ino = Some bs ∧ q ∈ bs;
  inv_inode_owner : ∀ q ino, 0 ≤ q < n * ip → owner (inode_bitmap s) ip q = Some ino → ino = q ∧ ino ∈ inodes s;
  inv_tree : ∀ f ino, (f, ino) ∈ name_to_inode_map s → f ≠ "/" → ∃ p es,
    od_get (get_parent f).1 (name_to_inode_map s) = Some p ∧ dir_data s !! p = Some es ∧ ((get_parent f).2, ino) ∈ es;
  inv_root : ("/", 0) ∈ name_to_inode_map s;
  inv_root_type : inode_type s !! 0 = Some "directory";
  inv_dirs : ∀ d es, dir_data s !! d = Some es → d ∈ inodes s ∧ inode_type s !! d = Some "directory" ∧ NoDup es.*1 ∧ ∀ e, e ∈ es →
    e.2 = 0 ∨ ∃ f, (f, e.2) ∈ name_to_inode_map s ∧ (get_parent f).2 = e.1 ∧ od_get (get_parent f).1 (name_to_inode_map s) = Some d;
  inv_used : used_symbols s ≡ₚ omap (symbol_map s !!.) (inodes s);
  inv_symbols : (length (available_symbols s) + length (name_to_inode_map s) = 79)%nat;
}.

(** A new inode [ino] with [blocks] under [path] *)
Record created (s : fs) (path : string) (size : Z) (type : string) (ino : Z) (blocks : list Z) (p : Z) (es : list (string * Z)) (s' : fs) : Prop := {
  new_parent : od_get (get_parent path).1 (name_to_inode_map s) = Some p;
  new_entries : dir_data s !! p = Some es;
  new_range : 0 ≤ ino < n * ip;
  new_free : owner (inode_bitmap s) ip ino = None;
  new_inode_shape : shape n ip (inode_bitmap s');
  new_inode_owner : ∀ q, 0 ≤ q < n * ip → owner (inode_bitmap s') ip q = if decide (q = ino) then Some ino else owner (inode_bitmap s) ip q;
  new_size : len blocks = size;
  new_nodup : NoDup blocks;
  new_blocks : ∀ q, q ∈ blocks → q ∈ free_entries n b (data_bitmap s);
  new_data_shape : shape n b (data_bitmap s');
  new_data_owner : ∀ q, 0 ≤ q < n * b → owner (data_bitmap s') b q = if decide (q ∈ blocks) then Some ino else owner (data_bitmap s) b q;
  new_data_free : total_data_free s' = total_data_free s - size;
  new_inodes_free : total_inodes_free s' = total_inodes_free s - 1;
  new_name : name_to_inode_map s' = name_to_inode_map s ++ [(path, ino)];
  new_type : inode_type s' = <[ino := type]> (inode_type s);
  new_inode_blocks : inode_blocks s' = <[ino := blocks]> (inode_blocks s);
  new_dirs : dir_data s' = (if bool_decide (type = "directory") then <[ino := [(".", 0); ("..", 0)]]> else id)
    (<[p := es ++ [((get_parent path).2, ino)]]> (dir_data s));
  new_symbol : ∃ c, symbol_map s' = <[ino := c]> (symbol_map s) ∧ used_symbols s' = used_symbols s ++ [c];
  new_available : S (length (available_symbols s')) = length (available_symbols s);
  new_place : placed cfg s type p (ino / ip);
}.

Unset Implicit Arguments.

(** A path whose name is not in its directory is new. *)
Lemma name_fresh s path p es : inv s → path ≠ "/" → od_get (get_parent path).1 (name_to_inode_map s) = Some p → dir_data s !! p = Some es →
  Forall (λ e : string * Z, e.1 ≠ (get_parent path).2) es → od_get path (name_to_inode_map s) = None.
Proof.
  intros Hinv Hpath Hp Hd Hes. destruct (od_get path (name_to_inode_map s)) as [i|] eqn:Hget; [|done]. exfalso. apply od_get_elem in Hget.
  destruct (inv_tree Hinv Hget Hpath) as (p' & es' & Hp' & Hd' & Hin). simplify_eq. rewrite Forall_forall in Hes. by apply (Hes _ Hin).
Qed.

Section Created.
Context (s : fs) (path : string) (size : Z) (type : string) (ino : Z) (blocks : list Z) (p : Z) (es : list (string * Z)) (s' : fs).
Context (Hinv : inv s) (Hnew : created s path size type ino blocks p es s') (Hpath : path ≠ "/") (Htype : type = "regular" ∨ type = "directory").

Lemma new_not_used f i : (f, i) ∈ name_to_inode_map s → i ≠ ino.
Proof. intros Hin ->. pose proof (file_inode (inv_file Hinv Hin)) as He. pose proof (new_free Hnew). congruence. Qed.

Lemma new_dir_kept i : i ≠ ino → is_Some (dir_data s !! i) → is_Some (dir_data s' !! i).
Proof.
  intros Hi Hd. rewrite (new_dirs Hnew). destruct (decide (i = p)) as [->|]; case_bool_decide; simpl;
    rewrite ?lookup_insert_ne by done; rewrite ?lookup_insert; rewrite ?decide_True by done; eauto; by rewrite lookup_insert_ne.
Qed.

Lemma file_ok_kept f i : (f, i) ∈ name_to_inode_map s → file_ok s' i.
Proof.
  intros Hin. pose proof (new_not_used _ _ Hin) as Hne. destruct (inv_file Hinv Hin) as [Hr Ho Ht Hs (bs & Hbs & Hnd & Hown)].
  split; [done| | | |].
  - rewrite (new_inode_owner Hnew) by done. by rewrite decide_False.
  - rewrite (new_type Hnew), lookup_insert_ne by done. destruct Ht as [?|[? ?]]; [by left|right]. split; [done|by apply new_dir_kept].
  - destruct (new_symbol Hnew) as (c & -> & _). by rewrite lookup_insert_ne.
  - exists bs. rewrite (new_inode_blocks Hnew), lookup_insert_ne by done. split_and!; [done..|]. intros q Hq.
    destruct (Hown q Hq) as [Hqr Hqo]. split; [done|]. rewrite (new_data_owner Hnew) by done. rewrite decide_False; [done|].
    intros [_ Hf]%(new_blocks Hnew)%elem_of_free. congruence.
Qed.

Lemma file_ok_new : file_ok s' ino.
Proof.
  pose proof (new_range Hnew) as Hr. split; [done| | | |].
  - rewrite (new_inode_owner Hnew) by done. by rewrite decide_True.
  - rewrite (new_type Hnew), lookup_insert, decide_True by done. destruct Htype as [-> | ->]; [by left|right]. split; [done|].
    rewrite (new_dirs Hnew). rewrite bool_decide_true, lookup_insert, decide_True by done. eauto.
  - destruct (new_symbol Hnew) as (c & -> & _). rewrite lookup_insert, decide_True by done. eauto.
  - exists blocks. rewrite (new_inode_blocks Hnew), lookup_insert, decide_True by done. split_and!; [done|by eapply new_nodup|].
    intros q Hq. pose proof (new_blocks Hnew Hq) as [Hqr _]%elem_of_free. split; [done|].
    rewrite (new_data_owner Hnew) by done. by rewrite decide_True.
Qed.
Lemma tree_kept f i : (f, i) ∈ name_to_inode_map s → f ≠ "/" → ∃ p' es',
  od_get (get_parent f).1 (name_to_inode_map s') = Some p' ∧ dir_data s' !! p' = Some es' ∧ ((get_parent f).2, i) ∈ es'.
Proof.
  intros Hin Hf. destruct (inv_tree Hinv Hin Hf) as (p' & es' & Hp & Hd & He). exists p'. rewrite (new_name Hnew), od_get_app, Hp.
  pose proof (new_not_used _ _ (od_get_elem _ _ _ Hp)) as Hne. rewrite (new_dirs Hnew). pose proof (new_entries Hnew) as Hes.
  assert (∃ es'', <[p := es ++ [((get_parent path).2, ino)]]> (dir_data s) !! p' = Some es'' ∧ ((get_parent f).2, i) ∈ es'') as (es'' & Hl & ?).
  { destruct (decide (p' = p)) as [->|]; simplify_map_eq; eexists; (split; [done|]); [by apply elem_of_app; left|done]. }
  exists es''. split_and!; [done| |done]. case_bool_decide; [by rewrite lookup_insert_ne|done].
Qed.

Lemma inodes_created i : i ∈ inodes s' ↔ i ∈ inodes s ∨ i = ino.
Proof. unfold inodes. rewrite (new_name Hnew), fmap_app, elem_of_app. simpl. by rewrite list_elem_of_singleton. Qed.

(** The entries of the directories, once there is one for the new path *)
Lemma dirs_created d es' : Forall (λ e : string * Z, e.1 ≠ (get_parent path).2) es → dir_data s' !! d = Some es' →
  d ∈ inodes s' ∧ inode_type s' !! d = Some "directory" ∧ NoDup es'.*1 ∧ ∀ e, e ∈ es' →
    e.2 = 0 ∨ ∃ f, (f, e.2) ∈ name_to_inode_map s' ∧ (get_parent f).2 = e.1 ∧ od_get (get_parent f).1 (name_to_inode_map s') = Some d.
Proof.
  intros Hfresh. rewrite inodes_created, (new_dirs Hnew), (new_type Hnew), (new_name Hnew). pose proof (new_entries Hnew) as Hes.
  assert (∀ i es'', dir_data s !! i = Some es'' → i ≠ ino) as Hne.
  { intros i es'' ([[f i'] [-> Hin]]%list_elem_of_fmap & _)%(inv_dirs Hinv). by eapply new_not_used. }
  assert (∀ i es'' e, dir_data s !! i = Some es'' → e ∈ es'' → e.2 = 0 ∨ ∃ f, (f, e.2) ∈ name_to_inode_map s ++ [(path, ino)] ∧
    (get_parent f).2 = e.1 ∧ od_get (get_parent f).1 (name_to_inode_map s ++ [(path, ino)]) = Some i) as Hold.
  { intros i es'' e Hl He. destruct (inv_dirs Hinv _ Hl) as (_ & _ & _ & Hall). destruct (Hall e He) as [?|(f & Hin & ? & Hp)]; [by left|right].
    exists f. rewrite od_get_app, Hp. split_and!; [apply elem_of_app; by left|done..]. }
  assert (∀ es'', <[p := es ++ [((get_parent path).2, ino)]]> (dir_data s) !! d = Some es'' → (d ∈ inodes s ∨ d = ino) ∧
    <[ino := type]> (inode_type s) !! d = Some "directory" ∧ NoDup es''.*1 ∧ ∀ e, e ∈ es'' → e.2 = 0 ∨ ∃ f, (f, e.2) ∈ name_to_inode_map s ++ [(path, ino)] ∧
    (get_parent f).2 = e.1 ∧ od_get (get_parent f).1 (name_to_inode_map s ++ [(path, ino)]) = Some d) as Hins.
  { intros es'' Hl. destruct (decide (d = p)) as [->|]; simplify_map_eq.
    - destruct (inv_dirs Hinv _ Hes) as (Hp & Ht & Hnd & _). rewrite lookup_insert_ne by by apply not_eq_sym, (Hne p es). split_and!; [by left|done| |].
      + rewrite fmap_app. apply NoDup_app. split_and!; [done| |apply NoDup_singleton]. intros x (e & -> & He)%list_elem_of_fmap. simpl.
        rewrite list_elem_of_singleton. rewrite Forall_forall in Hfresh. by apply Hfresh.
      + intros e [He| ->%list_elem_of_singleton]%elem_of_app; [by eapply Hold|right]. exists path. rewrite od_get_app, (new_parent Hnew).
        split_and!; [apply elem_of_app; right; by left|done..].
    - destruct (inv_dirs Hinv _ Hl) as (Hd & Ht & Hnd & _). rewrite lookup_insert_ne by by apply not_eq_sym, (Hne d es''). split_and!; [by left|done..|by eauto]. }
  case_bool_decide as Hdir; simpl; [|apply Hins]. destruct (decide (d = ino)) as [->|]; intros Hl; [|rewrite lookup_insert_ne in Hl by done; by apply Hins].
  simplify_map_eq. split_and!; [by right|done|repeat constructor; set_solver|]. intros e [->|[->|[]%elem_of_nil]%elem_of_cons]%elem_of_cons; by left.
Qed.

Lemma used_created : used_symbols s' ≡ₚ omap (symbol_map s' !!.) (inodes s').
Proof.
  destruct (new_symbol Hnew) as (c & Hmap & Hused). rewrite Hused, Hmap. unfold inodes. rewrite (new_name Hnew), fmap_app, omap_app. simpl.
  rewrite lookup_insert, decide_True by done. apply Permutation_app; [|done]. rewrite (inv_used Hinv). apply Permutation_refl', list_omap_ext, Forall_Forall2_diag, Forall_forall.
  intros i ([f i'] & -> & Hin)%list_elem_of_fmap. rewrite lookup_insert_ne; [done|]. by apply not_eq_sym, (new_not_used f).
Qed.

Lemma inv_created : Forall (λ e : string * Z, e.1 ≠ (get_parent path).2) es → inv s'.
Proof.
  intros Hes. pose proof (name_fresh _ _ _ _ Hinv Hpath (new_parent Hnew) (new_entries Hnew) Hes) as Hfresh. pose proof (new_name Hnew) as Hname. split.
  - apply (new_data_shape Hnew).
  - apply (new_inode_shape Hnew).
  - rewrite (new_data_free Hnew), (inv_data_free Hinv), <-(new_size Hnew).
    rewrite (free_taken n b _ _ _ (λ _, Some ino) (new_nodup Hnew) (new_blocks Hnew) ltac:(done) (new_data_owner Hnew)). lia.
  - rewrite (new_inodes_free Hnew), (inv_inodes_free Hinv). rewrite (free_taken n ip _ (inode_bitmap s') [ino] (λ _, Some ino)); [unfold len; simpl; lia|apply NoDup_singleton| |done|].
    + intros q ->%list_elem_of_singleton. apply elem_of_free. split; [apply (new_range Hnew)|apply (new_free Hnew)].
    + intros q Hq. rewrite (new_inode_owner Hnew) by done. destruct (decide (q = ino)) as [->|]; [by rewrite decide_True by by left|].
      by rewrite decide_False by by rewrite list_elem_of_singleton.
  - rewrite Hname, fmap_app. apply NoDup_app. split_and!; [apply (inv_names Hinv)| |apply NoDup_singleton]. intros f Hf.
    simpl. rewrite list_elem_of_singleton. intros ->. by apply od_get_None in Hfresh.
  - unfold inodes. rewrite Hname, fmap_app. apply NoDup_app. split_and!; [apply (inv_inodes Hinv)| |apply NoDup_singleton].
    intros i ([f i'] & -> & Hin)%list_elem_of_fmap. simpl. rewrite list_elem_of_singleton. by eapply new_not_used.
  - intros f i. rewrite Hname. intros [Hin|[= -> ->]%list_elem_of_singleton]%elem_of_app; [by eapply file_ok_kept|by apply file_ok_new].
  - intros q i Hq. rewrite (new_data_owner Hnew) by done. unfold inodes. rewrite Hname, fmap_app, elem_of_app. simpl. rewrite list_elem_of_singleton.
    rewrite (new_inode_blocks Hnew). case_decide; [intros [= <-]; split; [by right|exists blocks; by rewrite lookup_insert, decide_True]|].
    intros [Hi (bs & Hbs & ?)]%(inv_data_owner Hinv); [|done]. split; [by left|]. exists bs. split; [|done].
    rewrite lookup_insert_ne; [done|]. apply list_elem_of_fmap in Hi as ([f j] & -> & Hin). by apply not_eq_sym, (new_not_used f).
  - intros q i Hq. rewrite (new_inode_owner Hnew) by done. unfold inodes. rewrite Hname, fmap_app, elem_of_app. simpl. rewrite list_elem_of_singleton.
    case_decide; [intros [= <-]; split; [done|by right]|]. intros [-> ?]%(inv_inode_owner Hinv); [|done]. split; [done|by left].
  - intros f i. rewrite Hname at 1. intros [Hin|[= -> ->]%list_elem_of_singleton]%elem_of_app Hf; [by apply tree_kept|].
    exists p, (es ++ [((get_parent path).2, ino)]). rewrite Hname, od_get_app, (new_parent Hnew). split_and!; [done| |apply elem_of_app; right; by left].
    rewrite (new_dirs Hnew). pose proof (new_not_used _ _ (od_get_elem _ _ _ (new_parent Hnew))) as Hne.
    case_bool_decide; simpl; [rewrite lookup_insert_ne by done|]; by rewrite lookup_insert, decide_True.
  - rewrite Hname. apply elem_of_app. left. apply (inv_root Hinv).
  - rewrite (new_type Hnew), lookup_insert_ne; [apply (inv_root_type Hinv)|]. by apply not_eq_sym, (new_not_used "/" 0), (inv_root Hinv).
  - intros d es'. by apply dirs_created.
  - apply used_created.
  - rewrite Hname, length_app. pose proof (new_available Hnew). pose proof (inv_symbols Hinv). simpl. lia.
Qed.
End Created.

(** ** [do_create] *)

Lemma allocate_symbol_spec ino name s w (Q : unit → fs → world → Prop) : available_symbols s ≠ [] →
  (∀ c avail, S (length avail) = length (available_symbols s) →
     Q tt (s <| used_symbols ::= (.++ [c]) |> <| available_symbols := avail |> <| symbol_map ::= <[ino := c]> |>) w) →
  wp (allocate_symbol ino name) Q noexn s w.
Proof.
  intros Hne HQ. assert (∀ c, c ∈ available_symbols s → ∃ l, remove1 c (available_symbols s) = Some l ∧ S (length l) = length (available_symbols s)) as Hrem.
  { intros c. clear. induction (available_symbols s) as [|x l IH]; [by intros ?%elem_of_nil|]. simpl. case_decide; [by eauto|].
    intros [->|Hc]%elem_of_cons; [done|]. destruct (IH Hc) as (l' & -> & Hl). simpl. eexists. split; [done|]. simpl. lia. }
  assert (∀ c, c ∈ available_symbols s → wp (modify (λ s, s <| used_symbols ::= (.++ [c]) |>);;
    l ← py_remove c (available_symbols s); available_symbols <~ l;; modify (λ s, s <| symbol_map ::= <[ino := c]> |>)) Q noexn s w) as Hrest.
  { intros c Hc. destruct (Hrem c Hc) as (l & Hl & Hlen). wp_pures. unfold py_remove. rewrite Hl. wp_pures. by apply HQ. }
  unfold allocate_symbol. rewrite wp_bind, wp_get, wp_bind. destruct (_ && _) eqn:Hcase.
  - apply andb_true_iff in Hcase as [_ Hin%bool_decide_eq_true]. rewrite wp_ret. by apply Hrest.
  - destruct (available_symbols s) as [|c l] eqn:Hav; [done|]. rewrite wp_bind, wp_passert, (proj2 (Z.ltb_lt 0 (len (c :: l)))) by (unfold len; simpl; lia).
    rewrite wp_list_get, (py_index_nonneg (c :: l)) by (unfold len; simpl; lia). apply Hrest. by left.
Qed.

(** The end of [do_create], with a free inode and its blocks in hand *)
Lemma create_finish path size type s s1 w l g i p es (Q : Z → fs → world → Prop) :
  inv s → path ≠ "/" → taken cfg s (i + g * ip) l s1 → len l = size → 0 ≤ g < n → 0 ≤ i < ip → owner (inode_bitmap s) ip (i + g * ip) = None →
  od_get (get_parent path).1 (name_to_inode_map s) = Some p → dir_data s !! p = Some es → Forall (λ e : string * Z, e.1 ≠ (get_parent path).2) es →
  od_get path (name_to_inode_map s) = None → placed cfg s type p g → available_symbols s ≠ [] →
  (∀ s', created s path size type (i + g * ip) ((λ q : Z * Z, q.2 + q.1 * b) <$> l) p es s' → Q 0 s' w) →
  wp (mark_inode_used cfg g i;;
      s ← get;
      entries ← dict_get (dir_data s) p;
      modify (λ s, s <| dir_data ::= <[p := entries ++ [((get_parent path).2, i + g * ip)]]> |>);;
      modify (λ s, s <| inode_type ::= <[i + g * ip := type]> |>);;
      modify (λ s, s <| inode_blocks ::= <[i + g * ip := (λ q : Z * Z, q.2 + q.1 * b) <$> l]> |>);;
      set_name_to_inode path (i + g * ip);;
      allocate_symbol (i + g * ip) (get_parent path).2;;
      when (bool_decide (type = "directory")) (modify (λ s, s <| dir_data ::= <[i + g * ip := [(".", 0); ("..", 0)]]> |>));;
      modify (λ s, s <| total_inodes_free ::= λ n, n - 1 |>);;
      modify (λ s, s <| total_data_free ::= λ n, n - size |>);;
      mret 0) Q noexn s1 w.
Proof.
  intros Hinv Hpath [Hst Hsh Hpos Hnd Hfree Hown] Hlen Hg Hi Hnone Hp Hes Hfresh Hname Hplace Hav HQ.
  set (ino := i + g * ip) in *. remember (data_bitmap s1) as D. subst s1. unfold mark_inode_used. fold ino.
  wp_pures. change (inode_bitmap (s <| data_bitmap := D |>)) with (inode_bitmap s).
  rewrite (bm_set_eq n ip Hip) by (done || apply (inv_inode Hinv)). wp_pures.
  set (s1 := s <| data_bitmap := D |> <| inode_bitmap := _ |>). change (dir_data s1) with (dir_data s). rewrite Hes. wp_pures.
  unfold set_name_to_inode. wp_pures. set (s2 := s1 <| dir_data ::= _ |> <| inode_type ::= _ |> <| inode_blocks ::= _ |>).
  change (name_to_inode_map s2) with (name_to_inode_map s). unfold od_mem. rewrite Hname. wp_pures.
  apply allocate_symbol_spec; [done|]. intros c avail Havail. wp_pures.
  assert (∀ d, d = (if bool_decide (type = "directory") then <[ino := [(".", 0); ("..", 0)]]> else id) (<[p := es ++ [((get_parent path).2, ino)]]> (dir_data s)) →
    created s path size type ino ((λ q : Z * Z, q.2 + q.1 * b) <$> l) p es
      (Fs D (inode_bitmap s1) (total_data_free s - size) (total_inodes_free s - 1) d (<[ino := type]> (inode_type s))
         (<[ino := (λ q : Z * Z, q.2 + q.1 * b) <$> l]> (inode_blocks s)) (od_set path ino (name_to_inode_map s)) (<[ino := c]> (symbol_map s)) (used_symbols s ++ [c]) avail (show_symbol_map s))) as Hcr.
  { intros d ->. split; simpl; try done.
    - by apply number_bounds.
    - by apply shape_update, inv_inode.
    - intros q Hq. rewrite (owner_update n ip Hip); [done|by apply inv_inode|done..].
    - unfold len in *. by rewrite length_fmap.
    - by apply od_set_new.
    - by exists c.
    - unfold ino. by rewrite (proj1 (number_split ip Hip g i Hi)). }
  destruct (bool_decide (type = "directory")); wp_pures; apply HQ; by apply Hcr.
Qed.

(** Why a path is refused *)
Definition refused (s : fs) (path : string) (size : Z) : Prop :=
  total_inodes_free s = 0 ∨ total_data_free s < size ∨ od_get (get_parent path).1 (name_to_inode_map s) = None ∨
  ∃ p es ino, od_get (get_parent path).1 (name_to_inode_map s) = Some p ∧ dir_data s !! p = Some es ∧ ((get_parent path).2, ino) ∈ es.

Context (Hcontig : 1 ≤ contig_allocation_policy cfg) (Hfar : allocate_faraway cfg = 1).

(** The blocks, wherever the policy looks for them first *)
Lemma place_blocks_spec fuel g size ino s w (Q : list (Z * Z) → fs → world → Prop) :
  inv s → 0 ≤ g < n → 1 ≤ size ≤ total_data_free s → (n * b + 2) * (n * b + 1) ≤ Z.of_nat fuel →
  (∀ l s' w', taken cfg s ino l s' → len l = size → Q l s' w') →
  wp (if spread_data_blocks cfg then
        dest ← find_min_data_usage cfg;
        print ("target alloc " +:+ str_of_Z dest);;
        allocate_blocks cfg fuel dest size ino
      else allocate_blocks cfg fuel g size ino) Q noexn s w.
Proof.
  intros Hinv Hg Hsize Hfuel HQ. pose proof (inv_data_free Hinv) as Hfree. pose proof (inv_data Hinv) as Hs.
  assert (len (free_entries n b (data_bitmap s)) ≤ n * b) as Hmax.
  { unfold len, free_entries. pose proof (length_filter (λ q, owner (data_bitmap s) b q = None) (range 0 (n * b))). rewrite length_range in *. lia. }
  assert (∀ t w', 0 ≤ t < n → wp (allocate_blocks cfg fuel t size ino) Q noexn s w') as Halloc.
  { intros t w' Ht. eapply wp_conseq; [apply (allocate_blocks_spec cfg Hn Hb Hcontig s t size ino Ht); [lia|done|lia|done|nia]|].
    intros l s' w'' (-> & ? & ?). by apply HQ. }
  destruct (spread_data_blocks cfg); [|by apply Halloc]. rewrite wp_bind. apply find_min_data_usage_spec; [done..|lia|].
  intros t Ht _. rewrite wp_bind, wp_print. by apply Halloc.
Qed.

(** [do_create] on a consistent file system: the path is refused and nothing
    changes, or it is created. *)
Lemma do_create_spec fuel path size type s w :
  inv s → path ≠ "/" → type = "regular" ∨ type = "directory" → 1 ≤ size → available_symbols s ≠ [] →
  (∀ p, od_get (get_parent path).1 (name_to_inode_map s) = Some p → inode_type s !! p = Some "directory") →
  (n * b + 2) * (n * b + 1) ≤ Z.of_nat fuel →
  wp (do_create cfg fuel path size type) (λ rc s' _,
    (rc = -1 ∧ s' = s ∧ refused s path size) ∨
    (rc = 0 ∧ ¬ refused s path size ∧ inv s' ∧ ∃ ino blocks p es, created s path size type ino blocks p es s')) noexn s w.
Proof.
  intros Hinv Hpath Htype Hsize Hav Hdir Hfuel. unfold do_create. destruct (get_parent path) as [parent filename] eqn:Hgp.
  assert (refused s path size → ∀ x w', wp (vprint cfg x;; mret (-1)) (λ rc s' _,
    (rc = -1 ∧ s' = s ∧ refused s path size) ∨
    (rc = 0 ∧ ¬ refused s path size ∧ inv s' ∧ ∃ ino blocks p es, created s path size type ino blocks p es s')) noexn s w') as Hrefuse.
  { intros Hr x w'. unfold vprint. wp_pures. destruct (show_file_ops cfg); wp_pures; by left. }
  unfold refused in Hrefuse at 1. rewrite Hgp in Hrefuse. simpl in Hrefuse, Hdir. wp_pures.
  destruct (Z.eqb_spec (total_inodes_free s) 0) as [Hno|Hinodes]; [apply Hrefuse; auto|].
  destruct (Z.ltb_spec (total_data_free s) size) as [Hno|Hdata]; [apply Hrefuse; auto|].
  unfold name_to_inode. wp_pures. destruct (od_get parent (name_to_inode_map s)) as [p|] eqn:Hp; [|apply Hrefuse; auto]. simpl default.
  pose proof (inv_file Hinv (od_get_elem _ _ _ Hp)) as [Hpr _ Hpt _ _]. rewrite (proj2 (Z.eqb_neq p (-1))) by lia. wp_pures.
  destruct Hpt as [Hreg|[_ [es Hes]]]; [by rewrite Hdir in Hreg|]. rewrite Hes.
  destruct (existsb _ es) eqn:Hex.
  { apply Hrefuse. do 3 right. apply existsb_exists in Hex as ([f ino] & Hin%list_elem_of_In & Hf%bool_decide_eq_true). simpl in Hf. subst f. eauto 10. }
  assert (Forall (λ e : string * Z, e.1 ≠ (get_parent path).2) es) as Hfresh.
  { rewrite Hgp. apply Forall_forall. intros e He Heq. rewrite <-not_true_iff_false in Hex. apply Hex, existsb_exists.
    exists e. split; [by apply list_elem_of_In|by apply bool_decide_eq_true]. }
  pose proof (inv_inodes_free Hinv) as Hif. pose proof (inv_inode Hinv) as Hsi. wp_pures.
  apply (pick_group_spec cfg Hn Hip parent filename type p); [done|unfold len in *; lia|done..|]. intros g Hg Hpos Hplace. wp_pures.
  apply (find_free_inode_spec cfg Hip); [done..|]. intros i Hi Hfree. wp_pures.
  apply place_blocks_spec; [done..|lia|done|]. intros l s1 w1 Htaken Hlen. rewrite (proj2 (Z.eqb_neq (len l) 0)) by lia.
  pose proof (create_finish path size type s s1 w1 l g i p es) as Hfinish. pose proof (name_fresh s path p es) as Hname.
  pose proof Hfresh as Hfresh'. rewrite Hgp in Hfinish, Hfresh', Hname. apply Hfinish; try done; [by apply Hname|].
  intros s' Hcr. right. split_and!; [done| |by eapply inv_created|by eauto].
  unfold refused. rewrite Hgp. intros [?|[?|[?|(p' & es' & ino' & Hp' & Hd & Hin)]]]; [lia|lia|by simplify_eq/=|].
  simplify_eq/=. rewrite Forall_forall in Hfresh'. by apply (Hfresh' _ Hin).
Qed.

(** ** The verifier accepts a consistent file system. *)

Definition used_upto (bm : bitmap) (per k : Z) : Z := len (filter (λ q, owner bm per q ≠ None) (range 0 k)).

Lemma used_upto_snoc bm per k : 0 ≤ k → used_upto bm per (k + 1) = if bool_decide (owner bm per k = None) then used_upto bm per k else used_upto bm per k + 1.
Proof.
  intros Hk. unfold used_upto. rewrite range_snoc, filter_app by done. unfold len. rewrite length_app. simpl.
  unfold filter at 2, list_filter. case_decide; case_bool_decide; simpl; [done|lia|lia|]. by destruct (owner bm per k).
Qed.

Lemma used_free bm per : used_upto bm per (n * per) + len (free_entries n per bm) = Z.max 0 (n * per).
Proof.
  unfold used_upto, free_entries, len. rewrite <-Nat2Z.inj_add. replace (Z.max 0 (n * per)) with (Z.of_nat (length (range 0 (n * per)))) by (rewrite length_range; lia).
  f_equal. induction (range 0 (n * per)) as [|q l IH]; [done|]. rewrite !filter_cons. destruct (owner bm per q); simpl; lia.
Qed.

Lemma used_in_spec bm per g m s w (Q : Z → fs → world → Prop) : 0 < per → shape n per bm → 0 ≤ g < n →
  Q (m + used_upto bm per ((g + 1) * per) - used_upto bm per (g * per)) s w → wp (used_in bm g per m) Q noexn s w.
Proof.
  intros Hper Hs Hg HQ. unfold used_in.
  apply (wp_for_acc (λ pre r s' w', s' = s ∧ w' = w ∧ r = m + used_upto bm per (len pre + g * per) - used_upto bm per (g * per))).
  - split_and!; [done..|]. change (len []) with 0. rewrite Z.add_0_l. lia.
  - intros pre i post r s' w' Hr (-> & -> & ->). apply range_split in Hr as (Hrange & _ & Hi). rewrite wp_bind, (bm_get_eq n per Hper), !wp_ret by done.
    split_and!; [done..|]. assert (len pre = i) as Hlen by (rewrite Hrange; unfold len; rewrite length_range; lia).
    assert (len (pre ++ [i]) + g * per = i + g * per + 1) as -> by (unfold len in *; rewrite length_app; simpl length; lia).
    rewrite used_upto_snoc, Hlen by nia. case_bool_decide; lia.
  - intros r s' w' (-> & -> & ->). unfold len. rewrite length_range. replace (Z.of_nat (Z.to_nat (per - 0)) + g * per) with ((g + 1) * per) by lia. done.
Qed.

Lemma do_verify_spec s w (Q : unit → fs → world → Prop) : inv s → Q tt s w → wp (do_verify cfg) Q noexn s w.
Proof.
  intros Hinv HQ. unfold do_verify. rewrite wp_bind, wp_get, wp_bind. pose proof (inv_data Hinv) as Hd. pose proof (inv_inode Hinv) as Hi.
  apply (wp_for_acc (λ pre (r : Z * Z) s' w', s' = s ∧ w' = w ∧
    r = (used_upto (data_bitmap s) b (len pre * b), used_upto (inode_bitmap s) ip (len pre * ip)))).
  - split_and!; [done..|]. change (len []) with 0. done.
  - intros pre g post r s' w' Hr (-> & -> & ->). apply range_split in Hr as (Hrange & _ & Hg).
    assert (len pre = g) as -> by (rewrite Hrange; unfold len; rewrite length_range; lia).
    assert (len (pre ++ [g]) = g + 1) as -> by (rewrite Hrange; unfold len; rewrite length_app, length_range; simpl length; lia). simpl.
    rewrite wp_bind. apply used_in_spec; [done..|]. rewrite wp_bind. apply used_in_spec; [done..|]. rewrite wp_ret. split_and!; [done..|]. f_equal; lia.
  - intros r s' w' (-> & -> & ->). unfold len. rewrite length_range. replace (Z.of_nat (Z.to_nat (n - 0))) with n by lia. simpl.
    pose proof (used_free (data_bitmap s) b) as Hud. pose proof (used_free (inode_bitmap s) ip) as Hui.
    rewrite (inv_data_free Hinv), (inv_inodes_free Hinv). rewrite wp_bind, wp_passert, Hud, (proj2 (Z.eqb_eq _ _)) by nia.
    rewrite wp_bind, wp_passert, Hui, (proj2 (Z.eqb_eq _ _)) by nia.
    apply (wp_for (λ _ s' w', s' = s ∧ w' = w)); [done| |by intros ? ? [-> ->]].
    intros pre [f ino] post s' w' Hl [-> ->]. assert ((f, ino) ∈ name_to_inode_map s) as Hin by (rewrite Hl; apply elem_of_app; right; left).
    destruct (inv_file Hinv Hin) as [_ _ _ _ (bs & Hbs & _ & Hown)]. simpl. rewrite wp_bind, wp_dict_get, Hbs.
    apply (wp_for (λ _ s' w', s' = s ∧ w' = w)); [done| |by intros ? ? [-> ->]].
    intros pre' q post' s' w' Hl' [-> ->]. destruct (Hown q) as [Hq Ho]; [rewrite Hl'; apply elem_of_app; right; left|].
    destruct (number_join n b Hb q Hq) as (Hg & Hqi & Hj). unfold py_mod. rewrite (proj2 (Z.eqb_neq b 0)) by lia. wp_pures.
    replace (int_div q b) with (q / b) by (unfold int_div; rewrite Z.quot_div_nonneg; lia).
    rewrite (bm_get_eq n b Hb), wp_ret, Hj, Ho, bool_decide_true by done. done.
Qed.
End Consistency.
