(* ===== verification/FfsDelete.v ===== *)
(** * Deleting files in the fast file system

    [do_delete] splits block and inode numbers by the number of groups, where
    the rest of the program splits them by the size of a group: it is correct
    when these agree. *)
From S2P Require Import Prelude PyStr PyFloat PyDict Ffs FfsCreate.
Open Scope Z_scope.

Section Delete.
Context (cfg : config).
Abbreviation n := (num_groups cfg).
Abbreviation ip := (inodes_per_group cfg).
Abbreviation b := (blocks_per_group cfg).
Context (Hn : 0 < n) (Hip : ip = n) (Hb : b = n).
Implicit Types (s : fs) (w : world) (ino q : Z).

Set Implicit Arguments.

(** The inode [ino], named [path] in the directory [p], is gone. *)
Record deleted (s : fs) (path : string) (ino p : Z) (es es' : list (string * Z)) (blocks : list Z) (s' : fs) : Prop := {
  del_parent : od_get (get_parent path).1 (name_to_inode_map s) = Some p;
  del_entries : dir_data s !! p = Some es;
  del_entry : es ≡ₚ ((get_parent path).2, ino) :: es';
  del_blocks : inode_blocks s !! ino = Some blocks;
  del_type : inode_type s !! ino = Some "regular";
  del_dirs : dir_data s' = <[p := es']> (dir_data s);
  del_data_shape : shape n b (data_bitmap s');
  del_data_owner : ∀ q, 0 ≤ q < n * b → owner (data_bitmap s') b q = if decide (q ∈ blocks) then None else owner (data_bitmap s) b q;
  del_inode_shape : shape n ip (inode_bitmap s');
  del_inode_owner : ∀ q, 0 ≤ q < n * ip → owner (inode_bitmap s') ip q = if decide (q = ino) then None else owner (inode_bitmap s) ip q;
  del_data_free : total_data_free s' = total_data_free s + len blocks;
  del_inodes_free : total_inodes_free s' = total_inodes_free s + 1;
  del_name : name_to_inode_map s' = od_del path (name_to_inode_map s);
  del_types : inode_type s' = <[ino := ""]> (inode_type s);
  del_inode_blocks : inode_blocks s' = <[ino := []]> (inode_blocks s);
  del_symbols : symbol_map s' = delete ino (symbol_map s);
  del_used : ∃ c, symbol_map s !! ino = Some c ∧ used_symbols s ≡ₚ c :: used_symbols s';
  del_available : length (available_symbols s') = S (length (available_symbols s));
}.
Unset Implicit Arguments.

Section Deleted.
Context (s : fs) (path : string) (ino p : Z) (es es' : list (string * Z)) (blocks : list Z) (s' : fs).
Context (Hinv : inv cfg s) (Hdel : deleted s path ino p es es' blocks s') (Hpath : path ≠ "/") (Hget : od_get path (name_to_inode_map s) = Some ino).

(** The inodes that are left *)
Lemma del_map : name_to_inode_map s ≡ₚ (path, ino) :: name_to_inode_map s'.
Proof. rewrite (del_name Hdel). apply od_del_perm; [apply (inv_names Hinv)|by apply od_get_elem]. Qed.

Lemma del_inodes : inodes s ≡ₚ ino :: inodes s'.
Proof. unfold inodes. pose proof del_map as Hp. apply (fmap_Permutation snd) in Hp. exact Hp. Qed.

Lemma del_rest i : i ∈ inodes s' → i ≠ ino ∧ i ∈ inodes s.
Proof.
  intros Hi. pose proof (inv_inodes Hinv) as Hnd. pose proof del_inodes as Hp. rewrite Hp in Hnd |- *. apply NoDup_cons in Hnd as [Hnot _].
  split; [by intros ->|by right].
Qed.

Lemma del_names f i : (f, i) ∈ name_to_inode_map s' → (f, i) ∈ name_to_inode_map s ∧ f ≠ path ∧ i ≠ ino.
Proof.
  intros Hin. assert (i ∈ inodes s') as [Hi _]%del_rest by (apply list_elem_of_fmap; by exists (f, i)).
  rewrite (del_name Hdel) in Hin. apply elem_of_od_del in Hin as [? ?]. done.
Qed.

Lemma del_names_rev f i : (f, i) ∈ name_to_inode_map s → i ≠ ino → (f, i) ∈ name_to_inode_map s'.
Proof. intros Hin Hi. pose proof del_map as Hp. rewrite Hp in Hin. apply elem_of_cons in Hin as [[= -> ->]|]; done. Qed.

Lemma del_inodes_rev i : i ∈ inodes s → i ≠ ino → i ∈ inodes s'.
Proof. intros Hin Hi. pose proof del_inodes as Hp. rewrite Hp in Hin. by apply elem_of_cons in Hin as [|]. Qed.

(** A directory is still found under its path. *)
Lemma del_dir_path f d es'' : dir_data s !! d = Some es'' → od_get f (name_to_inode_map s) = Some d → od_get f (name_to_inode_map s') = Some d.
Proof.
  intros Hd Hf. rewrite (del_name Hdel), od_get_del. rewrite decide_False; [done|]. intros ->. rewrite Hget in Hf. simplify_eq.
  destruct (inv_dirs Hinv _ Hd) as (_ & Ht & _). pose proof (del_type Hdel). congruence.
Qed.

Lemma del_file_ok f i : (f, i) ∈ name_to_inode_map s' → file_ok cfg s' i.
Proof.
  intros (Hin & Hf & Hi)%del_names. destruct (inv_file Hinv Hin) as [Hr Ho Ht Hs (bs & Hbs & Hnd & Hown)]. split; [done| | | |].
  - rewrite (del_inode_owner Hdel) by done. by rewrite decide_False.
  - rewrite (del_types Hdel), lookup_insert_ne by done. destruct Ht as [?|[? [es'' Hes]]]; [by left|right]. split; [done|]. rewrite (del_dirs Hdel).
    destruct (decide (i = p)) as [->|]; [rewrite lookup_insert, decide_True by done|rewrite lookup_insert_ne, Hes by done]; eauto.
  - rewrite (del_symbols Hdel). by rewrite lookup_delete_ne.
  - exists bs. rewrite (del_inode_blocks Hdel), lookup_insert_ne by done. split_and!; [done..|]. intros q Hq. destruct (Hown q Hq) as [Hqr Hqo]. split; [done|].
    rewrite (del_data_owner Hdel) by done. rewrite decide_False; [done|]. intros Hqb.
    destruct (file_blocks (inv_file Hinv (od_get_elem _ _ _ Hget))) as (bs' & Hbs' & _ & Hown'). rewrite (del_blocks Hdel) in Hbs'. simplify_eq.
    destruct (Hown' q Hqb). congruence.
Qed.

Lemma del_dirs_ok d es'' : dir_data s' !! d = Some es'' → d ∈ inodes s' ∧ inode_type s' !! d = Some "directory" ∧ NoDup es''.*1 ∧ ∀ e, e ∈ es'' →
  e.2 = 0 ∨ ∃ f, (f, e.2) ∈ name_to_inode_map s' ∧ (get_parent f).2 = e.1 ∧ od_get (get_parent f).1 (name_to_inode_map s') = Some d.
Proof.
  rewrite (del_dirs Hdel), (del_types Hdel). intros Hd.
  assert (∃ es0, dir_data s !! d = Some es0 ∧ (es0 ≡ₚ es'' ∧ d ≠ p ∨ d = p ∧ es0 ≡ₚ ((get_parent path).2, ino) :: es'')) as (es0 & Hes0 & Hperm).
  { destruct (decide (d = p)) as [->|]; simplify_map_eq; eexists; (split; [first [done|apply (del_entries Hdel)]|]); [right; split; [done|apply (del_entry Hdel)]|by left]. }
  destruct (inv_dirs Hinv _ Hes0) as (Hdi & Ht & Hnd & Hall).
  assert (d ≠ ino) as Hne by (intros ->; pose proof (del_type Hdel); congruence).
  split_and!; [by apply del_inodes_rev|by rewrite lookup_insert_ne| |].
  - destruct Hperm as [[Hp _]|[_ Hp]]; apply (fmap_Permutation fst) in Hp; rewrite Hp in Hnd; [done|]. simpl in Hnd. by apply NoDup_cons in Hnd as [_ ?].
  - intros e He. assert (e ∈ es0) as Hin by (destruct Hperm as [[-> _]|[_ ->]]; [done|by right]).
    destruct (Hall e Hin) as [?|(f & Hf & Hfn & Hfp)]; [by left|right]. exists f. split_and!; [|done|by eapply del_dir_path].
    apply del_names_rev; [done|]. intros Hei. pose proof (od_get_NoDup _ _ _ (inv_names Hinv) Hf) as Hgf. rewrite Hei in Hgf, Hf.
    assert (f = path) as ->. { pose proof del_map as Hp. pose proof (inv_inodes Hinv) as Hnd'. unfold inodes in Hnd'. apply (fmap_Permutation snd) in Hp as Hp2.
      rewrite Hp2 in Hnd'. simpl in Hnd'. apply NoDup_cons in Hnd' as [Hnot _]. rewrite Hp in Hf. apply elem_of_cons in Hf as [[= ->]|Hf]; [done|].
      destruct Hnot. apply list_elem_of_fmap. by exists (f, ino). }
    rewrite (del_parent Hdel) in Hfp. simplify_eq. destruct Hperm as [[_ ?]|[_ Hp]]; [done|]. apply (fmap_Permutation fst) in Hp. rewrite Hp in Hnd. simpl in Hnd.
    apply NoDup_cons in Hnd as [Hnot _]. apply Hnot. rewrite Hfn. apply list_elem_of_fmap. by exists e.
Qed.
Lemma del_used_ok : used_symbols s' ≡ₚ omap (symbol_map s' !!.) (inodes s').
Proof.
  destruct (del_used Hdel) as (c & Hc & Hused). pose proof (inv_used Hinv) as Hold. rewrite Hused in Hold. pose proof del_inodes as Hp.
  apply (omap_Permutation (symbol_map s !!.)) in Hp. rewrite Hp in Hold. simpl in Hold. rewrite Hc in Hold. apply Permutation_cons_inv in Hold.
  rewrite Hold, (del_symbols Hdel). apply Permutation_refl', list_omap_ext, Forall_Forall2_diag, Forall_forall.
  intros i [Hi _]%del_rest. by rewrite lookup_delete_ne.
Qed.

Lemma del_frees : total_data_free s' = len (free_entries n b (data_bitmap s')) ∧ total_inodes_free s' = len (free_entries n ip (inode_bitmap s')).
Proof.
  pose proof (inv_file Hinv (od_get_elem _ _ _ Hget)) as [Hr Hino _ _ (bs & Hbs & Hnd & Hown)]. rewrite (del_blocks Hdel) in Hbs. simplify_eq.
  rewrite (del_data_free Hdel), (del_inodes_free Hdel), (inv_data_free Hinv), (inv_inodes_free Hinv). split.
  - rewrite (free_taken n b (data_bitmap s') (data_bitmap s) bs (λ _, Some ino)); [lia|done| |done|].
    + intros q Hq. destruct (Hown q Hq). apply elem_of_free. split; [done|]. rewrite (del_data_owner Hdel) by done. by rewrite decide_True.
    + intros q Hq. rewrite (del_data_owner Hdel) by done. case_decide as Hqb; [|done]. by destruct (Hown q Hqb).
  - rewrite (free_taken n ip (inode_bitmap s') (inode_bitmap s) [ino] (λ _, Some ino)); [unfold len; simpl; lia|apply NoDup_singleton| |done|].
    + intros q ->%list_elem_of_singleton. apply elem_of_free. split; [done|]. rewrite (del_inode_owner Hdel) by done. by rewrite decide_True.
    + intros q Hq. rewrite (del_inode_owner Hdel) by done. destruct (decide (q = ino)) as [->|]; [by rewrite decide_True by by left|].
      by rewrite decide_False by by rewrite list_elem_of_singleton.
Qed.

Lemma inv_deleted : inv cfg s'.
Proof.
  pose proof del_map as Hmap. destruct del_frees as [Hfd Hfi]. split.
  - apply (del_data_shape Hdel).
  - apply (del_inode_shape Hdel).
  - done.
  - done.
  - pose proof (inv_names Hinv) as Hnd. apply (fmap_Permutation fst) in Hmap. rewrite Hmap in Hnd. by apply NoDup_cons in Hnd as [_ ?].
  - pose proof (inv_inodes Hinv) as Hnd. rewrite del_inodes in Hnd. by apply NoDup_cons in Hnd as [_ ?].
  - apply del_file_ok.
  - intros q i Hq. rewrite (del_data_owner Hdel) by done. case_decide as Hqb; [done|]. intros [Hi (bs & Hbs & Hin)]%(inv_data_owner Hinv); [|done].
    assert (i ≠ ino) by (intros ->; rewrite (del_blocks Hdel) in Hbs; by simplify_eq). split; [by apply del_inodes_rev|]. exists bs.
    by rewrite (del_inode_blocks Hdel), lookup_insert_ne.
  - intros q i Hq. rewrite (del_inode_owner Hdel) by done. case_decide; [done|]. intros [-> Hi]%(inv_inode_owner Hinv); [|done]. split; [done|by apply del_inodes_rev].
  - intros f i (Hin & Hf & Hi)%del_names Hroot. destruct (inv_tree Hinv Hin Hroot) as (d & es0 & Hd & Hes0 & He). pose proof (del_dir_path _ _ _ Hes0 Hd) as Hd'.
    rewrite (del_dirs Hdel). destruct (decide (d = p)) as [->|]; [|exists d, es0; by rewrite lookup_insert_ne].
    exists p, es'. rewrite lookup_insert, decide_True by done. split_and!; [done..|]. rewrite (del_entries Hdel) in Hes0. simplify_eq.
    rewrite (del_entry Hdel) in He. apply elem_of_cons in He as [[= _ ?]|]; done.
  - apply del_names_rev; [apply (inv_root Hinv)|]. intros He. pose proof (inv_root_type Hinv) as Ht. rewrite He, (del_type Hdel) in Ht. done.
  - rewrite (del_types Hdel), lookup_insert_ne; [apply (inv_root_type Hinv)|]. intros He. pose proof (inv_root_type Hinv) as Ht. rewrite <-He, (del_type Hdel) in Ht. done.
  - apply del_dirs_ok.
  - apply del_used_ok.
  - rewrite (del_available Hdel). pose proof (inv_symbols Hinv) as Hs. apply Permutation_length in Hmap. rewrite Hmap in Hs. simpl in Hs. lia.
Qed.
End Deleted.

(** The loop that frees the blocks *)
Lemma free_blocks_spec blocks s w (Q : unit → fs → world → Prop) : shape n b (data_bitmap s) → (∀ q, q ∈ blocks → 0 ≤ q < n * b) →
  (∀ D, shape n b D → (∀ q, 0 ≤ q < n * b → owner D b q = if decide (q ∈ blocks) then None else owner (data_bitmap s) b q) → Q tt (s <| data_bitmap := D |>) w) →
  wp (for_ blocks (λ q,
        data_index ← py_mod q n;
        s ← get;
        bm ← bm_set (data_bitmap s) (int_div q n) data_index None;
        data_bitmap <~ bm)) Q noexn s w.
Proof.
  intros Hs Hq HQ. apply (wp_for (λ pre s' w', w' = w ∧ ∃ D, s' = s <| data_bitmap := D |> ∧ shape n b D ∧
    ∀ q, 0 ≤ q < n * b → owner D b q = if decide (q ∈ pre) then None else owner (data_bitmap s) b q)).
  - split; [done|]. exists (data_bitmap s). split_and!; [by destruct s|done|]. intros q _. by rewrite decide_False by apply not_elem_of_nil.
  - intros pre q post s' w' Hl (-> & D & -> & HD & Hown). assert (0 ≤ q < n * b) as Hqr by (apply Hq; rewrite Hl; apply elem_of_app; right; left).
    assert (0 < b) as Hbpos by lia. destruct (number_join n b Hbpos q Hqr) as (Hg & Hi & Hj). unfold py_mod. rewrite (proj2 (Z.eqb_neq n 0)) by lia. wp_pures.
    change (data_bitmap (s <| data_bitmap := D |>)) with D.
    replace (int_div q n) with (q / b) by (unfold int_div; rewrite Hb, Z.quot_div_nonneg; lia). replace (q mod n) with (q mod b) by (by rewrite Hb).
    rewrite (bm_set_eq n b Hbpos) by done. wp_pures. split; [done|]. exists (bm_update (q / b) (q mod b) None D).
    split_and!; [done|by apply shape_update|]. intros q' Hq'. rewrite (owner_update n b Hbpos) by done. rewrite Hj, Hown by done.
    destruct (decide (q' = q)) as [->|Hne]; [rewrite decide_True; [done|]; apply elem_of_app; right; by left|].
    destruct (decide (q' ∈ pre)); [rewrite decide_True; [done|]; apply elem_of_app; by left|]. rewrite decide_False; [done|].
    rewrite elem_of_app, list_elem_of_singleton. naive_solver.
  - intros s' w' (-> & D & -> & HD & Hown). by apply HQ.
Qed.

Lemma free_symbol_spec ino c s w (Q : unit → fs → world → Prop) : symbol_map s !! ino = Some c → c ∈ used_symbols s →
  (∀ used, used_symbols s ≡ₚ c :: used →
     Q tt (s <| symbol_map ::= delete ino |> <| used_symbols := used |> <| available_symbols ::= (.++ [c]) |>) w) →
  wp (free_symbol ino) Q noexn s w.
Proof.
  intros Hc Hin HQ. destruct (remove1_perm c (used_symbols s) Hin) as (used & Hrem & Hp). unfold free_symbol. wp_pures. rewrite Hc. wp_pures.
  unfold py_remove. rewrite Hrem. wp_pures. by apply HQ.
Qed.

(** [do_delete] of a path that is there: a directory is refused, and a file
    is removed with its inode and all its blocks. *)
Lemma do_delete_spec path ino s w : inv cfg s → path ≠ "/" → od_get path (name_to_inode_map s) = Some ino →
  wp (do_delete cfg path) (λ rc s' _,
    (rc = -1 ∧ s' = s ∧ inode_type s !! ino = Some "directory") ∨
    (rc = 0 ∧ inode_type s !! ino = Some "regular" ∧ inv cfg s' ∧ ∃ p es es' blocks, deleted s path ino p es es' blocks s')) noexn s w.
Proof.
  intros Hinv Hpath Hget. pose proof (od_get_elem _ _ _ Hget) as Hin. destruct (inv_tree Hinv Hin Hpath) as (p & es & Hp & Hes & He).
  unfold do_delete. destruct (get_parent path) as [parent filename] eqn:Hgp. simpl in Hp, He.
  pose proof (inv_file Hinv (od_get_elem _ _ _ Hp)) as [Hpr _ _ _ _]. destruct (inv_dirs Hinv _ Hes) as (_ & _ & Hnd & _).
  unfold name_to_inode. wp_pures. rewrite Hp. simpl default. rewrite (proj2 (Z.eqb_neq p (-1))) by lia. wp_pures. rewrite Hes.
  assert (∃ k, list_find (λ e : string * Z, e.1 = filename) es = Some (k, (filename, ino))) as [k Hfind].
  { apply list_elem_of_lookup_1 in He as [k Hk]. exists k. apply list_find_Some. split_and!; [done|done|]. intros j [x i] Hj Hlt Hx. simpl in Hx. subst x.
    assert (j = k); [|lia]. apply (NoDup_lookup _ _ _ filename Hnd); rewrite list_lookup_fmap; by rewrite ?Hj, ?Hk. }
  rewrite Hfind. wp_pures. pose proof (inv_file Hinv Hin) as [Hr Hino Ht [c Hc] (bs & Hbs & Hndb & Hown)].
  destruct Ht as [Ht|[Ht _]]; rewrite Ht.
  2: { rewrite bool_decide_true by done. unfold vprint. destruct (show_file_ops cfg); wp_pures; by left. }
  rewrite bool_decide_false by done. destruct (remove1_perm (filename, ino) es He) as (es' & Hrem & Hperm).
  unfold py_remove at 1. rewrite Hrem. wp_pures. simpl inode_blocks. rewrite Hbs.
  rewrite wp_bind. apply free_blocks_spec; [by apply (inv_data Hinv)|by apply Hown|]. intros D HD HDo. unfold py_mod. rewrite (proj2 (Z.eqb_neq n 0)) by lia. wp_pures.
  set (s1 := s <| dir_data ::= _ |> <| data_bitmap := D |>). change (inode_bitmap s1) with (inode_bitmap s). assert (0 < ip) as Hippos by lia.
  destruct (number_join n ip Hippos ino Hr) as (Hg & Hi & Hj). replace (ino mod n) with (ino mod ip) by by rewrite Hip.
  replace (int_div ino n) with (ino / ip) by (unfold int_div; rewrite Hip, Z.quot_div_nonneg; lia).
  rewrite (bm_set_eq n ip Hippos) by (done || apply (inv_inode Hinv)). wp_pures. apply (free_symbol_spec ino c); [done| |].
  { simpl. rewrite (inv_used Hinv). apply list_elem_of_omap. exists ino. split; [|done]. apply list_elem_of_fmap. by exists (path, ino). }
  intros used Hused. wp_pures. simpl name_to_inode_map. rewrite Hget. right. split; [done|]. split; [done|].
  set (s2 := _ <| inode_blocks ::= <[ino := []]> |>).
  assert (deleted s path ino p es es' bs s2) as Hdel; [|split; [by eapply inv_deleted|by eauto 10]].
  split; rewrite ?Hgp; try done; [by apply shape_update, (inv_inode Hinv)| |by exists c|simpl; rewrite length_app; simpl; lia].
  intros q Hq. simpl. rewrite (owner_update n ip Hippos); [by rewrite Hj|apply (inv_inode Hinv)|done..].
Qed.
End Delete.
