(* ===== verification/FfsRuns.v ===== *)
(** * Whole runs of the fast file system

    The initial file system, the allocation map and the spans, and the program
    on workloads that only create. *)
From Stdlib Require Import Floats.SpecFloat.
From S2P Require Import Prelude PyStr PyFloat PyDict Ffs FfsCreate.
Open Scope Z_scope.

Section Runs.
Context (cfg : config).
Abbreviation n := (num_groups cfg).
Abbreviation ip := (inodes_per_group cfg).
Abbreviation b := (blocks_per_group cfg).
Context (Hn : 0 < n) (Hip : 0 < ip) (Hb : 0 < b).
Implicit Types (s : fs) (w : world) (ino q : Z).

(** ** The constructor *)

Lemma blank_shape per : 0 < per → shape n per (replicate (Z.to_nat n) (replicate (Z.to_nat per) None)).
Proof.
  intros Hper. split; [unfold len; rewrite length_replicate; lia|]. intros row ->%elem_of_replicate_inv. unfold len. rewrite length_replicate. lia.
Qed.

Lemma blank_owner per q : owner (replicate (Z.to_nat n) (replicate (Z.to_nat per) None)) per q = None.
Proof.
  unfold owner. destruct (_ !! Z.to_nat (q / per)) as [row|] eqn:Hr; [|done]. apply lookup_replicate in Hr as [-> _]. simpl.
  destruct (_ !! Z.to_nat (q mod per)) as [v|] eqn:Hv; [|done]. by apply lookup_replicate in Hv as [-> _].
Qed.

Lemma blank_free per : 0 < per → len (free_entries n per (replicate (Z.to_nat n) (replicate (Z.to_nat per) None))) = n * per.
Proof.
  intros Hper. unfold free_entries. assert (∀ l, length (filter (λ q, owner (replicate (Z.to_nat n) (replicate (Z.to_nat per) None)) per q = None) l) = length l) as Hall.
  { induction l as [|q l IH]; [done|]. rewrite filter_cons, blank_owner. simpl. by rewrite IH. }
  unfold len. rewrite Hall, length_range. nia.
Qed.

(** A bitmap with its first entry taken by the root directory *)
Definition root_bitmap (per : Z) : bitmap := bm_update 0 0 (Some 0) (replicate (Z.to_nat n) (replicate (Z.to_nat per) None)).

Lemma root_bitmap_spec per : 0 < per → shape n per (root_bitmap per) ∧ len (free_entries n per (root_bitmap per)) = n * per - 1 ∧
  ∀ q, 0 ≤ q < n * per → owner (root_bitmap per) per q = if decide (q = 0) then Some 0 else None.
Proof.
  intros Hper. pose proof (blank_shape per Hper) as Hs. assert (∀ q, 0 ≤ q < n * per → owner (root_bitmap per) per q = if decide (q = 0) then Some 0 else None) as Hown.
  { intros q Hq. unfold root_bitmap. rewrite (owner_update n per Hper) by (done || lia). by rewrite blank_owner. }
  split_and!; [by apply shape_update| |done].
  pose proof (free_taken n per (replicate (Z.to_nat n) (replicate (Z.to_nat per) None)) (root_bitmap per) [0] (λ _, Some 0)) as Hfree.
  rewrite (blank_free per Hper) in Hfree. rewrite Hfree; [unfold len; simpl length; lia|apply NoDup_singleton| |done|].
  - intros q ->%list_elem_of_singleton. apply elem_of_free. split; [nia|apply blank_owner].
  - intros q Hq. rewrite Hown, blank_owner by done. destruct (decide (q = 0)) as [->|]; [by rewrite decide_True by by left|].
    by rewrite decide_False by by rewrite list_elem_of_singleton.
Qed.

Definition root_fs (show : bool) (c : string) (avail : list string) : fs :=
  Fs (root_bitmap b) (root_bitmap ip) (b * n - 1) (ip * n - 1) (<[0 := [(".", 0); ("..", 0)]]> ∅) (<[0 := "directory"]> ∅) (<[0 := [0]]> ∅)
     [("/", 0)] (<[0 := c]> ∅) [c] avail show.

Lemma root_inv show c avail : length avail = 78%nat → inv cfg (root_fs show c avail).
Proof.
  intros Hav. destruct (root_bitmap_spec b Hb) as (Hsd & Hfd & Hod). destruct (root_bitmap_spec ip Hip) as (Hsi & Hfi & Hoi).
  split; simpl; [done|done|lia|lia|apply NoDup_singleton|apply NoDup_singleton| | | | |by left|done| | |by rewrite Hav].
  - intros f ino [= -> ->]%list_elem_of_singleton. split; simpl; [nia|by rewrite Hoi by nia|right; simplify_map_eq; eauto|simplify_map_eq; eauto|].
    exists [0]. simplify_map_eq. split_and!; [done|apply NoDup_singleton|]. intros q ->%list_elem_of_singleton. split; [nia|]. by rewrite Hod by nia.
  - intros q ino Hq. rewrite Hod by done. case_decide as Hq0; [intros [= <-]|done]. split; [by left|]. exists [0]. simplify_map_eq. split; [done|]. by left.
  - intros q ino Hq. rewrite Hoi by done. case_decide; [intros [= <-]; split; [done|by left]|done].
  - intros f ino [= -> ->]%list_elem_of_singleton. done.
  - intros d es. destruct (decide (d = 0)) as [->|]; intros Hl; simplify_map_eq. split_and!; [by left|done|repeat constructor; set_solver|].
    intros e [->|[->|[]%elem_of_nil]%elem_of_cons]%elem_of_cons; by left.
  - unfold inodes. simpl. by rewrite lookup_insert, decide_True.
Qed.

Lemma fs_init_spec show w (Q : unit → fs → world → Prop) :
  (∀ c avail, length avail = 78%nat → Q tt (root_fs show c avail) w) → wp fs_init Q noexn (fs_blank cfg show) w.
Proof.
  intros HQ. unfold fs_init, fs_blank. pose proof (blank_shape b Hb) as Hd. pose proof (blank_shape ip Hip) as Hi. wp_pures.
  cbn [inode_bitmap]. rewrite (bm_set_eq n ip Hip) by (done || lia). wp_pures. cbn [data_bitmap update].
  rewrite (bm_set_eq n b Hb) by (done || lia). wp_pures. apply allocate_symbol_spec; [done|]. intros c avail Hav. wp_pures.
  simpl in Hav. by apply (HQ c avail); injection Hav.
Qed.

(** ** Printing

    Showing the symbol map is remembered; nothing else changes. *)
Lemma inv_show s x : inv cfg s → inv cfg (s <| show_symbol_map := x |>).
Proof. intros [? ? ? ? ? ? Hfile ? ? ? ? ? ? ? ?]. split; simpl; try done. intros f ino Hin. by destruct (Hfile f ino Hin). Qed.

Lemma inode_known s ino : inv cfg s → ino ∈ inodes s → file_ok cfg s ino.
Proof. intros Hinv ([f i] & -> & Hin)%list_elem_of_fmap. by apply (inv_file Hinv Hin). Qed.

Lemma list_to_string_spec s w row (Q : string → fs → world → Prop) : inv cfg s → (∀ ino, Some ino ∈ row → ino ∈ inodes s) →
  (∀ x, Q x s w) → wp (list_to_string row) Q noexn s w.
Proof.
  intros Hinv Hrow HQ. unfold list_to_string. apply (wp_for_acc (λ _ _ s' w', s' = s ∧ w' = w)); [done| |by intros ? ? ? [-> ->]].
  intros pre i post out s' w' Hr [-> ->]. apply range_split in Hr as (_ & _ & Hi). cbv zeta.
  destruct (lookup_lt_is_Some_2 row (Z.to_nat i)) as [v Hv]; [unfold len in *; lia|]. rewrite wp_bind, (list_get_Z _ _ _ (proj1 Hi) Hv), wp_ret.
  destruct v as [ino|]; [|done]. destruct (file_symbol (inode_known s ino Hinv (Hrow _ (list_elem_of_lookup_2 _ _ _ Hv)))) as [x Hx].
  unfold get_symbol. wp_pures. rewrite Hx. wp_pures. done.
Qed.

Lemma row_known s per bm g row : 0 < per → shape n per bm → (∀ q ino, 0 ≤ q < n * per → owner bm per q = Some ino → ino ∈ inodes s) →
  0 ≤ g < n → bm !! Z.to_nat g = Some row → ∀ ino, Some ino ∈ row → ino ∈ inodes s.
Proof.
  intros Hper Hs Hown Hg Hr ino [k Hk]%list_elem_of_lookup_1. destruct (shape_row n per Hper bm g Hs Hg) as (row' & Hr' & Hlen & Hrow). simplify_eq.
  pose proof (lookup_lt_Some _ _ _ Hk). assert (0 ≤ Z.of_nat k < len row) as Hi by (unfold len; lia).
  pose proof (Hrow _ Hi) as He. rewrite Nat2Z.id, Hk in He. simplify_eq. apply (Hown (Z.of_nat k + g * len row)); [|done]. by apply number_bounds.
Qed.

Lemma do_numeric_header_spec p k s w (Q : unit → fs → world → Prop) : (∀ w', Q tt s w') → wp (do_numeric_header p k) Q noexn s w.
Proof.
  intros HQ. unfold do_numeric_header. cbv zeta. rewrite wp_bind.
  apply (wp_for_acc (λ _ _ s' _, s' = s)); [done|intros; by subst; rewrite wp_ret|]. intros r s' w' ->. rewrite wp_put_str. apply HQ.
Qed.

Lemma dump_header_spec s w (Q : unit → fs → world → Prop) : (∀ w', Q tt s w') → wp (dump_header cfg) Q noexn s w.
Proof.
  intros HQ. unfold dump_header. cbv zeta. rewrite wp_bind.
  apply (wp_for (λ _ s' _, s' = s)); [done| |intros s' w' ->; wp_pures; apply HQ].
  intros pre p post s' w' _ ->. wp_pures.
  assert (∀ (c : bool) q k x w0 (R : unit → fs → world → Prop), (∀ w1, R tt s w1) → wp (if c then do_numeric_header q k else put_str x) R noexn s w0) as Hpart.
  { intros c q k x w0 R HR. destruct c; [by apply do_numeric_header_spec|rewrite wp_put_str; apply HR]. }
  apply Hpart. intros w1. wp_pures. apply Hpart. intros w2. wp_pures. done.
Qed.

Lemma dump_groups_spec s w (Q : unit → fs → world → Prop) : inv cfg s → (∀ w', Q tt s w') → wp (dump_groups cfg) Q noexn s w.
Proof.
  intros Hinv HQ. unfold dump_groups. rewrite wp_bind. apply (wp_for_acc (λ _ _ s' _, s' = s)); [done| |intros ? s' w' ->; wp_pures; apply HQ].
  intros pre g post k s' w' Hr ->. apply range_split in Hr as (_ & _ & Hg). rewrite wp_bind. destruct (compute cfg); [|by wp_pures].
  destruct (shape_row n ip Hip _ g (inv_inode Hinv) Hg) as (irow & Hi & _). destruct (shape_row n b Hb _ g (inv_data Hinv) Hg) as (drow & Hd & _).
  rewrite wp_bind, wp_get, wp_bind, (list_get_Z _ _ _ (proj1 Hg) Hi), wp_ret, wp_bind.
  apply list_to_string_spec; [done|eapply (row_known s ip _ g); [done|by apply (inv_inode Hinv)|intros q i Hq Ho; by apply (inv_inode_owner Hinv Hq Ho)|done|done]|]. intros x.
  rewrite wp_bind, (list_get_Z _ _ _ (proj1 Hg) Hd), wp_ret, wp_bind.
  apply list_to_string_spec; [done|eapply (row_known s b _ g); [done|by apply (inv_data Hinv)|intros q i Hq Ho; by apply (inv_data_owner Hinv Hq Ho)|done|done]|]. intros y.
  wp_pures. by destruct (show_block_addresses cfg); wp_pures.
Qed.

(** A name in the map and what is known of its inode *)
Lemma known_name s f : inv cfg s → f ∈ (name_to_inode_map s).*1 → ∃ ino, od_get f (name_to_inode_map s) = Some ino ∧ ino ∈ inodes s ∧ file_ok cfg s ino.
Proof.
  intros Hinv ([f' ino] & -> & Hin)%list_elem_of_fmap. exists ino. split_and!; [by apply od_get_NoDup, Hin; apply (inv_names Hinv)| |by apply (inv_file Hinv Hin)].
  apply list_elem_of_fmap. by exists (f', ino).
Qed.

Lemma dump_symbols_spec s w (Q : unit → fs → world → Prop) : inv cfg s → (∀ w', Q tt s w') → wp (dump_symbols cfg) Q noexn s w.
Proof.
  intros Hinv HQ. unfold dump_symbols. wp_pures.
  assert (∀ w', wp (for_ (stable_sort String.leb (name_to_inode_map s).*1) (λ name,
    inode_number ← od_lookup (name_to_inode_map s) name;
    file_type ← dict_get (inode_type s) inode_number;
    symbol ← get_symbol inode_number;
    put_str (ljust 6 symbol +:+ "  " +:+ fmt_d 6 inode_number +:+ "  " +:+ ljust 11 name +:+ "  " +:+ ljust 10 file_type +:+ " ");;
    (if do_per_file_stats cfg then
       blocks ← dict_get (inode_blocks s) inode_number;
       for_ blocks (λ b, put_str (str_of_Z b +:+ " "));;
       print ""
     else print ""));; print "") Q noexn s w') as Hrows.
  { intros w'. rewrite wp_bind. apply (wp_for (λ _ s' _, s' = s)); [done| |intros s' w1 ->; rewrite wp_print; apply HQ].
    intros pre f post s' w1 Hl ->. destruct (known_name s f Hinv) as (ino & Hget & _ & [_ _ Ht [x Hx] (bs & Hbs & _)]).
    { rewrite <-(stable_sort_perm String.leb), Hl. apply elem_of_app. right. left. }
    wp_pures. rewrite Hget. wp_pures. assert (∃ t, inode_type s !! ino = Some t) as [t ->] by (destruct Ht as [?|[? _]]; eauto). unfold get_symbol. wp_pures.
    rewrite Hx. wp_pures. destruct (do_per_file_stats cfg); wp_pures; [|done]. rewrite Hbs, wp_bind.
    apply (wp_for (λ _ s' _, s' = s)); [done|intros; by subst; rewrite wp_put_str|]. intros s' w2 ->. by rewrite wp_print. }
  destruct (do_per_file_stats cfg); wp_pures; match goal with |- wp _ _ _ _ ?w' => specialize (Hrows w') end; by rewrite wp_bind in Hrows.
Qed.

(** The map is printed, whatever the options. *)
Lemma dump_spec s w (Q : unit → fs → world → Prop) : inv cfg s →
  (∀ x w', Q tt (s <| show_symbol_map := x |>) w') → wp (dump cfg) Q noexn s w.
Proof.
  intros Hinv HQ. unfold dump. wp_pures. apply dump_header_spec. intros w1. wp_pures. apply dump_groups_spec; [done|]. intros w2. wp_pures.
  assert (∀ x w', wp (s ← get; if show_symbol_map s then dump_symbols cfg else print "") Q noexn (s <| show_symbol_map := x |>) w') as Hend.
  { intros x w'. wp_pures. destruct (show_symbol_map _); [apply dump_symbols_spec; [by apply inv_show|apply HQ]|wp_pures; apply HQ]. }
  destruct (do_per_file_stats cfg); wp_pures; [apply (Hend true)|].
  replace s with (s <| show_symbol_map := show_symbol_map s |>) by by destruct s. apply Hend.
Qed.

(** ** Spans *)

(** The counts of files and directories the averages divide by are not zero. *)
Lemma span_average_spec what sum cnt s w (Q : unit → fs → world → Prop) : 1 ≤ cnt ≤ 79 → (∀ w', Q tt s w') → wp (span_average cfg what sum cnt) Q noexn s w.
Proof. intros Hc HQ. unfold span_average, f_div. rewrite f_of_Z_nonzero by lia. wp_pures. apply HQ. Qed.

Lemma get_spans_spec f ino s w (Q : Z * (Z * Z * Z) → fs → world → Prop) : od_get f (name_to_inode_map s) = Some ino → file_ok cfg s ino →
  (∀ x, Q (ino, x) s w) → wp (get_spans cfg f) Q noexn s w.
Proof.
  intros Hget [_ _ _ _ (bs & Hbs & _)] HQ. unfold get_spans, name_to_inode, py_mod. rewrite (proj2 (Z.eqb_neq ip 0)) by lia. wp_pures.
  rewrite Hget. simpl default. rewrite Hbs. wp_pures. apply (wp_for_acc (λ _ _ s' w', s' = s ∧ w' = w)); [done| |].
  - intros pre q post r s' w' _ [-> ->]. rewrite (proj2 (Z.eqb_neq b 0)) by lia. by wp_pures.
  - intros r s' w' [-> ->]. wp_pures. apply HQ.
Qed.

Lemma inode_name_inj s f f' ino : inv cfg s → od_get f (name_to_inode_map s) = Some ino → od_get f' (name_to_inode_map s) = Some ino → f = f'.
Proof.
  intros Hinv [i Hi]%od_get_elem%list_elem_of_lookup_1 [j Hj]%od_get_elem%list_elem_of_lookup_1. pose proof (inv_inodes Hinv) as Hnd. unfold inodes in Hnd.
  assert (i = j) as ->; [|by simplify_eq]. apply (NoDup_lookup _ _ _ ino Hnd); rewrite list_lookup_fmap; by rewrite ?Hi, ?Hj.
Qed.

(** The inodes of some names *)
Definition known (s : fs) (pre : list string) (ino : Z) : Prop := ∃ f, f ∈ pre ∧ od_get f (name_to_inode_map s) = Some ino.

Lemma known_snoc s pre f ino i : od_get f (name_to_inode_map s) = Some ino → known s (pre ++ [f]) i ↔ known s pre i ∨ i = ino.
Proof.
  intros Hget. unfold known. setoid_rewrite elem_of_app. setoid_rewrite list_elem_of_singleton.
  split; [intros (g & [?| ->] & ?); [eauto|right; congruence]|]. intros [(g & ? & ?)| ->]; eauto.
Qed.

(** The regular files are in the table of spans. *)
Lemma file_spans_spec s w (Q : gmap Z (Z * Z * Z) * Z * Z → fs → world → Prop) : inv cfg s →
  (∀ m sum cnt w', (∀ ino, ino ∈ inodes s → inode_type s !! ino = Some "regular" → is_Some (m !! ino)) → cnt ≤ 79 → Q (m, sum, cnt) s w') →
  wp (file_spans cfg) Q noexn s w.
Proof.
  intros Hinv HQ. unfold file_spans. rewrite wp_bind, wp_get.
  apply (wp_for_acc (λ pre (r : gmap Z (Z * Z * Z) * Z * Z) s' _, s' = s ∧ r.2 ≤ len pre ∧ (∀ ino, is_Some (r.1.1 !! ino) → known s pre ino) ∧
    (∀ ino, known s pre ino → inode_type s !! ino = Some "regular" → is_Some (r.1.1 !! ino)))).
  - split_and!; simpl; [done..| |]; [intros ino [? ?]; simplify_map_eq|intros ino (f & []%elem_of_nil & _)].
  - intros pre f post [[m sum] cnt] s' w' Hl (-> & Hcnt & Hdom & Hall). simpl in *.
    assert (f ∈ (name_to_inode_map s).*1) as Hf by (rewrite Hl; apply elem_of_app; right; left).
    destruct (known_name s f Hinv Hf) as (ino & Hget & _ & Hok). rewrite wp_bind. apply (get_spans_spec f ino); [done..|]. intros [[a lo] hi]. wp_pures.
    assert (len (pre ++ [f]) = len pre + 1) as Hlen by (unfold len; rewrite length_app; simpl length; lia).
    destruct (file_type Hok) as [Ht|[Ht _]]; rewrite Ht; wp_pures.
    + rewrite (bool_decide_false ("regular" = "directory")) by done. wp_pures. rewrite bool_decide_true.
      2: { simpl. destruct (m !! ino) eqn:Hm; [|done]. exfalso. destruct (Hdom ino) as (g & Hg & Hgi); [rewrite Hm; by eexists|].
           rewrite (inode_name_inj s g f ino Hinv Hgi Hget) in Hg. pose proof (inv_names Hinv) as Hnd. rewrite Hl in Hnd.
           apply NoDup_app in Hnd as (_ & Hnd & _). apply (Hnd f Hg). left. }
      wp_pures. split_and!; [done|rewrite Hlen; simpl; lia| |]; intros i; rewrite (known_snoc s pre f ino) by done; simpl.
      * destruct (decide (i = ino)) as [->|]; [by right|]. rewrite lookup_insert_ne by done. intros ?%Hdom. by left.
      * intros Hi Hti. destruct (decide (i = ino)) as [->|]; simplify_map_eq; [eauto|]. apply Hall; [by destruct Hi|done].
    + split_and!; [done|rewrite Hlen; simpl; lia| |]; intros i; rewrite (known_snoc s pre f ino) by done; simpl; [intros ?%Hdom; by left|].
      intros [Hi| ->] Hti; [by apply Hall|congruence].
  - intros [[m sum] cnt] s' w' (-> & Hcnt & _ & Hall). simpl in *. apply HQ.
    + intros ino ([f i] & -> & Hin)%list_elem_of_fmap. simpl. apply Hall. exists f. split; [apply list_elem_of_fmap; by exists (f, i)|].
      by apply od_get_NoDup, Hin; apply (inv_names Hinv).
    + pose proof (inv_symbols Hinv). unfold len in Hcnt. rewrite length_fmap in Hcnt. lia.
Qed.

(** The spans of the entries of a directory *)
Lemma entry_spans_spec m es l s w (Q : list Z → fs → world → Prop) : inv cfg s → l ≠ [] → (∀ e, e ∈ es → e.2 ∈ inodes s) →
  (∀ ino, ino ∈ inodes s → inode_type s !! ino = Some "regular" → is_Some (m !! ino)) → (∀ l', l' ≠ [] → Q l' s w) →
  wp (for_acc es l (λ l (e : string * Z),
        if bool_decide (e.1 = ".") || bool_decide (e.1 = "..") then mret l
        else
          type ← dict_get (inode_type s) e.2;
          if bool_decide (type = "directory") then mret l
          else r ← dict_get m e.2; mret (l ++ [r.1.1; r.1.2; r.2]))) Q noexn s w.
Proof.
  intros Hinv Hl Hes Hm HQ. apply (wp_for_acc (λ _ l s' w', s' = s ∧ w' = w ∧ l ≠ [])); [done| |intros l' s' w' (-> & -> & ?); by apply HQ].
  intros pre e post l' s' w' Hsplit (-> & -> & Hl'). destruct (_ || _); [by rewrite wp_ret|].
  assert (e.2 ∈ inodes s) as Hin by (apply Hes; rewrite Hsplit; apply elem_of_app; right; left).
  destruct (file_type (inode_known s _ Hinv Hin)) as [Ht|[Ht _]]; rewrite wp_bind, wp_dict_get, Ht; [|by rewrite bool_decide_true, wp_ret].
  rewrite bool_decide_false by done. destruct (Hm _ Hin Ht) as [x Hx]. rewrite wp_bind, wp_dict_get, Hx, wp_ret. split_and!; [done..|by destruct l'].
Qed.

Lemma dir_spans_spec m s w (Q : Z * Z → fs → world → Prop) : inv cfg s →
  (∀ ino, ino ∈ inodes s → inode_type s !! ino = Some "regular" → is_Some (m !! ino)) →
  (∀ sum cnt w', 1 ≤ cnt ≤ 79 → Q (sum, cnt) s w') → wp (dir_spans cfg m) Q noexn s w.
Proof.
  intros Hinv Hm HQ. unfold dir_spans. rewrite wp_bind, wp_get.
  apply (wp_for_acc (λ pre (r : Z * Z) s' _, s' = s ∧ 0 ≤ r.2 ≤ len pre ∧ ("/" ∈ pre → 1 ≤ r.2))).
  - split_and!; simpl; [done|lia|done|]. by intros []%elem_of_nil.
  - intros pre f post [sum cnt] s' w' Hl (-> & Hcnt & Hroot). simpl in *.
    assert (f ∈ (name_to_inode_map s).*1) as Hf by (rewrite Hl; apply elem_of_app; right; left).
    destruct (known_name s f Hinv Hf) as (ino & Hget & Hino & Hok). rewrite wp_bind. apply (get_spans_spec f ino); [done..|]. intros [[a lo] hi]. cbv beta iota.
    assert (len (pre ++ [f]) = len pre + 1) as Hlen by (unfold len; rewrite length_app; simpl length; lia). rewrite wp_bind, wp_dict_get.
    destruct (file_type Hok) as [Ht|[Ht [es Hes]]]; rewrite Ht.
    + rewrite bool_decide_false by done. simpl. rewrite wp_ret. split_and!; [done|simpl; lia|simpl; lia|]. intros [?| Heq%list_elem_of_singleton]%elem_of_app; [auto|].
      subst f. rewrite (od_get_NoDup "/" 0 _ (inv_names Hinv) (inv_root Hinv)) in Hget. simplify_eq. pose proof (inv_root_type Hinv). congruence.
    + rewrite bool_decide_true by done. simpl negb. cbv iota. rewrite wp_bind, wp_dict_get, Hes, wp_bind. apply entry_spans_spec; [done..| |done|].
      { intros e He. destruct (inv_dirs Hinv _ Hes) as (_ & _ & _ & Hall). apply list_elem_of_fmap.
        destruct (Hall e He) as [Hz|(g & Hin & _)]; [exists ("/", 0); split; [done|apply (inv_root Hinv)]|by exists (g, e.2)]. }
      intros all Hall. pose proof (stable_sort_perm Z.leb all) as Hperm%Permutation_length.
      assert (0 < len (stable_sort Z.leb all)) as Hpos by (unfold len; rewrite Hperm; destruct all; simpl; [done|lia]).
      destruct (lookup_lt_is_Some_2 (stable_sort Z.leb all) (Z.to_nat (len (stable_sort Z.leb all) - 1))) as [x Hx]; [unfold len in *; lia|].
      destruct (lookup_lt_is_Some_2 (stable_sort Z.leb all) (Z.to_nat 0)) as [y Hy]; [unfold len in *; lia|]. cbv zeta.
      rewrite wp_bind, (list_get_Z _ (len (stable_sort Z.leb all) - 1) _ ltac:(lia) Hx), wp_ret, wp_bind, (list_get_Z _ 0 _ ltac:(lia) Hy), wp_ret. wp_pures.
      split_and!; [done|simpl; lia|simpl; lia|simpl; lia].
  - intros [sum cnt] s' w' (-> & Hcnt & Hroot). simpl in *. apply HQ. pose proof (inv_symbols Hinv). unfold len in Hcnt. rewrite length_fmap in Hcnt.
    split; [|lia]. apply Hroot. apply list_elem_of_fmap. exists ("/", 0). split; [done|apply (inv_root Hinv)].
Qed.

Lemma do_all_spans_spec s w (Q : unit → fs → world → Prop) : inv cfg s → (∀ w', Q tt s w') → wp (do_all_spans cfg) Q noexn s w.
Proof.
  intros Hinv HQ. unfold do_all_spans. rewrite wp_bind, wp_print, wp_bind. apply file_spans_spec; [done|]. intros m sum cnt w1 Hm Hcnt. simpl.
  assert (∀ w', wp (print (nl +:+ "span: directories");; d ← dir_spans cfg m; span_average cfg "dirspan" d.1 d.2;; print "") Q noexn s w') as Hdirs.
  { intros w'. rewrite wp_bind, wp_print, wp_bind. apply dir_spans_spec; [done..|]. intros dsum dcnt w2 Hd. rewrite wp_bind. simpl.
    apply span_average_spec; [done|]. intros w3. rewrite wp_print. apply HQ. }
  rewrite wp_bind, wp_when. destruct (Z.ltb_spec 0 cnt); [|apply Hdirs]. apply span_average_spec; [lia|]. intros w2. apply Hdirs.
Qed.

(** ** Workloads that create *)
Context (Hcontig : 1 ≤ contig_allocation_policy cfg) (Hfar : allocate_faraway cfg = 1).

(** The path a line creates, and the size if it is a file *)
Definition creates (line : string) : option (string * option Z) :=
  match split_ws line with
  | [op; path; size] => if bool_decide (op = "file") then (λ k, (path, Some k)) <$> int_of_str size else None
  | [op; path] => if bool_decide (op = "dir") then Some (path, None) else None
  | _ => None
  end.

(** A line the program can be given: a file of at least one block, a
    directory, [dump], or nothing *)
Definition legal_line (line : string) : bool :=
  match split_ws line with
  | [] => true
  | [op] => bool_decide (op = "dump")
  | _ => match creates line with Some (path, size) => (1 <=? default 1 size) && negb (bool_decide (path = "/")) | None => false end
  end.

(** No file is the directory of another path. *)
Definition files_are_leaves (lines : list string) : bool :=
  forallb (λ x, match creates x with
    | Some (f, Some _) => forallb (λ y, match creates y with Some (g, _) => negb (bool_decide ((get_parent g).1 = f)) | None => true end) lines
    | _ => true
    end) lines.

Lemma leaves_apart lines x y f k g sz : files_are_leaves lines = true → x ∈ lines → y ∈ lines →
  creates x = Some (f, Some k) → creates y = Some (g, sz) → (get_parent g).1 ≠ f.
Proof.
  unfold files_are_leaves. rewrite forallb_forall. intros Hall Hx%list_elem_of_In Hy%list_elem_of_In Hcx Hcy. specialize (Hall x Hx). rewrite Hcx, forallb_forall in Hall.
  specialize (Hall y Hy). rewrite Hcy in Hall. by apply negb_true_iff, bool_decide_eq_false in Hall.
Qed.

Definition kind (size : option Z) : string := match size with Some _ => "regular" | None => "directory" end.

(** An inode is what the line asks for. *)
Definition as_asked (s : fs) (size : option Z) (ino : Z) : Prop :=
  inode_type s !! ino = Some (kind size) ∧ ∃ bs, inode_blocks s !! ino = Some bs ∧ len bs = default 1 size.

(** Everything but the root comes from the lines so far. *)
Definition from_lines (pre : list string) (s : fs) : Prop :=
  (length (name_to_inode_map s) ≤ 1 + length pre)%nat ∧
  ∀ f ino, (f, ino) ∈ name_to_inode_map s → f ≠ "/" → ∃ x size, x ∈ pre ∧ creates x = Some (f, size) ∧ as_asked s size ino.

Context (lines : list string) (fuel : nat) (Hlegal : Forall (λ x, legal_line x = true) lines) (Hleaves : files_are_leaves lines = true)
  (Hlen : (length lines < 79)%nat) (Hfuel : (n * b + 2) * (n * b + 1) ≤ Z.of_nat fuel).

Lemma from_lines_more pre x s : from_lines pre s → from_lines (pre ++ [x]) s.
Proof.
  intros [Hcount Hfrom]. split; [rewrite length_app; simpl; lia|]. intros f ino Hin Hf. destruct (Hfrom f ino Hin Hf) as (y & sz & Hy & ? & ?).
  exists y, sz. split; [|done]. apply elem_of_app. by left.
Qed.

(** Creating the path of a line keeps all this. *)
Lemma create_line_spec pre x post f sz s w (Q : Z → fs → world → Prop) : lines = pre ++ x :: post → creates x = Some (f, sz) → f ≠ "/" → 1 ≤ default 1 sz →
  inv cfg s → from_lines pre s → (∀ rc s' w', inv cfg s' → from_lines (pre ++ [x]) s' → Q rc s' w') →
  wp (do_create cfg fuel f (default 1 sz) (kind sz)) Q noexn s w.
Proof.
  intros Hl Hcr Hf Hsize Hinv Hfl HQ. pose proof (inv_symbols Hinv) as Hsym. pose proof Hfl as [Hcount Hfrom].
  assert (x ∈ lines) as Hx by (rewrite Hl; apply elem_of_app; right; left). pose proof Hlen as Hlen'. rewrite Hl, length_app in Hlen'. simpl in Hlen'.
  eapply wp_conseq; [apply (do_create_spec cfg Hn Hip Hb Hcontig Hfar fuel f (default 1 sz) _ s w); [done..|by destruct sz; auto|done| | |done]|].
  - intros He. rewrite He in Hsym. simpl in Hsym. lia.
  - intros p Hp%od_get_elem. destruct (decide ((get_parent f).1 = "/")) as [Hr|Hr].
    + rewrite Hr in Hp. pose proof (od_get_NoDup _ _ _ (inv_names Hinv) Hp) as Hp'.
      rewrite (od_get_NoDup _ _ _ (inv_names Hinv) (inv_root Hinv)) in Hp'. simplify_eq. apply (inv_root_type Hinv).
    + destruct (Hfrom _ _ Hp Hr) as (y & [k|] & Hy & Hyf & [Ht _]); [|done]. exfalso. refine (leaves_apart lines y x _ k f sz Hleaves _ Hx Hyf Hcr eq_refl).
      rewrite Hl. apply elem_of_app. by left.
  - intros rc s' w' [(_ & -> & _)|(_ & _ & Hinv' & ino & blocks & p & es & Hnew)]; (apply HQ; [done|]); [by apply from_lines_more|]. split.
    + rewrite (new_name Hnew), !length_app. simpl. lia.
    + intros g i. rewrite (new_name Hnew). unfold as_asked. rewrite (new_type Hnew), (new_inode_blocks Hnew). intros [Hin|[= -> ->]%list_elem_of_singleton]%elem_of_app Hg.
      * rewrite !lookup_insert_ne by by apply not_eq_sym, (new_not_used cfg s f _ _ ino blocks p es s' Hinv Hnew g). by apply (proj2 (from_lines_more pre x s Hfl)).
      * exists x, sz. rewrite !lookup_insert, !decide_True by done. split_and!; [apply elem_of_app; right; by left|done|done|]. exists blocks. split; [done|apply (new_size Hnew)].
Qed.

(** An operation with its messages *)
Lemma reported_spec msg (m : M fs Z) (R : fs → Prop) s w : (∀ w', wp m (λ _ s' _, R s') noexn s w') →
  wp (vprint cfg msg;; rc ← m; print_success_or_fail cfg rc;; mret rc) (λ _ s' _, R s') noexn s w.
Proof.
  intros Hm. assert (∀ w', wp (rc ← m; print_success_or_fail cfg rc;; mret rc) (λ _ s' _, R s') noexn s w') as Hrest.
  { intros w'. rewrite wp_bind. eapply wp_conseq; [apply Hm|]. intros rc s' w1 HR. unfold print_success_or_fail. destruct (show_file_ops cfg); by wp_pures. }
  unfold vprint. rewrite wp_bind, wp_when. destruct (show_file_ops cfg); [rewrite wp_put_str|]; apply Hrest.
Qed.

(** One line of the input *)
Lemma command_spec pre x post s w : lines = pre ++ x :: post → inv cfg s → from_lines pre s →
  wp (command cfg fuel x) (λ _ s' _, inv cfg s' ∧ from_lines (pre ++ [x]) s') noexn s w.
Proof.
  intros Hl Hinv Hfl. assert (legal_line x = true) as Hx. { rewrite Forall_forall in Hlegal. apply Hlegal. rewrite Hl. apply elem_of_app. right. left. }
  assert (∀ m : M fs unit, wp m (λ _ s' _, inv cfg s' ∧ from_lines (pre ++ [x]) s') noexn s w →
    wp (m;; do_verify cfg) (λ _ s' _, inv cfg s' ∧ from_lines (pre ++ [x]) s') noexn s w) as Hverify.
  { intros m Hm. rewrite wp_bind. eapply wp_conseq; [exact Hm|]. intros _ s' w' [? ?]. by apply do_verify_spec. }
  assert (∀ f sz msg, creates x = Some (f, sz) → (1 <=? default 1 sz) && negb (bool_decide (f = "/")) = true →
    wp (rc ← (vprint cfg msg;; rc ← do_create cfg fuel f (default 1 sz) (kind sz); print_success_or_fail cfg rc;; mret rc); mret tt)
       (λ _ s' _, inv cfg s' ∧ from_lines (pre ++ [x]) s') noexn s w) as Hcreate.
  { intros f sz msg Hcr [Hsz%Z.leb_le Hf%negb_true_iff%bool_decide_eq_false]%andb_true_iff. rewrite wp_bind.
    refine (reported_spec msg _ (λ s', inv cfg s' ∧ from_lines (pre ++ [x]) s') s w _). intros w'. by apply (create_line_spec pre x post f sz). }
  revert Hx Hcreate. unfold legal_line, creates, command. destruct (split_ws x) as [|op [|path [|size [|]]]]; intros Hx Hcreate; [| | | |done].
  - rewrite wp_ret. split; [done|by apply from_lines_more].
  - apply bool_decide_eq_true in Hx as ->. apply Hverify. simpl. apply dump_spec; [done|]. intros show w'. split; [by apply inv_show|]. exact (from_lines_more pre x s Hfl).
  - destruct (bool_decide (op = "dir")) eqn:Hop; [|done]. apply bool_decide_eq_true in Hop as ->. apply Hverify. simpl. exact (Hcreate path None _ eq_refl Hx).
  - destruct (bool_decide (op = "file")) eqn:Hop; [|done]. destruct (int_of_str size) as [k|] eqn:Hk; [|done].
    apply bool_decide_eq_true in Hop as ->. apply Hverify. simpl. rewrite wp_bind. unfold py_int. rewrite wp_of_option, Hk. exact (Hcreate path (Some k) _ eq_refl Hx).
Qed.

Lemma main_spec show show_spans w :
  wp (main cfg fuel lines show_spans) (λ _ s _, inv cfg s ∧ from_lines lines s) noexn (fs_blank cfg show) w.
Proof.
  unfold main. rewrite wp_bind. apply fs_init_spec. intros c avail Hav. rewrite wp_bind. unfold read_input.
  apply (wp_for (λ pre s' _, inv cfg s' ∧ from_lines pre s')).
  - split; [by apply root_inv|]. split; [simpl; lia|]. intros f ino [= -> ->]%list_elem_of_singleton. done.
  - intros pre x post s w' Hl [Hinv Hfl]. by apply (command_spec pre x post).
  - intros s w' [Hinv Hfl]. rewrite wp_bind. apply dump_spec; [done|]. intros x w1. pose proof (inv_show s x Hinv) as Hinv'.
    rewrite wp_when. destruct show_spans; [|done]. by apply do_all_spans_spec.
Qed.
End Runs.
