(* ===== verification/FfsTheorems.v ===== *)
(** * The fast file system: the theorems

    What creating and deleting do, whole runs, and the inputs on which the
    program fails. *)
From S2P Require Import Prelude PyStr PyFloat PyDict Ffs FfsCreate FfsDelete FfsRuns.
Open Scope Z_scope.

(** An operation that creates: the path is refused and nothing changes, or it
    is created and the verifier accepts the result. *)
Definition created_or_refused (cfg : config) (s : fs) (path : string) (size : Z) (type : string) (rc : Z) (s' : fs) : Prop :=
  (rc = -1 ∧ s' = s ∧ refused s path size) ∨
  (rc = 0 ∧ ¬ refused s path size ∧ inv cfg s' ∧ (∃ ino blocks p es, created cfg s path size type ino blocks p es s') ∧
   ∀ w, wp (do_verify cfg) (λ _ s'' _, s'' = s') noexn s' w).

(** C31: where groups are examined one by one ([allocate_faraway] is 1) and
    runs of blocks are sought ([contig_allocation_policy] from 1), creating a
    file of at least one block or a directory in a consistent file system,
    with a symbol left and a parent that is no file, raises no exception, also
    for sizes that spread over many groups. The call is
    refused, with nothing changed, exactly when inodes or blocks are short,
    the directory does not exist or has the name; otherwise the path names an
    inode that was free, of the asked type and number of blocks, all distinct
    and free before and now its own; every other bit, name, inode and
    directory is as it was; a file's inode is in the group of its directory
    if that has a free one, and a directory's in a group with the most free
    inodes; and the program's verifier accepts the result. *)
Theorem ffs_create_correct cfg fuel path size s w :
  0 < num_groups cfg → 0 < inodes_per_group cfg → 0 < blocks_per_group cfg → 1 ≤ contig_allocation_policy cfg → allocate_faraway cfg = 1 →
  (num_groups cfg * blocks_per_group cfg + 2) * (num_groups cfg * blocks_per_group cfg + 1) ≤ Z.of_nat fuel →
  inv cfg s → path ≠ "/" → 1 ≤ size → available_symbols s ≠ [] →
  (∀ p, od_get (get_parent path).1 (name_to_inode_map s) = Some p → inode_type s !! p = Some "directory") →
  wp (create cfg fuel path size) (λ rc s' _, created_or_refused cfg s path size "regular" rc s') noexn s w ∧
  wp (mkdir cfg fuel path) (λ rc s' _, created_or_refused cfg s path 1 "directory" rc s') noexn s w.
Proof.
  intros Hn Hip Hb Hcontig Hfar Hfuel Hinv Hpath Hsize Hav Hdir.
  assert (∀ msg k type, type = "regular" ∨ type = "directory" → 1 ≤ k →
    wp (vprint cfg msg;; rc ← do_create cfg fuel path k type; print_success_or_fail cfg rc;; mret rc)
      (λ rc s' _, created_or_refused cfg s path k type rc s') noexn s w) as Hboth; [|by split; apply Hboth; auto; lia].
  intros msg k type Htype Hk. assert (∀ w', wp (rc ← do_create cfg fuel path k type; print_success_or_fail cfg rc;; mret rc)
      (λ rc s' _, created_or_refused cfg s path k type rc s') noexn s w') as Hrest.
  { intros w'. rewrite wp_bind. eapply wp_conseq; [by apply (do_create_spec cfg Hn Hip Hb Hcontig Hfar)|]. intros rc s' w1 Hrc.
    assert (created_or_refused cfg s path k type rc s') as Hdone.
    { destruct Hrc as [?|(? & ? & Hinv' & ?)]; [by left|right]. split_and!; try done. intros w2. by apply do_verify_spec. }
    unfold print_success_or_fail. destruct (show_file_ops cfg); by wp_pures. }
  unfold vprint. rewrite wp_bind, wp_when. destruct (show_file_ops cfg); [rewrite wp_put_str|]; apply Hrest.
Qed.

(** C32: on a workload of fewer than 79 lines (there are 79 symbols, one of
    which the root takes) that create files of at least one
    block and directories, and print the map, with no file used as a
    directory, the program never fails, for any geometry and policy but
    [allocate_faraway] above one: no exception is raised, the verifier accepts
    the file system after every line, the allocation loops end, map and spans
    are printed. The file system is consistent at the end, and every name in
    it is that of a line, with the type and the number of blocks the line asks
    for. *)
Theorem workload_succeeds cfg lines fuel show show_spans w :
  0 < num_groups cfg → 0 < inodes_per_group cfg → 0 < blocks_per_group cfg → 1 ≤ contig_allocation_policy cfg → allocate_faraway cfg = 1 →
  (num_groups cfg * blocks_per_group cfg + 2) * (num_groups cfg * blocks_per_group cfg + 1) ≤ Z.of_nat fuel →
  Forall (λ x, legal_line x = true) lines → files_are_leaves lines = true → (length lines < 79)%nat →
  wp (main cfg fuel lines show_spans) (λ _ s _, inv cfg s ∧
    ∀ f ino, (f, ino) ∈ name_to_inode_map s → f ≠ "/" → ∃ x size, x ∈ lines ∧ creates x = Some (f, size) ∧ as_asked s size ino)
    noexn (fs_blank cfg show) w.
Proof.
  intros Hn Hip Hb Hcontig Hfar Hfuel Hlegal Hleaves Hlen. eapply wp_conseq; [by apply main_spec|]. intros _ s _ [Hinv [_ Hfrom]]. by split.
Qed.

(** C33: where all three parameters of the geometry are equal, deleting a path
    of a consistent file system raises no exception; it changes nothing if the
    path is a directory, and else removes the name from the map and from its
    directory, frees the inode and exactly its blocks, and counts them, and
    the verifier accepts the result. *)
Theorem ffs_delete_correct cfg path ino s w :
  0 < num_groups cfg → inodes_per_group cfg = num_groups cfg → blocks_per_group cfg = num_groups cfg →
  inv cfg s → path ≠ "/" → od_get path (name_to_inode_map s) = Some ino →
  wp (delete_ cfg path) (λ _ s' _,
    (inode_type s !! ino = Some "directory" ∧ s' = s) ∨
    (inode_type s !! ino = Some "regular" ∧ inv cfg s' ∧ (∃ p es es' blocks, deleted cfg s path ino p es es' blocks s') ∧
     ∀ w, wp (do_verify cfg) (λ _ s'' _, s'' = s') noexn s' w)) noexn s w.
Proof.
  intros Hn Hip Hb Hinv Hpath Hget. unfold delete_.
  assert (∀ w', wp (rc ← do_delete cfg path; print_success_or_fail cfg rc) (λ _ s' _,
    (inode_type s !! ino = Some "directory" ∧ s' = s) ∨
    (inode_type s !! ino = Some "regular" ∧ inv cfg s' ∧ (∃ p es es' blocks, deleted cfg s path ino p es es' blocks s') ∧
     ∀ w, wp (do_verify cfg) (λ _ s'' _, s'' = s') noexn s' w)) noexn s w') as Hrest.
  { intros w'. rewrite wp_bind. eapply wp_conseq; [by apply (do_delete_spec cfg Hn Hip Hb path ino)|]. intros rc s' w1 Hrc.
    unfold print_success_or_fail. rewrite wp_when.
    destruct Hrc as [(_ & -> & ?)|(_ & ? & Hinv' & ?)]; destruct (show_file_ops cfg); rewrite ?wp_print; [by left|by left|right|right];
      split_and!; try done; intros w2; apply do_verify_spec; (done || lia). }
  unfold vprint. rewrite wp_bind, wp_when. destruct (show_file_ops cfg); [rewrite wp_put_str|]; apply Hrest.
Qed.

(** *** Witnesses: four groups of four inodes and four blocks *)

Definition small_config : config := Config 4 4 4 30 false 1 false 1 false false true true.
Definition small_world : world := World [] (λ _, 0) 0.

(** The file system after some lines *)
Definition after (lines : list string) : fs :=
  match main small_config 400 lines false (fs_blank small_config false) small_world with Ok _ s _ => s | _ => fs_blank small_config false end.

Lemma after_inv lines : Forall (λ x, legal_line x = true) lines → files_are_leaves lines = true → (length lines < 79)%nat → inv small_config (after lines).
Proof.
  intros Hlegal Hleaves Hlen. pose proof (main_spec small_config) as Hmain. specialize (Hmain ltac:(done) ltac:(done) ltac:(done) ltac:(done) ltac:(done) lines 400%nat).
  specialize (Hmain Hlegal Hleaves Hlen ltac:(simpl; lia) false false small_world). unfold wp in Hmain. unfold after. by destruct (main _ _ _ _ _ _) as [? ? ?| |]; [destruct Hmain|..].
Qed.

Lemma ffs_create_correct_witness :
  wp (create small_config 400 "/d/f" 6) (λ rc s' _, created_or_refused small_config (after ["dir /d"; "file /a 2"]) "/d/f" 6 "regular" rc s') noexn
    (after ["dir /d"; "file /a 2"]) small_world ∧
  wp (mkdir small_config 400 "/d/f") (λ rc s' _, created_or_refused small_config (after ["dir /d"; "file /a 2"]) "/d/f" 1 "directory" rc s') noexn
    (after ["dir /d"; "file /a 2"]) small_world.
Proof.
  apply (ffs_create_correct small_config 400 "/d/f" 6); [done|done|done|done|done|simpl; lia| |done|lia| |].
  - apply after_inv; [repeat constructor; reflexivity|reflexivity|simpl; lia].
  - intros H. apply (f_equal (@length string)) in H. vm_compute in H. discriminate H.
  - intros p Hp. vm_compute in Hp. injection Hp as <-. vm_compute. reflexivity.
Defined.

Lemma workload_succeeds_witness :
  wp (main default_config (Z.to_nat 100000) ["dir /a"; "dir /b"; "file /a/c 2"; "file /a/d 2"; "file /a/e 2"; "file /b/f 2"] true) (λ _ s _, inv default_config s ∧
    ∀ f ino, (f, ino) ∈ name_to_inode_map s → f ≠ "/" → ∃ x size, x ∈ ["dir /a"; "dir /b"; "file /a/c 2"; "file /a/d 2"; "file /a/e 2"; "file /b/f 2"] ∧
      creates x = Some (f, size) ∧ as_asked s size ino)
    noexn (fs_blank default_config false) small_world.
Proof.
  apply (workload_succeeds default_config ["dir /a"; "dir /b"; "file /a/c 2"; "file /a/d 2"; "file /a/e 2"; "file /b/f 2"] (Z.to_nat 100000) false true small_world);
    [done|done|done|done|done|rewrite Z2Nat.id by lia; simpl; lia|repeat constructor; reflexivity|reflexivity|simpl; lia].
Defined.

Lemma ffs_delete_correct_witness :
  wp (delete_ small_config "/a") (λ _ s' _,
    (inode_type (after ["dir /d"; "file /a 6"]) !! 1 = Some "directory" ∧ s' = after ["dir /d"; "file /a 6"]) ∨
    (inode_type (after ["dir /d"; "file /a 6"]) !! 1 = Some "regular" ∧ inv small_config s' ∧
     (∃ p es es' blocks, deleted small_config (after ["dir /d"; "file /a 6"]) "/a" 1 p es es' blocks s') ∧
     ∀ w, wp (do_verify small_config) (λ _ s'' _, s'' = s') noexn s' w)) noexn (after ["dir /d"; "file /a 6"]) small_world.
Proof.
  apply (ffs_delete_correct small_config "/a" 1); [done|done|done| |done|vm_compute; reflexivity].
  apply after_inv; [repeat constructor; reflexivity|reflexivity|simpl; lia].
Defined.

(** ** Evaluations *)

(** How the program ends on some lines *)
Definition ends (cfg : config) (fuel : nat) (lines : list string) : option exn :=
  match main cfg fuel lines false (fs_blank cfg false) small_world with Raise e _ _ => Some e | _ => None end.

(** The first example of the README: the rows of the allocation map *)
Example ffs_readme_example :
  match main default_config 1000 ["dir /a"; "dir /b"; "file /a/c 2"; "file /a/d 2"; "file /a/e 2"; "file /b/f 2"] false
    (fs_blank default_config false) small_world with
  | Ok _ _ w => ("    0 /--------- /--------- ---------- ----------" ∈ stdout w) ∧ ("    1 acde------ accddee--- ---------- ----------" ∈ stdout w) ∧
      ("    2 bf-------- bff------- ---------- ----------" ∈ stdout w)
  | _ => False
  end.
Proof. vm_compute. split_and!; repeat (first [by left|right]). Qed.

(** A file of the default geometry with a block whose number is not in the
    first ten of the first group: deleting it clears other bits. *)
Example delete_default : ends default_config 1000 ["file /a 9"; "delete /a"] = None ∧ ends default_config 1000 ["file /a 10"; "delete /a"] = Some AssertionError.
Proof. split; vm_compute; reflexivity. Qed.

(** An empty file, the root, another spelling of a path, a file used as a
    directory, and more names than symbols *)
Example failures :
  ends default_config 1000 ["file /a 0"] = Some AssertionError ∧ ends default_config 1000 ["dir /"] = Some (SystemExit 1) ∧
  ends default_config 1000 ["file /a 1"; "delete //a"] = Some KeyError ∧ ends default_config 1000 ["file /a 1"; "file /a/b 1"] = Some KeyError ∧
  ends default_config 1000 ((λ i, "dir /" +:+ str_of_Z i) <$> range 0 79) = Some AssertionError.
Proof. split_and!; vm_compute; reflexivity. Qed.

(** Groups examined two at a time: the group chosen is the first of a pair
    with a free inode, but the free one may be the second. *)
Example faraway : ends (Config 2 4 1 30 false 1 false 2 false false false true) 1000 ["dir /a"] = Some AssertionError.
Proof. vm_compute. reflexivity. Qed.
