(* ===== verification/X86.v ===== *)
(** * The thread simulator: [threads-locks/x86.py]

    Threads share a memory and run a simplified x86 assembly; a timer
    interrupt, a [yield] or a [halt] switches to another thread. *)
From S2P Require Import Prelude PyStr PyRandom.
Open Scope Z_scope.

(** ** The machine *)

(** The registers, the six conditions *)
Inductive reg := ZERO | AX | BX | CX | DX | EX | FX | SP | BP.
Inductive cond := GT | GTE | LT | LTE | EQ | NEQ.
#[export] Instance reg_eq_dec : EqDecision reg.
Proof. solve_decision. Defined.

(** What the loader puts into memory: the text of a call of a method, with
    its arguments.  An address is [value(reg1, reg2, scale)]. *)
Inductive instr :=
| I_halt | I_iyield | I_nop | I_rdump | I_mdump (index : string)
| I_move_i_to_r (src : Z) (dst : reg)
| I_move_i_to_m (src value : Z) (reg1 reg2 : reg) (scale : Z)
| I_move_m_to_r (value : Z) (reg1 reg2 : reg) (scale : Z) (dst : reg)
| I_move_r_to_m (src : reg) (value : Z) (reg1 reg2 : reg) (scale : Z)
| I_move_r_to_r (src dst : reg)
| I_lea_m_to_r (value : Z) (reg1 reg2 : reg) (scale : Z) (dst : reg)
| I_add_i_to_r (src : Z) (dst : reg) | I_add_r_to_r (src dst : reg)
| I_mul_i_to_r (src : Z) (dst : reg) | I_mul_r_to_r (src dst : reg)
| I_sub_i_to_r (src : Z) (dst : reg) | I_sub_r_to_r (src dst : reg)
| I_neg_r (src : reg)
| I_atomic_exchange (src : reg) (value : Z) (reg1 reg2 : reg)
| I_fetchadd (src : reg) (value : Z) (reg1 reg2 : reg)
| I_test_i_r (src : Z) (dst : reg) | I_test_r_i (src : reg) (dst : Z) | I_test_r_r (src dst : reg)
| I_jump (targ : Z) | I_jump_if (c : cond) (targ : Z)
| I_call (targ : Z) | I_ret
| I_push_r (r : reg) | I_push_m (value : Z) (reg1 reg2 : reg) (scale : Z)
| I_pop | I_pop_r (dst : reg).

(** A register or memory cell holds an integer or a string; the strings that
    occur are instruction texts and, after arithmetic on these, their
    concatenations. *)
Inductive val := Num (n : Z) | Code (l : list instr).

Definition reg_num (r : reg) : Z :=
  match r with ZERO => 0 | AX => 1 | BX => 2 | CX => 3 | DX => 4 | EX => 5 | FX => 6 | SP => 7 | BP => 8 end.
Definition regnames : list (string * reg) :=
  [("zero", ZERO); ("ax", AX); ("bx", BX); ("cx", CX); ("dx", DX); ("ex", EX); ("fx", FX); ("sp", SP); ("bp", BP)].
Definition get_regname (r : reg) : string :=
  match r with ZERO => "zero" | AX => "ax" | BX => "bx" | CX => "cx" | DX => "dx" | EX => "ex" | FX => "fx" | SP => "sp" | BP => "bp" end.

Definition text_call (name : string) (args : list string) : string := "self." +:+ name +:+ "(" +:+ join ", " args +:+ ")".
Definition jump_name (c : cond) : string :=
  match c with NEQ => "jump_notequal" | EQ => "jump_equal" | LT => "jump_lessthan" | LTE => "jump_lessthanorequal"
             | GT => "jump_greaterthan" | GTE => "jump_greaterthanorequal" end.

(** The text the loader stores *)
Definition instr_text (i : instr) : string :=
  let z := str_of_Z in
  let r x := str_of_Z (reg_num x) in
  match i with
  | I_halt => text_call "halt" [] | I_iyield => text_call "iyield" [] | I_nop => text_call "nop" [] | I_rdump => text_call "rdump" []
  | I_mdump a => text_call "mdump" [a]
  | I_move_i_to_r a b => text_call "move_i_to_r" [z a; r b]
  | I_move_i_to_m a v x y s => text_call "move_i_to_m" [z a; z v; r x; r y; z s]
  | I_move_m_to_r v x y s d => text_call "move_m_to_r" [z v; r x; r y; z s; r d]
  | I_move_r_to_m a v x y s => text_call "move_r_to_m" [r a; z v; r x; r y; z s]
  | I_move_r_to_r a b => text_call "move_r_to_r" [r a; r b]
  | I_lea_m_to_r v x y s d => text_call "lea_m_to_r" [z v; r x; r y; z s; r d]
  | I_add_i_to_r a b => text_call "add_i_to_r" [z a; r b] | I_add_r_to_r a b => text_call "add_r_to_r" [r a; r b]
  | I_mul_i_to_r a b => text_call "mul_i_to_r" [z a; r b] | I_mul_r_to_r a b => text_call "mul_r_to_r" [r a; r b]
  | I_sub_i_to_r a b => text_call "sub_i_to_r" [z a; r b] | I_sub_r_to_r a b => text_call "sub_r_to_r" [r a; r b]
  | I_neg_r a => text_call "neg_r" [r a]
  | I_atomic_exchange a v x y => text_call "atomic_exchange" [r a; z v; r x; r y]
  | I_fetchadd a v x y => text_call "fetchadd" [r a; z v; r x; r y]
  | I_test_i_r a b => text_call "test_i_r" [z a; r b] | I_test_r_i a b => text_call "test_r_i" [r a; z b]
  | I_test_r_r a b => text_call "test_r_r" [r a; r b]
  | I_jump t => text_call "jump" [z t] | I_jump_if c t => text_call (jump_name c) [z t]
  | I_call t => text_call "call" [z t] | I_ret => text_call "ret" []
  | I_push_r a => text_call "push_r" [r a]
  | I_push_m v x y s => text_call "push_m" [z v +:+ "," +:+ r x +:+ "," +:+ r y +:+ "," +:+ z s]
  | I_pop => text_call "pop" [] | I_pop_r a => text_call "pop_r" [r a]
  end.

Definition val_text (v : val) : string :=
  match v with Num n => str_of_Z n | Code l => foldr (λ i x, instr_text i +:+ x) "" l end.

Record regfile := Regs { r_zero : val; r_ax : val; r_bx : val; r_cx : val; r_dx : val; r_ex : val; r_fx : val; r_sp : val; r_bp : val }.
Record conds := Conds { cc_gt : bool; cc_gte : bool; cc_lt : bool; cc_lte : bool; cc_eq : bool; cc_neq : bool }.

Definition get_reg (f : regfile) (r : reg) : val :=
  match r with ZERO => r_zero f | AX => r_ax f | BX => r_bx f | CX => r_cx f | DX => r_dx f | EX => r_ex f | FX => r_fx f | SP => r_sp f | BP => r_bp f end.
Definition set_reg (f : regfile) (r : reg) (v : val) : regfile :=
  let '(Regs z a b c d e g s p) := f in
  match r with
  | ZERO => Regs v a b c d e g s p | AX => Regs z v b c d e g s p | BX => Regs z a v c d e g s p
  | CX => Regs z a b v d e g s p | DX => Regs z a b c v e g s p | EX => Regs z a b c d v g s p
  | FX => Regs z a b c d e v s p | SP => Regs z a b c d e g v p | BP => Regs z a b c d e g s v
  end.
Definition get_cond (c : conds) (k : cond) : bool :=
  match k with GT => cc_gt c | GTE => cc_gte c | LT => cc_lt c | LTE => cc_lte c | EQ => cc_eq c | NEQ => cc_neq c end.

Definition init_registers : regfile :=
  Regs (Num 0) (Num 0) (Num 0) (Num 0) (Num 0) (Num 0) (Num 0) (Num 0) (Num 0).
Definition init_condition_codes : conds := Conds false false false false false false.

(** What a thread runs on.  [memory] has the cells that were written; the
    others below [max_memory] are zero, the rest has no value. *)
Record core := Core {
  PC : val;
  registers : regfile;
  conditions : conds;
  memory : gmap Z val;
}.
#[export] Instance core_settable : Settable core := λ s, Core (PC s) (registers s) (conditions s) (memory s).

(** ** Values *)

(** [a + b], [a - b], [a * b] and the order of two values; strings can be
    joined, repeated and compared with each other. *)
Definition val_add {S} (a b : val) : M S val :=
  match a, b with
  | Num x, Num y => mret (Num (x + y))
  | Code l, Code l' => mret (Code (l ++ l'))
  | _, _ => raise TypeError
  end.
Definition val_sub {S} (a b : val) : M S val :=
  match a, b with Num x, Num y => mret (Num (x - y)) | _, _ => raise TypeError end.
Definition times (l : list instr) (n : Z) : list instr := mjoin (replicate (Z.to_nat n) l).
Definition val_mul {S} (a b : val) : M S val :=
  match a, b with
  | Num x, Num y => mret (Num (x * y))
  | Code l, Num n | Num n, Code l => mret (Code (times l n))
  | Code _, Code _ => raise TypeError
  end.
Definition val_compare {S} (a b : val) : M S comparison :=
  match a, b with
  | Num x, Num y => mret (x ?= y)
  | Code _, Code _ => mret (String.compare (val_text a) (val_text b))
  | _, _ => raise TypeError
  end.

(** ** Instructions

    Each returns its code: -1 for a halt, -2 for a yield, else 0. *)
Section Machine.
Context (max_memory : Z).

Definition get_memory (a : val) : M core val :=
  match a with
  | Code _ => raise KeyError
  | Num n =>
      s ← get;
      match memory s !! n with
      | Some v => mret v
      | None => if (0 <=? n) && (n <? max_memory) then mret (Num 0) else raise KeyError
      end
  end.
(** [self.memory[a] = v]; a string is a key as well, but one that nothing
    else uses.  The methods below only write at integers. *)
Definition set_memory (a : Z) (v : val) : M core unit := modify (λ s, s <| memory ::= <[a := v]> |>).
Definition reg_of (r : reg) : M core val := gets (λ s, get_reg (registers s) r).
Definition set_register (r : reg) (v : val) : M core unit := modify (λ s, s <| registers ::= λ f, set_reg f r v |>).

(** [value + self.registers[reg1] + (scale * self.registers[reg2])], which a
    string makes a [TypeError] *)
Definition address (value : Z) (reg1 reg2 : reg) (scale : Z) : M core Z :=
  a ← reg_of reg1; b ← reg_of reg2;
  match a, b with Num x, Num y => mret (value + x + scale * y) | _, _ => raise TypeError end.

Definition halt : M core Z := mret (-1).
Definition iyield : M core Z := mret (-2).
Definition nop : M core Z := mret 0.
Definition rdump : M core Z :=
  put_str "REGISTERS:: ";;
  for_ [AX; BX; CX; DX; EX; FX] (λ r, v ← reg_of r; put_str (get_regname r +:+ ": " +:+ val_text v +:+ " "));;
  mret 0.
(** The operand of [mdump] is evaluated as it stands in the program; decimal
    numerals are the operands modelled. *)
Definition mdump (index : string) : M core Z :=
  let x := strip index in
  if str_isdigit x && (negb (String.prefix "0" x) || str_all (Ascii.eqb "0") x) then
    i ← py_int index;
    v ← get_memory (Num i);
    print ("m[" +:+ str_of_Z i +:+ "]  " +:+ val_text v);;
    mret 0
  else raise SyntaxError.

Definition move_i_to_r (src : Z) (dst : reg) : M core Z := set_register dst (Num src);; mret 0.
Definition move_i_to_m (src value : Z) (reg1 reg2 : reg) (scale : Z) : M core Z :=
  tmp ← address value reg1 reg2 scale; set_memory tmp (Num src);; mret 0.
Definition move_m_to_r (value : Z) (reg1 reg2 : reg) (scale : Z) (dst : reg) : M core Z :=
  tmp ← address value reg1 reg2 scale; v ← get_memory (Num tmp); set_register dst v;; mret 0.
Definition move_r_to_m (src : reg) (value : Z) (reg1 reg2 : reg) (scale : Z) : M core Z :=
  tmp ← address value reg1 reg2 scale; v ← reg_of src; set_memory tmp v;; mret 0.
Definition move_r_to_r (src dst : reg) : M core Z := v ← reg_of src; set_register dst v;; mret 0.
Definition lea_m_to_r (value : Z) (reg1 reg2 : reg) (scale : Z) (dst : reg) : M core Z :=
  tmp ← address value reg1 reg2 scale; set_register dst (Num tmp);; mret 0.

(** [self.registers[dst] op= v] *)
Definition arith (op : val → val → M core val) (dst : reg) (v : val) : M core Z :=
  old ← reg_of dst; new ← op old v; set_register dst new;; mret 0.
Definition add_i_to_r (src : Z) (dst : reg) : M core Z := arith val_add dst (Num src).
Definition add_r_to_r (src dst : reg) : M core Z := v ← reg_of src; arith val_add dst v.
Definition mul_i_to_r (src : Z) (dst : reg) : M core Z := arith val_mul dst (Num src).
Definition mul_r_to_r (src dst : reg) : M core Z := v ← reg_of src; arith val_mul dst v.
Definition sub_i_to_r (src : Z) (dst : reg) : M core Z := arith val_sub dst (Num src).
Definition sub_r_to_r (src dst : reg) : M core Z := v ← reg_of src; arith val_sub dst v.
Definition neg_r (src : reg) : M core Z :=
  v ← reg_of src; new ← val_sub (Num 0) v; set_register src new;; mret 0.

Definition atomic_exchange (src : reg) (value : Z) (reg1 reg2 : reg) : M core Z :=
  tmp ← address value reg1 reg2 1;
  old ← get_memory (Num tmp);
  v ← reg_of src;
  set_memory tmp v;;
  set_register src old;;
  mret 0.
Definition fetchadd (src : reg) (value : Z) (reg1 reg2 : reg) : M core Z :=
  tmp ← address value reg1 reg2 1;
  old ← get_memory (Num tmp);
  v ← reg_of src;
  new ← val_add old v;
  set_memory tmp new;;
  set_register src old;;
  mret 0.

Definition conds_of (c : comparison) : conds :=
  match c with
  | Gt => Conds true true false false false true
  | Lt => Conds false false true true false true
  | Eq => Conds false true false true true false
  end.
Definition test_all (src dst : val) : M core Z :=
  conditions <~ init_condition_codes;;
  c ← val_compare dst src;
  conditions <~ conds_of c;;
  mret 0.
Definition test_i_r (src : Z) (dst : reg) : M core Z :=
  conditions <~ init_condition_codes;; v ← reg_of dst; test_all (Num src) v.
Definition test_r_i (src : reg) (dst : Z) : M core Z :=
  conditions <~ init_condition_codes;; v ← reg_of src; test_all v (Num dst).
Definition test_r_r (src dst : reg) : M core Z :=
  conditions <~ init_condition_codes;; v ← reg_of src; u ← reg_of dst; test_all v u.

Definition jump (targ : Z) : M core Z := PC <~ Num targ;; mret 0.
(** [jump_notequal] and the others *)
Definition jump_if (c : cond) (targ : Z) : M core Z :=
  s ← get; when (get_cond (conditions s) c) (PC <~ Num targ);; mret 0.

(** [self.registers[SP] += n] and the new stack pointer *)
Definition move_sp (n : Z) : M core Z :=
  v ← reg_of SP; new ← val_add v (Num n);
  set_register SP new;;
  match new with Num a => mret a | Code _ => raise KeyError end.
Definition call (targ : Z) : M core Z :=
  a ← move_sp (-4); s ← get; set_memory a (PC s);; PC <~ Num targ;; mret 0.
Definition ret : M core Z := v ← reg_of SP; t ← get_memory v; PC <~ t;; move_sp 4;; mret 0.
Definition push_r (r : reg) : M core Z := a ← move_sp (-4); v ← reg_of r; set_memory a v;; mret 0.
Definition push_m (value : Z) (reg1 reg2 : reg) (scale : Z) : M core Z :=
  a ← move_sp (-4); tmp ← address value reg1 reg2 scale; set_memory a (Num tmp);; mret 0.
Definition pop : M core Z := move_sp 4;; mret 0.
Definition pop_r (dst : reg) : M core Z := v ← reg_of SP; t ← get_memory v; set_register dst t;; move_sp 4;; mret 0.

(** [eval] of a memory cell *)
Definition exec (i : instr) : M core Z :=
  match i with
  | I_halt => halt | I_iyield => iyield | I_nop => nop | I_rdump => rdump | I_mdump a => mdump a
  | I_move_i_to_r a b => move_i_to_r a b | I_move_i_to_m a v x y k => move_i_to_m a v x y k
  | I_move_m_to_r v x y k d => move_m_to_r v x y k d | I_move_r_to_m a v x y k => move_r_to_m a v x y k
  | I_move_r_to_r a b => move_r_to_r a b | I_lea_m_to_r v x y k d => lea_m_to_r v x y k d
  | I_add_i_to_r a b => add_i_to_r a b | I_add_r_to_r a b => add_r_to_r a b
  | I_mul_i_to_r a b => mul_i_to_r a b | I_mul_r_to_r a b => mul_r_to_r a b
  | I_sub_i_to_r a b => sub_i_to_r a b | I_sub_r_to_r a b => sub_r_to_r a b | I_neg_r a => neg_r a
  | I_atomic_exchange a v x y => atomic_exchange a v x y | I_fetchadd a v x y => fetchadd a v x y
  | I_test_i_r a b => test_i_r a b | I_test_r_i a b => test_r_i a b | I_test_r_r a b => test_r_r a b
  | I_jump t => jump t | I_jump_if c t => jump_if c t
  | I_call t => call t | I_ret => ret | I_push_r a => push_r a | I_push_m v x y k => push_m v x y k
  | I_pop => pop | I_pop_r a => pop_r a
  end.
Definition eval (v : val) : M core Z :=
  match v with Num _ => raise TypeError | Code [i] => exec i | Code _ => raise SyntaxError end.

(** Fetch and execute one instruction *)
Definition fetch_exec : M core Z :=
  s ← get;
  instruction ← get_memory (PC s);
  next ← val_add (PC s) (Num 1);
  PC <~ next;;
  eval instruction.
End Machine.

(** ** The simulation *)

Record process := Process {
  tid : Z;
  pc : val;
  regs : regfile;
  cc : conds;
  done : bool;
  stack : Z;
}.
#[export] Instance process_settable : Settable process := λ s, Process (tid s) (pc s) (regs s) (cc s) (done s) (stack s).

Record sim := Sim {
  cpu : core;
  labels : gmap string Z;
  vars : gmap string Z;
  pmemory : gmap Z string;
  icount : Z;
  plist : list process;
  active : Z;
  manual : bool;
  procsched : list Z;
  curr : Z;
}.
#[export] Instance sim_settable : Settable sim := λ s,
  Sim (cpu s) (labels s) (vars s) (pmemory s) (icount s) (plist s) (active s) (manual s) (procsched s) (curr s).

Record config := Config {
  memsize : Z;
  memtrace : list string;
  regtrace : list reg;
  cctrace : bool;
  compute : bool;
  verbose : bool;
  printstats : bool;
  headercount : Z;
}.

Definition on_core {A} (m : M core A) : M sim A := zoom cpu (λ c s, s <| cpu := c |>) m.

Definition zassert (c : bool) (msg : string) : M sim unit :=
  when (negb c) (print ("ABORT:: " +:+ msg);; raise (SystemExit 1)).

(** *** Parsing the arguments of an instruction *)

Inductive arg := Imm (n : Z) | Reg (r : reg) | Label (l : string) | Mem (value : Z) (reg1 reg2 : reg) (scale : Z).

Definition find_reg (name : string) : option reg := (λ p, p.2.2) <$> list_find (λ p, p.1 = name) regnames.

Definition register_translate (r : string) : M sim reg :=
  match find_reg r with
  | Some x => mret x
  | None => zassert false ("Register " +:+ r +:+ " is not a valid register");; raise TypeError
  end.

Definition getregname (r : string) : M sim string :=
  let t := strip r in
  if bool_decide (t = "") then mret "zero"
  else
    c ← str_head t;
    zassert (Ascii.eqb c "%") ("Expecting a proper register name, got [" +:+ r +:+ "]");;
    x ← list_get (split_on "%" r) 1;
    mret (strip x).

(** The registers to trace *)
Definition trace_regs (names : list string) : M sim (list reg) :=
  for_acc names [] (λ l r,
    match find_reg r with
    | Some x => mret (l ++ [x])
    | None => zassert false ("Register " +:+ r +:+ " cannot be traced because it does not exist");; raise KeyError
    end).

Definition str_tail (s : string) : string := match s with EmptyString => EmptyString | String _ s => s end.
Definition tab : string := String (ascii_of_nat 9) EmptyString.

Definition bad_argument {A} (tmp : string) : M sim A := print ("mov: bad argument [" +:+ tmp +:+ "]");; raise (SystemExit 1).

(** [number(reg,reg,number)] and its shorter forms *)
Definition getarg_memory (tmp : string) : M sim arg :=
  c ← str_head tmp;
  let '(tmp, neg) := if Ascii.eqb c "-" then (str_tail tmp, -1) else (tmp, 1) in
  match split_on "(" tmp with
  | [_] => n ← py_int tmp; mret (Mem (neg * n) ZERO ZERO 1)
  | [s0; s1] =>
      c ← str_head tmp;
      value ← (if Ascii.eqb c "(" then mret 0 else
        zassert (str_isdigit (strip s0)) ("First number should be a digit [" +:+ s0 +:+ "]");;
        n ← py_int s0;
        mret (neg * n));
      inner ← list_get (split_on ")" s1) 0;
      match split_str "__BREAK__" inner with
      | [a] => x ← getregname a; r ← register_translate x; mret (Mem value r ZERO 1)
      | [a; b] =>
          x ← getregname a; y ← getregname b;
          r ← register_translate x; q ← register_translate y;
          mret (Mem value r q 1)
      | [a; b; k] =>
          x ← getregname a; y ← getregname b; scale ← py_int k;
          r ← register_translate x; q ← register_translate y;
          mret (Mem value r q scale)
      | _ => bad_argument tmp
      end
  | _ => bad_argument tmp
  end.

Definition getarg (a : string) : M sim arg :=
  let tmp := replace_str (" " +:+ tab) "" (replace_char "," " " a) in
  c ← str_head tmp;
  if Ascii.eqb c "$" then
    value ← list_get (split_on "$" tmp) 1;
    d ← str_head value;
    let '(value, neg) := if Ascii.eqb d "-" then (str_tail value, -1) else (value, 1) in
    zassert (str_isdigit value) ("value [" +:+ value +:+ "] must be a digit");;
    n ← py_int value;
    mret (Imm (neg * n))
  else if Ascii.eqb c "%" then
    x ← list_get (split_on "%" tmp) 1;
    r ← register_translate x;
    mret (Reg r)
  else if Ascii.eqb c "." then mret (Label tmp)
  else if is_alpha c then
    s ← get;
    zassert (bool_decide (is_Some (vars s !! tmp))) ("Variable " +:+ tmp +:+ " is not declared");;
    v ← dict_get (vars s) tmp;
    mret (Mem v ZERO ZERO 1)
  else if is_digit c || Ascii.eqb c "-" || Ascii.eqb c "(" then getarg_memory tmp
  else raise TypeError. (* [getarg] returns [None], which its callers unpack *)

(** Commas inside parentheses become [__BREAK__]. *)
Definition removecommas (cline inargs : string) : M sim string :=
  r ← for_acc (String.list_ascii_of_string inargs) (false, "") (λ '(inparen, outargs) c,
    when (Ascii.eqb c "(") (zassert (negb inparen) ("cannot have nested parenthesis in argument [" +:+ cline +:+ "]"));;
    let inparen := if Ascii.eqb c "(" then true else inparen in
    when (Ascii.eqb c ")") (zassert inparen ("cannot have right parenthesis without first having left one [" +:+ cline +:+ "]"));;
    let inparen := if Ascii.eqb c ")" then false else inparen in
    mret (inparen, outargs +:+ (if inparen && Ascii.eqb c "," then "__BREAK__" else String c "")));
  zassert (negb r.1) ("did not close parentheses [" +:+ cline +:+ "]");;
  mret r.2.

(** *** The instructions in a line

    [tmp] is the opcode and, if there are any, the rest of the line. *)

Definition load_mov (cline : string) (tmp : list string) : M sim instr :=
  rest ← list_get tmp 1;
  outargs ← removecommas cline rest;
  let rtmp := split_on "," outargs in
  zassert (len rtmp =? 2) ("mov: needs two args, separated by commas [" +:+ cline +:+ "]");;
  x ← list_get rtmp 0; y ← list_get rtmp 1;
  src ← getarg (strip x);
  dst ← getarg (strip y);
  match src, dst with
  | Mem _ _ _ _, Mem _ _ _ _ => print "bad mov: two memory arguments";; raise (SystemExit 1)
  | Imm _, Imm _ => print "bad mov: two immediate arguments";; raise (SystemExit 1)
  | Imm n, Reg r => mret (I_move_i_to_r n r)
  | Mem v a b k, Reg r => mret (I_move_m_to_r v a b k r)
  | Reg r, Mem v a b k => mret (I_move_r_to_m r v a b k)
  | Reg r, Reg q => mret (I_move_r_to_r r q)
  | Imm n, Mem v a b k => mret (I_move_i_to_m n v a b k)
  | _, _ => zassert false "malformed mov instruction";; raise (SystemExit 1)
  end.

(** The two arguments of the other instructions *)
Definition two_args (op cline : string) (tmp : list string) : M sim (arg * arg) :=
  rest ← list_get tmp 1;
  let rtmp := split1_on "," rest in
  zassert ((len tmp =? 2) && (len rtmp =? 2)) (op +:+ ": needs two args, separated by commas [" +:+ cline +:+ "]");;
  x ← list_get rtmp 0; y ← list_get rtmp 1;
  src ← getarg (strip x);
  dst ← getarg (strip y);
  mret (src, dst).

Definition malformed {A} (msg : string) : M sim A := zassert false msg;; raise (SystemExit 1).

Definition load_lea (cline : string) (tmp : list string) : M sim instr :=
  a ← two_args "lea" cline tmp;
  match a with
  | (Mem v r q k, Reg d) => mret (I_lea_m_to_r v r q k d)
  | _ => malformed "malformed lea instruction (should be memory address source to register destination"
  end.

Definition load_neg (tmp : list string) : M sim instr :=
  zassert (len tmp =? 2) "neg: takes one argument";;
  x ← list_get tmp 1;
  a ← getarg (strip x);
  match a with Reg r => mret (I_neg_r r) | _ => malformed "Can only neg a register" end.

Definition load_pop (tmp : list string) : M sim instr :=
  match tmp with
  | [_] => mret I_pop
  | _ =>
      x ← list_get tmp 1;
      a ← getarg (strip x);
      match a with Reg r => mret (I_pop_r r) | _ => malformed "Can only pop into a register" end
  end.

Definition load_push (tmp : list string) : M sim instr :=
  x ← list_get tmp 1;
  a ← getarg (strip x);
  match a with
  | Reg r => mret (I_push_r r)
  | Mem v r q k => mret (I_push_m v r q k)
  | _ => malformed "Cannot push anything but registers"
  end.

Definition load_call (tmp : list string) : M sim instr :=
  x ← list_get tmp 1;
  a ← getarg (strip x);
  match a with
  | Label l => s ← get; t ← dict_get (labels s) l; mret (I_call t)
  | _ => malformed "Cannot call anything but a label"
  end.

(** [mul], [add] and [sub] *)
Definition load_arith (op cline : string) (tmp : list string) (ir : Z → reg → instr) (rr : reg → reg → instr) (msg : string) :
    M sim instr :=
  a ← two_args op cline tmp;
  match a with
  | (Imm n, Reg r) => mret (ir n r)
  | (Reg r, Reg q) => mret (rr r q)
  | _ => malformed msg
  end.

(** [fetchadd] and [xchg]; an integer has no [split]. *)
Definition load_atomic (op cline : string) (tmp : list string) (mk : reg → Z → reg → reg → instr) (msg : string) : M sim instr :=
  a ← two_args op cline tmp;
  match a with
  | (_, Imm _) | (_, Reg _) => raise AttributeError
  | (_, Label _) => raise AssertionError
  | (Reg r, Mem v x y _) => mret (mk r v x y)
  | _ => malformed msg
  end.

Definition load_test (cline : string) (tmp : list string) : M sim instr :=
  a ← two_args "test" cline tmp;
  match a with
  | (Imm n, Reg r) => mret (I_test_i_r n r)
  | (Reg r, Reg q) => mret (I_test_r_r r q)
  | (Reg r, Imm n) => mret (I_test_r_i r n)
  | _ => malformed "malformed usage of test instruction"
  end.

Definition load_jump (tmp : list string) (mk : Z → instr) : M sim instr :=
  x ← list_get tmp 1;
  a ← getarg (strip x);
  match a with
  | Label l => s ← get; t ← dict_get (labels s) l; mret (mk t)
  | _ => malformed ("bad jump target [" +:+ strip x +:+ "]")
  end.

Definition load_instr (cline opcode : string) (tmp : list string) : M sim instr :=
  let op x := bool_decide (opcode = x) in
  if op "mov" then load_mov cline tmp
  else if op "lea" then load_lea cline tmp
  else if op "neg" then load_neg tmp
  else if op "pop" then load_pop tmp
  else if op "push" then load_push tmp
  else if op "call" then load_call tmp
  else if op "ret" then passert (len tmp =? 1);; mret I_ret
  else if op "mul" then load_arith "mul" cline tmp I_mul_i_to_r I_mul_r_to_r "malformed usage of add instruction"
  else if op "add" then load_arith "add" cline tmp I_add_i_to_r I_add_r_to_r "malformed usage of add instruction"
  else if op "sub" then load_arith "sub" cline tmp I_sub_i_to_r I_sub_r_to_r "malformed usage of sub instruction"
  else if op "fetchadd" then load_atomic "fetchadd" cline tmp I_fetchadd "poorly specified fetch and add"
  else if op "xchg" then load_atomic "xchg" cline tmp I_atomic_exchange "poorly specified atomic exchange"
  else if op "test" then load_test cline tmp
  else if op "j" then load_jump tmp I_jump
  else if op "jne" then load_jump tmp (I_jump_if NEQ)
  else if op "je" then load_jump tmp (I_jump_if EQ)
  else if op "jlt" then load_jump tmp (I_jump_if LT)
  else if op "jlte" then load_jump tmp (I_jump_if LTE)
  else if op "jgt" then load_jump tmp (I_jump_if GT)
  else if op "jgte" then load_jump tmp (I_jump_if GTE)
  else if op "nop" then mret I_nop
  else if op "halt" then mret I_halt
  else if op "yield" then mret I_iyield
  else if op "rdump" then mret I_rdump
  else if op "mdump" then x ← list_get tmp 1; mret (I_mdump x)
  else print ("illegal opcode:  " +:+ opcode);; raise (SystemExit 1).

(** *** The loader *)

Section Sim.
Context (cfg : config).

Definition max_memory : Z := memsize cfg * 1024.

(** A line without its comment *)
Definition clean_line (line : string) : M sim string :=
  let cline := rstrip line in
  match split_on "#" cline with
  | [_] => mret cline
  | [c; _] => mret c
  | _ => raise AssertionError
  end.

(** The first pass: labels and variables *)
Definition first_pass_line (bpc : Z) (loc : Z * Z) (line : string) : M sim (Z * Z) :=
  let '(pc, data) := loc in
  cline ← clean_line line;
  match split_ws cline with
  | [] => mret (pc, data)
  | w :: ws =>
      c ← str_head w;
      if bool_decide (w = ".var") then
        passert ((len ws =? 1) || (len ws =? 2));;
        s ← get;
        passert (bool_decide (vars s !! w = None));;
        name ← list_get ws 0;
        modify (λ s, s <| vars ::= <[name := data]> |>);;
        mul ← (if len ws =? 2 then x ← list_get ws 1; py_int x else mret 1);
        let data' := data + 4 * mul in
        zassert (data' <? bpc) "Load address overrun by static data";;
        when (verbose cfg) (print ("ASSIGN VAR " +:+ w +:+ " --> " +:+ name +:+ " " +:+ str_of_Z data));;
        mret (pc, data')
      else if Ascii.eqb c "." then
        passert (len ws =? 0);;
        modify (λ s, s <| labels ::= <[w := pc]> |>);;
        when (verbose cfg) (print ("ASSIGN LABEL " +:+ w +:+ " --> " +:+ str_of_Z pc));;
        mret (pc, data)
      else mret (pc + 1, data)
  end.

(** The second pass: instructions *)
Definition second_pass_line (pc : Z) (line : string) : M sim Z :=
  cline ← clean_line line;
  match split_ws cline with
  | [] => mret pc
  | _ =>
      c ← str_head cline;
      if Ascii.eqb c "." then mret pc
      else
        let tmp := split1_ws cline in
        opcode ← list_get tmp 0;
        modify (λ s, s <| pmemory ::= <[pc := strip cline]> |>);;
        when (verbose cfg) (print ("opcode " +:+ opcode));;
        i ← load_instr cline opcode tmp;
        on_core (set_memory pc (Code [i]));;
        when (verbose cfg)
          (print ("pc:" +:+ str_of_Z pc +:+ " LOADING " +:+ rjust 20 (strip cline) +:+ " --> " +:+ instr_text i));;
        mret (pc + 1)
  end.

Definition load (infile : list string) (loadaddr : Z) : M sim unit :=
  for_acc infile (loadaddr, 100) (first_pass_line loadaddr);;
  when (verbose cfg) (print "");;
  for_acc infile loadaddr second_pass_line;;
  when (verbose cfg) (print "").

(** *** Threads *)

Definition process_init (tid : Z) (pc : val) (stackbottom : Z) (reginit : string) : M sim process :=
  f ← (if bool_decide (reginit = "") then mret init_registers else
    for_acc (split_on ":" reginit) init_registers (λ f r,
      match split_on "=" r with
      | [name; value] =>
          n ← py_int value;
          r ← of_option AssertionError (find_reg name);
          mret (set_reg f r (Num n))
      | _ => raise AssertionError
      end));
  mret (Process tid pc (set_reg f SP (Num stackbottom)) init_condition_codes false stackbottom).

Definition addproc (p : process) : M sim unit := modify (λ s, s <| active ::= Z.succ |> <| plist ::= (.++ [p]) |>).
Definition getnum (s : sim) : Z := len (plist s).
Definition numdone (s : sim) : Z := len (plist s) - active s.

(** [self.procsched[self.curr]], and the process there *)
Definition curr_index : M sim Z := s ← get; list_get (procsched s) (curr s).
Definition getcurr : M sim process := p ← curr_index; s ← get; list_get (plist s) p.
Definition set_proc (p : Z) (x : process) : M sim unit := s ← get; l ← list_set (plist s) p x; plist <~ l.

Definition proc_save : M sim unit :=
  p ← curr_index; x ← getcurr; s ← get;
  set_proc p (x <| pc := PC (cpu s) |> <| cc := conditions (cpu s) |> <| regs := registers (cpu s) |>).
Definition proc_restore : M sim unit :=
  x ← getcurr;
  modify (λ s, s <| cpu ::= λ c, c <| PC := pc x |> <| conditions := cc x |> <| registers := regs x |> |>).
Definition proc_done : M sim unit :=
  p ← curr_index; x ← getcurr; set_proc p (x <| done := true |>);; modify (λ s, s <| active ::= Z.pred |>).

(** The next thread of the schedule that is not done; without one the loop
    never ends. *)
Definition proc_next : M sim unit :=
  s ← get;
  while_ (S (length (procsched s))) tt (λ _,
    modify (λ s, s <| curr ::= Z.succ |>);;
    s ← get;
    when (curr s =? len (procsched s)) (curr <~ 0);;
    x ← getcurr;
    mret (if done x then inl tt else inr tt)).

Definition list_text (l : list Z) : string := "[" +:+ join ", " (str_of_Z <$> l) +:+ "]".

Definition finalize (sched : string) : M sim unit :=
  (if bool_decide (sched = "") then
     s ← get; procsched <~ (procsched s ++ range 0 (len (plist s)))
   else
     manual <~ true;;
     for_ (String.list_ascii_of_string sched) (λ c,
       p ← py_int (String c "");
       s ← get;
       when (getnum s <=? p)
         (print ("bad schedule: cannot include a thread that does not exist (" +:+ str_of_Z p +:+ ")");; raise (SystemExit 1));;
       procsched <~ (procsched s ++ [p]));;
     s ← get;
     when (negb (len (remove_dups (procsched s)) =? active s))
       (print ("bad schedule: does not include ALL processes " +:+ list_text (procsched s));; raise (SystemExit 1)));;
  curr <~ 0;;
  proc_restore.

(** *** Tracing *)

Definition dospace (howmuch : Z) : M sim unit := for_ (range 0 howmuch) (λ _, put_str (rjust 24 " " +:+ " ")).

Definition str_digit_head (m : string) : M sim bool := c ← str_head m; mret (is_digit c).

Definition print_headers : M sim unit :=
  when (printstats cfg) (put_str "icount ");;
  when (0 <? len (memtrace cfg))
    (for_ (memtrace cfg) (λ m,
       d ← str_digit_head m;
       if (d : bool) then n ← py_int m; put_str (fmt_d 5 n +:+ " ")
       else s ← get;
            zassert (bool_decide (is_Some (vars s !! m))) ("Traced variable " +:+ m +:+ " not declared");;
            put_str (rjust 5 m +:+ " "));;
     put_str "  ");;
  when (0 <? len (regtrace cfg))
    (for_ (regtrace cfg) (λ r, put_str (rjust 5 (get_regname r) +:+ " "));; put_str "  ");;
  when (cctrace cfg) (put_str ">= >  <= <  != == ");;
  s ← get;
  for_ (range 0 (getnum s)) (λ i, put_str ("       Thread " +:+ str_of_Z i +:+ "         "));;
  print "".

(** ['%5d' % v] *)
Definition put_val (v : val) : M sim unit :=
  match v with Num n => put_str (fmt_d 5 n +:+ " ") | Code _ => raise TypeError end.
Definition question : M sim unit := put_str (rjust 5 "?" +:+ " ").

Definition condlist : list cond := [GTE; GT; LTE; LT; NEQ; EQ].

Definition print_trace (newline : bool) : M sim unit :=
  s ← get;
  when (printstats cfg) (put_str (fmt_d 6 (icount s) +:+ " "));;
  when (0 <? len (memtrace cfg))
    (for_ (memtrace cfg) (λ m,
       if compute cfg then
         d ← str_digit_head m;
         a ← (if (d : bool) then py_int m else
           zassert (bool_decide (is_Some (vars s !! m))) ("Traced variable " +:+ m +:+ " not declared");;
           dict_get (vars s) m);
         v ← on_core (get_memory max_memory (Num a));
         put_val v
       else question);;
     put_str "  ");;
  when (0 <? len (regtrace cfg))
    (for_ (regtrace cfg) (λ r, if compute cfg then put_val (get_reg (registers (cpu s)) r) else question);; put_str "  ");;
  when (cctrace cfg)
    (for_ condlist (λ c, put_str ((if compute cfg then if get_cond (conditions (cpu s)) c then "1 " else "0 " else "? ") +:+ " ")));;
  when (((0 <? len (memtrace cfg)) || (0 <? len (regtrace cfg)) || cctrace cfg) && newline) (print "").

(** *** The main loop *)

Definition setint (intfreq : Z) (intrand : bool) : M sim Z :=
  if intrand then k ← rand_int intfreq; mret (k + 1) else mret intfreq.

Definition print_banner (x : string) : M sim unit :=
  s ← get; for_ (range 0 (getnum s)) (λ _, put_str x);; print "".

Definition print_line (id : Z) (prevPC : val) : M sim unit :=
  dospace id;;
  s ← get;
  match prevPC with
  | Num a => x ← dict_get (pmemory s) a; print (str_of_Z a +:+ " " +:+ x)
  | Code _ => raise KeyError
  end.

Definition switch_halted : M sim unit :=
  proc_next;; proc_restore;; print_trace false;; print_banner "----- Halt;Switch -----  ".

Definition interrupt_switch : M sim unit :=
  old ← curr_index;
  proc_save;; proc_next;; proc_restore;;
  new ← curr_index;
  s ← get;
  when (negb (manual s) || negb (old =? new)) (print_trace false;; print_banner "------ Interrupt ------  ").

(** The body of the loop of [run]: the local is the interrupt counter. *)
Definition cycle (intfreq : Z) (intrand : bool) (interrupt : Z) : M sim (Z + Z) :=
  s ← get;
  when ((0 <? headercount cfg) && (icount s mod headercount cfg =? 0) && (0 <? icount s))
    (print "";; print_headers;; print "";; print_trace true);;
  x ← getcurr;
  let prevPC := PC (cpu s) in
  rc ← on_core (fetch_exec max_memory);
  print_trace false;;
  print_line (tid x) prevPC;;
  modify (λ s, s <| icount ::= Z.succ |>);;
  when (rc =? -1) proc_done;;
  s ← get;
  if (rc =? -1) && (numdone s =? getnum s) then mret (inr (icount s))
  else
    when (rc =? -1) switch_halted;;
    let interrupt := interrupt - 1 in
    if (interrupt =? 0) || (rc =? -2) then
      interrupt ← setint intfreq intrand;
      interrupt_switch;;
      mret (inl interrupt)
    else mret (inl interrupt).

Definition run (fuel : nat) (intfreq : Z) (intrand : bool) : M sim Z :=
  s ← get;
  let '(intfreq, intrand) := if manual s then (1, false) else (intfreq, intrand) in
  interrupt ← setint intfreq intrand;
  icount <~ 0;;
  print "";; print_headers;; print "";; print_trace true;;
  while_ fuel interrupt (cycle intfreq intrand).

(** The program after its options: the file's lines, one set of registers per
    thread or one for all *)
Definition main (fuel : nat) (infile : list string) (numthreads intfreq : Z) (intrand : bool) (argv sched : string)
    (loadaddr : Z) : M sim Z :=
  zassert (0 <? intfreq) "Interrupt frequency must be greater than 0";;
  let args := split_on "," argv in
  zassert ((len args =? numthreads) || (len args =? 1))
    "argv: must be one per-thread or just one set of values for all threads";;
  load infile loadaddr;;
  for_ (range 0 numthreads) (λ t,
    a ← list_get args (if 1 <? len args then t else 0);
    p ← process_init t (Num loadaddr) (memsize cfg * 1000 - 1000 * t) a;
    addproc p);;
  finalize sched;;
  run fuel intfreq intrand.
End Sim.

Definition sim_blank : sim :=
  Sim (Core (Num 0) init_registers init_condition_codes ∅) ∅ ∅ ∅ 0 [] 0 false [] 0.

(** ** Threads are independent

    What a thread consists of, and the threads of a simulation: the current
    one is in the processor, the others are where they were saved. *)

Record ctx := Ctx { c_pc : val; c_regs : regfile; c_cc : conds }.

(** A thread that has halted has no context. *)
Definition saved (x : process) : option ctx := if done x then None else Some (Ctx (pc x) (regs x) (cc x)).
Definition live (c : core) : ctx := Ctx (PC c) (registers c) (conditions c).
Definition core_of (t : ctx) (m : gmap Z val) : core := Core (c_pc t) (c_regs t) (c_cc t) m.

(** The current thread *)
Definition current (s : sim) (i : nat) : Prop :=
  ∃ x, procsched s !! Z.to_nat (curr s) = Some (Z.of_nat i) ∧ 0 ≤ curr s ∧ plist s !! i = Some x.

(** The threads when thread [i] has the processor *)
Definition threads (s : sim) (i : nat) : list (option ctx) := <[i := Some (live (cpu s))]> (saved <$> plist s).

Definition unfinished (s : sim) : Z := sum_of (λ x, if done x then 0 else 1) (plist s).

(** The schedule names every thread and no others, and the counter counts the
    threads that are not done. *)
Record wf (s : sim) : Prop := {
  wf_sched : ∀ p, p ∈ procsched s ↔ 0 ≤ p < len (plist s);
  wf_curr : 0 ≤ curr s < len (procsched s);
  wf_active : active s = unfinished s;
}.

(** Everything but the threads, the memory and the scheduler's position *)
Definition frame (s : sim) := (labels s, vars s, pmemory s, manual s, procsched s).

Section Threads.
Context (cfg : config).
Implicit Types (s : sim) (E : exn → sim → world → Prop).

Lemma wf_current s : wf s → ∃ i, current s i.
Proof.
  intros [Hs [H1 H2] _]. unfold len in H2.
  destruct (lookup_lt_is_Some_2 (procsched s) (Z.to_nat (curr s))) as [p Hp]; [lia|].
  assert (0 ≤ p < len (plist s)) as Hr by (apply Hs; by eapply list_elem_of_lookup_2). unfold len in Hr.
  destruct (lookup_lt_is_Some_2 (plist s) (Z.to_nat p)) as [x Hx]; [lia|].
  exists (Z.to_nat p), x. rewrite Z2Nat.id by lia. done.
Qed.

Lemma wp_curr_index s w i (Q : Z → sim → world → Prop) E : current s i → Q (Z.of_nat i) s w → wp curr_index Q E s w.
Proof.
  intros (x & Hp & H0 & Hx) HQ. unfold curr_index. wp_pures.
  rewrite <-(Z2Nat.id (curr s)) by done. by rewrite py_get_nat, Hp.
Qed.

Lemma wp_getcurr s w i x (Q : process → sim → world → Prop) E : current s i → plist s !! i = Some x → Q x s w → wp getcurr Q E s w.
Proof.
  intros Hi Hx HQ. unfold getcurr. wp_pures. eapply wp_curr_index; [done|]. wp_pures. by rewrite py_get_nat, Hx.
Qed.

Lemma wp_set_proc s w (i : nat) y x (Q : unit → sim → world → Prop) E : plist s !! i = Some x →
  Q tt (s <| plist := <[i := y]> (plist s) |>) w → wp (set_proc (Z.of_nat i) y) Q E s w.
Proof.
  intros Hx HQ. unfold set_proc. wp_pures. rewrite py_set_nat by by eapply lookup_lt_Some. by wp_pures.
Qed.

(** The distance to position [k] in the cyclic order *)
Lemma cyclic_distance n k c : 0 ≤ k < n → 0 ≤ c < n → (k - c - 1) mod n = if decide (c < k) then k - c - 1 else k - c - 1 + n.
Proof.
  intros Hk Hc. case_decide; [by rewrite Z.mod_small by lia|].
  symmetry. apply (Z.mod_unique _ _ (-1)); lia.
Qed.

Lemma next_closer n k c c' : 0 ≤ k < n → 0 ≤ c < n → c' = (if c + 1 =? n then 0 else c + 1) → c' ≠ k →
  (k - c' - 1) mod n < (k - c - 1) mod n.
Proof.
  intros Hk Hc -> Hne. destruct (Z.eqb_spec (c + 1) n); rewrite !cyclic_distance by lia; repeat case_decide; lia.
Qed.

Lemma unfinished_pos s : 0 < unfinished s → ∃ j x, plist s !! j = Some x ∧ done x = false.
Proof.
  unfold unfinished. induction (plist s) as [|x l IH]; [done|]. rewrite sum_of_cons. intros Hpos.
  destruct (done x) eqn:Hx; [|by exists 0%nat, x]. destruct IH as (j & y & ? & ?); [lia|]. by exists (S j), y.
Qed.

(** The next thread: one that is not done, when there is one *)
Lemma wp_proc_next s w (Q : unit → sim → world → Prop) E : wf s → 0 < unfinished s →
  (∀ k j x, 0 ≤ k < len (procsched s) → procsched s !! Z.to_nat k = Some (Z.of_nat j) → plist s !! j = Some x → done x = false →
     Q tt (s <| curr := k |>) w) →
  wp proc_next Q E s w.
Proof.
  intros [Hs [Hc1 Hc2] _] Hun HQ.
  destruct (unfinished_pos _ Hun) as (j & x & Hj & Hx).
  assert (∃ k, 0 ≤ k < len (procsched s) ∧ procsched s !! Z.to_nat k = Some (Z.of_nat j)) as (k & Hk & Hkj).
  { assert (Z.of_nat j ∈ procsched s) as Hin by (apply Hs; pose proof (lookup_lt_Some _ _ _ Hj); unfold len; lia).
    apply list_elem_of_lookup in Hin as [k Hk]. exists (Z.of_nat k). rewrite Nat2Z.id.
    pose proof (lookup_lt_Some _ _ _ Hk). unfold len. split; [lia|done]. }
  unfold proc_next. wp_pures. set (n := len (procsched s)) in *.
  apply (wp_while (λ _ s' w', w' = w ∧ s' = s <| curr := curr s' |> ∧ 0 ≤ curr s' < n) (λ _ s' _, Z.to_nat ((k - curr s' - 1) mod n))).
  - split_and!; [done|by destruct s|lia|lia].
  - pose proof (Z.mod_pos_bound (k - curr s - 1) n ltac:(lia)). unfold n, len in *. lia.
  - intros [] s' w' (-> & Hs' & Hc'). set (c' := if curr s' + 1 =? n then 0 else curr s' + 1).
    assert (0 ≤ c' < n) as Hcr by (unfold c'; destruct (Z.eqb_spec (curr s' + 1) n); lia).
    wp_pures. rewrite Hs'. simpl. fold n. change (Z.succ (curr s')) with (curr s' + 1).
    assert (∀ s1, s1 = s <| curr := c' |> → wp (x ← getcurr; mret (if done x then inl () else inr ())) (λ r s2 w2,
      match r with
      | inl _ => (w2 = w ∧ s2 = s <| curr := curr s2 |> ∧ 0 ≤ curr s2 < n) ∧
          (Z.to_nat ((k - curr s2 - 1) mod n) < Z.to_nat ((k - curr s' - 1) mod n))%nat
      | inr r => Q r s2 w2
      end) E s1 w) as Hget.
    { intros s1 ->. destruct (lookup_lt_is_Some_2 (procsched s) (Z.to_nat c')) as [p Hp]; [unfold n, len in *; lia|].
      assert (0 ≤ p < len (plist s)) as Hpr by (apply Hs; by eapply list_elem_of_lookup_2).
      destruct (lookup_lt_is_Some_2 (plist s) (Z.to_nat p)) as [y Hy]; [unfold len in *; lia|].
      rewrite wp_bind. apply (wp_getcurr _ _ (Z.to_nat p) y); [|done|].
      { exists y. rewrite Z2Nat.id by lia. simpl. split_and!; [done|lia|done]. }
      wp_pures. destruct (done y) eqn:Hdone; [|apply (HQ c' (Z.to_nat p) y); [done|by rewrite Z2Nat.id by lia|done..]].
      simpl. split_and!; [done..|lia|lia|]. assert (c' ≠ k) as Hne.
      { intros ->. rewrite Hkj in Hp. injection Hp as <-. rewrite Nat2Z.id in Hy. congruence. }
      pose proof (next_closer n k (curr s') c' Hk Hc' eq_refl Hne).
      pose proof (Z.mod_pos_bound (k - c' - 1) n ltac:(lia)). lia. }
    unfold c' in *. destruct (Z.eqb_spec (curr s' + 1) n);
      apply (λ s1 H, wp_unbind _ _ _ _ _ _ (Hget s1 H)); done.
Qed.

(** [E] allows for the exceptions that only the tracing raises. *)
Definition untraced E : Prop := (memtrace cfg = [] ∧ regtrace cfg = []) ∨ ∀ e s w, E e s w.

Lemma keeps_zassert c msg : keeps (=) (zassert c msg).
Proof. unfold zassert, print. keeps_solve. Qed.
Lemma keeps_on_core {A} (m : M core A) : keeps (=) m → keeps (=) (on_core m).
Proof.
  intros Hm s w. unfold on_core, zoom. specialize (Hm (cpu s) w).
  destruct (m (cpu s) w); subst; by destruct s.
Qed.
Lemma keeps_get_memory mm a : keeps (=) (get_memory mm a).
Proof. unfold get_memory. keeps_solve. Qed.

(** Code that changes nothing, and raises nothing that [E] does not allow *)
Lemma wp_harmless {A} (m : M sim A) (Q : A → sim → world → Prop) E s w :
  keeps (=) m → wp m (λ _ _ _, True) E s w → (∀ a w', Q a s w') → wp m Q E s w.
Proof. intros Hk Hm HQ. unfold wp in *. specialize (Hk s w). destruct (m s w); naive_solver. Qed.

Lemma wp_put_all {A} (l : list A) (f : A → string) s w (Q : unit → sim → world → Prop) E :
  (∀ w', Q tt s w') → wp (for_ l (λ x, put_str (f x))) Q E s w.
Proof.
  intros HQ. apply (wp_for (λ _ s' _, s' = s)); [done| |by intros s' w' ->].
  intros pre x post s' w' _ ->. by wp_pures.
Qed.

(** With nothing to trace, or with [E] allowing for it *)
Lemma wp_untraced m (Q : unit → sim → world → Prop) E s w : untraced E → keeps (=) m → preserves (λ _, True) m →
  (memtrace cfg = [] → regtrace cfg = [] → wp m (λ _ _ _, True) noexn s w) → (∀ w', Q tt s w') → wp m Q E s w.
Proof.
  intros Hun Hk Hp Hm HQ. apply wp_harmless; [done| |by intros []]. destruct Hun as [[H1 H2]|HE].
  - eapply wp_mono; [by apply Hm|done|done].
  - eapply wp_mono; [by apply Hp|done|auto].
Qed.

Lemma keeps_str_digit_head m : keeps (=) (str_digit_head m).
Proof. unfold str_digit_head, str_head. keeps_solve. Qed.
Lemma preserves_str_digit_head m : preserves (λ _, True) (str_digit_head m).
Proof. unfold str_digit_head, str_head. preserves_solve. Qed.
Lemma preserves_zassert I c msg : preserves I (zassert c msg).
Proof. unfold zassert, print. preserves_solve. Qed.
#[local] Hint Resolve keeps_zassert keeps_str_digit_head keeps_on_core keeps_get_memory : keeps.
#[local] Hint Resolve preserves_zassert preserves_str_digit_head : preserves.
Lemma preserves_on_core_read mm a : preserves (λ _, True) (on_core (get_memory mm a)).
Proof.
  intros s w _. unfold on_core. rewrite wp_zoom. unfold get_memory. destruct a; wp_pures; [|done].
  repeat case_match; by wp_pures.
Qed.
#[local] Hint Resolve preserves_on_core_read : preserves.

Lemma wp_print_headers s w (Q : unit → sim → world → Prop) E : untraced E → (∀ w', Q tt s w') → wp (print_headers cfg) Q E s w.
Proof.
  intros Hun HQ. apply wp_untraced; [done| | | |done]; unfold print_headers, print, dict_get, py_int.
  - keeps_solve.
  - preserves_solve.
  - intros -> ->. simpl. destruct (printstats cfg), (cctrace cfg); wp_pures; apply wp_put_all; intros; by wp_pures.
Qed.

Lemma wp_print_trace b s w (Q : unit → sim → world → Prop) E : untraced E → (∀ w', Q tt s w') → wp (print_trace cfg b) Q E s w.
Proof.
  intros Hun HQ. apply wp_untraced; [done| | | |done]; unfold print_trace, print, dict_get, py_int, question, put_val.
  - keeps_solve.
  - preserves_solve.
  - intros -> ->. simpl. destruct (printstats cfg), (cctrace cfg); wp_pures;
      repeat (apply wp_put_all; intros); wp_pures; destruct b; by wp_pures.
Qed.

Lemma wp_print_banner x s w (Q : unit → sim → world → Prop) E : (∀ w', Q tt s w') → wp (print_banner x) Q E s w.
Proof. intros HQ. unfold print_banner. wp_pures. apply wp_put_all. intros. by wp_pures. Qed.

Lemma wp_print_line id v s w (Q : unit → sim → world → Prop) E :
  (∃ a, v = Num a ∧ is_Some (pmemory s !! a)) ∨ (∀ e s w, E e s w) → (∀ w', Q tt s w') → wp (print_line id v) Q E s w.
Proof.
  intros Hv HQ. unfold print_line, dospace. rewrite wp_bind. apply wp_put_all. intros w'. wp_pures.
  destruct Hv as [(a & -> & x & Hx)|HE]; [rewrite wp_bind, wp_dict_get, Hx; by wp_pures|].
  destruct v; [rewrite wp_bind, wp_dict_get|apply HE]. case_match; [by wp_pures|apply HE].
Qed.

(** *** Switching *)

(** Thread [i] is running; [ts], [m] and [fr] are the threads, the memory and
    the rest. *)
Record running (s : sim) (ts : list (option ctx)) (m : gmap Z val) (fr : gmap string Z * gmap string Z * gmap Z string * bool * list Z)
    (i : nat) : Prop := {
  ru_wf : wf s;
  ru_current : current s i;
  ru_undone : ∃ x, plist s !! i = Some x ∧ done x = false;
  ru_threads : threads s i = ts;
  ru_memory : memory (cpu s) = m;
  ru_frame : frame s = fr;
}.

(** From a state whose processor holds nothing of value to the next thread *)
Lemma wp_next_restore s ts w (Q : unit → sim → world → Prop) E : wf s → 0 < unfinished s → saved <$> plist s = ts →
  (∀ s' i, running s' ts (memory (cpu s)) (frame s) i → Q tt s' w) → wp (proc_next;; proc_restore) Q E s w.
Proof.
  intros Hwf Hun Hts HQ. wp_pures. apply wp_proc_next; [done..|]. intros k j x Hk Hkj Hj Hx.
  assert (current (s <| curr := k |>) j) as Hcur by (exists x; split_and!; [done|simpl; lia|done]).
  unfold proc_restore. wp_pures. eapply wp_getcurr; [done..|]. wp_pures. apply (HQ _ j). split; simpl.
  - destruct Hwf as [H1 H2 H3]. by split.
  - destruct Hcur as (y & ? & ? & ?). by exists y.
  - by exists x.
  - unfold threads, live. simpl. rewrite <-Hts. apply list_insert_id. rewrite list_lookup_fmap, Hj. simpl.
    unfold saved. by rewrite Hx.
  - done.
  - done.
Qed.

Lemma saved_live s i x : plist s !! i = Some x → done x = false →
  saved <$> <[i := x <| pc := PC (cpu s) |> <| cc := conditions (cpu s) |> <| regs := registers (cpu s) |>]> (plist s) = threads s i.
Proof. intros Hi Hx. rewrite list_fmap_insert. unfold threads, saved at 1. simpl. by rewrite Hx. Qed.

Lemma wp_interrupt_switch s ts m fr i w (Q : unit → sim → world → Prop) E : untraced E → running s ts m fr i →
  (∀ s' i' w', running s' ts m fr i' → Q tt s' w') → wp (interrupt_switch cfg) Q E s w.
Proof.
  intros Hun [[Hs Hc Ha] Hcur (x & Hx & Hd) Hts Hm Hfr] HQ. unfold interrupt_switch. rewrite wp_bind.
  eapply wp_curr_index; [done|]. unfold proc_save. rewrite wp_bind, wp_bind. eapply wp_curr_index; [done|].
  rewrite wp_bind. eapply wp_getcurr; [done..|]. wp_pures. eapply wp_set_proc; [done|].
  set (s1 := s <| plist := _ |>).
  assert (unfinished s1 = unfinished s) as Hu1.
  { unfold unfinished, s1. simpl. rewrite (sum_of_list_update _ _ _ _ _ Hx). simpl. rewrite Hd. lia. }
  assert (0 < unfinished s) as Hpos.
  { unfold unfinished. apply list_elem_of_split_length in Hx as (l1 & l2 & -> & _). rewrite sum_of_app, sum_of_cons, Hd.
    assert (∀ l, 0 ≤ sum_of (λ x, if done x then 0 else 1) l) as Hnn by (intros l; apply sum_of_nonneg; intros y _; by case_match).
    pose proof (Hnn l1). pose proof (Hnn l2). lia. }
  assert (wf s1) as Hwf1.
  { split; unfold s1; simpl; [|done|by change (active s = unfinished s1); rewrite Hu1]. intros p. rewrite Hs. unfold len. by rewrite length_insert. }
  assert (wp (proc_next;; proc_restore) (λ _ s' w', ∃ i', running s' ts m fr i') E s1 w) as Hsw.
  { eapply wp_next_restore; [done|by rewrite Hu1|by rewrite <-Hts; apply saved_live|].
    intros s' i' Hr. exists i'. rewrite <-Hm, <-Hfr, <-Hts. exact Hr. }
  apply wp_unbind in Hsw. rewrite wp_bind. eapply wp_conseq; [exact Hsw|]. intros [] s2 w2 H2. cbv beta in H2 |- *.
  rewrite wp_bind. eapply wp_conseq; [exact H2|]. intros [] s3 w3 [i' H3]. cbv beta.
  rewrite wp_bind. eapply wp_curr_index; [apply H3|]. wp_pures. destruct (_ || _); wp_pures; [|by eapply HQ].
  apply wp_print_trace; [done|]. intros w4. apply wp_print_banner. intros w5. by eapply HQ.
Qed.

Lemma wp_switch_halted s ts w (Q : unit → sim → world → Prop) E : untraced E → wf s → 0 < unfinished s → saved <$> plist s = ts →
  (∀ s' i w', running s' ts (memory (cpu s)) (frame s) i → Q tt s' w') → wp (switch_halted cfg) Q E s w.
Proof.
  intros Hun Hwf Hpos Hts HQ. unfold switch_halted.
  assert (wp (proc_next;; proc_restore) (λ _ s' w', ∃ i', running s' ts (memory (cpu s)) (frame s) i') E s w) as Hsw
    by (eapply wp_next_restore; eauto).
  apply wp_unbind in Hsw. rewrite wp_bind. eapply wp_conseq; [exact Hsw|]. intros [] s2 w2 H2. cbv beta in H2 |- *.
  rewrite wp_bind. eapply wp_conseq; [exact H2|]. intros [] s3 w3 [i' H3]. cbv beta. wp_pures.
  apply wp_print_trace; [done|]. intros w4. apply wp_print_banner. intros w5. by eapply HQ.
Qed.

(** *** One iteration of the main loop *)

(** After thread [i] has executed an instruction with result [rc] *)
Definition stepped (ts : list (option ctx)) (i : nat) (rc : Z) (c : core) : list (option ctx) :=
  <[i := if rc =? -1 then None else Some (live c)]> ts.

Definition cycled (ts : list (option ctx)) (m : gmap Z val)
    (fr : gmap string Z * gmap string Z * gmap Z string * bool * list Z) (r : Z + Z) (s : sim) : Prop :=
  match r with
  | inl _ => ∃ i, running s ts m fr i
  | inr _ => saved <$> plist s = ts ∧ unfinished s = 0 ∧ memory (cpu s) = m ∧ frame s = fr
  end.

Lemma unfinished_nonneg s : 0 ≤ unfinished s.
Proof. apply sum_of_nonneg. intros x _. by case_match. Qed.

Lemma wp_after_step s ts m fr i rc interrupt intfreq intrand w (Q : Z + Z → sim → world → Prop) E : untraced E →
  running s ts m fr i →
  (∀ r s' w', cycled (stepped ts i rc (cpu s)) m fr r s' → Q r s' w') →
  wp (when (rc =? -1) proc_done;;
      s ← get;
      if (rc =? -1) && (numdone s =? getnum s) then mret (inr (icount s))
      else
        when (rc =? -1) (switch_halted cfg);;
        let interrupt := interrupt - 1 in
        if (interrupt =? 0) || (rc =? -2) then
          interrupt ← setint intfreq intrand;
          interrupt_switch cfg;;
          mret (inl interrupt)
        else mret (inl interrupt)) Q E s w.
Proof.
  intros Hun Hrun HQ.
  assert (∀ s1 ts1 i1 w1, ts1 = stepped ts i rc (cpu s) → running s1 ts1 m fr i1 →
    wp (let interrupt := interrupt - 1 in
        if (interrupt =? 0) || (rc =? -2) then
          interrupt ← setint intfreq intrand;
          interrupt_switch cfg;;
          mret (inl interrupt)
        else mret (inl interrupt)) Q E s1 w1) as Htail.
  { intros s1 ts1 i1 w1 -> H1. cbv zeta. destruct (_ || _); wp_pures; [|apply HQ; by exists i1].
    unfold setint, rand_int. destruct intrand; wp_pures; (eapply wp_interrupt_switch; [done..|]);
      intros s2 i2 w2 H2; wp_pures; apply HQ; by exists i2. }
  unfold stepped in *. destruct (Z.eqb_spec rc (-1)) as [->|Hrc]; wp_pures.
  2: { eapply Htail; [|done]. destruct Hrun as [_ _ (x & Hx & _) <- _ _]. unfold threads. by rewrite list_insert_insert_eq. }
  destruct Hrun as [[Hs Hc Ha] Hcur (x & Hx & Hd) Hts Hm Hfr].
  unfold proc_done. rewrite wp_bind. eapply wp_curr_index; [done|]. rewrite wp_bind. eapply wp_getcurr; [done..|].
  rewrite wp_bind. eapply wp_set_proc; [done|]. wp_pures.
  set (s1 := _ <| active ::= Z.pred |>).
  assert (unfinished s1 = unfinished s - 1) as Hu1.
  { unfold unfinished, s1. simpl. rewrite (sum_of_list_update _ _ _ _ _ Hx). simpl. rewrite Hd. lia. }
  assert (active s1 = unfinished s1) as Ha1 by (rewrite Hu1; unfold s1; simpl; lia).
  assert (saved <$> plist s1 = <[i := None]> ts) as Hs1.
  { unfold s1. simpl. rewrite list_fmap_insert. unfold saved at 1. simpl. rewrite <-Hts. unfold threads.
    by rewrite list_insert_insert_eq. }
  assert (wf s1) as Hwf1.
  { split; [|done|done]. intros p. unfold s1. simpl. rewrite Hs. unfold len. by rewrite length_insert. }
  pose proof (unfinished_nonneg s1). unfold numdone, getnum. rewrite Ha1. cbn [andb].
  destruct (Z.eqb_spec (len (plist s1) - unfinished s1) (len (plist s1))) as [H0|H0]; wp_pures.
  - apply HQ. split_and!; [done|lia|done..].
  - eapply wp_switch_halted; [done|done|lia|done|]. intros s2 i2 w2 H2. apply (Htail _ (<[i := None]> ts) i2); [done|].
    assert (memory (cpu s1) = m ∧ frame s1 = fr) as [Hm1 Hfr1] by (split; [exact Hm|exact Hfr]).
    rewrite Hm1, Hfr1 in H2. exact H2.
Qed.

Lemma wp_cycle s ts m fr i intfreq intrand interrupt w (Q : Z + Z → sim → world → Prop) E : untraced E →
  running s ts m fr i →
  (∀ w, wp (fetch_exec (max_memory cfg)) (λ rc c _,
    ((∃ a, PC (cpu s) = Num a ∧ is_Some (pmemory s !! a)) ∨ (∀ e s w, E e s w)) ∧
    ∀ r s' w', cycled (stepped ts i rc c) (memory c) fr r s' → Q r s' w')
    (λ e c w, E e (s <| cpu := c |>) w) (cpu s) w) →
  wp (cycle cfg intfreq intrand interrupt) Q E s w.
Proof.
  intros Hun Hrun Hstep. unfold cycle. rewrite wp_bind, wp_get.
  destruct (ru_undone _ _ _ _ _ Hrun) as (x & Hx & Hd). rewrite wp_bind.
  match goal with |- wp _ ?F _ _ _ => assert (∀ w, F tt s w) as Hmain end.
  { intros w1. cbv beta. rewrite wp_bind. eapply wp_getcurr; [apply Hrun|done|]. cbv zeta. rewrite wp_bind.
    unfold on_core. rewrite wp_zoom. eapply wp_mono; [apply Hstep| |done]. intros rc c w2 [Hpc HQ]. cbv beta.
    rewrite wp_bind. apply wp_print_trace; [done|]. intros w3. rewrite wp_bind. apply wp_print_line; [done|]. intros w4.
    rewrite wp_bind, wp_modify. eapply (wp_after_step _ (<[i := Some (live c)]> ts) (memory c) fr i); [done| |].
    - destruct Hrun as [[Hs Hc Ha] (y & ? & ? & ?) Hund Hts Hm Hfr]. split; simpl; [by split|by exists y|done| |done|done].
      rewrite <-Hts. unfold threads. simpl. by rewrite list_insert_insert_eq.
    - intros r s' w' Hcy. apply HQ. unfold stepped in *. simpl in Hcy. by rewrite list_insert_insert_eq in Hcy. }
  rewrite wp_when. case_match; [|apply Hmain]. wp_pures. apply wp_print_headers; [done|]. intros w1. wp_pures.
  apply wp_print_trace; [done|]. intros w2. apply Hmain.
Qed.

(** *** Runs *)

(** A property of threads and memory that every instruction of every thread
    keeps holds at the end of every run, and no exception is raised. *)
Lemma run_invariant (I : list (option ctx) → gmap Z val → Prop) fuel s ts m i intfreq intrand w E : untraced E →
  running s ts m (frame s) i → I ts m →
  (∀ ts m i t w, I ts m → ts !! i = Some (Some t) →
     ((∃ a, c_pc t = Num a ∧ is_Some (pmemory s !! a)) ∨ ∀ e s w, E e s w) ∧
     wp (fetch_exec (max_memory cfg)) (λ rc c _, I (stepped ts i rc c) (memory c)) (λ e _ _, ∀ s w, E e s w) (core_of t m) w) →
  wlp (run cfg fuel intfreq intrand) (λ _ s' _, ∃ ts' m', cycled ts' m' (frame s) (inr 0) s' ∧ I ts' m') E s w.
Proof.
  intros Hun Hrun HI Hstep. unfold run. set (fr := frame s) in *.
  assert (pmemory s = fr.1.1.2) as Hpm by done. rewrite Hpm in Hstep. clear Hpm.
  assert (∀ fuel interrupt intfreq intrand s w, running s ts m fr i →
    wlp (while_ fuel interrupt (cycle cfg intfreq intrand)) (λ _ s' _, ∃ ts' m', cycled ts' m' fr (inr 0) s' ∧ I ts' m') E s w) as Hloop.
  { clearbody fr. clear s w Hrun fuel intfreq intrand. intros fuel interrupt intfreq intrand s w Hrun.
    apply (wlp_while (λ _ s _, ∃ ts m i, running s ts m fr i ∧ I ts m)); [by eauto|].
    clear s w Hrun ts m i HI. intros b s w (ts & m & i & Hrun & HI).
    eapply wp_cycle; [done..|]. intros w1. destruct Hrun as [_ _ (x & Hx & _) Hts Hm Hfr].
    assert (ts !! i = Some (Some (live (cpu s)))) as Hi.
    { rewrite <-Hts. unfold threads. apply list_lookup_insert_eq. rewrite length_fmap. by eapply lookup_lt_Some. }
    destruct (Hstep ts m i (live (cpu s)) w1 HI Hi) as [Hpc Hwp].
    assert (core_of (live (cpu s)) m = cpu s) as Hcore by (rewrite <-Hm; by destruct (cpu s)). rewrite Hcore in Hwp.
    eapply wp_mono; [exact Hwp| |by auto]. intros rc c w2 HI'. split.
    { assert (pmemory s = fr.1.1.2) as -> by by rewrite <-Hfr. exact Hpc. }
    intros [k|k] s' w' Hcy; [destruct Hcy as [i' Hrun']; eauto|]. by exists (stepped ts i rc c), (memory c). }
  apply wlp_bind. rewrite wp_get. set (p := if manual s then (1, false) else (intfreq, intrand)). destruct p as [f r].
  assert (running (s <| icount := 0 |>) ts m fr i) as Hrun0.
  { destruct Hrun as [[Hs Hc Hac] (x & ? & ? & ?) Hund Hts Hm Hfr]. split; [by split|by exists x|done..]. }
  apply wlp_bind. unfold setint, rand_int. destruct r; wp_pures;
  repeat (apply wlp_bind; wp_pures; first [apply wp_print_headers; [done|intros ?w]|apply wp_print_trace; [done|intros ?w]|idtac]);
  by apply Hloop.
Qed.

Lemma preserves_fetch_exec mm : preserves (λ _, True) (fetch_exec mm).
Proof.
  intros s w _. unfold fetch_exec. wp_pures.
  assert (∀ a, preserves (λ _ : core, True) (get_memory mm a)) as Hget by (intros a; unfold get_memory; preserves_solve).
  assert (∀ f, preserves (λ _ : core, True) (modify f)) as Hmod by (intros f; by apply preserves_modify).
  eapply wp_mono; [by apply Hget| |done]. intros v s1 w1 _. cbv beta. unfold val_add at 1.
  destruct (PC s); wp_pures; [|done]. destruct v as [z|[|j [|]]]; simpl; wp_pures; try done.
  assert (∀ a b, preserves (λ _ : core, True) (val_add a b)) by (intros [] []; simpl; preserves_solve).
  assert (∀ a b, preserves (λ _ : core, True) (val_sub a b)) by (intros [] []; simpl; preserves_solve).
  assert (∀ a b, preserves (λ _ : core, True) (val_mul a b)) by (intros [] []; simpl; preserves_solve).
  assert (∀ a b, preserves (λ _ : core, True) (val_compare a b)) by (intros [] []; simpl; preserves_solve).
  assert (∀ r, preserves (λ _ : core, True) (reg_of r)) by (intros r; unfold reg_of; preserves_solve).
  assert (∀ r v, preserves (λ _ : core, True) (set_register r v)) by (intros r v; unfold set_register; apply Hmod).
  assert (∀ a v, preserves (λ _ : core, True) (set_memory a v)) by (intros a v; unfold set_memory; apply Hmod).
  assert (∀ v a b k, preserves (λ _ : core, True) (address v a b k)) by (intros; unfold address; preserves_solve; eauto).
  assert (preserves (λ _ : core, True) (exec mm j)) as Hj; [|by apply Hj].
  destruct j; simpl; unfold halt, iyield, nop, rdump, mdump, move_i_to_r, move_i_to_m, move_m_to_r, move_r_to_m, move_r_to_r,
    lea_m_to_r, add_i_to_r, add_r_to_r, mul_i_to_r, mul_r_to_r, sub_i_to_r, sub_r_to_r, neg_r, atomic_exchange, fetchadd,
    test_i_r, test_r_i, test_r_r, test_all, jump, jump_if, call, ret, push_r, push_m, pop, pop_r, arith, move_sp, print, py_int;
    repeat (preserves_step || eauto).
Qed.

(** C21: the threads are independent of the switches between them. Whatever
    the interrupts, the schedule and the tracing, an iteration of the main
    loop that returns is one instruction of one thread, the current one, run
    on that thread's own registers and the shared memory: it changes this
    thread and the memory as that instruction does, no other thread, and
    neither labels nor program text; a thread that halts disappears, the loop
    ends exactly when no thread is left, and else a thread that has not
    halted is current, in a well-formed schedule. *)
Theorem cycle_is_one_instruction s i x intfreq intrand interrupt w r s' w' : wf s → current s i →
  plist s !! i = Some x → done x = false → cycle cfg intfreq intrand interrupt s w = Ok r s' w' →
  ∃ rc c w1 w2, fetch_exec (max_memory cfg) (core_of (live (cpu s)) (memory (cpu s))) w1 = Ok rc c w2 ∧
    cycled (stepped (threads s i) i rc c) (memory c) (frame s) r s'.
Proof.
  intros Hwf Hcur Hx Hd Hrun.
  assert (wp (cycle cfg intfreq intrand interrupt) (λ r s' _, ∃ rc c w1 w2,
    fetch_exec (max_memory cfg) (cpu s) w1 = Ok rc c w2 ∧ cycled (stepped (threads s i) i rc c) (memory c) (frame s) r s')
    (λ _ _ _, True) s w) as Hwp.
  { eapply (wp_cycle _ (threads s i) (memory (cpu s)) (frame s) i); [by right|by split; eauto|]. intros w1.
    pose proof (preserves_fetch_exec (max_memory cfg) (cpu s) w1 I) as Hp. unfold wp in *.
    destruct (fetch_exec (max_memory cfg) (cpu s) w1) as [rc c w2| |] eqn:Hf; [|done|done].
    split; [by right|]. intros r' s1 w3 Hcy. by exists rc, c, w1, w2. }
  unfold wp in Hwp. rewrite Hrun in Hwp. assert (core_of (live (cpu s)) (memory (cpu s)) = cpu s) as -> by by destruct (cpu s).
  exact Hwp.
Qed.

(** *** The start of a run *)

Lemma int_of_char_nonneg c p : int_of_str (String c "") = Some p → 0 ≤ p.
Proof. destruct c as [[] [] [] [] [] [] [] []]; vm_compute; intros [= <-]; done. Qed.

(** A schedule that names [n] different threads below [n] names all of them. *)
Lemma schedule_complete (l : list Z) n : (∀ p, p ∈ l → 0 ≤ p < n) → len (remove_dups l) = n → ∀ p, p ∈ l ↔ 0 ≤ p < n.
Proof.
  intros Hl Hn p. split; [apply Hl|]. intros Hp. apply elem_of_remove_dups.
  assert (remove_dups l ⊆+ range 0 n) as Hsub.
  { apply NoDup_submseteq; [apply NoDup_remove_dups|]. intros q Hq. rewrite elem_of_remove_dups in Hq. apply elem_of_range. exact (Hl q Hq). }
  apply submseteq_length_Permutation in Hsub; [|rewrite length_range; unfold len in Hn; lia].
  rewrite Hsub. by apply elem_of_range.
Qed.

Lemma wp_finalize sched s w (Q : unit → sim → world → Prop) E : 0 < len (plist s) → active s = len (plist s) → procsched s = [] →
  (∀ x, x ∈ plist s → done x = false) → (sched ≠ "" → ∀ s w, E ValueError s w ∧ E (SystemExit 1) s w) →
  (∀ s' i w', running s' (saved <$> plist s) (memory (cpu s)) (frame s') i → plist s' = plist s → pmemory s' = pmemory s → Q tt s' w') →
  wp (finalize sched) Q E s w.
Proof.
  intros Hlen Hact Hps Hdone HE HQ.
  assert (∀ s1 w1, plist s1 = plist s → active s1 = active s → cpu s1 = cpu s → pmemory s1 = pmemory s →
    (∀ p, p ∈ procsched s1 ↔ 0 ≤ p < len (plist s)) → wp (curr <~ 0;; proc_restore) Q E s1 w1) as Hend.
  { intros s1 w1 Hpl Ha Hcpu Hpm Hin. wp_pures. unfold proc_restore.
    destruct (procsched s1) as [|p ps] eqn:Hsch.
    { exfalso. assert (0 ∈ @nil Z) as H0 by (apply Hin; lia). by apply elem_of_nil in H0. }
    assert (0 ≤ p < len (plist s)) as Hp by (apply Hin; by left).
    destruct (lookup_lt_is_Some_2 (plist s) (Z.to_nat p)) as [x Hx]; [unfold len in Hp; lia|].
    assert (current (s1 <| curr := 0 |>) (Z.to_nat p)) as Hcur.
    { exists x. simpl. rewrite Hsch, Hpl. split_and!; [by rewrite Z2Nat.id by lia|done|done]. }
    wp_pures. eapply (wp_getcurr _ _ (Z.to_nat p) x); [done|simpl; by rewrite Hpl|]. wp_pures.
    assert (done x = false) as Hd by (eapply Hdone, list_elem_of_lookup_2, Hx).
    eapply (HQ _ (Z.to_nat p)); [|done..]. split; simpl.
    - split; simpl; rewrite ?Hpl, ?Hsch; [done|unfold len; simpl; lia|]. rewrite Ha, Hact. unfold unfinished. simpl. rewrite Hpl.
      clear -Hdone. unfold len. induction (plist s) as [|y l IH]; [done|]. rewrite sum_of_cons, Hdone by by left.
      simpl. rewrite <-IH; [lia|]. intros z ?. apply Hdone. by right.
    - destruct Hcur as (y & ? & ? & ?). by exists y.
    - exists x. by rewrite Hpl.
    - unfold threads, live. simpl. rewrite Hpl. apply list_insert_id. rewrite list_lookup_fmap, Hx. simpl. unfold saved.
      by rewrite Hd.
    - by rewrite Hcpu.
    - done. }
  unfold finalize. case_bool_decide; wp_pures.
  - apply Hend; [done..|]. simpl. intros p. rewrite Hps. simpl. apply elem_of_range.
  - apply (wp_for (λ _ s1 _, plist s1 = plist s ∧ active s1 = active s ∧ cpu s1 = cpu s ∧ pmemory s1 = pmemory s ∧
      ∀ p, p ∈ procsched s1 → 0 ≤ p < len (plist s))).
    + split_and!; [done..|]. simpl. rewrite Hps. by intros p []%elem_of_nil.
    + intros pre c post s1 w1 _ (H1 & H2 & H3 & H4 & H5). unfold py_int. wp_pures.
      destruct (int_of_str (String c "")) as [p|] eqn:Hp; [|by apply HE]. wp_pures. unfold getnum. rewrite H1.
      destruct (Z.leb_spec (len (plist s)) p); wp_pures; [by apply HE|]. split_and!; [done..|]. simpl.
      intros q [?| ->%list_elem_of_singleton]%elem_of_app; [by apply H5|]. split; [by eapply int_of_char_nonneg|done].
    + intros s1 w1 (H1 & H2 & H3 & H4 & H5). wp_pures.
      destruct (Z.eqb_spec (len (remove_dups (procsched s1))) (active s1)) as [Heq|]; simpl; wp_pures; [|by apply HE].
      apply Hend; [done..|]. apply schedule_complete; [done|]. rewrite Heq, H2. done.
Qed.
End Threads.

(** Two threads of the program [mov $7, %ax; halt], the first one current: a
    cycle with an interrupt due runs its first instruction and switches to the
    second thread. *)
Definition idle_thread (t : Z) : process := Process t (Num 1000) init_registers init_condition_codes false 0.
Definition two_threads : sim :=
  Sim (Core (Num 1000) init_registers init_condition_codes {[1000 := Code [I_move_i_to_r 7 AX]; 1001 := Code [I_halt]]})
    ∅ ∅ {[1000 := "mov $7, %ax"; 1001 := "halt"]} 0 [idle_thread 0; idle_thread 1] 2 false [0; 1] 0.
Definition two_config : config := Config 128 [] [] false false false false 0.

Lemma cycle_is_one_instruction_witness : ∃ r s' w', curr s' = 1 ∧
  cycle two_config 3 false 1 two_threads (World [] (λ _, 0) 0) = Ok r s' w' ∧
  ∃ rc c w1 w2, fetch_exec (max_memory two_config) (core_of (live (cpu two_threads)) (memory (cpu two_threads))) w1 = Ok rc c w2 ∧
    cycled (stepped (threads two_threads 0) 0 rc c) (memory c) (frame two_threads) r s'.
Proof.
  assert (match cycle two_config 3 false 1 two_threads (World [] (λ _, 0) 0) with Ok _ s' _ => curr s' =? 1 | _ => false end = true)
    as H by (vm_compute; reflexivity).
  destruct (cycle two_config 3 false 1 two_threads (World [] (λ _, 0) 0)) as [r s' w'| |] eqn:Hrun; [|discriminate..].
  exists r, s', w'. split; [exact (proj1 (Z.eqb_eq _ _) H)|]. split; [exact eq_refl|].
  apply (cycle_is_one_instruction two_config two_threads 0 (idle_thread 0) 3 false 1 (World [] (λ _, 0) 0) r s' w');
    [|exists (idle_thread 0); split_and!; [reflexivity|vm_compute; discriminate|reflexivity]|reflexivity|reflexivity|exact Hrun].
  split; [|split; vm_compute; [discriminate|reflexivity]|reflexivity].
  intros p. change (p ∈ [0; 1] ↔ 0 ≤ p < 2). rewrite !elem_of_cons, elem_of_nil. lia.
Defined.
