(* ===== verification/X86Locks.v ===== *)
(** * A lock on the thread simulator: [threads-locks/test-and-set.s]

    The program's lock is correct on the simulator of [X86], however the
    threads are interleaved. *)
From S2P Require Import Prelude PyStr PyRandom X86.
Open Scope Z_scope.

Definition test_and_set : list string :=
  [".var mutex";
   ".var count";
   "";
   ".main";
   ".top" +:+ tab +:+ "";
   "";
   ".acquire";
   "mov  $1, %ax        ";
   "xchg %ax, mutex     # atomic swap of 1 and mutex";
   "test $0, %ax        # if we get 0 back: lock is free!";
   "jne  .acquire       # if not, try again";
   "";
   "# critical section";
   "mov  count, %ax     # get the value at the address";
   "add  $1, %ax        # increment it";
   "mov  %ax, count     # store it back";
   "";
   "# release lock";
   "mov  $0, mutex";
   "";
   "# see if we're still looping";
   "sub  $1, %bx";
   "test $0, %bx";
   "jgt .top" +:+ tab +:+ "";
   "";
   "halt"].

(** What the loader makes of it: [mutex] is at 100, [count] at 104, the code
    at 1000. *)
Definition code : list instr :=
  [I_move_i_to_r 1 AX; I_atomic_exchange AX 100 ZERO ZERO; I_test_i_r 0 AX; I_jump_if NEQ 1000;
   I_move_m_to_r 104 ZERO ZERO 1 AX; I_add_i_to_r 1 AX; I_move_r_to_m AX 104 ZERO ZERO 1; I_move_i_to_m 0 100 ZERO ZERO 1;
   I_sub_i_to_r 1 BX; I_test_i_r 0 BX; I_jump_if GT 1000; I_halt].

Section Lock.
Context (cfg : config) (Hmem : 1 ≤ memsize cfg).

(** The value of a memory cell *)
Definition cell (m : gmap Z val) (a : Z) : option val :=
  match m !! a with
  | Some v => Some v
  | None => if (0 <=? a) && (a <? max_memory cfg) then Some (Num 0) else None
  end.

Definition code_in (m : gmap Z val) : Prop := ∀ (k : nat) i, code !! k = Some i → m !! (1000 + Z.of_nat k) = Some (Code [i]).

(** Does the thread hold the lock? *)
Definition holder (t : option ctx) : Z :=
  match t with
  | Some (Ctx (Num p) f _) =>
      if (p =? 1002) || (p =? 1003) then match r_ax f with Num 0 => 1 | _ => 0 end
      else if (1004 <=? p) && (p <=? 1007) then 1 else 0
  | _ => 0
  end.

(** The increments a thread has made of the [B] it is to make *)
Definition incs (B : Z) (t : option ctx) : Z :=
  match t with
  | Some (Ctx (Num p) f _) =>
      match r_bx f with
      | Num b => if (p =? 1007) || (p =? 1008) then B - b + 1 else B - b
      | _ => B
      end
  | _ => B
  end.

(** What holds at each instruction, for a thread with [ax] and [bx] *)
Definition point (B count : Z) (k : nat) (a b : Z) (c : conds) : Prop :=
  match k with
  | 0%nat => 1 ≤ b ≤ B
  | 1%nat => a = 1 ∧ 1 ≤ b ≤ B
  | 2%nat => (a = 0 ∨ a = 1) ∧ 1 ≤ b ≤ B
  | 3%nat => (a = 0 ∨ a = 1) ∧ 1 ≤ b ≤ B ∧ cc_neq c = negb (a =? 0)
  | 4%nat => 1 ≤ b ≤ B
  | 5%nat => a = count ∧ 1 ≤ b ≤ B
  | 6%nat => a = count + 1 ∧ 1 ≤ b ≤ B
  | 7%nat | 8%nat => 1 ≤ b ≤ B
  | 9%nat => 0 ≤ b < B
  | 10%nat => 0 ≤ b < B ∧ cc_gt c = (0 <? b)
  | 11%nat => b = 0
  | _ => False
  end.

Definition local (B count : Z) (t : ctx) : Prop := ∃ (k : nat) a b,
  c_pc t = Num (1000 + Z.of_nat k) ∧ r_ax (c_regs t) = Num a ∧ r_bx (c_regs t) = Num b ∧ r_zero (c_regs t) = Num 0 ∧
  point B count k a b (c_cc t).

Definition holders (l : list (Z * option ctx)) : Z := sum_of (λ p, holder p.2) l.
Definition count_of (l : list (Z * option ctx)) : Z := sum_of (λ p, incs p.1 p.2) l.

(** At most one thread holds the lock, the mutex tells whether one does, and
    the counter is the number of increments made. *)
Record linv (l : list (Z * option ctx)) (m : gmap Z val) : Prop := {
  l_code : code_in m;
  l_mutex : cell m 100 = Some (Num (holders l));
  l_one : holders l ≤ 1;
  l_count : cell m 104 = Some (Num (count_of l));
  l_local : ∀ i B t, l !! i = Some (B, Some t) → local B (count_of l) t;
}.

Lemma holder_bound t : 0 ≤ holder t ≤ 1.
Proof. unfold holder. repeat case_match; lia. Qed.

Lemma holder_le l i p : l !! i = Some p → holder p.2 ≤ holders l.
Proof.
  intros Hi. assert (0 ≤ holders (<[i := (0, None)]> l)) as Hnn by (apply sum_of_nonneg; intros; apply holder_bound).
  unfold holders in *. rewrite (sum_of_list_update _ _ _ _ _ Hi) in Hnn. simpl in Hnn. lia.
Qed.

Lemma holders_two l i j p q : i ≠ j → l !! i = Some p → l !! j = Some q → holder p.2 = 1 → holder q.2 = 1 → 2 ≤ holders l.
Proof.
  intros Hne Hi Hj Hp Hq. pose proof (holder_le (<[i := (0, None)]> l) j q) as Hle.
  rewrite list_lookup_insert_ne in Hle by done. specialize (Hle Hj). unfold holders in *.
  rewrite (sum_of_list_update _ _ _ _ _ Hi) in Hle. simpl in Hle. lia.
Qed.

Lemma holders_cases l : holders l ≤ 1 → holders l = 0 ∨ holders l = 1.
Proof. intros H. assert (0 ≤ holders l) by (apply sum_of_nonneg; intros; apply holder_bound). lia. Qed.

(** A thread other than the holder does not depend on the counter. *)
Lemma local_count B count count' t : local B count t → holder (Some t) = 0 → local B count' t.
Proof.
  intros (k & a & b & Hpc & Ha & Hb & Hz & Hp) Hh. exists k, a, b. split_and!; [done..|].
  destruct t as [p f c]. simpl in *. subst p. unfold holder in Hh.
  do 12 (destruct k as [|k]; [exact Hp || (simpl in Hh; lia)|]). done.
Qed.

Lemma linv_update l m m' i B t t' : linv l m → l !! i = Some (B, Some t) → code_in m' →
  (∀ h, h = holders l - holder (Some t) + holder t' → cell m' 100 = Some (Num h) ∧ h ≤ 1) →
  (∀ n, n = count_of l - incs B (Some t) + incs B t' → cell m' 104 = Some (Num n) ∧
     (n = count_of l ∨ holder (Some t) = 1) ∧ ∀ u, t' = Some u → local B n u) →
  linv (<[i := (B, t')]> l) m'.
Proof.
  intros [Hcode Hmut Hone Hcnt Hloc] Hi Hcode' Hh Hn.
  assert (holders (<[i := (B, t')]> l) = holders l - holder (Some t) + holder t') as Hhs
    by (unfold holders; by rewrite (sum_of_list_update _ _ _ _ _ Hi)).
  assert (count_of (<[i := (B, t')]> l) = count_of l - incs B (Some t) + incs B t') as Hcs
    by (unfold count_of; by rewrite (sum_of_list_update _ _ _ _ _ Hi)).
  destruct (Hh _ Hhs) as [Hmut' Hone']. destruct (Hn _ Hcs) as (Hcnt' & Hwho & Hloc'). split; [done..|].
  intros j B' u [(-> & [= <- ->] & _)|[Hne Hj]]%list_lookup_insert_Some; [by apply Hloc'|].
  specialize (Hloc _ _ _ Hj). destruct Hwho as [->|Hhold]; [done|]. apply (local_count _ (count_of l)); [done|].
  pose proof (holder_bound (Some u)). destruct (decide (holder (Some u) = 1)) as [H1|]; [|lia].
  pose proof (holders_two l i j _ _ Hne Hi Hj Hhold H1). lia.
Qed.

(** *** Every instruction keeps the invariant *)

Abbreviation mm := (max_memory cfg).

Lemma wp_fetch s w a i (Q : Z → core → world → Prop) E : PC s = Num a → memory s !! a = Some (Code [i]) →
  wp (exec mm i) Q E (s <| PC := Num (a + 1) |>) w → wp (fetch_exec mm) Q E s w.
Proof.
  intros Ha Hi HQ. unfold fetch_exec. wp_pures. rewrite Ha. unfold get_memory. wp_pures. rewrite Hi. wp_pures.
  simpl. by wp_pures.
Qed.

Lemma wp_load s w a v (Q : val → core → world → Prop) E : cell (memory s) a = Some v → Q v s w → wp (get_memory mm (Num a)) Q E s w.
Proof. unfold cell, get_memory. intros Ha HQ. wp_pures. repeat case_match; simplify_eq; by wp_pures. Qed.

Lemma cell_insert m a b v : cell (<[a := v]> m) b = if decide (a = b) then Some v else cell m b.
Proof. unfold cell. case_decide; [subst; by rewrite lookup_insert_eq|by rewrite lookup_insert_ne]. Qed.

Lemma code_insert m a v : code_in m → a < 1000 → code_in (<[a := v]> m).
Proof. intros Hm Ha k i Hk. rewrite lookup_insert_ne by lia. by apply Hm. Qed.

Ltac lock_pures := unfold address, arith, reg_of, set_register, set_memory; wp_pures; simpl; wp_pures.
(** The mutex and the counter after an instruction that does not write them *)
Ltac unwritten := simpl; intros ? ->; rewrite ?cell_insert; simpl;
  repeat split; try (done || lia); try (left; lia); try (f_equal; f_equal; lia);
  try (etransitivity; [eassumption|]; do 2 f_equal; lia).
Ltac lock_next n := refine (ex_intro _ n _); do 2 eexists; split_and!; [done|done|done|done|simpl].

Lemma lock_step l m i B t w : linv l m → l !! i = Some (B, Some t) →
  wp (fetch_exec mm) (λ rc c _, linv (<[i := (B, if rc =? -1 then None else Some (live c))]> l) (memory c)) noexn (core_of t m) w.
Proof.
  intros Hinv Hi. pose proof Hinv as [Hcode Hmut Hone Hcnt Hloc].
  destruct (Hloc _ _ _ Hi) as (k & a & b & Hpc & Ha & Hb & Hz & Hp). destruct t as [p [z ra rb c1 d1 e1 f1 s1 p1] cs].
  simpl in *. subst.
  assert (∀ j, code !! k = Some j → wp (exec mm j) (λ rc c _, linv (<[i := (B, if rc =? -1 then None else Some (live c))]> l) (memory c)) noexn
    (Core (Num (1000 + Z.of_nat k + 1)) (Regs (Num 0) (Num a) (Num b) c1 d1 e1 f1 s1 p1) cs m) w →
    wp (fetch_exec mm) (λ rc c _, linv (<[i := (B, if rc =? -1 then None else Some (live c))]> l) (memory c)) noexn
    (core_of (Ctx (Num (1000 + Z.of_nat k)) (Regs (Num 0) (Num a) (Num b) c1 d1 e1 f1 s1 p1) cs) m) w) as Hf.
  { intros j Hj Hw. eapply wp_fetch; [done|by apply Hcode|exact Hw]. }
  destruct k as [|[|[|[|[|[|[|[|[|[|[|[|k]]]]]]]]]]]]; try (by destruct Hp); (eapply Hf; [reflexivity|]); clear Hf; simpl in *.
  - (* mov $1, %ax *)
    unfold move_i_to_r. lock_pures. eapply linv_update; [done..|unwritten|unwritten].
    intros u [= <-]. lock_next 1%nat. lia.
  - (* xchg %ax, mutex *)
    destruct Hp as [-> Hp]. unfold atomic_exchange. lock_pures. eapply wp_load; [done|]. lock_pures.
    eapply linv_update; [done..|by apply code_insert| |].
    + simpl. intros h ->. rewrite cell_insert. simpl. destruct (holders_cases l Hone) as [-> | ->]; done.
    + unwritten. intros u [= <-]. lock_next 2%nat. pose proof (holders_cases l Hone). lia.
  - (* test $0, %ax *)
    unfold test_i_r, test_all. lock_pures. eapply linv_update; [done..|unwritten|unwritten].
    intros u [= <-]. lock_next 3%nat. destruct Hp as [[-> | ->] ?]; auto.
  - (* jne .acquire *)
    destruct Hp as (Ha & Hb & Hneq). unfold jump_if. lock_pures. rewrite Hneq. destruct Ha as [-> | ->]; simpl; wp_pures.
    + eapply linv_update; [done..|unwritten|unwritten]. intros u [= <-]. lock_next 4%nat. lia.
    + eapply linv_update; [done..|unwritten|unwritten]. intros u [= <-]. lock_next 0%nat. lia.
  - (* mov count, %ax *)
    unfold move_m_to_r. lock_pures. eapply wp_load; [done|]. lock_pures. eapply linv_update; [done..|unwritten|unwritten].
    intros u [= <-]. lock_next 5%nat. lia.
  - (* add $1, %ax *)
    unfold add_i_to_r. lock_pures. eapply linv_update; [done..|unwritten|unwritten].
    intros u [= <-]. lock_next 6%nat. lia.
  - (* mov %ax, count *)
    destruct Hp as [-> Hp]. unfold move_r_to_m. lock_pures. eapply linv_update; [done..|by apply code_insert|unwritten|].
    simpl. intros n ->. rewrite cell_insert. simpl. split_and!; [do 2 f_equal; lia|by right|].
    intros u [= <-]. lock_next 7%nat. lia.
  - (* mov $0, mutex *)
    unfold move_i_to_m. lock_pures. eapply linv_update; [done..|by apply code_insert| |].
    + simpl. intros h ->. rewrite cell_insert. simpl. pose proof (holder_le _ _ _ Hi) as Hle. simpl in Hle.
      split; [do 2 f_equal; lia|lia].
    + unwritten. intros u [= <-]. lock_next 8%nat. lia.
  - (* sub $1, %bx *)
    unfold sub_i_to_r. lock_pures. eapply linv_update; [done..|unwritten|unwritten].
    intros u [= <-]. lock_next 9%nat. lia.
  - (* test $0, %bx *)
    unfold test_i_r, test_all. lock_pures. eapply linv_update; [done..|unwritten|unwritten].
    intros u [= <-]. lock_next 10%nat. split; [lia|]. by destruct (Z.compare_spec b 0), (Z.ltb_spec 0 b); try lia.
  - (* jgt .top *)
    destruct Hp as [Hb Hgt]. unfold jump_if. lock_pures. rewrite Hgt. destruct (Z.ltb_spec 0 b); simpl; wp_pures.
    + eapply linv_update; [done..|unwritten|unwritten]. intros u [= <-]. lock_next 0%nat. lia.
    + eapply linv_update; [done..|unwritten|unwritten]. intros u [= <-]. lock_next 11%nat. lia.
  - (* halt *)
    unfold halt. lock_pures. eapply linv_update; [done..|unwritten|unwritten].
Qed.

(** *** Whole runs *)

(** The state [main] loads the program into; [verbose] only prints. *)
Definition loaded : sim :=
  match load (Config 1 [] [] false false false false 0) test_and_set 1000 sim_blank (World [] (λ _, 0) 0) with
  | Ok _ s _ => s | _ => sim_blank
  end.

Lemma wp_loaded w (Q : unit → sim → world → Prop) E : (∀ w', Q tt loaded w') → wp (load cfg test_and_set 1000) Q E sim_blank w.
Proof.
  intros HQ. assert (∃ w', load cfg test_and_set 1000 sim_blank w = Ok tt loaded w') as [w' Hrun].
  { clear. destruct cfg as [m mt rt cc co [] ps hc]; eexists; vm_compute; reflexivity. }
  unfold wp. by rewrite Hrun.
Qed.

(** The arguments that set [bx] in every thread *)
Definition bx_arg (B : Z) : string := "bx=" +:+ str_of_Z B.
Definition start_process (t B : Z) : process :=
  Process t (Num 1000) (set_reg (set_reg init_registers BX (Num B)) SP (Num (memsize cfg * 1000 - 1000 * t)))
    init_condition_codes false (memsize cfg * 1000 - 1000 * t).

Lemma bx_arg_has c B : is_digit c = false → c ≠ "-"%char → c ≠ "b"%char → c ≠ "x"%char → c ≠ "="%char → str_has c (bx_arg B) = false.
Proof.
  intros Hd Hm Hb Hx He. unfold bx_arg. rewrite str_has_app, str_of_Z_has by done. simpl.
  apply Ascii.eqb_neq in Hb as ->, Hx as ->, He as ->. done.
Qed.

Lemma wp_process_init t B s w (Q : process → sim → world → Prop) E : Q (start_process t B) s w →
  wp (process_init t (Num 1000) (memsize cfg * 1000 - 1000 * t) (bx_arg B)) Q E s w.
Proof.
  intros HQ. unfold process_init. rewrite bool_decide_false by done.
  rewrite (split_on_none ":"%char) by by apply bx_arg_has. cbn [for_acc].
  assert (split_on "="%char (bx_arg B) = ["bx"; str_of_Z B]) as ->.
  { change (bx_arg B) with ("bx" +:+ String "=" (str_of_Z B)). rewrite split_on_app by done.
    by rewrite split_on_none by by apply str_of_Z_has. }
  unfold py_int. rewrite int_of_str_of_Z. wp_pures. simpl. wp_pures. exact HQ.
Qed.

Definition start_processes (Bs : list Z) (k : nat) : list process :=
  zip_with start_process (range 0 (Z.of_nat k)) (take k Bs).

Lemma start_processes_S Bs k B : Bs !! k = Some B →
  start_processes Bs (S k) = start_processes Bs k ++ [start_process (Z.of_nat k) B].
Proof.
  intros HB. pose proof (lookup_lt_Some _ _ _ HB). unfold start_processes. rewrite (take_S_r _ _ _ HB).
  replace (Z.of_nat (S k)) with (Z.of_nat k + 1) by lia. rewrite range_snoc by lia.
  rewrite zip_with_app; [done|]. rewrite length_range, length_take. lia.
Qed.

Lemma length_start_processes Bs k : (k ≤ length Bs)%nat → length (start_processes Bs k) = k.
Proof. intros Hk. unfold start_processes. rewrite length_zip_with, length_range, length_take. lia. Qed.

Lemma wp_create s0 Bs argv w (Q : unit → sim → world → Prop) E : active s0 = 0 → plist s0 = [] → argv = bx_arg <$> Bs →
  (∀ w', Q tt (s0 <| active := len Bs |> <| plist := start_processes Bs (length Bs) |>) w') →
  wp (for_ (range 0 (len Bs)) (λ t,
    a ← list_get argv (if 1 <? len Bs then t else 0);
    p ← process_init t (Num 1000) (memsize cfg * 1000 - 1000 * t) a;
    addproc p)) Q E s0 w.
Proof.
  intros Hac Hpl -> HQ. apply (wp_for (λ pre s' _, s' = s0 <| active := len pre |> <| plist := start_processes Bs (length pre) |>)).
  - destruct s0; simpl in *; by subst.
  - intros pre t post s' w' (-> & _ & Ht)%range_split ->. unfold len in Ht.
    assert (t = Z.of_nat (Z.to_nat t)) as Ht'; [lia|]. set (k := Z.to_nat t) in *. clearbody k. subst t.
    destruct (lookup_lt_is_Some_2 Bs k) as [B HB]; [lia|].
    assert (length (range 0 (Z.of_nat k)) = k) as Hk by (rewrite length_range; lia).
    wp_pures. replace (if 1 <? len Bs then Z.of_nat k else 0) with (Z.of_nat k).
    2: { unfold len. destruct (Z.ltb_spec 1 (Z.of_nat (length Bs))); lia. }
    rewrite py_get_nat, list_lookup_fmap, HB. simpl. wp_pures. apply wp_process_init. unfold addproc. wp_pures.
    unfold update, len. simpl. rewrite length_app, Hk. simpl. rewrite Nat.add_1_r, (start_processes_S _ _ _ HB).
    do 2 f_equal. lia.
  - intros s' w' ->. assert (length (range 0 (len Bs)) = length Bs) as Hk by (rewrite length_range; unfold len; lia).
    assert (len (range 0 (len Bs)) = len Bs) as Hk2 by (unfold len in *; lia). rewrite Hk2, Hk. apply HQ.
Qed.

(** The invariant at the start *)
Lemma linv_start Bs m : m = memory (cpu loaded) → Forall (λ B, 1 ≤ B) Bs →
  ∃ l, l.*2 = saved <$> start_processes Bs (length Bs) ∧ l.*1 = Bs ∧ linv l m.
Proof.
  intros -> HBs. exists (zip Bs (saved <$> start_processes Bs (length Bs))).
  assert (length (start_processes Bs (length Bs)) = length Bs) as Hlen by by apply length_start_processes.
  split; [apply snd_zip; rewrite length_fmap; lia|]. split; [apply fst_zip; rewrite length_fmap; lia|].
  assert (∀ i p, zip Bs (saved <$> start_processes Bs (length Bs)) !! i = Some p →
    ∃ x, Bs !! i = Some p.1 ∧ p.2 = Some (Ctx (Num 1000) x init_condition_codes) ∧
      x = regs (start_process (Z.of_nat i) p.1)) as Hl.
  { intros i [B t] Hi. apply lookup_zip_with_Some in Hi as (B' & t' & [= <- <-] & HB & Ht).
    rewrite list_lookup_fmap in Ht. apply fmap_Some in Ht as (x & Hx & ->).
    unfold start_processes in Hx. apply lookup_zip_with_Some in Hx as (k & B' & -> & Hk & HB').
    rewrite firstn_all in HB'. rewrite HB in HB'. injection HB' as <-.
    rewrite lookup_range in Hk by (apply lookup_lt_Some in HB; lia). injection Hk as <-. eexists. done. }
  assert (holders (zip Bs (saved <$> start_processes Bs (length Bs))) = 0) as Hh.
  { unfold holders. rewrite (sum_of_ext _ (λ _, 0)); [apply sum_of_zero|]. intros p [i Hi]%list_elem_of_lookup.
    destruct (Hl i p Hi) as (x & _ & -> & _). done. }
  assert (count_of (zip Bs (saved <$> start_processes Bs (length Bs))) = 0) as Hc.
  { unfold count_of. rewrite (sum_of_ext _ (λ _, 0)); [apply sum_of_zero|]. intros p [i Hi]%list_elem_of_lookup.
    destruct (Hl i p Hi) as (x & _ & -> & ->). simpl. lia. }
  assert (memory (cpu loaded) !! 100 = None ∧ memory (cpu loaded) !! 104 = None) as [Hm1 Hm2] by done.
  assert (104 < max_memory cfg) as Hmm by (unfold max_memory; lia).
  split.
  - intros k i Hk. do 12 (destruct k as [|k]; [injection Hk as <-; vm_compute; reflexivity|]). done.
  - rewrite Hh. unfold cell. rewrite Hm1. by destruct (Z.ltb_spec 100 (max_memory cfg)); [|lia].
  - lia.
  - rewrite Hc. unfold cell. rewrite Hm2. by destruct (Z.ltb_spec 104 (max_memory cfg)); [|lia].
  - intros i B t Hi. destruct (Hl _ _ Hi) as (x & HB & [= ->] & ->). exists 0%nat, 0, B. split_and!; [done..|].
    simpl in *. assert (1 ≤ B) by exact (Forall_lookup_1 _ _ _ _ HBs HB). lia.
Qed.

(** *** The theorem *)

Lemma pmemory_code k : (k < 12)%nat → is_Some (pmemory loaded !! (1000 + Z.of_nat k)).
Proof. intros Hk. do 12 (destruct k as [|k]; [vm_compute; by eexists|]). lia. Qed.

Lemma local_pc B n t : local B n t → ∃ k, (k < 12)%nat ∧ c_pc t = Num (1000 + Z.of_nat k).
Proof.
  intros (k & a & b & Hpc & _ & _ & _ & Hp). exists k. split; [|done].
  do 12 (destruct k as [|k]; [lia|]). done.
Qed.

Lemma lock_run fuel Bs s ts m i intfreq intrand w : memtrace cfg = [] → regtrace cfg = [] → pmemory s = pmemory loaded →
  running s ts m (frame s) i → (∃ l, l.*2 = ts ∧ l.*1 = Bs ∧ linv l m) →
  wlp (run cfg fuel intfreq intrand) (λ _ s' _,
    cell (memory (cpu s')) 104 = Some (Num (sum_of id Bs)) ∧ cell (memory (cpu s')) 100 = Some (Num 0)) noexn s w.
Proof.
  intros Hmt Hrt Hpm Hrun HI.
  pose proof (run_invariant cfg (λ ts m, ∃ l, l.*2 = ts ∧ l.*1 = Bs ∧ linv l m) fuel s ts m i intfreq intrand w noexn) as Hwlp.
  unfold wlp in *. lapply Hwlp; [clear Hwlp; intros Hwlp|by left]. specialize (Hwlp Hrun HI).
  lapply Hwlp; [clear Hwlp; intros Hwlp|].
  - destruct (run cfg fuel intfreq intrand s w) as [r s' w'| |]; [|done|done].
    destruct Hwlp as (ts' & m' & (Hts & Hun & Hm & _) & l & Hl2 & Hl1 & Hinv). rewrite Hm.
    assert (∀ p, p ∈ l → p.2 = None) as Hnone.
    { intros p [k Hp]%list_elem_of_lookup. assert (ts' !! k = Some p.2) as Hk by (rewrite <-Hl2, list_lookup_fmap, Hp; done).
      rewrite <-Hts, list_lookup_fmap in Hk. apply fmap_Some in Hk as (x & Hx & ->). unfold saved.
      destruct (done x) eqn:Hd; [done|]. exfalso. pose proof (unfinished_nonneg (s' <| plist := <[k := x <| done := true |>]> (plist s') |>)) as Hnn.
      unfold unfinished in *. simpl in Hnn. rewrite (sum_of_list_update _ _ _ _ _ Hx), Hd in Hnn. simpl in Hnn. lia. }
    destruct Hinv as [_ Hmut _ Hcnt _]. rewrite Hcnt, Hmut. split; do 2 f_equal.
    + unfold count_of. rewrite (sum_of_ext _ (λ p, p.1)) by (intros p Hp; by rewrite (Hnone p Hp)). rewrite <-Hl1.
      clear. induction l as [|p l IH]; [done|]. by rewrite fmap_cons, !sum_of_cons, IH.
    + unfold holders. rewrite (sum_of_ext _ (λ _, 0)) by (intros p Hp; by rewrite (Hnone p Hp)). apply sum_of_zero.
  - clear Hwlp. intros ts0 m0 j t w0 (l & Hl2 & Hl1 & Hinv) Ht. rewrite <-Hl2, list_lookup_fmap in Ht.
    apply fmap_Some in Ht as ([B t'] & Hj & Ht). simpl in Ht. subst t'. split.
    + left. destruct (local_pc _ _ _ (l_local _ _ Hinv _ _ _ Hj)) as (k & Hk & Hpc). exists (1000 + Z.of_nat k).
      split; [done|]. rewrite Hpm. by apply pmemory_code.
    + eapply wp_mono; [by apply (lock_step l m0 j B t w0)| |done]. intros rc c w1 Hinv'.
      exists (<[j := (B, if rc =? -1 then None else Some (live c))]> l). unfold stepped.
      split; [by rewrite list_fmap_insert, Hl2|]. split; [|done]. rewrite list_fmap_insert. simpl.
      rewrite list_insert_id; [done|]. by rewrite list_lookup_fmap, Hj.
Qed.

(** C22: the lock of [test-and-set.s] works on the simulator. Run on any number
    of threads, each told in [bx] how many increments to make, with interrupts
    of any frequency, regular or random, and under any schedule, the program
    never raises an exception (but for a schedule that is rejected at the
    start), and whenever it ends, however long it ran, the shared counter is
    the sum of all the increments and the lock is free: no update is lost. *)
Theorem test_and_set_correct fuel Bs intfreq intrand sched w : memtrace cfg = [] → regtrace cfg = [] → 0 < intfreq →
  Bs ≠ [] → Forall (λ B, 1 ≤ B) Bs →
  wlp (main cfg fuel test_and_set (len Bs) intfreq intrand (join "," (bx_arg <$> Bs)) sched 1000)
    (λ _ s _, cell (memory (cpu s)) 104 = Some (Num (sum_of id Bs)) ∧ cell (memory (cpu s)) 100 = Some (Num 0))
    (λ e _ _, sched ≠ "" ∧ (e = ValueError ∨ e = SystemExit 1)) sim_blank w.
Proof.
  intros Hmt Hrt Hf HBs Hpos. unfold main. apply wlp_bind. unfold zassert. destruct (Z.ltb_spec 0 intfreq); [|lia]. wp_pures.
  rewrite split_on_join_list; [|by destruct Bs|apply Forall_fmap, Forall_true; intros B; by apply bx_arg_has].
  assert (len (bx_arg <$> Bs) = len Bs) as -> by (unfold len; by rewrite length_fmap). rewrite Z.eqb_refl.
  apply wlp_bind. wp_pures. apply wlp_bind. apply wp_loaded. intros w1.
  apply wlp_bind. apply wp_create; [by vm_compute..|done|]. intros w2. apply wlp_bind.
  assert (length (start_processes Bs (length Bs)) = length Bs) as Hl by by apply length_start_processes.
  apply wp_finalize.
  - simpl. unfold len. rewrite Hl. destruct Bs; [done|simpl; lia].
  - simpl. unfold len. by rewrite Hl.
  - done.
  - simpl. intros x [k Hx]%list_elem_of_lookup. unfold start_processes in Hx.
    by apply lookup_zip_with_Some in Hx as (t & B & -> & _ & _).
  - intros Hs s' w'. auto.
  - intros s' i w' Hrun Hpl Hpm. simpl in Hpl, Hpm.
    pose proof (lock_run fuel Bs s' _ _ i intfreq intrand w' Hmt Hrt Hpm Hrun) as Hwlp.
    lapply Hwlp; [|destruct (linv_start Bs _ eq_refl Hpos) as (l & ? & ? & ?); by exists l]. clear Hwlp. intros Hwlp.
    unfold wlp in *. by destruct (run cfg fuel intfreq intrand s' w').
Qed.
End Lock.

(** Two threads that make two and one increments, interrupted every three
    instructions: the run ends, and its counter is 3. *)
Definition demo : config := Config 128 [] [] false false false false 0.

Lemma test_and_set_correct_witness :
  (∃ x s w', main demo 100 test_and_set 2 3 false "bx=2,bx=1" "" 1000 sim_blank (World [] (λ _, 0) 0) = Ok x s w') ∧
  wlp (main demo 100 test_and_set 2 3 false "bx=2,bx=1" "" 1000)
    (λ _ s _, cell demo (memory (cpu s)) 104 = Some (Num 3) ∧ cell demo (memory (cpu s)) 100 = Some (Num 0))
    (λ e _ _, "" ≠ "" ∧ (e = ValueError ∨ e = SystemExit 1)) sim_blank (World [] (λ _, 0) 0).
Proof.
  split.
  - assert (match main demo 100 test_and_set 2 3 false "bx=2,bx=1" "" 1000 sim_blank (World [] (λ _, 0) 0) with Ok _ _ _ => true | _ => false end = true)
      as H by (vm_compute; reflexivity).
    destruct (main demo 100 test_and_set 2 3 false "bx=2,bx=1" "" 1000 sim_blank (World [] (λ _, 0) 0)) as [x s w'| |]; [|discriminate..].
    exact (ex_intro _ x (ex_intro _ s (ex_intro _ w' eq_refl))).
  - apply (test_and_set_correct demo ltac:(vm_compute; discriminate) 100 [2; 1] 3 false "" (World [] (λ _, 0) 0)); [reflexivity|reflexivity|lia|discriminate|].
    repeat constructor; lia.
Defined.
